(** * SinkOrSail: grid geometry, ship placement and the targeting engine

    A shallow embedding of [sinkorsail.py].  Python integers are [Z], Python
    lists and deques are [list] (the left end of a deque is the head of the
    list), strings are [string].  Code that can raise returns an [outcome];
    code that draws random numbers reads them from an explicit oracle, a list
    of integers, and returns what is left of it. *)

From Stdlib Require Import Ascii DecimalString.
From Stdlib Require Import ZArith List String Bool Lia Permutation Arith.
Import ListNotations.
Open Scope Z_scope.

(** ** Exceptions and outcomes *)

(** The module's own exception classes, and the built-in ones the modelled
    code can raise. *)
Inductive exn : Type :=
| OOBError
| InputError
| OverlapError
| ValueError
| IndexError
| UnboundLocalError.

(** [Starved] is not a Python exception: it is the outcome of a computation
    that asked the random oracle for a number after the oracle ran dry, that
    is, of a run that has not finished yet. *)
Inductive outcome (A : Type) : Type :=
| Ok (a : A)
| Raise (e : exn)
| Starved.

Arguments Ok {A} a.
Arguments Raise {A} e.
Arguments Starved {A}.

Definition bind {A B : Type} (m : outcome A) (f : A -> outcome B) : outcome B :=
  match m with
  | Ok a => f a
  | Raise e => Raise e
  | Starved => Starved
  end.

Notation "v <- m ;; k" := (bind m (fun v => k))
  (at level 61, m at next level, right associativity).
Notation "' pat <- m ;; k" := (bind m (fun v => match v with pat => k end))
  (at level 61, pat pattern, m at next level, right associativity).

(** A list comprehension whose element expression can raise: elements are
    evaluated from left to right and the first exception ends it. *)
Fixpoint mapM {A B : Type} (f : A -> outcome B) (l : list A) : outcome (list B) :=
  match l with
  | [] => Ok []
  | a :: l' => b <- f a ;; bs <- mapM f l' ;; Ok (b :: bs)
  end.

(** [range(n)] and [range(lo, hi)] on small literals. *)
Definition range (n : nat) : list Z := map Z.of_nat (seq 0 n).
Definition range_from (lo hi : nat) : list Z := map Z.of_nat (seq lo (hi - lo)).

(** ** Data model *)

(** A Point keeps a reference to the Board it was created on; [board] is
    that Board's identity. *)
Record Point : Type := mkPoint { x : Z; y : Z; board : nat }.

Record Ship : Type := mkShip {
  ext : list Point;
  valid : list Point;
  buffer : list Point;
  ship_board : nat;
  symbol : string;
  kind : string
}.

Record Board : Type := mkBoard {
  ident : nat;
  name : string;
  width : Z;
  height : Z;
  grid : list (list string);
  content : list Ship
}.

(** [Board.__init__]: a 10x10 grid of water, no ships.  [id] is the identity
    of the new object. *)
Definition Board_init (id : nat) (nm : string) : Board :=
  {| ident := id; name := nm; width := 10; height := 10;
     grid := repeat (repeat "~"%string 10) 10; content := [] |}.

Definition set_content (b : Board) (c : list Ship) : Board :=
  {| ident := ident b; name := name b; width := width b; height := height b;
     grid := grid b; content := c |}.

Definition set_grid (b : Board) (g : list (list string)) : Board :=
  {| ident := ident b; name := name b; width := width b; height := height b;
     grid := g; content := content b |}.

Definition set_valid (s : Ship) (v : list Point) : Ship :=
  {| ext := ext s; valid := v; buffer := buffer s; ship_board := ship_board s;
     symbol := symbol s; kind := kind s |}.

(** ** Point *)

(** [Point.__init__]. *)
Definition Point_init (b : Board) (px py : Z) : outcome Point :=
  if ((px <? width b) && (py <? height b)) && ((px >=? 0) && (py >=? 0))
  then Ok {| x := px; y := py; board := ident b |}
  else Raise OOBError.

(** [Point.__lt__]. *)
Definition Point_lt (self other : Point) : bool :=
  if x self =? x other then
    if y self <? y other then true else false
  else if x self <? x other then true
  else false.

(** [Point.__eq__]. *)
Definition Point_eq (self other : Point) : bool :=
  if (x self =? x other) && (y self =? y other) then true else false.

(** [Point.__ne__]. *)
Definition Point_ne (self other : Point) : bool :=
  if negb (Point_eq self other) then true else false.

(** [Point.__gt__]. *)
Definition Point_gt (self other : Point) : bool :=
  if x self =? x other then
    if y self >? y other then true else false
  else if x self >? x other then true
  else false.

(** [Point.__le__] and [Point.__ge__]. *)
Definition Point_le (self other : Point) : bool :=
  if negb (Point_gt self other) then true else false.

Definition Point_ge (self other : Point) : bool :=
  if negb (Point_lt self other) then true else false.

(** [p in l] for a list of Points: some element is [==] to [p]. *)
Definition point_in (p : Point) (l : list Point) : bool :=
  existsb (fun e => Point_eq e p) l.

(** [l.remove(p)]: drops the first element [==] to [p], raises ValueError
    when there is none. *)
Fixpoint remove_first (p : Point) (l : list Point) : list Point :=
  match l with
  | [] => []
  | e :: l' => if Point_eq e p then l' else e :: remove_first p l'
  end.

Definition list_remove (p : Point) (l : list Point) : outcome (list Point) :=
  if point_in p l then Ok (remove_first p l) else Raise ValueError.

(** [Point.adj_pts]; [b] is the Board [self.board] refers to. *)
Definition adj_pts (b : Board) (self : Point) : outcome (list Point) :=
  let adj := [] in
  adj <- (if y self + 1 <? height b
          then p <- Point_init b (x self) (y self + 1) ;; Ok (adj ++ [p])
          else Ok adj) ;;
  adj <- (if y self >? 0
          then p <- Point_init b (x self) (y self - 1) ;; Ok (adj ++ [p])
          else Ok adj) ;;
  adj <- (if x self + 1 <? width b
          then p <- Point_init b (x self + 1) (y self) ;; Ok (adj ++ [p])
          else Ok adj) ;;
  adj <- (if x self >? 0
          then p <- Point_init b (x self - 1) (y self) ;; Ok (adj ++ [p])
          else Ok adj) ;;
  Ok adj.

(** ** Python sequences *)

(** Python normalises an index [i] of a sequence of length [n]: [0 <= i < n]
    is itself, [-n <= i < 0] counts from the right end, anything else is an
    IndexError. *)
Definition py_index (n i : Z) : outcome nat :=
  if (0 <=? i) && (i <? n) then Ok (Z.to_nat i)
  else if (- n <=? i) && (i <? 0) then Ok (Z.to_nat (i + n))
  else Raise IndexError.

(** [l[i]]. *)
Definition py_nth {A : Type} (l : list A) (i : Z) : outcome A :=
  k <- py_index (Z.of_nat (List.length l)) i ;;
  match nth_error l k with
  | Some a => Ok a
  | None => Raise IndexError
  end.

Fixpoint set_nth {A : Type} (l : list A) (k : nat) (v : A) : list A :=
  match l, k with
  | [], _ => []
  | _ :: l', O => v :: l'
  | a :: l', S k' => a :: set_nth l' k' v
  end.

(** [l[i] = v]. *)
Definition py_set {A : Type} (l : list A) (i : Z) (v : A) : outcome (list A) :=
  k <- py_index (Z.of_nat (List.length l)) i ;;
  Ok (set_nth l k v).

(** [list.sort()] on Points: a stable sort that compares with [<] only.  An
    insertion sort places each element after the elements that are not
    greater than it. *)
Fixpoint insert_sorted (p : Point) (l : list Point) : list Point :=
  match l with
  | [] => [p]
  | e :: l' => if Point_lt p e then p :: l else e :: insert_sorted p l'
  end.

Definition list_sort (l : list Point) : list Point :=
  fold_left (fun acc p => insert_sorted p acc) l [].

(** ** Deques *)

(** [deque.popleft()] and [deque.pop()]: IndexError on an empty deque. *)
Definition popleft (d : list Point) : outcome (Point * list Point) :=
  match d with
  | [] => Raise IndexError
  | p :: d' => Ok (p, d')
  end.

Definition pop (d : list Point) : outcome (Point * list Point) :=
  match rev d with
  | [] => Raise IndexError
  | p :: d' => Ok (p, rev d')
  end.

(** [deque.rotate(n)]: [n] steps to the right, to the left when [n] is
    negative; nothing on an empty deque. *)
Definition rotate (n : Z) (d : list Point) : list Point :=
  match d with
  | [] => []
  | _ :: _ =>
      let len := List.length d in
      let k := Z.to_nat (n mod Z.of_nat len) in
      skipn (len - k) d ++ firstn (len - k) d
  end.

(** ** Randomness *)

(** [random.Random().randrange(n)]: ValueError on an empty range, otherwise
    the next number of the oracle reduced into [0, n). *)
Definition randrange (n : Z) (rng : list Z) : outcome (Z * list Z) :=
  if n <=? 0 then Raise ValueError
  else match rng with
       | [] => Starved
       | r :: rng' => Ok (r mod n, rng')
       end.

(** ** Board *)

(** [Board.isoverlap]. *)
Definition isoverlap (self : Board) (point : Point) : bool :=
  existsb (fun ship => point_in point (ext ship) || point_in point (buffer ship))
          (content self).

(** One of the eight loops of [Board.inline]:
    [for i in range(1, 3): if cond(i): try: line.append(Point(self, px(i), py(i)))
     except OOBError: break]. *)
Fixpoint extend (self : Board) (cond : Z -> bool) (px py : Z -> Z)
                (js : list Z) (line : list Point) : outcome (list Point) :=
  match js with
  | [] => Ok line
  | i :: js' =>
      if cond i then
        match Point_init self (px i) (py i) with
        | Ok p => extend self cond px py js' (line ++ [p])
        | Raise OOBError => Ok line
        | Raise e => Raise e
        | Starved => Starved
        end
      else extend self cond px py js' line
  end.

(** [Board.inline]. *)
Definition inline (self : Board) (h1 h2 : Point) : outcome (list Point) :=
  let line := [] in
  if x h1 =? x h2 then
    if Point_lt h1 h2 then
      line <- extend self (fun i => y h2 + i <? height self)
                     (fun _ => x h2) (fun i => y h2 + i) (range_from 1 3) line ;;
      extend self (fun i => y h1 - i >=? 0)
             (fun _ => x h1) (fun i => y h1 - i) (range_from 1 3) line
    else if Point_gt h1 h2 then
      line <- extend self (fun i => y h2 - i >=? 0)
                     (fun _ => x h2) (fun i => y h2 - i) (range_from 1 3) line ;;
      extend self (fun i => y h1 + i <? height self)
             (fun _ => x h1) (fun i => y h1 + i) (range_from 1 3) line
    else Ok line
  else if Point_lt h1 h2 then
    line <- extend self (fun i => x h2 + i <? width self)
                   (fun i => x h2 + i) (fun _ => y h2) (range_from 1 3) line ;;
    extend self (fun i => x h1 - i >=? 0)
           (fun i => x h1 - i) (fun _ => y h1) (range_from 1 3) line
  else if Point_gt h1 h2 then
    line <- extend self (fun _ => x h2 - 1 >=? 0)
                   (fun i => x h2 - i) (fun _ => y h2) (range_from 1 3) line ;;
    extend self (fun i => x h1 + i <? width self)
           (fun i => x h1 + i) (fun _ => y h1) (range_from 1 3) line
  else Ok line.

(** [Board.rand_point]. *)
Definition rand_point (self : Board) (rng : list Z) : outcome (Point * list Z) :=
  '(rx, rng) <- randrange (width self) rng ;;
  '(ry, rng) <- randrange (height self) rng ;;
  p <- Point_init self rx ry ;;
  Ok (p, rng).

(** ** Ship *)

Definition direct : list string :=
  ["down"; "up"; "left"; "right"]%string.

Definition length_table : list (string * nat) :=
  [("battleship", 4%nat); ("cruiser", 3%nat);
   ("destroyer", 2%nat); ("submarine", 1%nat)]%string.

Fixpoint lookup (k : string) (t : list (string * nat)) : option nat :=
  match t with
  | [] => None
  | (k', v) :: t' => if String.eqb k k' then Some v else lookup k t'
  end.

Definition str_in (s : string) (l : list string) : bool :=
  existsb (String.eqb s) l.

(** The buffer of a Ship lying along a row. *)
Definition buffer_row (b : Board) (point : Point) (ext : list Point)
  : outcome (list Point) :=
  let buffer := [] in
  e0 <- py_nth ext 0 ;;
  buffer <- (if x e0 >? 0
             then left_of <- Point_init b (x e0 - 1) (y point) ;;
                  Ok (buffer ++ [left_of])
             else Ok buffer) ;;
  buffer <- (if y point >? 0
             then parallel_above <- mapM (fun p => Point_init b (x p) (y p - 1)) ext ;;
                  Ok (buffer ++ parallel_above)
             else Ok buffer) ;;
  buffer <- (if y point + 1 <? height b
             then parallel_below <- mapM (fun p => Point_init b (x p) (y p + 1)) ext ;;
                  Ok (buffer ++ parallel_below)
             else Ok buffer) ;;
  el <- py_nth ext (-1) ;;
  buffer <- (if x el + 1 <? width b
             then right_of <- Point_init b (x el + 1) (y point) ;;
                  Ok (buffer ++ [right_of])
             else Ok buffer) ;;
  Ok buffer.

(** The buffer of a Ship lying along a column. *)
Definition buffer_column (b : Board) (point : Point) (ext : list Point)
  : outcome (list Point) :=
  let buffer := [] in
  e0 <- py_nth ext 0 ;;
  buffer <- (if y e0 >? 0
             then above <- Point_init b (x point) (y e0 - 1) ;;
                  Ok (buffer ++ [above])
             else Ok buffer) ;;
  buffer <- (if x point >? 0
             then parallel_left <- mapM (fun p => Point_init b (x p - 1) (y p)) ext ;;
                  Ok (buffer ++ parallel_left)
             else Ok buffer) ;;
  buffer <- (if x point + 1 <? width b
             then parallel_right <- mapM (fun p => Point_init b (x p + 1) (y p)) ext ;;
                  Ok (buffer ++ parallel_right)
             else Ok buffer) ;;
  el <- py_nth ext (-1) ;;
  buffer <- (if y el + 1 <? height b
             then below <- Point_init b (x point) (y el + 1) ;;
                  Ok (buffer ++ [below])
             else Ok buffer) ;;
  Ok buffer.

(** [Ship.__init__].  The Board is touched by the last statement only,
    [self.board.content.append(self)], so the Board after the call is the
    Board before it whenever an exception ends the call: the result is the
    Board after the call together with the new Ship or the exception. *)
Definition Ship_init (b : Board) (point : Point) (direction knd : string)
  : Board * outcome Ship :=
  let built :=
    match lookup knd length_table with
    | None => Raise InputError
    | Some len =>
      if negb (str_in direction direct) then Raise InputError else
      let sym :=
        if String.eqb knd "submarine"%string then "S"%string
        else if String.eqb knd "destroyer"%string then "D"%string
        else if String.eqb knd "cruiser"%string then "C"%string
        else "B"%string in
      ext <- (if String.eqb direction "down"%string
              then mapM (fun n => Point_init b (x point) (y point + n)) (range len)
              else if String.eqb direction "up"%string
              then mapM (fun n => Point_init b (x point) (y point - n)) (range len)
              else if String.eqb direction "right"%string
              then mapM (fun n => Point_init b (x point + n) (y point)) (range len)
              else mapM (fun n => Point_init b (x point - n) (y point)) (range len)) ;;
      if existsb (isoverlap b) ext then Raise OverlapError else
      let ext := list_sort ext in
      buffer <- (if str_in direction ["right"; "left"]%string
                 then buffer_row b point ext
                 else buffer_column b point ext) ;;
      Ok {| ext := ext; valid := ext; buffer := buffer;
            ship_board := ident b; symbol := sym; kind := knd |}
    end in
  match built with
  | Ok self => (set_content b (content b ++ [self]), Ok self)
  | Raise e => (b, Raise e)
  | Starved => (b, Starved)
  end.

(** [Board.place_ship]; the Ship class by placement order. *)
Definition place_ship (self : Board) (point : Point) (direction : string)
                      (order : Z) : Board * outcome Ship :=
  if order >? 5 then Ship_init self point "down"%string "submarine"%string
  else if (order <? 6) && (order >? 2) then Ship_init self point direction "destroyer"%string
  else if (order =? 1) || (order =? 2) then Ship_init self point direction "cruiser"%string
  else Ship_init self point direction "battleship"%string.

(** [rand_direction]. *)
Definition rand_direction (rng : list Z) : outcome (string * list Z) :=
  let directions := ["down"; "up"; "right"; "left"]%string in
  '(num, rng) <- randrange 4 rng ;;
  direction <- py_nth directions num ;;
  Ok (direction, rng).

(** [Board.rand_ship]: the Board afterwards, and the Ship with the rest of
    the oracle, or the exception. *)
Definition rand_ship (self : Board) (order : Z) (rng : list Z)
  : Board * outcome (Ship * list Z) :=
  match ('(point, rng) <- rand_point self rng ;;
         '(direction, rng) <- rand_direction rng ;;
         Ok (point, direction, rng)) with
  | Ok (point, direction, rng) =>
      let '(self, s) := place_ship self point direction order in
      (self, s <- s ;; Ok (s, rng))
  | Raise e => (self, Raise e)
  | Starved => (self, Starved)
  end.

(** [Point.display]: [self.board.grid[self.y][self.x] = symbol] on the Board
    [b] the Point refers to. *)
Definition display (b : Board) (self : Point) (sym : string) : outcome Board :=
  row <- py_nth (grid b) (y self) ;;
  row <- py_set row (x self) sym ;;
  g <- py_set (grid b) (y self) row ;;
  Ok (set_grid b g).

(** ** Guesses against a Board *)

(** What [check_guess] prints, line by line. *)
Inductive printed : Type :=
| PBoard
| PHit (guess : Point) (knd : string)
| PSank (knd : string)
| PMiss (guess : Point).

(** The loop [for ship in guess.board.content: if guess in ship.valid: ...]
    stops at the first Ship whose [valid] holds the guess: the Ships before
    it, the Ship, the Ships after it. *)
Fixpoint find_hit (guess : Point) (ships : list Ship)
  : option (list Ship * Ship * list Ship) :=
  match ships with
  | [] => None
  | ship :: rest =>
      if point_in guess (valid ship) then Some ([], ship, rest)
      else match find_hit guess rest with
           | Some (before, hit, after) => Some (ship :: before, hit, after)
           | None => None
           end
  end.

(** [Player.check_guess]; [b] is [guess.board].  A Ship has no [__eq__], so
    [content.remove(ship)] removes the very Ship the loop stopped at. *)
Definition Player_check_guess (b : Board) (guess : Point)
  : outcome (bool * list printed * Board) :=
  match find_hit guess (content b) with
  | Some (before, ship, after) =>
      b <- display b guess "X"%string ;;
      v <- list_remove guess (valid ship) ;;
      let ship := set_valid ship v in
      let out := [PBoard; PHit guess (kind ship)] in
      if (List.length (valid ship) =? 0)%nat
      then Ok (true, out ++ [PSank (kind ship); PBoard],
               set_content b (before ++ after))
      else Ok (true, out, set_content b (before ++ ship :: after))
  | None =>
      b <- display b guess " "%string ;;
      Ok (false, [PBoard; PMiss guess], b)
  end.

(** ** The targeting engine *)

Record AI : Type := mkAI {
  ai_name : string;
  ai_board : Board;
  guesses : list Point;
  combo : list Point;
  adj_guide : list Point;
  guide : list Point
}.

(** [AI.__init__]. *)
Definition AI_init (id : nat) (nm : string) : AI :=
  {| ai_name := nm; ai_board := Board_init id nm;
     guesses := []; combo := []; adj_guide := []; guide := [] |}.

Definition set_guesses (a : AI) (g : list Point) : AI :=
  {| ai_name := ai_name a; ai_board := ai_board a; guesses := g;
     combo := combo a; adj_guide := adj_guide a; guide := guide a |}.

Definition set_combo (a : AI) (c : list Point) : AI :=
  {| ai_name := ai_name a; ai_board := ai_board a; guesses := guesses a;
     combo := c; adj_guide := adj_guide a; guide := guide a |}.

Definition set_adj_guide (a : AI) (d : list Point) : AI :=
  {| ai_name := ai_name a; ai_board := ai_board a; guesses := guesses a;
     combo := combo a; adj_guide := d; guide := guide a |}.

Definition set_guide (a : AI) (d : list Point) : AI :=
  {| ai_name := ai_name a; ai_board := ai_board a; guesses := guesses a;
     combo := combo a; adj_guide := adj_guide a; guide := d |}.

(** [AI.random_guess]: draw Points of the player's Board until one is not in
    [guesses].  Every round reads two numbers of the oracle, so a loop that
    has not ended after [fuel] rounds, [fuel] the length of the oracle, has
    found it empty. *)
Fixpoint random_guess_loop (fuel : nat) (self : AI) (pb : Board) (rng : list Z)
  : outcome (Point * list Z) :=
  match fuel with
  | O => '(gs, rng) <- rand_point pb rng ;; Starved
  | S fuel' =>
      '(gs, rng) <- rand_point pb rng ;;
      if point_in gs (guesses self) then random_guess_loop fuel' self pb rng
      else Ok (gs, rng)
  end.

Definition random_guess (self : AI) (pb : Board) (rng : list Z)
  : outcome (Point * list Z) :=
  random_guess_loop (List.length rng) self pb rng.

(** [for p in adj: if p in guesses: adj.remove(p)], on the list it walks: the
    iterator keeps an index into [adj], reads [adj[i]] and moves on to
    [i + 1] whatever the body did to the list, and stops when [i] reaches
    the current length.  [fuel] bounds the rounds; the length of the list at
    the start is enough, since [i] grows and the list only shrinks. *)
Fixpoint remove_guessed_in_place (fuel i : nat) (adj guessed : list Point)
  : outcome (list Point) :=
  match fuel with
  | O => Ok adj
  | S fuel' =>
      match nth_error adj i with
      | None => Ok adj
      | Some p =>
          if point_in p guessed
          then adj <- list_remove p adj ;;
               remove_guessed_in_place fuel' (S i) adj guessed
          else remove_guessed_in_place fuel' (S i) adj guessed
      end
  end.

(** [for p in line[:]: if p in guesses: line.remove(p)]: the walk is over a
    copy, [todo], the removals are on [line]. *)
Fixpoint remove_guessed (todo line guessed : list Point) : outcome (list Point) :=
  match todo with
  | [] => Ok line
  | p :: todo' =>
      if point_in p guessed
      then line <- list_remove p line ;; remove_guessed todo' line guessed
      else remove_guessed todo' line guessed
  end.

(** [AI.make_guess]; [pb] is [player.board], the Board every Point the
    engine holds is bound to.  Returns the guess, the engine afterwards and
    the rest of the oracle. *)
Definition make_guess (self : AI) (pb : Board) (rng : list Z)
  : outcome (Point * AI * list Z) :=
  match guide self with
  | _ :: _ =>
      '(gs, d) <- popleft (guide self) ;;
      let self := set_guide self d in
      let self := set_guesses self (guesses self ++ [gs]) in
      Ok (gs, self, rng)
  | [] =>
    match combo self with
    | _ :: _ =>
        '(self, rng) <-
          (if (List.length (combo self) =? 1)%nat
              && match adj_guide self with [] => true | _ => false end
           then
             last_hit <- py_nth (combo self) (-1) ;;
             adj <- adj_pts pb last_hit ;;
             adj <- remove_guessed_in_place (List.length adj) 0 adj (guesses self) ;;
             let self := set_adj_guide self (adj_guide self ++ adj) in
             '(n, rng) <- randrange (Z.of_nat (List.length (adj_guide self))) rng ;;
             Ok (set_adj_guide self (rotate n (adj_guide self)), rng)
           else Ok (self, rng)) ;;
        '(gs, self) <-
          (if (List.length (combo self) =? 1)%nat then
             '(gs, d) <- pop (adj_guide self) ;;
             Ok (gs, set_adj_guide self d)
           else if (List.length (combo self) =? 2)%nat then
             h1 <- py_nth (combo self) (-2) ;;
             h2 <- py_nth (combo self) (-1) ;;
             line <- inline pb h1 h2 ;;
             line <- remove_guessed line line (guesses self) ;;
             let self := set_guide self (guide self ++ line) in
             '(gs, d) <- popleft (guide self) ;;
             Ok (gs, set_guide self d)
           else Raise UnboundLocalError) ;;
        let self := set_guesses self (guesses self ++ [gs]) in
        Ok (gs, self, rng)
    | [] =>
        '(gs, rng) <- random_guess self pb rng ;;
        let self := set_guesses self (guesses self ++ [gs]) in
        Ok (gs, self, rng)
    end
  end.

(** [for p in ship.buffer: if p not in self.guesses: self.guesses.append(p)]. *)
Definition add_buffer (guessed buf : list Point) : list Point :=
  fold_left (fun g p => if negb (point_in p g) then g ++ [p] else g) buf guessed.

(** [AI.check_guess]; [pb] is [guess.board], the player's Board. *)
Definition AI_check_guess (self : AI) (pb : Board) (guess : Point)
  : outcome (bool * list printed * AI * Board) :=
  match find_hit guess (content pb) with
  | Some (before, ship, after) =>
      pb <- display pb guess "X"%string ;;
      v <- list_remove guess (valid ship) ;;
      let ship := set_valid ship v in
      let self := set_combo self (combo self ++ [guess]) in
      let out := [PHit guess (kind ship)] in
      match valid ship with
      | [] =>
          let pb := set_content pb (before ++ after) in
          let self := set_guesses self (add_buffer (guesses self) (buffer ship)) in
          let self := set_combo self [] in
          let self := set_guide self [] in
          let self := set_adj_guide self [] in
          Ok (true, out ++ [PSank (kind ship); PBoard], self, pb)
      | _ :: _ =>
          Ok (true, out ++ [PBoard], self,
              set_content pb (before ++ ship :: after))
      end
  | None =>
      let self :=
        match guide self with
        | _ :: _ => set_guide self (rotate (-1) (guide self))
        | [] => self
        end in
      pb <- display pb guess " "%string ;;
      Ok (false, [PMiss guess; PBoard], self, pb)
  end.

(** [AI.guess]. *)
Definition guess (self : AI) (pb : Board) (rng : list Z)
  : outcome (AI * Board * list Z) :=
  '(gs, self, rng) <- make_guess self pb rng ;;
  '(_, _, self, pb) <- AI_check_guess self pb gs ;;
  Ok (self, pb, rng).

(** ** Vocabulary of the specification *)

(** The unit step of a direction, and the coordinates a placement computes:
    [origin + n * step] for [n] below the length of the class. *)
Definition step (direction : string) : Z * Z :=
  if String.eqb direction "down"%string then (0, 1)
  else if String.eqb direction "up"%string then (0, -1)
  else if String.eqb direction "right"%string then (1, 0)
  else (-1, 0).

Definition computed (origin : Point) (direction : string) (len : nat) : list (Z * Z) :=
  map (fun n => (x origin + n * fst (step direction), y origin + n * snd (step direction)))
      (range len).

(** [len] Points in a row ([horizontal]) or in a column, in ascending order
    from [(ox, oy)]. *)
Definition segment (bid : nat) (ox oy : Z) (horizontal : bool) (len : nat) : list Point :=
  map (fun n => if horizontal then mkPoint (ox + n) oy bid else mkPoint ox (oy + n) bid)
      (range len).

(** The candidates of the buffer, in the specification's words: the
    coordinate before the first occupied one along the axis, the coordinate
    after the last, and the two coordinates perpendicular to the axis at
    every occupied coordinate. *)
Definition axis (direction : string) : Z * Z :=
  if str_in direction ["right"; "left"]%string then (1, 0) else (0, 1).

Definition buffer_candidates (bid : nat) (direction : string) (occupied : list Point)
  : list Point :=
  let '(ax, ay) := axis direction in
  match occupied with
  | [] => []
  | first :: _ =>
      let lst := last occupied first in
      [mkPoint (x first - ax) (y first - ay) bid;
       mkPoint (x lst + ax) (y lst + ay) bid]
      ++ flat_map (fun p => [mkPoint (x p - ay) (y p - ax) bid;
                             mkPoint (x p + ay) (y p + ax) bid]) occupied
  end.

(** [p] is a Point of Board [b]: what [Point(b, p.x, p.y)] builds. *)
Definition on_board (b : Board) (p : Point) : Prop :=
  Point_init b (x p) (y p) = Ok p.

Definition in_bounds (b : Board) (px py : Z) : bool :=
  (0 <=? px) && (px <? width b) && (0 <=? py) && (py <? height b).

(** Two Points on one row or one column. *)
Definition colinear (h1 h2 : Point) : Prop :=
  x h1 = x h2 \/ y h1 = y h2.

(** The specification's [line_between], in its words: up to 2 coordinates
    beyond [from] along the step [(dx, dy)], where extending stops as soon as
    a candidate falls outside the bounds. *)
Definition ray_beyond (b : Board) (from : Point) (dx dy : Z) : list Point :=
  if in_bounds b (x from + dx) (y from + dy) then
    mkPoint (x from + dx) (y from + dy) (ident b)
    :: (if in_bounds b (x from + 2 * dx) (y from + 2 * dy)
        then [mkPoint (x from + 2 * dx) (y from + 2 * dy) (ident b)]
        else [])
  else [].

(** The ray from [h1] through [h2] beyond [h2], then the ray from [h2]
    through [h1] beyond [h1]. *)
Definition line_between (b : Board) (h1 h2 : Point) : list Point :=
  let dx := Z.sgn (x h2 - x h1) in
  let dy := Z.sgn (y h2 - y h1) in
  ray_beyond b h2 dx dy ++ ray_beyond b h1 (- dx) (- dy).

(** Whether a direction runs along a row, and the first coordinate, in
    ascending order, of the coordinates a placement computes. *)
Definition horizontal (direction : string) : bool :=
  str_in direction ["right"; "left"]%string.

Definition lowest (origin : Point) (direction : string) (len : nat) : Z * Z :=
  if String.eqb direction "up"%string then (x origin, y origin - (Z.of_nat len - 1))
  else if String.eqb direction "left"%string then (x origin - (Z.of_nat len - 1), y origin)
  else (x origin, y origin).

(** The buffer [Ship.__init__] builds around a row segment and around a
    column segment, written as one list. *)
Definition row_buffer (b : Board) (ox oy : Z) (len : nat) : list Point :=
  let seg := segment (ident b) ox oy true len in
  (if ox >? 0 then [mkPoint (ox - 1) oy (ident b)] else [])
  ++ (if oy >? 0 then map (fun p => mkPoint (x p) (y p - 1) (ident b)) seg else [])
  ++ (if oy + 1 <? height b
      then map (fun p => mkPoint (x p) (y p + 1) (ident b)) seg else [])
  ++ (if ox + (Z.of_nat len - 1) + 1 <? width b
      then [mkPoint (ox + (Z.of_nat len - 1) + 1) oy (ident b)] else []).

Definition column_buffer (b : Board) (ox oy : Z) (len : nat) : list Point :=
  let seg := segment (ident b) ox oy false len in
  (if oy >? 0 then [mkPoint ox (oy - 1) (ident b)] else [])
  ++ (if ox >? 0 then map (fun p => mkPoint (x p - 1) (y p) (ident b)) seg else [])
  ++ (if ox + 1 <? width b
      then map (fun p => mkPoint (x p + 1) (y p) (ident b)) seg else [])
  ++ (if oy + (Z.of_nat len - 1) + 1 <? height b
      then [mkPoint ox (oy + (Z.of_nat len - 1) + 1) (ident b)] else []).

(** The Ship a successful [Ship.__init__] builds, written in closed form. *)
Definition built_ship (b : Board) (origin : Point) (direction knd : string) (len : nat)
  : Ship :=
  let lo := lowest origin direction len in
  let seg := segment (ident b) (fst lo) (snd lo) (horizontal direction) len in
  {| ext := seg; valid := seg;
     buffer := if horizontal direction
               then row_buffer b (fst lo) (snd lo) len
               else column_buffer b (fst lo) (snd lo) len;
     ship_board := ident b;
     symbol := if String.eqb knd "submarine"%string then "S"%string
               else if String.eqb knd "destroyer"%string then "D"%string
               else if String.eqb knd "cruiser"%string then "C"%string
               else "B"%string;
     kind := knd |}.

(** The Point of Board [b] at a coordinate pair. *)
Definition point_at (b : Board) (c : Z * Z) : Point :=
  mkPoint (fst c) (snd c) (ident b).

(** ** Invariants of a Board *)

(** The grid has [height] rows of [width] cells. *)
Definition grid_ok (b : Board) : Prop :=
  Z.of_nat (List.length (grid b)) = height b /\
  Forall (fun row => Z.of_nat (List.length row) = width b) (grid b).

(** No Point of [l1] is, by coordinates, in [l2]. *)
Definition disjoint (l1 l2 : list Point) : Prop :=
  forall p, In p l1 -> point_in p l2 = false.

(** What the overlap check gives for a Ship [A] against a Ship [B]:
    [occupied(A)] meets neither [occupied(B)] nor [buffer(B)]. *)
Definition separated (A B : Ship) : Prop :=
  disjoint (ext A) (ext B) /\ disjoint (ext A) (buffer B).

Definition apart (A B : Ship) : Prop := separated A B /\ separated B A.

(** A Ship as [Ship.__init__] leaves it and [check_guess] keeps it: a run of
    1 to 4 Points of the Board with its buffer, and the Points not hit yet,
    each once, at least one of them. *)
Definition ship_ok (b : Board) (s : Ship) : Prop :=
  exists (ox oy : Z) (hz : bool) (len : nat),
    (1 <= len <= 4)%nat /\
    in_bounds b ox oy = true /\
    in_bounds b (if hz then ox + (Z.of_nat len - 1) else ox)
                (if hz then oy else oy + (Z.of_nat len - 1)) = true /\
    ext s = segment (ident b) ox oy hz len /\
    buffer s = (if hz then row_buffer b ox oy len else column_buffer b ox oy len) /\
    NoDup (valid s) /\ incl (valid s) (ext s) /\ valid s <> [].

Definition fleet_ok (b : Board) : Prop :=
  Forall (ship_ok b) (content b) /\ ForallOrdPairs apart (content b).

(** What checking a guess does to the Ships of a Board, whoever checks: the
    first Ship that holds the guess loses it, and leaves when it held
    nothing else. *)
Definition content_after (c : Point) (ships : list Ship) : list Ship :=
  match find_hit c ships with
  | Some (before, ship, after) =>
      match remove_first c (valid ship) with
      | [] => before ++ after
      | v => before ++ set_valid ship v :: after
      end
  | None => ships
  end.

(** Two states of one Board object: same identity, same dimensions. *)
Definition same_frame (b b' : Board) : Prop :=
  ident b' = ident b /\ width b' = width b /\ height b' = height b.

(** The Boards a game can hold: a new Board, a Board after a call of
    [Ship.__init__] (whether it built a Ship or raised), a Board after a
    Point was displayed on it, a Board after a guess was checked against it
    by either side. *)
Inductive board_reachable : Board -> Prop :=
| reach_new (id : nat) (nm : string) :
    board_reachable (Board_init id nm)
| reach_place (b : Board) (origin : Point) (d knd : string) :
    board_reachable b ->
    board_reachable (fst (Ship_init b origin d knd))
| reach_display (b b' : Board) (p : Point) (sym : string) :
    board_reachable b ->
    display b p sym = Ok b' ->
    board_reachable b'
| reach_player_guess (b b' : Board) (c : Point) (hit : bool) (out : list printed) :
    board_reachable b ->
    Player_check_guess b c = Ok (hit, out, b') ->
    board_reachable b'
| reach_ai_guess (a a' : AI) (b b' : Board) (c : Point) (hit : bool) (out : list printed) :
    board_reachable b ->
    AI_check_guess a b c = Ok (hit, out, a', b') ->
    board_reachable b'.

(** ** A game *)

(** The player's Board when the guessing starts: a new Board on which Ships
    were placed and displayed. *)
Inductive board_set_up : Board -> Prop :=
| set_up_new (id : nat) (nm : string) :
    board_set_up (Board_init id nm)
| set_up_place (b : Board) (origin : Point) (d knd : string) :
    board_set_up b ->
    board_set_up (fst (Ship_init b origin d knd))
| set_up_display (b b' : Board) (p : Point) (sym : string) :
    board_set_up b ->
    display b p sym = Ok b' ->
    board_set_up b'.

(** The states of the engine and of the player's Board in a game: a new
    engine against a Board that was set up, then one [AI.guess] after the
    other, each with whatever the random source gives. *)
Inductive game_reachable : AI -> Board -> Prop :=
| game_start (id : nat) (nm : string) (pb : Board) :
    board_set_up pb ->
    game_reachable (AI_init id nm) pb
| game_guess (a a' : AI) (pb pb' : Board) (rng rng' : list Z) :
    game_reachable a pb ->
    guess a pb rng = Ok (a', pb', rng') ->
    game_reachable a' pb'.

(** Some coordinate of the Board is not in [guesses], and an oracle that
    will draw such a coordinate: after an even number of entries, two
    entries that reduce to a Point not in [guesses]. *)
Definition some_free (a : AI) (pb : Board) : Prop :=
  exists p, on_board pb p /\ point_in p (guesses a) = false.

Definition draws_free (a : AI) (pb : Board) (rng : list Z) : Prop :=
  exists (pre : list (Z * Z)) (rx ry : Z) (post : list Z),
    rng = flat_map (fun d => [fst d; snd d]) pre ++ rx :: ry :: post /\
    point_in (mkPoint (rx mod width pb) (ry mod height pb) (ident pb)) (guesses a) = false.

(** ** Invariant of a game *)

(** Two Points next to each other on a row or on a column. *)
Definition dist1 (p q : Point) : Prop :=
  Z.abs (x p - x q) + Z.abs (y p - y q) = 1.

(** Every Point of [v] is, by coordinates, in [l]. *)
Definition holds_all (l v : list Point) : Prop :=
  forall p, In p v -> point_in p l = true.

(** No Point that a Ship still holds was guessed. *)
Definition unguessed (g : list Point) (pb : Board) : Prop :=
  forall s p, In s (content pb) -> In p (valid s) -> point_in p g = false.

(** What the queues hold in each phase, with [front] the Points that were
    popped from a queue and not checked against the Board yet.  No hit:
    both queues are empty.  One hit: the line queue is empty, the hit is on a
    Ship of the Board and the adjacency queue holds neighbours of the hit.
    Two hits or more: either the line queue was not filled yet, and then
    the hits are two, next to each other on one Ship; or every Point some
    Ship still holds is in the line queue. *)
Definition phase_ok (front : list Point) (a : AI) (pb : Board) : Prop :=
  match combo a with
  | [] => adj_guide a = [] /\ guide a = []
  | [P] =>
      guide a = [] /\
      (exists A, In A (content pb) /\ point_in P (ext A) = true) /\
      (forall q, In q (front ++ adj_guide a) -> dist1 P q)
  | P :: Q :: rest =>
      (front = [] /\ rest = [] /\ guide a = [] /\ dist1 P Q /\
       exists A, In A (content pb) /\
                 point_in P (ext A) = true /\ point_in Q (ext A) = true) \/
      (exists A, In A (content pb) /\ holds_all (front ++ guide a) (valid A))
  end.

(** The state between two guesses. *)
Definition game_ok (a : AI) (pb : Board) : Prop :=
  fleet_ok pb /\ grid_ok pb /\ 2 <= width pb /\ 2 <= height pb /\
  unguessed (guesses a) pb /\
  (forall p, In p (combo a ++ adj_guide a ++ guide a) -> on_board pb p) /\
  (forall p, In p (combo a) -> point_in p (guesses a) = true) /\
  phase_ok [] a pb.

(** The state after [make_guess] returned [gs] and before [check_guess]. *)
Definition selected_ok (a : AI) (pb : Board) (gs : Point) (a' : AI) : Prop :=
  guesses a' = guesses a ++ [gs] /\ combo a' = combo a /\
  on_board pb gs /\
  (forall p, In p (adj_guide a' ++ guide a') -> on_board pb p) /\
  phase_ok [gs] a' pb.

(** ** Scenarios *)

(** An empty 10x10 Board, and the Board after a Destroyer was placed at C3
    towards the right. *)
Definition empty_board : Board := Board_init 1 "Player".

Definition board_c3 : Board :=
  fst (Ship_init empty_board (mkPoint 2 3 1) "right" "destroyer").

(** The same Board with a Submarine at A0 as well. *)
Definition board_c3_a0 : Board :=
  fst (Ship_init board_c3 (mkPoint 0 0 1) "down" "submarine").

(** A fleet of ten Ships placed in the order of the game: a Battleship, two
    Cruisers, three Destroyers (the last one at F5 and G5) and four
    Submarines. *)
Definition place_all (b : Board) (l : list (Z * Z * string)) : Board :=
  fst (fold_left (fun st pl =>
                    let '(b, order) := st in
                    let '(px, py, d) := pl in
                    (fst (place_ship b (mkPoint px py (ident b)) d order), order + 1))
                 l (b, 0)).

Definition fleet_board : Board :=
  place_all empty_board
    [(0, 0, "right"); (0, 2, "right"); (0, 4, "right");
     (0, 6, "right"); (0, 8, "right"); (5, 5, "right");
     (9, 0, "down"); (9, 2, "down"); (9, 4, "down"); (9, 6, "down")]%string.

(** [AI.guess] again and again, each time with its own part of the random
    numbers. *)
Fixpoint play (a : AI) (pb : Board) (draws : list (list Z)) : outcome (AI * Board) :=
  match draws with
  | [] => Ok (a, pb)
  | rng :: draws' =>
      '(a, pb, _) <- guess a pb rng ;;
      play a pb draws'
  end.

Definition new_engine : AI := AI_init 2 "Opponent".

(** The engine and the Board of a run that ended well. *)
Definition engine_of (r : outcome (AI * Board)) : AI :=
  match r with
  | Ok (a, _) => a
  | _ => new_engine
  end.

Definition board_of (r : outcome (AI * Board)) : Board :=
  match r with
  | Ok (_, pb) => pb
  | _ => fleet_board
  end.

(** The engine and the player's Board after three guesses by the random
    search at F6, F4 and F5: two misses and a hit on the Destroyer. *)
Definition after_f5 : outcome (AI * Board) :=
  play new_engine fleet_board [[5; 6]; [5; 4]; [5; 5]].

(** The engine and the player's Board after three hits on the Battleship, at
    B0, C0 and D0, with A0 still afloat. *)
Definition after_three_hits : outcome (AI * Board) :=
  play new_engine fleet_board [[1; 0]; [1]; []].


(** ** Reading the Board *)

(** [board.grid[y][x]]. *)
Definition cell (b : Board) (px py : Z) : outcome string :=
  row <- py_nth (grid b) py ;;
  py_nth row px.

(** The cells the Ships afloat still hold: the sum of [len(ship.valid)]
    over [content]. *)
Definition afloat_cells (b : Board) : nat :=
  list_sum (map (fun s => List.length (valid s)) (content b)).

(** ** Lists of distinct Points *)

(** The coordinates of a Point; a list is [distinct] when no two of its
    Points are [==]. *)
Definition coords (p : Point) : Z * Z := (x p, y p).

Definition distinct (l : list Point) : Prop := NoDup (map coords l).

(** A queue of the engine is fresh when its Points are distinct and none of
    them is in [guesses]. *)
Definition fresh_queue (g d : list Point) : Prop :=
  distinct d /\ forall p, In p d -> point_in p g = false.

(** ** Showing a Ship *)

(** [for p in points: p.display(symbol)] on the Board the Points refer to. *)
Fixpoint display_all (b : Board) (points : list Point) (sym : string) : outcome Board :=
  match points with
  | [] => Ok b
  | p :: points' => b <- display b p sym ;; display_all b points' sym
  end.

(** [Ship.display] and [Ship.display_buffer]; [b] is [self.board]. *)
Definition Ship_display (b : Board) (self : Ship) : outcome Board :=
  display_all b (ext self) (symbol self).

Definition display_buffer (b : Board) (self : Ship) (sym : string) : outcome Board :=
  display_all b (buffer self) sym.

(** ** Classes by order *)

(** The class of the Ship [place_ship] builds for each order, in closed
    form: its kind and its number of cells. *)
Definition class_of_order (order : Z) : string * nat :=
  if order >? 5 then ("submarine"%string, 1%nat)
  else if order >? 2 then ("destroyer"%string, 2%nat)
  else if order >? 0 then ("cruiser"%string, 3%nat)
  else ("battleship"%string, 4%nat).

(** The symbol of a Ship of each kind. *)
Definition symbol_of_kind (knd : string) : string :=
  if String.eqb knd "submarine" then "S"
  else if String.eqb knd "destroyer" then "D"
  else if String.eqb knd "cruiser" then "C"
  else "B".

(** A Board after one more Ship of the class of [order] was built on it,
    clear of the Ships that were there. *)
Definition one_more (b b' : Board) (order : Z) (s : Ship) : Prop :=
  b' = set_content b (content b ++ [s]) /\
  ship_ok b s /\ valid s = ext s /\
  (kind s, List.length (ext s)) = class_of_order order /\
  symbol s = symbol_of_kind (kind s) /\
  (forall old, In old (content b) -> ship_ok b old -> apart old s).

(** A Board after the Ships of [orders] were built on it one after the
    other. *)
Fixpoint fleet_added (orders : list Z) (b b' : Board) (ships : list Ship) : Prop :=
  match orders, ships with
  | [], [] => b' = b
  | i :: orders', s :: ships' =>
      exists b1, one_more b b1 i s /\ fleet_added orders' b1 b' ships'
  | _, _ => False
  end.

(** ** The fleet of the engine *)

(** The first two statements of [Board.rand_ship], the draws: the Point, the
    direction and what is left of the random source. *)
Definition rand_ship_draws (self : Board) (rng : list Z)
  : outcome (Point * string * list Z) :=
  '(point, rng) <- rand_point self rng ;;
  '(direction, rng) <- rand_direction rng ;;
  Ok (point, direction, rng).

(** [while True: try: self.board.rand_ship(order=i) except (OverlapError,
    OOBError): continue; break].  The call of [rand_ship] is written as its
    draws followed by [place_ship], so that a round that ends with an
    exception hands what is left of the random source to the next round.
    Every round reads three numbers, so a loop that has not ended after
    [fuel] rounds, [fuel] the length of the source, has found it empty. *)
Fixpoint rand_ship_loop (fuel : nat) (b : Board) (order : Z) (rng : list Z)
  : outcome (Board * list Z) :=
  match fuel with
  | O => '(_, _, _) <- rand_ship_draws b rng ;; Starved
  | S fuel' =>
      '(point, direction, rng) <- rand_ship_draws b rng ;;
      match place_ship b point direction order with
      | (b, Ok _) => Ok (b, rng)
      | (b, Raise OverlapError) => rand_ship_loop fuel' b order rng
      | (b, Raise OOBError) => rand_ship_loop fuel' b order rng
      | (_, Raise e) => Raise e
      | (_, Starved) => Starved
      end
  end.

(** [for i in orders: ...] around the loop above. *)
Fixpoint rand_fleet (orders : list Z) (b : Board) (rng : list Z)
  : outcome (Board * list Z) :=
  match orders with
  | [] => Ok (b, rng)
  | i :: orders' =>
      '(b, rng) <- rand_ship_loop (List.length rng) b i rng ;;
      rand_fleet orders' b rng
  end.

Definition set_ai_board (a : AI) (b : Board) : AI :=
  {| ai_name := ai_name a; ai_board := b; guesses := guesses a;
     combo := combo a; adj_guide := adj_guide a; guide := guide a |}.

(** [AI.generate_fleet]. *)
Definition AI_generate_fleet (self : AI) (rng : list Z) : outcome (AI * list Z) :=
  '(b, rng) <- rand_fleet (range 10) (ai_board self) rng ;;
  Ok (set_ai_board self b, rng).

(** ** Text *)

(** What the player types is ASCII text: a character is a code point below
    128, and the string methods below are Python's on such text. *)
Definition ascii_text (s : string) : Prop :=
  Forall (fun c => (nat_of_ascii c < 128)%nat) (list_ascii_of_string s).

Definition is_lower (c : ascii) : bool :=
  ((97 <=? nat_of_ascii c) && (nat_of_ascii c <=? 122))%nat.

Definition is_upper (c : ascii) : bool :=
  ((65 <=? nat_of_ascii c) && (nat_of_ascii c <=? 90))%nat.

Definition is_digit (c : ascii) : bool :=
  ((48 <=? nat_of_ascii c) && (nat_of_ascii c <=? 57))%nat.

Fixpoint all_chars (f : ascii -> bool) (s : string) : bool :=
  match s with
  | EmptyString => true
  | String c s' => f c && all_chars f s'
  end.

(** [s.upper()], [s.isalpha()] and [s.isnumeric()]. *)
Fixpoint upper (s : string) : string :=
  match s with
  | EmptyString => EmptyString
  | String c s' =>
      String (if is_lower c then ascii_of_nat (nat_of_ascii c - 32) else c) (upper s')
  end.

Definition isalpha (s : string) : bool :=
  negb (String.eqb s EmptyString) && all_chars (fun c => is_lower c || is_upper c) s.

Definition isnumeric (s : string) : bool :=
  negb (String.eqb s EmptyString) && all_chars is_digit s.

(** [s[i]] for an index that is not negative. *)
Definition str_nth (s : string) (i : nat) : outcome string :=
  match String.get i s with
  | Some c => Ok (String c EmptyString)
  | None => Raise IndexError
  end.

(** [int(s)] on a string of digits, the only strings that reach it. *)
Fixpoint digits_value (acc : Z) (s : string) : Z :=
  match s with
  | EmptyString => acc
  | String c s' => digits_value (10 * acc + (Z.of_nat (nat_of_ascii c) - 48)) s'
  end.

Definition py_int (s : string) : outcome Z :=
  if isnumeric s then Ok (digits_value 0 s) else Raise ValueError.

(** [Point.row_keys], one dictionary with keys of two types: the letters,
    with the index of their column, and the indices, with their letter. *)
Definition row_keys_letters : list (string * Z) :=
  [("A", 0); ("B", 1); ("C", 2); ("D", 3); ("E", 4);
   ("F", 5); ("G", 6); ("H", 7); ("I", 8); ("J", 9)]%string.

Definition row_keys_indices : list (Z * string) :=
  [(0, "A"); (1, "B"); (2, "C"); (3, "D"); (4, "E");
   (5, "F"); (6, "G"); (7, "H"); (8, "I"); (9, "J")]%string.

(** [Point.row_keys[k]] for a string and for an integer; [None] when [k] is
    not a key, where Python raises KeyError. *)
Fixpoint row_key_of_letter (k : string) (t : list (string * Z)) : option Z :=
  match t with
  | [] => None
  | (k', v) :: t' => if String.eqb k k' then Some v else row_key_of_letter k t'
  end.

Fixpoint row_key_of_index (k : Z) (t : list (Z * string)) : option string :=
  match t with
  | [] => None
  | (k', v) :: t' => if k =? k' then Some v else row_key_of_index k t'
  end.

(** [str(n)] for an integer. *)
Definition str_of_int (n : Z) : string := NilZero.string_of_int (Z.to_int n).

(** [Point.__repr__] and [Point.__str__]; [None] is the KeyError of
    [row_keys[self.x]]. *)
Definition Point_repr (self : Point) : option string :=
  match row_key_of_index (x self) row_keys_indices with
  | Some letter => Some (letter ++ str_of_int (y self))%string
  | None => None
  end.

(** ** The player at the console *)

(** What the player's methods print, line by line. *)
Inductive said : Type :=
| SInvalid                (* Invalid input. *)
| SOutOfBounds            (* Out of bounds. *)
| SDirections             (* Input must be one of the following: and the set *)
| SBoard (b : Board)      (* the Board *)
| SPlace (knd : string)   (* Place your ...! *)
| SOverlap                (* Ship Overlap. Try Again. *)
| SExtension              (* Extension Out of Bounds. Try Again. *)
| SRepeat                 (* You've already guessed there. Try again. *)
| SCheck (p : printed)    (* a line of check_guess *)
| SGuess (nm : string) (gs : Point)   (* ... guesses ... *)
| SRound (iteration : Z)  (* Round: and the number *)
| SWinner                 (* Winner! *)
| SLose                   (* You Lose. *)
| SBanner                 (* the title *)
| SMenu.                  (* 1. Play 2. Quit *)

(** [Player.input_point]: every round of the loop reads one response, the
    head of [inp]; with no response left the call has not finished. *)
Fixpoint input_point (b : Board) (inp : list string) (out : list said)
  : outcome (Point * list string * list said) :=
  match inp with
  | [] => Starved
  | response :: inp =>
      if (String.length response <? 2)%nat
      then input_point b inp (out ++ [SInvalid])
      else
        c <- str_nth response 0 ;;
        let x_string := upper c in
        y_string <- str_nth response 1 ;;
        match (if isalpha x_string && isnumeric y_string
               then row_key_of_letter x_string row_keys_letters else None) with
        | Some px =>
            py <- py_int y_string ;;
            if ((px >=? width b) || (py >=? height b)) || ((px <? 0) || (py <? 0))
            then input_point b inp (out ++ [SOutOfBounds])
            else point <- Point_init b px py ;; Ok (point, inp, out)
        | None => input_point b inp (out ++ [SInvalid])
        end
  end.

(** [Player.input_direction]. *)
Fixpoint input_direction (inp : list string) (out : list said)
  : outcome (string * list string * list said) :=
  let valid_directions := ["down"; "up"; "right"; "left"]%string in
  match inp with
  | [] => Starved
  | direction :: inp =>
      if negb (str_in direction valid_directions)
      then input_direction inp (out ++ [SDirections])
      else Ok (direction, inp, out)
  end.

Record Player : Type := mkPlayer { p_board : Board; p_guesses : list Point }.

Definition set_p_board (self : Player) (b : Board) : Player :=
  {| p_board := b; p_guesses := p_guesses self |}.

Definition set_p_guesses (self : Player) (g : list Point) : Player :=
  {| p_board := p_board self; p_guesses := g |}.

(** A local variable that may not be bound yet. *)
Definition read_local (v : option Z) : outcome Z :=
  match v with
  | Some z => Ok z
  | None => Raise UnboundLocalError
  end.

(** The four tests of [generate_fleet] that end with Extension Out of
    Bounds, in their order; [length] is read by the test whose direction is
    the one that was typed. *)
Definition extension_out (b : Board) (point : Point) (direction : string)
                         (length : option Z) : outcome bool :=
  c <- (if String.eqb direction "down"
        then l <- read_local length ;; Ok (y point + l >=? height b)
        else Ok false) ;;
  if c then Ok true else
  c <- (if String.eqb direction "right"
        then l <- read_local length ;; Ok (x point + l >=? width b)
        else Ok false) ;;
  if c then Ok true else
  c <- (if String.eqb direction "up"
        then l <- read_local length ;; Ok (y point - l <? 0)
        else Ok false) ;;
  if c then Ok true else
  (if String.eqb direction "left"
   then l <- read_local length ;; Ok (x point - l <? 0)
   else Ok false).

(** [s.display(); s.display_buffer()]. *)
Definition show_placed (b : Board) (s : Ship) : outcome Board :=
  b <- Ship_display b s ;;
  display_buffer b s "#".

(** The loop [while True] of [Player.generate_fleet] for the Ship of order
    [i].  Every round reads a Point, so [fuel], the number of responses, is
    enough rounds. *)
Fixpoint place_loop (fuel : nat) (b : Board) (i : Z) (length : option Z)
                    (inp : list string) (out : list said)
  : outcome (Board * list string * list said) :=
  match fuel with
  | O => '(_, _, _) <- input_point b inp out ;; Starved
  | S fuel' =>
      '(point, inp, out) <- input_point b inp out ;;
      if isoverlap b point
      then place_loop fuel' b i length inp (out ++ [SOverlap])
      else if i <? 6 then
        '(direction, inp, out) <- input_direction inp out ;;
        refused <- extension_out b point direction length ;;
        if refused
        then place_loop fuel' b i length inp (out ++ [SExtension])
        else
          match place_ship b point direction i with
          | (b, Ok s) => b <- show_placed b s ;; Ok (b, inp, out)
          | (b, Raise OverlapError) => place_loop fuel' b i length inp (out ++ [SOverlap])
          | (_, Raise e) => Raise e
          | (_, Starved) => Starved
          end
      else
        match place_ship b point "down" i with
        | (b, Ok s) => b <- show_placed b s ;; Ok (b, inp, out)
        | (b, Raise OverlapError) => place_loop fuel' b i length inp (out ++ [SOverlap])
        | (_, Raise e) => Raise e
        | (_, Starved) => Starved
        end
  end.

(** The announcement of the Ship of order [i], and [length] after it. *)
Definition announce (i : Z) (length : option Z) : option Z * said :=
  if i >? 5 then (length, SPlace "submarine")
  else if (i <? 6) && (i >? 2) then (Some 2, SPlace "destroyer")
  else if (i =? 1) || (i =? 2) then (Some 3, SPlace "cruiser")
  else (Some 4, SPlace "battleship").

(** [for i in orders: ...] of [Player.generate_fleet]. *)
Fixpoint place_fleet (orders : list Z) (b : Board) (length : option Z)
                     (inp : list string) (out : list said)
  : outcome (Board * list string * list said) :=
  match orders with
  | [] => Ok (b, inp, out)
  | i :: orders' =>
      let out := out ++ [SBoard b] in
      let '(length, line) := announce i length in
      let out := out ++ [line] in
      '(b, inp, out) <- place_loop (List.length inp) b i length inp out ;;
      place_fleet orders' b length inp out
  end.

(** [for s in self.board.content: s.display_buffer("~")]. *)
Fixpoint hide_buffers (b : Board) (ships : list Ship) : outcome Board :=
  match ships with
  | [] => Ok b
  | s :: ships' => b <- display_buffer b s "~" ;; hide_buffers b ships'
  end.

(** [Player.generate_fleet]. *)
Definition Player_generate_fleet (self : Player) (inp : list string) (out : list said)
  : outcome (Player * list string * list said) :=
  '(b, inp, out) <- place_fleet (range 10) (p_board self) None inp out ;;
  b <- hide_buffers b (content b) ;;
  Ok (set_p_board self b, inp, out).

(** The loop of [Player.input_guess]; [ab] is [ai.board]. *)
Fixpoint input_guess_loop (fuel : nat) (self : Player) (ab : Board)
                          (inp : list string) (out : list said)
  : outcome (Point * Player * list string * list said) :=
  match fuel with
  | O => '(_, _, _) <- input_point ab inp out ;; Starved
  | S fuel' =>
      '(gs, inp, out) <- input_point ab inp out ;;
      if point_in gs (p_guesses self)
      then input_guess_loop fuel' self ab inp (out ++ [SRepeat])
      else Ok (gs, set_p_guesses self (p_guesses self ++ [gs]), inp, out)
  end.

(** [Player.input_guess]. *)
Definition input_guess (self : Player) (ab : Board) (inp : list string) (out : list said)
  : outcome (Player * Board * list string * list said) :=
  '(gs, self, inp, out) <- input_guess_loop (List.length inp) self ab inp out ;;
  '(_, lines, ab) <- Player_check_guess ab gs ;;
  Ok (self, ab, inp, out ++ map SCheck lines).

(** ** Cells by name *)

(** The column a letter names, [A] to [J] in either case, and the row a
    digit names. *)
Definition letter_column (c : ascii) : option Z :=
  let n := Z.of_nat (nat_of_ascii c) in
  if (65 <=? n) && (n <=? 74) then Some (n - 65)
  else if (97 <=? n) && (n <=? 106) then Some (n - 97)
  else None.

Definition digit_row (c : ascii) : option Z :=
  let n := Z.of_nat (nat_of_ascii c) in
  if (48 <=? n) && (n <=? 57) then Some (n - 48) else None.

(** The cell a response names: its first two characters are a column
    letter and a row digit; what follows them is not looked at. *)
Definition cell_named (response : string) : option (Z * Z) :=
  match response with
  | String c0 (String c1 _) =>
      match letter_column c0, digit_row c1 with
      | Some px, Some py => Some (px, py)
      | _, _ => None
      end
  | _ => None
  end.

(** ** The fleet of the player *)

(** A Board after [generate_fleet] placed and showed one more Ship, and
    after it placed and showed the Ships of [orders] one after the other. *)
Definition placed_and_shown (b b' : Board) (order : Z) (s : Ship) : Prop :=
  exists b1, one_more b b1 order s /\ show_placed b1 s = Ok b'.

Fixpoint fleet_shown (orders : list Z) (b b' : Board) (ships : list Ship) : Prop :=
  match orders, ships with
  | [], [] => b' = b
  | i :: orders', s :: ships' =>
      exists b1, placed_and_shown b b1 i s /\ fleet_shown orders' b1 b' ships'
  | _, _ => False
  end.

(** What the grid shows of the fleet: the symbol of a Ship on the cells it
    occupies, water on the others.  While the Ships are being placed
    ([marks]) a cell that is not water shows the mark of the buffer of a
    Ship it belongs to. *)
Definition shows_fleet (marks : bool) (b : Board) : Prop :=
  forall qx qy, in_bounds b qx qy = true ->
    (forall s, In s (content b) -> point_in (mkPoint qx qy (ident b)) (ext s) = true ->
               cell b qx qy = Ok (symbol s)) /\
    ((forall s, In s (content b) -> point_in (mkPoint qx qy (ident b)) (ext s) = false) ->
     cell b qx qy = Ok "~"%string \/
     (marks = true /\ cell b qx qy = Ok "#"%string /\
      exists s, In s (content b) /\ point_in (mkPoint qx qy (ident b)) (buffer s) = true)).

(** ** The game *)

(** [AI.guess] with what it prints.  The Points it names are Points of a
    Board of ten columns, which have a name. *)
Definition AI_guess_said (self : AI) (pb : Board) (rng : list Z) (out : list said)
  : outcome (AI * Board * list Z * list said) :=
  '(gs, self, rng) <- make_guess self pb rng ;;
  let out := out ++ [SGuess (ai_name self) gs] in
  '(_, lines, self, pb) <- AI_check_guess self pb gs ;;
  Ok (self, pb, rng, out ++ map SCheck lines).

(** [input(prompt)]: the next response; with none left the call has not
    finished. *)
Definition input_line (inp : list string) : outcome (string * list string) :=
  match inp with
  | [] => Starved
  | response :: inp => Ok (response, inp)
  end.

(** [Player.__init__]; [id] is the identity of the Board it creates. *)
Definition Player_init (id : nat) (inp : list string) : outcome (Player * list string) :=
  '(your_name, inp) <- input_line inp ;;
  Ok ({| p_board := Board_init id your_name; p_guesses := [] |}, inp).

(** How a game ended: Winner! or You Lose. *)
Inductive ending : Type := Won | Lost.

(** The loop of [play_loop].  Every round reads a guess, so [fuel], the
    number of responses, is enough rounds. *)
Fixpoint rounds (fuel : nat) (iteration : Z) (ai : AI) (player : Player)
                (inp : list string) (rng : list Z) (out : list said)
  : outcome (ending * AI * Player * list string * list Z * list said) :=
  match fuel with
  | O => '(_, _) <- input_line inp ;; Starved
  | S fuel' =>
      let iteration := iteration + 1 in
      let out := out ++ [SRound iteration; SBoard (ai_board ai)] in
      '(player, ab, inp, out) <- input_guess player (ai_board ai) inp out ;;
      let ai := set_ai_board ai ab in
      '(_, inp) <- input_line inp ;;
      if (List.length (content (ai_board ai)) =? 0)%nat
      then Ok (Won, ai, player, inp, rng, out ++ [SWinner])
      else
        '(ai, pb, rng, out) <- AI_guess_said ai (p_board player) rng out ;;
        let player := set_p_board player pb in
        '(_, inp) <- input_line inp ;;
        if (List.length (content (p_board player)) =? 0)%nat
        then Ok (Lost, ai, player, inp, rng, out ++ [SBoard (p_board player); SLose])
        else rounds fuel' iteration ai player inp rng out
  end.

(** [play_loop]; [aid] and [pid] are the identities of the two Boards it
    creates. *)
Definition play_loop (aid pid : nat) (inp : list string) (rng : list Z) (out : list said)
  : outcome (ending * AI * Player * list string * list Z * list said) :=
  let ai := AI_init aid "Opponent" in
  '(ai, rng) <- AI_generate_fleet ai rng ;;
  '(player, inp) <- Player_init pid inp ;;
  '(player, inp, out) <- Player_generate_fleet player inp out ;;
  rounds (List.length inp) 0 ai player inp rng out.

(** [s.lower()], and [c in s] for a character. *)
Fixpoint lower (s : string) : string :=
  match s with
  | EmptyString => EmptyString
  | String c s' =>
      String (if is_upper c then ascii_of_nat (nat_of_ascii c + 32) else c) (lower s')
  end.

Fixpoint char_in (c : ascii) (s : string) : bool :=
  match s with
  | EmptyString => false
  | String c' s' => Ascii.eqb c c' || char_in c s'
  end.

(** [main]: the menu, again and again.  Every round reads a response, so
    [fuel], the number of responses, is enough rounds; [fresh] is the next
    identity that was given to no object. *)
Fixpoint main_loop (fuel : nat) (fresh : nat) (inp : list string) (rng : list Z)
                   (out : list said)
  : outcome (list string * list Z * list said) :=
  match fuel with
  | O => '(_, _) <- input_line inp ;; Starved
  | S fuel' =>
      let out := out ++ [SBanner; SMenu] in
      '(opt, inp) <- input_line inp ;;
      if String.eqb opt "1" || char_in "p" (lower opt)
      then '(_, _, _, inp, rng, out) <- play_loop fresh (S fresh) inp rng out ;;
           main_loop fuel' (S (S fresh)) inp rng out
      else if String.eqb opt "2" || char_in "q" (lower opt)
      then Ok (inp, rng, out)
      else main_loop fuel' fresh inp rng out
  end.

Definition main (inp : list string) (rng : list Z)
  : outcome (list string * list Z * list said) :=
  main_loop (List.length inp) 0 inp rng [].

(** A character of a response, and the two wishes the menu reads in a
    response: a game for 1 or for any response with the letter p in it, the
    end for 2 or for any response with the letter q in it. *)
Definition holds (c : ascii) (s : string) : Prop := In c (list_ascii_of_string s).

Definition wants_game (opt : string) : Prop :=
  opt = "1"%string \/ holds "p" opt \/ holds "P" opt.

Definition wants_end (opt : string) : Prop :=
  opt = "2"%string \/ holds "q" opt \/ holds "Q" opt.

(** ** Scenarios at the console *)

(** A player whose Board is new, and responses that place a fleet: the
    Battleship from A0 to the right, the Cruisers from A2 and A4, the
    Destroyers from A6, A8 and F5, the Submarines at J0, J2, J4 and J6. *)
Definition new_player : Player := {| p_board := empty_board; p_guesses := [] |}.

Definition fleet_responses : list string :=
  ["A0"; "right"; "A2"; "right"; "A4"; "right"; "A6"; "right"; "A8"; "right";
   "F5"; "right"; "J0"; "J2"; "J4"; "J6"]%string.

(** The random numbers that place the same fleet on the engine's Board. *)
Definition fleet_draws : list Z :=
  [0; 0; 2; 0; 2; 2; 0; 4; 2; 0; 6; 2; 0; 8; 2; 5; 5; 2;
   9; 0; 0; 9; 2; 0; 9; 4; 0; 9; 6; 0].

(** A whole game.  The player gives a name, places the fleet above and then
    guesses the twenty cells of the engine's fleet one after the other, with
    Enter after every turn; the engine, whose fleet is the same, draws the
    ten cells of row 9 and nine cells of row 1, which are all water. *)
Definition enter : string := EmptyString.

Definition game_responses : list string :=
  ("Ann" :: fleet_responses ++
  ["A0"; enter; enter; "B0"; enter; enter; "C0"; enter; enter; "D0"; enter;
   enter; "A2"; enter; enter; "B2"; enter; enter; "C2"; enter; enter; "A4";
   enter; enter; "B4"; enter; enter; "C4"; enter; enter; "A6"; enter; enter;
   "B6"; enter; enter; "A8"; enter; enter; "B8"; enter; enter; "F5"; enter;
   enter; "G5"; enter; enter; "J0"; enter; enter; "J2"; enter; enter; "J4";
   enter; enter; "J6"; enter])%string.

Definition game_draws : list Z :=
  fleet_draws ++
  [0; 9; 1; 9; 2; 9; 3; 9; 4; 9; 5; 9; 6; 9; 7; 9; 8; 9; 9; 9; 0; 1; 1; 1; 2;
   1; 3; 1; 4; 1; 5; 1; 6; 1; 7; 1; 8; 1].


(** * Properties *)

Ltac split_bools :=
  repeat match goal with
  | |- context [?a <? ?b] => destruct (Z.ltb_spec a b)
  | |- context [?a <=? ?b] => destruct (Z.leb_spec a b)
  | |- context [?a =? ?b] => destruct (Z.eqb_spec a b)
  | |- context [?a >=? ?b] => rewrite (Z.geb_leb a b)
  | |- context [?a >? ?b] => rewrite (Z.gtb_ltb a b)
  end.

(** ** Points *)

Lemma Point_eq_iff (p q : Point) :
  Point_eq p q = true <-> x p = x q /\ y p = y q.
Proof.
  unfold Point_eq. split_bools; simpl; split; intros; try lia; try discriminate; auto.
Qed.

Lemma Point_eq_refl (p : Point) : Point_eq p p = true.
Proof. apply Point_eq_iff; auto. Qed.

Lemma Point_eq_sym (p q : Point) : Point_eq p q = Point_eq q p.
Proof. unfold Point_eq. split_bools; simpl; try reflexivity; lia. Qed.

Lemma Point_lt_iff (p q : Point) :
  Point_lt p q = true <-> x p < x q \/ (x p = x q /\ y p < y q).
Proof.
  unfold Point_lt. split_bools; split; intros; try lia; try discriminate; auto.
Qed.

Lemma Point_gt_lt (p q : Point) : Point_gt p q = Point_lt q p.
Proof. unfold Point_gt, Point_lt. split_bools; try reflexivity; lia. Qed.

(** C10.  Point equality and ordering look at [(x, y)] only, whatever Boards
    the two Points are bound to: [p == q] exactly when the coordinates agree,
    rebinding either Point to another Board changes neither [==] nor [<], and
    [<] is a strict total order on coordinates: exactly one of [p < q],
    [p == q], [q < p] holds, and [<] is transitive. *)
Theorem Point_order_structural :
  forall p q : Point,
    (Point_eq p q = true <-> x p = x q /\ y p = y q) /\
    (forall bp bq : nat,
        Point_eq (mkPoint (x p) (y p) bp) (mkPoint (x q) (y q) bq) = Point_eq p q /\
        Point_lt (mkPoint (x p) (y p) bp) (mkPoint (x q) (y q) bq) = Point_lt p q) /\
    ((Point_lt p q = true /\ Point_eq p q = false /\ Point_lt q p = false) \/
     (Point_lt p q = false /\ Point_eq p q = true /\ Point_lt q p = false) \/
     (Point_lt p q = false /\ Point_eq p q = false /\ Point_lt q p = true)) /\
    (forall r : Point,
        Point_lt p q && Point_lt q r = true -> Point_lt p r = true).
Proof.
  intros p q. split; [apply Point_eq_iff|]. split; [intros; split; reflexivity|]. split.
  - unfold Point_lt, Point_eq. split_bools; simpl; try lia; auto.
  - intros r H. apply andb_true_iff in H. destruct H as [H1 H2].
    apply Point_lt_iff in H1, H2. apply Point_lt_iff. lia.
Qed.

(** The theorem at [E4] on one Board and [E5] on another. *)
Lemma Point_order_structural_witness :
  Point_lt (mkPoint 4 4 1) (mkPoint 4 6 3) = true.
Proof.
  destruct (Point_order_structural (mkPoint 4 4 1) (mkPoint 4 5 2)) as (_ & _ & _ & T).
  apply (T (mkPoint 4 6 3)). reflexivity.
Defined.

(** ** Points of a Board *)

Lemma on_board_inv (b : Board) (p : Point) :
  on_board b p ->
  0 <= x p < width b /\ 0 <= y p < height b /\ board p = ident b.
Proof.
  unfold on_board, Point_init. destruct p as [px py pb]; simpl.
  split_bools; simpl; intros E; inversion E; subst; repeat split; try lia; discriminate.
Qed.

Lemma Point_init_Ok (b : Board) (px py : Z) :
  0 <= px < width b -> 0 <= py < height b ->
  Point_init b px py = Ok (mkPoint px py (ident b)).
Proof.
  intros. unfold Point_init. split_bools; simpl; try reflexivity; lia.
Qed.

Lemma Point_init_inv (b : Board) (px py : Z) (p : Point) :
  Point_init b px py = Ok p ->
  p = mkPoint px py (ident b) /\ 0 <= px < width b /\ 0 <= py < height b.
Proof.
  unfold Point_init. split_bools; simpl; intros E; inversion E; subst;
    repeat split; lia.
Qed.

Lemma Point_init_on_board (b : Board) (px py : Z) (p : Point) :
  Point_init b px py = Ok p -> on_board b p.
Proof.
  intros E. destruct (Point_init_inv _ _ _ _ E) as (-> & ? & ?).
  unfold on_board; simpl. now apply Point_init_Ok.
Qed.

Lemma Point_init_cases (b : Board) (px py : Z) :
  Point_init b px py = Ok (mkPoint px py (ident b)) \/
  Point_init b px py = Raise OOBError.
Proof. unfold Point_init. destruct (_ && _); auto. Qed.

(** ** [Board.inline] *)

Section Extend.
Variables (b : Board) (h : Point) (line : list Point).
Hypothesis Hh : on_board b h.

Ltac extend_tac Hh :=
  apply on_board_inv in Hh; destruct h as [hx hy hb]; simpl in *;
  unfold extend, ray_beyond, in_bounds, range_from, Point_init; simpl;
  rewrite ?Z.add_0_r, ?Z.geb_leb;
  split_bools; simpl; rewrite ?app_nil_r, <- ?app_assoc; simpl;
  try reflexivity; try lia.

Lemma extend_down :
  extend b (fun i => y h + i <? height b) (fun _ => x h) (fun i => y h + i)
         (range_from 1 3) line = Ok (line ++ ray_beyond b h 0 1).
Proof. extend_tac Hh. Qed.

Lemma extend_up :
  extend b (fun i => y h - i >=? 0) (fun _ => x h) (fun i => y h - i)
         (range_from 1 3) line = Ok (line ++ ray_beyond b h 0 (-1)).
Proof. extend_tac Hh. Qed.

Lemma extend_right :
  extend b (fun i => x h + i <? width b) (fun i => x h + i) (fun _ => y h)
         (range_from 1 3) line = Ok (line ++ ray_beyond b h 1 0).
Proof. extend_tac Hh. Qed.

Lemma extend_left :
  extend b (fun i => x h - i >=? 0) (fun i => x h - i) (fun _ => y h)
         (range_from 1 3) line = Ok (line ++ ray_beyond b h (-1) 0).
Proof. extend_tac Hh. Qed.

(** The loop whose guard reads [h2.x - 1] whatever [i] is: at [i = 2] and
    [h.x = 1] the guard lets [Point(self, -1, h.y)] be tried, OOBError is
    caught and the loop ends, with the same list. *)
Lemma extend_left_once :
  extend b (fun _ => x h - 1 >=? 0) (fun i => x h - i) (fun _ => y h)
         (range_from 1 3) line = Ok (line ++ ray_beyond b h (-1) 0).
Proof. extend_tac Hh. Qed.
End Extend.

Lemma ray_beyond_length (b : Board) (h : Point) (dx dy : Z) :
  (List.length (ray_beyond b h dx dy) <= 2)%nat.
Proof. unfold ray_beyond. repeat destruct (in_bounds _ _ _); simpl; lia. Qed.

Lemma ray_beyond_full (b : Board) (h : Point) (dx dy : Z) :
  in_bounds b (x h + dx) (y h + dy) = true ->
  in_bounds b (x h + 2 * dx) (y h + 2 * dy) = true ->
  List.length (ray_beyond b h dx dy) = 2%nat.
Proof. unfold ray_beyond. intros -> ->. reflexivity. Qed.

Lemma inline_same (b : Board) (h1 h2 : Point) :
  Point_eq h1 h2 = true -> inline b h1 h2 = Ok [].
Proof.
  intros E. apply Point_eq_iff in E. destruct E as [Ex Ey].
  unfold inline, Point_lt, Point_gt. rewrite Ex, Ey, Z.eqb_refl, Z.ltb_irrefl.
  rewrite Z.gtb_ltb, Z.ltb_irrefl. reflexivity.
Qed.

Lemma inline_refines (b : Board) (h1 h2 : Point) :
  on_board b h1 -> on_board b h2 -> colinear h1 h2 -> Point_eq h1 h2 = false ->
  inline b h1 h2 = Ok (line_between b h1 h2).
Proof.
  intros H1 H2 Hcol Hne.
  assert (Hd : x h1 <> x h2 \/ y h1 <> y h2).
  { destruct (Z.eq_dec (x h1) (x h2)); [|auto].
    destruct (Z.eq_dec (y h1) (y h2)); [|auto].
    assert (Point_eq h1 h2 = true) by (apply Point_eq_iff; auto). congruence. }
  unfold inline, line_between, Point_gt, Point_lt.
  destruct (Z.eqb_spec (x h1) (x h2)) as [Ex | Ex].
  - replace (x h2 - x h1) with 0 by lia. simpl Z.sgn. simpl Z.opp.
    destruct (Z.ltb_spec (y h1) (y h2)) as [L | L].
    + rewrite extend_down by assumption. cbn [bind].
      rewrite extend_up by assumption.
      rewrite (proj2 (Z.sgn_pos_iff _)) by lia. reflexivity.
    + rewrite Z.gtb_ltb.
      destruct (Z.ltb_spec (y h2) (y h1)) as [G | G]; [|lia].
      rewrite extend_up by assumption. cbn [bind].
      rewrite extend_down by assumption.
      rewrite (proj2 (Z.sgn_neg_iff _)) by lia. reflexivity.
  - assert (Ey : y h1 = y h2) by (destruct Hcol; [contradiction | assumption]).
    replace (y h2 - y h1) with 0 by lia. simpl Z.sgn. simpl Z.opp.
    destruct (Z.ltb_spec (x h1) (x h2)) as [L | L].
    + rewrite extend_right by assumption. cbn [bind].
      rewrite extend_left by assumption.
      rewrite (proj2 (Z.sgn_pos_iff _)) by lia. reflexivity.
    + rewrite Z.gtb_ltb.
      destruct (Z.ltb_spec (x h2) (x h1)) as [G | G]; [|lia].
      rewrite extend_left_once by assumption. cbn [bind].
      rewrite extend_right by assumption.
      rewrite (proj2 (Z.sgn_neg_iff _)) by lia. reflexivity.
Qed.

(** C6.  On two distinct Points of the Board that share a row or a column,
    [inline] returns exactly the specification's sequence: up to 2 Points
    beyond [h2] on the ray from [h1] through [h2], then up to 2 Points beyond
    [h1] on the ray from [h2] through [h1], each ray cut at the first
    candidate out of bounds; at most 4 Points, exactly 4 when the second
    candidate of each ray is within bounds.  On [h1 == h2] it returns the
    empty list. *)
Theorem inline_line_between :
  forall (b : Board) (h1 h2 : Point),
    on_board b h1 -> on_board b h2 -> colinear h1 h2 ->
    (Point_eq h1 h2 = true -> inline b h1 h2 = Ok []) /\
    (Point_eq h1 h2 = false ->
       let dx := Z.sgn (x h2 - x h1) in
       let dy := Z.sgn (y h2 - y h1) in
       inline b h1 h2 = Ok (ray_beyond b h2 dx dy ++ ray_beyond b h1 (- dx) (- dy)) /\
       (List.length (line_between b h1 h2) <= 4)%nat /\
       (in_bounds b (x h2 + 2 * dx) (y h2 + 2 * dy) = true ->
        in_bounds b (x h1 - 2 * dx) (y h1 - 2 * dy) = true ->
        List.length (line_between b h1 h2) = 4%nat)).
Proof.
  intros b h1 h2 H1 H2 Hcol. split; [apply inline_same|].
  intros Hne dx dy. split; [now apply inline_refines|].
  unfold line_between. fold dx dy. rewrite length_app.
  pose proof (ray_beyond_length b h2 dx dy).
  pose proof (ray_beyond_length b h1 (- dx) (- dy)).
  split; [lia|].
  intros F B.
  apply on_board_inv in H1, H2.
  assert (Hsx : -1 <= dx <= 1) by (unfold dx; lia).
  assert (Hsy : -1 <= dy <= 1) by (unfold dy; lia).
  rewrite !ray_beyond_full; try reflexivity.
  - revert B. unfold in_bounds. rewrite !andb_true_iff, !Z.leb_le, !Z.ltb_lt. lia.
  - revert B. replace (x h1 + 2 * - dx) with (x h1 - 2 * dx) by lia.
    replace (y h1 + 2 * - dy) with (y h1 - 2 * dy) by lia. auto.
  - revert F. unfold in_bounds. rewrite !andb_true_iff, !Z.leb_le, !Z.ltb_lt. lia.
  - assumption.
Qed.

(** Two hits at [E4] then [E5] on an empty 10x10 Board give
    [E6, E7, E3, E2]. *)
Lemma inline_line_between_witness :
  inline (Board_init 1 "P") (mkPoint 4 4 1) (mkPoint 4 5 1)
  = Ok [mkPoint 4 6 1; mkPoint 4 7 1; mkPoint 4 3 1; mkPoint 4 2 1].
Proof.
  destruct (inline_line_between (Board_init 1 "P")
              (mkPoint 4 4 1) (mkPoint 4 5 1)) as [_ H].
  - reflexivity.
  - reflexivity.
  - left; reflexivity.
  - destruct (H eq_refl) as [E _]. exact E.
Defined.

(** ** Comprehensions of Points *)

Lemma in_bounds_iff (b : Board) (px py : Z) :
  in_bounds b px py = true <-> 0 <= px < width b /\ 0 <= py < height b.
Proof.
  unfold in_bounds. rewrite !andb_true_iff, !Z.leb_le, !Z.ltb_lt. lia.
Qed.

Lemma Point_init_in_bounds (b : Board) (px py : Z) :
  Point_init b px py =
  if in_bounds b px py then Ok (mkPoint px py (ident b)) else Raise OOBError.
Proof.
  unfold Point_init, in_bounds. rewrite !Z.geb_leb.
  destruct (px <? width b), (py <? height b), (0 <=? px), (0 <=? py); reflexivity.
Qed.

Lemma on_board_iff (b : Board) (p : Point) :
  on_board b p <-> in_bounds b (x p) (y p) = true /\ board p = ident b.
Proof.
  unfold on_board. rewrite Point_init_in_bounds. destruct p as [px py pb]; simpl.
  destruct (in_bounds b px py); split.
  - intros E; inversion E; auto.
  - intros [_ ->]; reflexivity.
  - discriminate.
  - intros [? _]; discriminate.
Qed.

Lemma mapM_ext {A B : Type} (f g : A -> outcome B) (l : list A) :
  (forall a, In a l -> f a = g a) -> mapM f l = mapM g l.
Proof.
  induction l as [|a l IH]; intros H; simpl; [reflexivity|].
  rewrite (H a) by (left; reflexivity). rewrite IH; [reflexivity|].
  intros; apply H; right; assumption.
Qed.

Lemma mapM_map {A B C : Type} (f : B -> outcome C) (g : A -> B) (l : list A) :
  mapM f (map g l) = mapM (fun a => f (g a)) l.
Proof. induction l as [|a l IH]; simpl; [reflexivity|]. now rewrite IH. Qed.

Section PointComprehension.
Variables (A : Type) (b : Board) (fx fy : A -> Z).

Lemma mapM_Point_init_Ok (l : list A) :
  (forall a, In a l -> in_bounds b (fx a) (fy a) = true) ->
  mapM (fun a => Point_init b (fx a) (fy a)) l
  = Ok (map (fun a => mkPoint (fx a) (fy a) (ident b)) l).
Proof.
  induction l as [|a l IH]; intros H; simpl; [reflexivity|].
  rewrite Point_init_in_bounds, (H a) by (left; reflexivity). simpl.
  rewrite IH by (intros; apply H; right; assumption). reflexivity.
Qed.

Lemma mapM_Point_init_OOB (l : list A) :
  (exists a, In a l /\ in_bounds b (fx a) (fy a) = false) ->
  mapM (fun a => Point_init b (fx a) (fy a)) l = Raise OOBError.
Proof.
  induction l as [|a l IH]; intros (a0 & Hin & Hout); simpl; [destruct Hin|].
  rewrite Point_init_in_bounds.
  destruct (in_bounds b (fx a) (fy a)) eqn:E; [|reflexivity]. simpl.
  destruct Hin as [-> | Hin]; [congruence|].
  rewrite IH by (exists a0; auto). reflexivity.
Qed.

Lemma mapM_Point_init_cases (l : list A) :
  (forall a, In a l -> in_bounds b (fx a) (fy a) = true) \/
  (exists a, In a l /\ in_bounds b (fx a) (fy a) = false).
Proof.
  induction l as [|a l IH]; [left; intros ? []|].
  destruct (in_bounds b (fx a) (fy a)) eqn:E.
  - destruct IH as [IH | (a0 & ? & ?)].
    + left. intros a0 [<- | ?]; auto.
    + right. exists a0. split; [right|]; assumption.
  - right. exists a. split; [left; reflexivity | assumption].
Qed.
End PointComprehension.

(** ** Sorting *)

Lemma insert_sorted_last (p : Point) (l : list Point) :
  (forall e, In e l -> Point_lt p e = false) -> insert_sorted p l = l ++ [p].
Proof.
  induction l as [|e l IH]; intros H; simpl; [reflexivity|].
  rewrite (H e) by (left; reflexivity). rewrite IH; [reflexivity|].
  intros; apply H; right; assumption.
Qed.

Lemma insert_sorted_first (p : Point) (l : list Point) :
  (forall e, In e l -> Point_lt p e = true) -> insert_sorted p l = p :: l.
Proof.
  destruct l as [|e l]; intros H; simpl; [reflexivity|].
  now rewrite (H e) by (left; reflexivity).
Qed.

Lemma sort_ascending (l acc : list Point) :
  ForallOrdPairs (fun a c => Point_lt c a = false) (acc ++ l) ->
  fold_left (fun acc p => insert_sorted p acc) l acc = acc ++ l.
Proof.
  revert acc. induction l as [|p l IH]; intros acc H; simpl.
  - now rewrite app_nil_r.
  - assert (E : insert_sorted p acc = acc ++ [p]).
    { apply insert_sorted_last. intros e He.
      clear IH. induction acc as [|a acc IHa]; [destruct He|].
      simpl in H. inversion H as [|? ? Ha Hr]; subst.
      destruct He as [<- | He].
      - rewrite Forall_forall in Ha. apply Ha. apply in_or_app. right. left. reflexivity.
      - apply IHa; assumption. }
    rewrite E, IH.
    + rewrite <- app_assoc. reflexivity.
    + rewrite <- app_assoc. exact H.
Qed.

Lemma sort_descending (l acc : list Point) :
  ForallOrdPairs (fun a c => Point_lt c a = true) (rev acc ++ l) ->
  fold_left (fun acc p => insert_sorted p acc) l acc = rev l ++ acc.
Proof.
  revert acc. induction l as [|p l IH]; intros acc H; simpl; [reflexivity|].
  assert (E : insert_sorted p acc = p :: acc).
  { apply insert_sorted_first. intros e He. apply in_rev in He.
    clear IH. induction (rev acc) as [|a racc IHa]; [destruct He|].
    simpl in H. inversion H as [|? ? Ha Hr]; subst.
    destruct He as [<- | He].
    - rewrite Forall_forall in Ha. apply Ha. apply in_or_app. right. left. reflexivity.
    - apply IHa; assumption. }
  rewrite E, IH.
  - rewrite <- app_assoc. reflexivity.
  - simpl. rewrite <- app_assoc. exact H.
Qed.

Lemma ordered_map_seq (R : Point -> Point -> Prop) (g : nat -> Point) (start len : nat) :
  (forall i j : nat, (i < j)%nat -> R (g i) (g j)) ->
  ForallOrdPairs R (map g (seq start len)).
Proof.
  intros H. revert start. induction len as [|len IH]; intros start; simpl.
  - constructor.
  - constructor; [|apply IH].
    apply Forall_forall. intros p Hp. apply in_map_iff in Hp.
    destruct Hp as (j & <- & Hj). apply in_seq in Hj. apply H. lia.
Qed.

Lemma rev_seq (n : nat) :
  rev (seq 0 n) = map (fun i => (n - 1 - i)%nat) (seq 0 n).
Proof.
  induction n as [|n IH]; [reflexivity|].
  rewrite seq_S at 1. rewrite rev_app_distr. simpl rev. simpl app.
  rewrite IH. change (seq 0 (S n)) with (0%nat :: seq 1 n). cbn [map].
  replace (S n - 1 - 0)%nat with n by lia. apply f_equal.
  rewrite <- seq_shift, map_map. apply map_ext_in.
  intros i Hi. apply in_seq in Hi. lia.
Qed.

Lemma Point_lt_asym (p q : Point) : Point_lt p q = true -> Point_lt q p = false.
Proof.
  intros H. apply not_true_iff_false. rewrite Point_lt_iff in *. lia.
Qed.

Lemma sort_map_ascending (g : nat -> Point) (len : nat) :
  (forall i j : nat, (i < j)%nat -> Point_lt (g i) (g j) = true) ->
  list_sort (map g (seq 0 len)) = map g (seq 0 len).
Proof.
  intros H. unfold list_sort. rewrite sort_ascending; [reflexivity|].
  simpl. apply ordered_map_seq. intros i j Hij. apply Point_lt_asym, H, Hij.
Qed.

Lemma sort_map_descending (g : nat -> Point) (len : nat) :
  (forall i j : nat, (i < j)%nat -> Point_lt (g j) (g i) = true) ->
  list_sort (map g (seq 0 len)) = map (fun i => g (len - 1 - i)%nat) (seq 0 len).
Proof.
  intros H. unfold list_sort. rewrite sort_descending.
  - rewrite app_nil_r, <- map_rev, rev_seq, map_map. reflexivity.
  - simpl. apply ordered_map_seq. intros i j Hij. apply H, Hij.
Qed.

(** ** Ship construction *)

Lemma direct_cases (d : string) :
  str_in d direct = true ->
  d = "down"%string \/ d = "up"%string \/ d = "left"%string \/ d = "right"%string.
Proof.
  unfold str_in, direct. simpl. rewrite !orb_true_iff, !String.eqb_eq.
  intuition discriminate.
Qed.

Lemma length_cases (k : string) (len : nat) :
  lookup k length_table = Some len ->
  (k = "battleship"%string /\ len = 4%nat) \/ (k = "cruiser"%string /\ len = 3%nat) \/
  (k = "destroyer"%string /\ len = 2%nat) \/ (k = "submarine"%string /\ len = 1%nat).
Proof.
  unfold lookup, length_table.
  repeat match goal with
  | |- context [String.eqb ?a ?c] => destruct (String.eqb_spec a c)
  end; intros E; inversion E; subst; auto 10.
Qed.

Lemma length_range (k : string) (len : nat) :
  lookup k length_table = Some len -> (1 <= len <= 4)%nat.
Proof. intros H. apply length_cases in H. lia. Qed.

(** The comprehension that fits the direction is the comprehension over the
    computed coordinates. *)
Lemma ext_comprehension (b : Board) (point : Point) (d : string) (len : nat) :
  str_in d direct = true ->
  (if String.eqb d "down"%string
   then mapM (fun n => Point_init b (x point) (y point + n)) (range len)
   else if String.eqb d "up"%string
   then mapM (fun n => Point_init b (x point) (y point - n)) (range len)
   else if String.eqb d "right"%string
   then mapM (fun n => Point_init b (x point + n) (y point)) (range len)
   else mapM (fun n => Point_init b (x point - n) (y point)) (range len))
  = mapM (fun c => Point_init b (fst c) (snd c)) (computed point d len).
Proof.
  intros Hd. unfold computed. rewrite mapM_map.
  destruct (direct_cases _ Hd) as [-> | [-> | [-> | ->]]]; simpl;
    apply mapM_ext; intros n _; f_equal; lia.
Qed.

Lemma sort_computed (bid : nat) (point : Point) (d : string) (len : nat) :
  str_in d direct = true ->
  list_sort (map (fun c => mkPoint (fst c) (snd c) bid) (computed point d len))
  = segment bid (fst (lowest point d len)) (snd (lowest point d len))
            (horizontal d) len.
Proof.
  intros Hd. unfold computed, segment, range. rewrite !map_map.
  destruct (direct_cases _ Hd) as [-> | [-> | [-> | ->]]]; simpl.
  - rewrite sort_map_ascending.
    + apply map_ext. intros n. f_equal; lia.
    + intros i j Hij. apply Point_lt_iff; simpl. lia.
  - rewrite sort_map_descending.
    + apply map_ext_in. intros n Hn. apply in_seq in Hn. f_equal; lia.
    + intros i j Hij. apply Point_lt_iff; simpl. lia.
  - rewrite sort_map_descending.
    + apply map_ext_in. intros n Hn. apply in_seq in Hn. f_equal; lia.
    + intros i j Hij. apply Point_lt_iff; simpl. lia.
  - rewrite sort_map_ascending.
    + apply map_ext. intros n. f_equal; lia.
    + intros i j Hij. apply Point_lt_iff; simpl. lia.
Qed.

Lemma py_nth_first {A : Type} (a : A) (l : list A) : py_nth (a :: l) 0 = Ok a.
Proof.
  unfold py_nth, py_index. simpl List.length.
  destruct (Z.ltb_spec 0 (Z.of_nat (S (List.length l)))); [reflexivity | lia].
Qed.

Lemma py_nth_last_map {A : Type} (g : Z -> A) (len : nat) :
  (1 <= len)%nat ->
  py_nth (map g (range len)) (-1) = Ok (g (Z.of_nat len - 1)).
Proof.
  intros Hlen. unfold py_nth, py_index, range.
  rewrite !length_map, length_seq.
  change (0 <=? -1) with false. change (-1 <? 0) with true.
  destruct (Z.leb_spec (- Z.of_nat len) (-1)); [|lia]. cbn [andb bind].
  rewrite map_map.
  rewrite (nth_error_nth' _ (g 0)) by (rewrite length_map, length_seq; lia).
  rewrite (map_nth (fun n => g (Z.of_nat n)) (seq 0 len) 0%nat).
  rewrite seq_nth by lia. f_equal. f_equal. lia.
Qed.

Lemma segment_in (bid : nat) (ox oy : Z) (hz : bool) (len : nat) (p : Point) :
  In p (segment bid ox oy hz len) <->
  exists n, 0 <= n < Z.of_nat len /\
            p = if hz then mkPoint (ox + n) oy bid else mkPoint ox (oy + n) bid.
Proof.
  unfold segment, range. rewrite map_map, in_map_iff. split.
  - intros (i & <- & Hi). apply in_seq in Hi. exists (Z.of_nat i). split; [lia | reflexivity].
  - intros (n & Hn & ->). exists (Z.to_nat n). rewrite Z2Nat.id by lia.
    split; [reflexivity | apply in_seq; lia].
Qed.

Lemma segment_first (bid : nat) (ox oy : Z) (hz : bool) (len : nat) :
  (1 <= len)%nat ->
  exists tl, segment bid ox oy hz len = mkPoint ox oy bid :: tl.
Proof.
  destruct len as [|len]; [lia|]. intros _. unfold segment, range. simpl.
  rewrite !Z.add_0_r. destruct hz; eexists; reflexivity.
Qed.

Section Buffers.
Variables (b : Board) (point : Point) (len : nat).
Hypothesis Hlen : (1 <= len)%nat.

Lemma buffer_row_segment (ox : Z) :
  in_bounds b ox (y point) = true ->
  in_bounds b (ox + (Z.of_nat len - 1)) (y point) = true ->
  buffer_row b point (segment (ident b) ox (y point) true len)
  = Ok (row_buffer b ox (y point) len).
Proof.
  intros Hlo Hhi. apply in_bounds_iff in Hlo, Hhi.
  unfold buffer_row, row_buffer.
  destruct (segment_first (ident b) ox (y point) true len Hlen) as [tl Etl].
  rewrite Etl at 1. rewrite py_nth_first. cbn [bind x y].
  assert (Hseg : forall p, In p (segment (ident b) ox (y point) true len) ->
                           ox <= x p <= ox + (Z.of_nat len - 1) /\ y p = y point).
  { intros p Hp. apply segment_in in Hp. destruct Hp as (n & Hn & ->). simpl. lia. }
  unfold segment at 3. rewrite py_nth_last_map by assumption. cbn [x y].
  destruct (Z.gtb_spec ox 0) as [G1 | G1].
  - rewrite Point_init_Ok by lia. cbn [bind app].
    destruct (Z.gtb_spec (y point) 0) as [G2 | G2];
      destruct (Z.ltb_spec (y point + 1) (height b)) as [G3 | G3];
      destruct (ox + (Z.of_nat len - 1) + 1 <? width b) eqn:E4;
      try (pose proof (proj1 (Z.ltb_lt _ _) E4));
      rewrite ?mapM_Point_init_Ok
        by (intros p Hp; apply Hseg in Hp; apply in_bounds_iff; lia);
      cbn [bind x y]; rewrite ?E4; rewrite ?Point_init_Ok by lia; cbn [bind];
      rewrite <- ?app_assoc, ?app_nil_r; reflexivity.
  - cbn [bind app].
    destruct (Z.gtb_spec (y point) 0) as [G2 | G2];
      destruct (Z.ltb_spec (y point + 1) (height b)) as [G3 | G3];
      destruct (ox + (Z.of_nat len - 1) + 1 <? width b) eqn:E4;
      try (pose proof (proj1 (Z.ltb_lt _ _) E4));
      rewrite ?mapM_Point_init_Ok
        by (intros p Hp; apply Hseg in Hp; apply in_bounds_iff; lia);
      cbn [bind x y]; rewrite ?E4; rewrite ?Point_init_Ok by lia; cbn [bind];
      rewrite <- ?app_assoc, ?app_nil_r; reflexivity.
Qed.

Lemma buffer_column_segment (oy : Z) :
  in_bounds b (x point) oy = true ->
  in_bounds b (x point) (oy + (Z.of_nat len - 1)) = true ->
  buffer_column b point (segment (ident b) (x point) oy false len)
  = Ok (column_buffer b (x point) oy len).
Proof.
  intros Hlo Hhi. apply in_bounds_iff in Hlo, Hhi.
  unfold buffer_column, column_buffer.
  destruct (segment_first (ident b) (x point) oy false len Hlen) as [tl Etl].
  rewrite Etl at 1. rewrite py_nth_first. cbn [bind x y].
  assert (Hseg : forall p, In p (segment (ident b) (x point) oy false len) ->
                           oy <= y p <= oy + (Z.of_nat len - 1) /\ x p = x point).
  { intros p Hp. apply segment_in in Hp. destruct Hp as (n & Hn & ->). simpl. lia. }
  unfold segment at 3. rewrite py_nth_last_map by assumption. cbn [x y].
  destruct (Z.gtb_spec oy 0) as [G1 | G1].
  - rewrite Point_init_Ok by lia. cbn [bind app].
    destruct (Z.gtb_spec (x point) 0) as [G2 | G2];
      destruct (Z.ltb_spec (x point + 1) (width b)) as [G3 | G3];
      destruct (oy + (Z.of_nat len - 1) + 1 <? height b) eqn:E4;
      try (pose proof (proj1 (Z.ltb_lt _ _) E4));
      rewrite ?mapM_Point_init_Ok
        by (intros p Hp; apply Hseg in Hp; apply in_bounds_iff; lia);
      cbn [bind x y]; rewrite ?E4; rewrite ?Point_init_Ok by lia; cbn [bind];
      rewrite <- ?app_assoc, ?app_nil_r; reflexivity.
  - cbn [bind app].
    destruct (Z.gtb_spec (x point) 0) as [G2 | G2];
      destruct (Z.ltb_spec (x point + 1) (width b)) as [G3 | G3];
      destruct (oy + (Z.of_nat len - 1) + 1 <? height b) eqn:E4;
      try (pose proof (proj1 (Z.ltb_lt _ _) E4));
      rewrite ?mapM_Point_init_Ok
        by (intros p Hp; apply Hseg in Hp; apply in_bounds_iff; lia);
      cbn [bind x y]; rewrite ?E4; rewrite ?Point_init_Ok by lia; cbn [bind];
      rewrite <- ?app_assoc, ?app_nil_r; reflexivity.
Qed.
End Buffers.

Lemma computed_in (origin : Point) (d : string) (len : nat) (c : Z * Z) :
  In c (computed origin d len) <->
  exists n, 0 <= n < Z.of_nat len /\
            c = (x origin + n * fst (step d), y origin + n * snd (step d)).
Proof.
  unfold computed, range. rewrite map_map, in_map_iff. split.
  - intros (i & <- & Hi). apply in_seq in Hi. exists (Z.of_nat i). split; [lia | reflexivity].
  - intros (n & Hn & ->). exists (Z.to_nat n). rewrite Z2Nat.id by lia.
    split; [reflexivity | apply in_seq; lia].
Qed.

Lemma existsb_false_iff {A : Type} (f : A -> bool) (l : list A) :
  existsb f l = false <-> forall a, In a l -> f a = false.
Proof.
  induction l as [|a l IH]; simpl.
  - split; [intros _ ? [] | reflexivity].
  - rewrite orb_false_iff, IH. split.
    + intros [Ha Hl] a0 [<- | Hin]; auto.
    + intros H. split; [apply H; left; reflexivity | intros; apply H; right; assumption].
Qed.

Section ShipInit.
Variables (b : Board) (origin : Point) (d knd : string).

Lemma Ship_init_bad_kind :
  lookup knd length_table = None -> Ship_init b origin d knd = (b, Raise InputError).
Proof. intros E. unfold Ship_init. rewrite E. reflexivity. Qed.

Lemma Ship_init_bad_direction :
  str_in d direct = false -> Ship_init b origin d knd = (b, Raise InputError).
Proof.
  intros E. unfold Ship_init. rewrite E.
  destruct (lookup knd length_table); reflexivity.
Qed.

Variable len : nat.
Hypothesis Hkind : lookup knd length_table = Some len.
Hypothesis Hdir : str_in d direct = true.

Lemma Ship_init_out_of_bounds :
  (exists c, In c (computed origin d len) /\ in_bounds b (fst c) (snd c) = false) ->
  Ship_init b origin d knd = (b, Raise OOBError).
Proof.
  intros H. unfold Ship_init. rewrite Hkind, Hdir. cbn [negb].
  rewrite ext_comprehension by assumption.
  rewrite mapM_Point_init_OOB by assumption. reflexivity.
Qed.

Hypothesis Hin : forall c, In c (computed origin d len) -> in_bounds b (fst c) (snd c) = true.

Lemma Ship_init_overlap :
  (exists c, In c (computed origin d len) /\ isoverlap b (point_at b c) = true) ->
  Ship_init b origin d knd = (b, Raise OverlapError).
Proof.
  intros (c & Hc & Ho). unfold Ship_init. rewrite Hkind, Hdir. cbn [negb].
  rewrite ext_comprehension by assumption.
  rewrite mapM_Point_init_Ok by assumption. cbn [bind].
  replace (existsb _ _) with true; [reflexivity|].
  symmetry. apply existsb_exists. exists (point_at b c). split; [|assumption].
  apply in_map_iff. exists c. split; [reflexivity | assumption].
Qed.

Lemma lowest_in_bounds :
  let lo := lowest origin d len in
  in_bounds b (fst lo) (snd lo) = true /\
  (if horizontal d
   then snd lo = y origin /\ in_bounds b (fst lo + (Z.of_nat len - 1)) (snd lo) = true
   else fst lo = x origin /\ in_bounds b (fst lo) (snd lo + (Z.of_nat len - 1)) = true).
Proof.
  pose proof (length_range _ _ Hkind) as Hlen.
  assert (H0 : in_bounds b (x origin) (y origin) = true).
  { specialize (Hin (x origin, y origin)). apply Hin. apply computed_in.
    exists 0. split; [lia|]. f_equal; lia. }
  assert (H1 : in_bounds b (x origin + (Z.of_nat len - 1) * fst (step d))
                         (y origin + (Z.of_nat len - 1) * snd (step d)) = true).
  { apply (Hin (_, _)). apply computed_in. exists (Z.of_nat len - 1). split; [lia | reflexivity]. }
  apply in_bounds_iff in H0, H1. revert H1. unfold lowest, horizontal.
  destruct (direct_cases _ Hdir) as [-> | [-> | [-> | ->]]]; cbn; intros H1;
    rewrite !in_bounds_iff; repeat split; lia.
Qed.

Lemma Ship_init_success :
  (forall c, In c (computed origin d len) -> isoverlap b (point_at b c) = false) ->
  let s := built_ship b origin d knd len in
  Ship_init b origin d knd = (set_content b (content b ++ [s]), Ok s).
Proof.
  intros Hno s. pose proof (length_range _ _ Hkind) as Hlen.
  unfold Ship_init. rewrite Hkind, Hdir. cbn [negb].
  rewrite ext_comprehension by assumption.
  rewrite mapM_Point_init_Ok by assumption. cbn [bind].
  replace (existsb _ _) with false.
  2:{ symmetry. apply existsb_false_iff. intros p Hp. apply in_map_iff in Hp.
      destruct Hp as (c & <- & Hc). apply Hno, Hc. }
  rewrite sort_computed by assumption.
  destruct lowest_in_bounds as [Hlo Hhi]. fold (horizontal d).
  unfold s, built_ship.
  destruct (horizontal d) eqn:Hh.
  - destruct Hhi as [Ey Hhi]. rewrite Ey in *.
    rewrite buffer_row_segment by (assumption || lia). reflexivity.
  - destruct Hhi as [Ex Hhi]. rewrite Ex in *.
    rewrite buffer_column_segment by (assumption || lia). reflexivity.
Qed.
End ShipInit.

(** What a call that returned a Ship did. *)
Lemma Ship_init_Ok_inv (b b' : Board) (origin : Point) (d knd : string) (s : Ship) :
  Ship_init b origin d knd = (b', Ok s) ->
  exists len,
    lookup knd length_table = Some len /\ str_in d direct = true /\
    (forall c, In c (computed origin d len) ->
               in_bounds b (fst c) (snd c) = true /\ isoverlap b (point_at b c) = false) /\
    s = built_ship b origin d knd len /\
    b' = set_content b (content b ++ [s]).
Proof.
  intros E.
  destruct (lookup knd length_table) as [len|] eqn:Hk.
  2:{ rewrite Ship_init_bad_kind in E by assumption. inversion E. }
  destruct (str_in d direct) eqn:Hd.
  2:{ rewrite Ship_init_bad_direction in E by assumption. inversion E. }
  destruct (mapM_Point_init_cases (Z * Z) b fst snd (computed origin d len)) as [Hin | Hout].
  2:{ rewrite (Ship_init_out_of_bounds b origin d knd len) in E by assumption. inversion E. }
  destruct (existsb (fun c => isoverlap b (point_at b c)) (computed origin d len)) eqn:Ho.
  { apply existsb_exists in Ho.
    rewrite (Ship_init_overlap b origin d knd len) in E by assumption. inversion E. }
  rewrite existsb_false_iff in Ho.
  rewrite (Ship_init_success b origin d knd len) in E by assumption.
  inversion E; subst. exists len. repeat split; auto.
Qed.

(** ** Geometry of a Ship *)

Lemma Point_is (p : Point) (a c : Z) (bid : nat) :
  p = mkPoint a c bid <-> x p = a /\ y p = c /\ board p = bid.
Proof.
  destruct p as [px py pb]; simpl. split.
  - intros E; inversion E; auto.
  - intros (-> & -> & ->); reflexivity.
Qed.

Lemma segment_row_in (bid : nat) (ox oy : Z) (len : nat) (p : Point) :
  In p (segment bid ox oy true len) <->
  board p = bid /\ ox <= x p < ox + Z.of_nat len /\ y p = oy.
Proof.
  rewrite segment_in. split.
  - intros (n & Hn & ->). simpl. lia.
  - intros (Hb & Hx & Hy). exists (x p - ox). split; [lia|].
    apply Point_is. repeat split; auto; lia.
Qed.

Lemma segment_column_in (bid : nat) (ox oy : Z) (len : nat) (p : Point) :
  In p (segment bid ox oy false len) <->
  board p = bid /\ x p = ox /\ oy <= y p < oy + Z.of_nat len.
Proof.
  rewrite segment_in. split.
  - intros (n & Hn & ->). simpl. lia.
  - intros (Hb & Hx & Hy). exists (y p - oy). split; [lia|].
    apply Point_is. repeat split; auto; lia.
Qed.

Lemma in_if_singleton (c : bool) (q a : Point) :
  In q (if c then [a] else []) <-> c = true /\ q = a.
Proof. destruct c; simpl; intuition (try discriminate; auto). Qed.

Lemma in_if_map (c : bool) (f : Point -> Point) (l : list Point) (q : Point) :
  In q (if c then map f l else []) <-> c = true /\ exists p, In p l /\ q = f p.
Proof.
  destruct c; simpl.
  - rewrite in_map_iff. split.
    + intros (p & <- & Hp). split; [reflexivity | exists p; auto].
    + intros (_ & p & Hp & ->). exists p; auto.
  - split; [intros [] | intros [? _]; discriminate].
Qed.

Lemma row_buffer_in (b : Board) (ox oy : Z) (len : nat) (q : Point) :
  In q (row_buffer b ox oy len) <->
  board q = ident b /\
  ((0 < ox /\ x q = ox - 1 /\ y q = oy) \/
   (0 < oy /\ ox <= x q < ox + Z.of_nat len /\ y q = oy - 1) \/
   (oy + 1 < height b /\ ox <= x q < ox + Z.of_nat len /\ y q = oy + 1) \/
   (ox + Z.of_nat len < width b /\ x q = ox + Z.of_nat len /\ y q = oy)).
Proof.
  unfold row_buffer. rewrite !in_app_iff, !in_if_singleton, !in_if_map.
  rewrite Z.gtb_ltb, !Z.ltb_lt, !Point_is. split.
  - intros [H | [(H & p & Hp & E) | [(H & p & Hp & E) | H]]];
      try (apply segment_row_in in Hp; apply Point_is in E; simpl in E); lia.
  - intros (Hb & [H | [H | [H | H]]]).
    + left. lia.
    + right; left. split; [lia|].
      exists (mkPoint (x q) oy (ident b)). rewrite segment_row_in, Point_is. simpl. lia.
    + right; right; left. split; [lia|].
      exists (mkPoint (x q) oy (ident b)). rewrite segment_row_in, Point_is. simpl. lia.
    + right; right; right. lia.
Qed.

Lemma column_buffer_in (b : Board) (ox oy : Z) (len : nat) (q : Point) :
  In q (column_buffer b ox oy len) <->
  board q = ident b /\
  ((0 < oy /\ x q = ox /\ y q = oy - 1) \/
   (0 < ox /\ oy <= y q < oy + Z.of_nat len /\ x q = ox - 1) \/
   (ox + 1 < width b /\ oy <= y q < oy + Z.of_nat len /\ x q = ox + 1) \/
   (oy + Z.of_nat len < height b /\ x q = ox /\ y q = oy + Z.of_nat len)).
Proof.
  unfold column_buffer. rewrite !in_app_iff, !in_if_singleton, !in_if_map.
  rewrite !Z.gtb_ltb, !Z.ltb_lt, !Point_is. split.
  - intros [H | [(H & p & Hp & E) | [(H & p & Hp & E) | H]]];
      try (apply segment_column_in in Hp; apply Point_is in E; simpl in E); lia.
  - intros (Hb & [H | [H | [H | H]]]).
    + left. lia.
    + right; left. split; [lia|].
      exists (mkPoint ox (y q) (ident b)). rewrite segment_column_in, Point_is. simpl. lia.
    + right; right; left. split; [lia|].
      exists (mkPoint ox (y q) (ident b)). rewrite segment_column_in, Point_is. simpl. lia.
    + right; right; right. lia.
Qed.

Lemma last_map_range {A : Type} (g : Z -> A) (len : nat) (d : A) :
  (1 <= len)%nat -> last (map g (range len)) d = g (Z.of_nat len - 1).
Proof.
  destruct len as [|len]; [lia|]. intros _. unfold range.
  rewrite seq_S, !map_app. cbn [map]. rewrite last_last. f_equal. lia.
Qed.

Lemma candidates_row_in (bid : nat) (d : string) (ox oy : Z) (len : nat) (q : Point) :
  horizontal d = true -> (1 <= len)%nat ->
  In q (buffer_candidates bid d (segment bid ox oy true len)) <->
  board q = bid /\
  ((x q = ox - 1 /\ y q = oy) \/ (x q = ox + Z.of_nat len /\ y q = oy) \/
   (ox <= x q < ox + Z.of_nat len /\ (y q = oy - 1 \/ y q = oy + 1))).
Proof.
  intros Hh Hlen. unfold buffer_candidates, axis. fold (horizontal d). rewrite Hh.
  destruct (segment_first bid ox oy true len Hlen) as [tl Etl].
  destruct (segment bid ox oy true len) as [|first tl'] eqn:Eseg; [discriminate|].
  inversion Etl; subst first tl'. rewrite <- Eseg.
  assert (El : forall d0, last (segment bid ox oy true len) d0
                          = mkPoint (ox + (Z.of_nat len - 1)) oy bid)
    by (intros d0; unfold segment; now rewrite last_map_range).
  rewrite El. cbn [x y].
  rewrite in_app_iff, in_flat_map. simpl In. split.
  - intros [[<- | [<- | []]] | (p & Hp & [<- | [<- | []]])];
      try apply segment_row_in in Hp; simpl; lia.
  - intros (Hb & [H | [H | H]]).
    + left. left. symmetry. apply Point_is. lia.
    + left. right. left. symmetry. apply Point_is. lia.
    + right. exists (mkPoint (x q) oy bid). rewrite segment_row_in. simpl.
      split; [lia|]. destruct H as [Hx [Hy | Hy]]; [left | right; left];
        symmetry; apply Point_is; lia.
Qed.

Lemma candidates_column_in (bid : nat) (d : string) (ox oy : Z) (len : nat) (q : Point) :
  horizontal d = false -> (1 <= len)%nat ->
  In q (buffer_candidates bid d (segment bid ox oy false len)) <->
  board q = bid /\
  ((x q = ox /\ y q = oy - 1) \/ (x q = ox /\ y q = oy + Z.of_nat len) \/
   (oy <= y q < oy + Z.of_nat len /\ (x q = ox - 1 \/ x q = ox + 1))).
Proof.
  intros Hh Hlen. unfold buffer_candidates, axis. fold (horizontal d). rewrite Hh.
  destruct (segment_first bid ox oy false len Hlen) as [tl Etl].
  destruct (segment bid ox oy false len) as [|first tl'] eqn:Eseg; [discriminate|].
  inversion Etl; subst first tl'. rewrite <- Eseg.
  assert (El : forall d0, last (segment bid ox oy false len) d0
                          = mkPoint ox (oy + (Z.of_nat len - 1)) bid)
    by (intros d0; unfold segment; now rewrite last_map_range).
  rewrite El. cbn [x y].
  rewrite in_app_iff, in_flat_map. simpl In. split.
  - intros [[<- | [<- | []]] | (p & Hp & [<- | [<- | []]])];
      try apply segment_column_in in Hp; simpl; lia.
  - intros (Hb & [H | [H | H]]).
    + left. left. symmetry. apply Point_is. lia.
    + left. right. left. symmetry. apply Point_is. lia.
    + right. exists (mkPoint ox (y q) bid). rewrite segment_column_in. simpl.
      split; [lia|]. destruct H as [Hx [Hy | Hy]]; [left | right; left];
        symmetry; apply Point_is; lia.
Qed.

Lemma isoverlap_iff (b : Board) (p : Point) :
  isoverlap b p = true <->
  exists ship, In ship (content b) /\
               (point_in p (ext ship) = true \/ point_in p (buffer ship) = true).
Proof.
  unfold isoverlap. rewrite existsb_exists. split.
  - intros (ship & Hs & H). apply orb_true_iff in H. exists ship. auto.
  - intros (ship & Hs & H). exists ship. split; [assumption | apply orb_true_iff, H].
Qed.

(** Every way a construction can end. *)
Lemma Ship_init_outcomes (b : Board) (origin : Point) (d knd : string) :
  Ship_init b origin d knd = (b, Raise InputError) \/
  Ship_init b origin d knd = (b, Raise OOBError) \/
  Ship_init b origin d knd = (b, Raise OverlapError) \/
  exists len, lookup knd length_table = Some len /\ str_in d direct = true /\
    Ship_init b origin d knd
    = (set_content b (content b ++ [built_ship b origin d knd len]),
       Ok (built_ship b origin d knd len)).
Proof.
  destruct (lookup knd length_table) as [len|] eqn:Hk.
  2:{ left. now apply Ship_init_bad_kind. }
  destruct (str_in d direct) eqn:Hd.
  2:{ left. now apply Ship_init_bad_direction. }
  destruct (mapM_Point_init_cases (Z * Z) b fst snd (computed origin d len)) as [Hin | Hout].
  2:{ right; left. now apply (Ship_init_out_of_bounds b origin d knd len). }
  destruct (existsb (fun c => isoverlap b (point_at b c)) (computed origin d len)) eqn:Ho.
  { apply existsb_exists in Ho. right; right; left.
    now apply (Ship_init_overlap b origin d knd len). }
  rewrite existsb_false_iff in Ho. right; right; right. exists len.
  repeat split; auto. now apply (Ship_init_success b origin d knd len).
Qed.

Lemma Ship_init_failure (b : Board) (origin : Point) (d knd : string) (e : exn) :
  snd (Ship_init b origin d knd) = Raise e -> fst (Ship_init b origin d knd) = b.
Proof.
  destruct (Ship_init_outcomes b origin d knd) as [E | [E | [E | (len & _ & _ & E)]]];
    rewrite E; simpl; [reflexivity .. | discriminate].
Qed.

(** C9.  A placement whose kind and direction are accepted fails with
    OOBError when one of the computed coordinates is outside the grid, and,
    when they are all inside, fails with OverlapError when one of them is in
    the [ext] or the [buffer] of a Ship of the Board.  Whenever [Ship.__init__]
    or [Board.place_ship] ends with an exception the Board is the Board
    before the call, and a Ship that was built is the only thing added to
    [content]. *)
Theorem placement_failures :
  forall (b : Board) (origin : Point) (d knd : string),
    (forall e, snd (Ship_init b origin d knd) = Raise e ->
               fst (Ship_init b origin d knd) = b) /\
    (forall order e, snd (place_ship b origin d order) = Raise e ->
                     fst (place_ship b origin d order) = b) /\
    (forall s, snd (Ship_init b origin d knd) = Ok s ->
               fst (Ship_init b origin d knd) = set_content b (content b ++ [s])) /\
    (forall len, lookup knd length_table = Some len -> str_in d direct = true ->
       ((exists c, In c (computed origin d len) /\ in_bounds b (fst c) (snd c) = false) ->
        Ship_init b origin d knd = (b, Raise OOBError)) /\
       ((forall c, In c (computed origin d len) -> in_bounds b (fst c) (snd c) = true) ->
        (exists c ship, In c (computed origin d len) /\ In ship (content b) /\
           (point_in (point_at b c) (ext ship) = true \/
            point_in (point_at b c) (buffer ship) = true)) ->
        Ship_init b origin d knd = (b, Raise OverlapError))).
Proof.
  intros b origin d knd. split; [|split; [|split]].
  - intros e. apply Ship_init_failure.
  - intros order e. unfold place_ship.
    repeat match goal with |- context [if ?c then _ else _] => destruct c end;
      apply Ship_init_failure.
  - intros s.
    destruct (Ship_init_outcomes b origin d knd) as [E | [E | [E | (len & _ & _ & E)]]];
      rewrite E; simpl; try discriminate.
    intros H; inversion H; subst; reflexivity.
  - intros len Hk Hd. split.
    + now apply Ship_init_out_of_bounds.
    + intros Hin (c & ship & Hc & Hs & Ho).
      apply (Ship_init_overlap b origin d knd len); auto.
      exists c. split; [assumption|]. apply isoverlap_iff. exists ship. auto.
Qed.

(** The specification's scenario: after a Destroyer at C3 towards the right,
    a Submarine at D3 is refused with OverlapError and the Board stays. *)
Lemma placement_failures_witness :
  Ship_init board_c3 (mkPoint 3 3 1) "down" "submarine" = (board_c3, Raise OverlapError).
Proof.
  destruct (placement_failures board_c3 (mkPoint 3 3 1) "down" "submarine")
    as (_ & _ & _ & H).
  destruct (H 1%nat eq_refl eq_refl) as [_ Hov].
  apply Hov.
  - intros c Hc. vm_compute in Hc. destruct Hc as [<- | []]. reflexivity.
  - exists (3, 3), (built_ship empty_board (mkPoint 2 3 1) "right" "destroyer" 2).
    split; [left; reflexivity|]. split; [left; reflexivity|]. left. reflexivity.
Defined.

(** C7.  The buffer of a Ship that was built holds exactly the candidates
    that lie within the Board: the coordinate before the first occupied one
    along the axis, the coordinate after the last one, and the two
    coordinates perpendicular to the axis at every occupied coordinate.  A
    Submarine built at A0, whatever the direction, occupies A0 alone and its
    buffer lies within A1 and B0. *)
Theorem buffer_is_clipped_candidates :
  forall (b b' : Board) (origin : Point) (d knd : string) (s : Ship),
    Ship_init b origin d knd = (b', Ok s) ->
    (forall q, In q (buffer s) <->
               In q (buffer_candidates (ident b) d (ext s)) /\
               in_bounds b (x q) (y q) = true) /\
    (knd = "submarine"%string -> x origin = 0 -> y origin = 0 ->
     ext s = [mkPoint 0 0 (ident b)] /\
     forall q, In q (buffer s) ->
               q = mkPoint 0 1 (ident b) \/ q = mkPoint 1 0 (ident b)).
Proof.
  intros b b' origin d knd s E.
  destruct (Ship_init_Ok_inv _ _ _ _ _ _ E) as (len & Hk & Hd & Hc & -> & _).
  pose proof (length_range _ _ Hk) as Hlen.
  assert (Hin : forall c, In c (computed origin d len) -> in_bounds b (fst c) (snd c) = true)
    by (intros c H; apply Hc, H).
  pose proof (lowest_in_bounds b origin d knd len Hk Hd Hin) as [Hlo Hhi].
  unfold built_ship; cbn [ext buffer].
  destruct (horizontal d) eqn:Hh.
  - destruct Hhi as [Ey Hhi]. apply in_bounds_iff in Hlo, Hhi. split.
    + intros q. rewrite row_buffer_in, candidates_row_in, in_bounds_iff by (assumption || lia).
      lia.
    + intros -> Ex0 Ey0. cbv in Hk. inversion Hk; subst len.
      assert (El : lowest origin d 1 = (0, 0)).
      { unfold lowest. rewrite Ex0, Ey0.
        destruct (String.eqb d "up"), (String.eqb d "left"); reflexivity. }
      rewrite El in *. cbn [fst snd] in *. split; [reflexivity|].
      intros q Hq. apply row_buffer_in in Hq.
      rewrite !Point_is. change (Z.of_nat 1) with 1 in Hq. lia.
  - destruct Hhi as [Ex Hhi]. apply in_bounds_iff in Hlo, Hhi. split.
    + intros q. rewrite column_buffer_in, candidates_column_in, in_bounds_iff
        by (assumption || lia).
      lia.
    + intros -> Ex0 Ey0. cbv in Hk. inversion Hk; subst len.
      assert (El : lowest origin d 1 = (0, 0)).
      { unfold lowest. rewrite Ex0, Ey0.
        destruct (String.eqb d "up"), (String.eqb d "left"); reflexivity. }
      rewrite El in *. cbn [fst snd] in *. split; [reflexivity|].
      intros q Hq. apply column_buffer_in in Hq.
      rewrite !Point_is. change (Z.of_nat 1) with 1 in Hq. lia.
Qed.

(** A Submarine at A0 pointing up on the empty Board. *)
Lemma buffer_is_clipped_candidates_witness :
  ext (built_ship empty_board (mkPoint 0 0 1) "up" "submarine" 1) = [mkPoint 0 0 1] /\
  buffer (built_ship empty_board (mkPoint 0 0 1) "up" "submarine" 1)
  = [mkPoint 1 0 1; mkPoint 0 1 1].
Proof.
  assert (E : Ship_init empty_board (mkPoint 0 0 1) "up" "submarine"
              = (set_content empty_board
                   [built_ship empty_board (mkPoint 0 0 1) "up" "submarine" 1],
                 Ok (built_ship empty_board (mkPoint 0 0 1) "up" "submarine" 1)))
    by reflexivity.
  destruct (buffer_is_clipped_candidates _ _ _ _ _ _ E) as [_ H].
  destruct (H eq_refl eq_refl eq_refl) as [He _].
  split; [exact He | reflexivity].
Defined.

(** ** Membership by coordinates *)

Lemma point_in_iff (p : Point) (l : list Point) :
  point_in p l = true <-> exists e, In e l /\ x e = x p /\ y e = y p.
Proof.
  unfold point_in. rewrite existsb_exists. split.
  - intros (e & He & H). apply Point_eq_iff in H. exists e. auto.
  - intros (e & He & H). exists e. split; [assumption | apply Point_eq_iff, H].
Qed.

Lemma point_in_false_iff (p : Point) (l : list Point) :
  point_in p l = false <-> forall e, In e l -> x e = x p -> y e <> y p.
Proof.
  rewrite <- not_true_iff_false, point_in_iff. split.
  - intros H e He Hx Hy. apply H. exists e. auto.
  - intros H (e & He & Hx & Hy). exact (H e He Hx Hy).
Qed.

Lemma point_in_same (p q : Point) (l : list Point) :
  x p = x q -> y p = y q -> point_in p l = point_in q l.
Proof.
  intros Hx Hy. apply eq_iff_eq_true. rewrite !point_in_iff, Hx, Hy. reflexivity.
Qed.

Lemma point_in_In (p : Point) (l : list Point) : In p l -> point_in p l = true.
Proof. intros H. apply point_in_iff. exists p. auto. Qed.

Lemma remove_first_in (c e : Point) (l : list Point) :
  In e (remove_first c l) -> In e l.
Proof.
  induction l as [|a l IH]; simpl; [auto|].
  destruct (Point_eq a c); [auto|]. intros [<- | H]; auto.
Qed.

Lemma remove_first_NoDup (c : Point) (l : list Point) :
  NoDup l -> NoDup (remove_first c l).
Proof.
  induction 1 as [|a l Ha Hl IH]; simpl; [constructor|].
  destruct (Point_eq a c); [assumption|].
  constructor; [|assumption]. intros H. apply Ha. eapply remove_first_in, H.
Qed.

Lemma remove_first_length (c : Point) (l : list Point) :
  point_in c l = true -> S (List.length (remove_first c l)) = List.length l.
Proof.
  induction l as [|a l IH]; simpl; [discriminate|].
  destruct (Point_eq a c); simpl; [reflexivity|]. intros H. now rewrite IH.
Qed.

(** Once removed, a coordinate that occurred once is gone. *)
Lemma remove_first_gone (bid : nat) (c : Point) (l : list Point) :
  NoDup l -> (forall e, In e l -> board e = bid) ->
  point_in c (remove_first c l) = false.
Proof.
  intros Hnd Hb. induction Hnd as [|a l Ha Hl IH]; simpl; [reflexivity|].
  destruct (Point_eq a c) eqn:E.
  - apply point_in_false_iff. intros e He Hx Hy. apply Ha.
    apply Point_eq_iff in E. replace a with e; [assumption|].
    pose proof (Hb a (or_introl eq_refl)) as Ba.
    pose proof (Hb e (or_intror He)) as Be.
    destruct a as [ax ay ab], e as [ex ey eb]; simpl in *.
    f_equal; lia.
  - simpl. rewrite E. simpl. apply IH. intros; apply Hb; right; assumption.
Qed.

Lemma list_remove_Ok (c : Point) (l : list Point) :
  point_in c l = true -> list_remove c l = Ok (remove_first c l).
Proof. intros H. unfold list_remove. now rewrite H. Qed.

(** ** The Ship a guess hits *)

Lemma find_hit_Some (c : Point) (ships before after : list Ship) (ship : Ship) :
  find_hit c ships = Some (before, ship, after) ->
  ships = before ++ ship :: after /\
  point_in c (valid ship) = true /\
  forall s, In s before -> point_in c (valid s) = false.
Proof.
  revert before. induction ships as [|s0 ships IH]; intros before; simpl; [discriminate|].
  destruct (point_in c (valid s0)) eqn:E.
  - intros H; inversion H; subst. repeat split; auto. intros s [].
  - destruct (find_hit c ships) as [[[bf h] af]|]; [|discriminate].
    intros H; inversion H; subst.
    destruct (IH bf eq_refl) as (-> & Hh & Hb). repeat split; auto.
    intros s [<- | Hs]; auto.
Qed.

Lemma find_hit_None (c : Point) (ships : list Ship) :
  find_hit c ships = None <-> forall s, In s ships -> point_in c (valid s) = false.
Proof.
  induction ships as [|s0 ships IH]; simpl.
  - split; [intros _ s [] | reflexivity].
  - destruct (point_in c (valid s0)) eqn:E.
    + split; [discriminate|]. intros H. rewrite (H s0) in E by auto. discriminate.
    + destruct (find_hit c ships) as [[[bf h] af]|].
      * split; [discriminate|]. intros H.
        assert (N : Some (bf, h, af) = @None (list Ship * Ship * list Ship))
          by (apply IH; auto).
        discriminate.
      * split; [|reflexivity]. intros _ s [<- | Hs]; [assumption|].
        now apply IH.
Qed.

Lemma find_hit_exists (c : Point) (ships : list Ship) :
  (exists s, In s ships /\ point_in c (valid s) = true) ->
  exists before ship after, find_hit c ships = Some (before, ship, after).
Proof.
  intros (s & Hs & Hc). destruct (find_hit c ships) as [[[bf h] af]|] eqn:E.
  - eauto.
  - rewrite find_hit_None in E. rewrite (E s Hs) in Hc. discriminate.
Qed.

(** ** The grid *)

Lemma set_nth_length {A : Type} (l : list A) (k : nat) (v : A) :
  List.length (set_nth l k v) = List.length l.
Proof.
  revert k. induction l as [|a l IH]; intros k; [reflexivity|].
  destruct k; simpl; [reflexivity | now rewrite IH].
Qed.

Lemma py_index_Ok (n i : Z) : 0 <= i < n -> py_index n i = Ok (Z.to_nat i).
Proof.
  intros H. unfold py_index.
  destruct (Z.leb_spec 0 i); [|lia]. destruct (Z.ltb_spec i n); [reflexivity | lia].
Qed.

Lemma set_nth_Forall {A : Type} (P : A -> Prop) (l : list A) (k : nat) (v : A) :
  Forall P l -> P v -> Forall P (set_nth l k v).
Proof.
  intros Hl Hv. revert k. induction Hl as [|a l Ha Hl IH]; intros k; [constructor|].
  destruct k; simpl; constructor; auto.
Qed.

Lemma display_Ok (b : Board) (p : Point) (sym : string) :
  grid_ok b -> in_bounds b (x p) (y p) = true ->
  exists g, display b p sym = Ok (set_grid b g) /\ grid_ok (set_grid b g).
Proof.
  intros [Hh Hw] Hin. apply in_bounds_iff in Hin. unfold display, py_nth, py_set.
  rewrite py_index_Ok by lia. cbn [bind].
  destruct (nth_error (grid b) (Z.to_nat (y p))) as [row|] eqn:Er.
  2:{ apply nth_error_None in Er. lia. }
  assert (Hrow : Z.of_nat (List.length row) = width b).
  { rewrite Forall_forall in Hw. apply Hw. eapply nth_error_In, Er. }
  cbn [bind]. rewrite py_index_Ok by lia. cbn [bind].
  eexists. split; [reflexivity|]. split; simpl.
  - now rewrite set_nth_length.
  - apply set_nth_Forall; [assumption|]. now rewrite set_nth_length.
Qed.

(** ** Checking a guess *)

Lemma display_frame (b b' : Board) (p : Point) (sym : string) :
  display b p sym = Ok b' -> same_frame b b' /\ content b' = content b.
Proof.
  unfold display. destruct (py_nth (grid b) (y p)) as [row | |]; try discriminate.
  cbn [bind]. destruct (py_set row (x p) sym) as [row' | |]; try discriminate.
  cbn [bind]. destruct (py_set (grid b) (y p) row') as [g | |]; try discriminate.
  cbn [bind]. intros E; inversion E; subst. repeat split.
Qed.

Lemma Player_check_guess_inv (b b' : Board) (c : Point) (hit : bool) (out : list printed) :
  Player_check_guess b c = Ok (hit, out, b') ->
  same_frame b b' /\ content b' = content_after c (content b) /\
  hit = match find_hit c (content b) with Some _ => true | None => false end.
Proof.
  unfold Player_check_guess, content_after.
  destruct (find_hit c (content b)) as [[[before ship] after]|] eqn:F.
  - destruct (display b c "X") as [b1 | |] eqn:D; try discriminate. cbn [bind].
    apply display_frame in D. destruct D as [Hf Hc].
    apply find_hit_Some in F. destruct F as (_ & Hin & _).
    rewrite list_remove_Ok by assumption. cbn [bind valid set_valid].
    destruct (remove_first c (valid ship)) as [|v0 v] eqn:R; simpl;
      intros E; inversion E; subst; repeat split; apply Hf.
  - destruct (display b c " ") as [b1 | |] eqn:D; try discriminate. cbn [bind].
    apply display_frame in D. destruct D as [Hf Hc].
    intros E; inversion E; subst. repeat split; try apply Hf. assumption.
Qed.

Lemma AI_check_guess_inv (a a' : AI) (b b' : Board) (c : Point) (hit : bool)
                         (out : list printed) :
  AI_check_guess a b c = Ok (hit, out, a', b') ->
  same_frame b b' /\ content b' = content_after c (content b) /\
  hit = match find_hit c (content b) with Some _ => true | None => false end.
Proof.
  unfold AI_check_guess, content_after.
  destruct (find_hit c (content b)) as [[[before ship] after]|] eqn:F.
  - destruct (display b c "X") as [b1 | |] eqn:D; try discriminate. cbn [bind].
    apply display_frame in D. destruct D as [Hf Hc].
    apply find_hit_Some in F. destruct F as (_ & Hin & _).
    rewrite list_remove_Ok by assumption. cbn [bind valid set_valid].
    destruct (remove_first c (valid ship)) as [|v0 v] eqn:R; simpl;
      intros E; inversion E; subst; repeat split; apply Hf.
  - destruct (display b c " ") as [b1 | |] eqn:D; try discriminate. cbn [bind].
    apply display_frame in D. destruct D as [Hf Hc].
    intros E; inversion E; subst. repeat split; try apply Hf. assumption.
Qed.

(** ** The fleet invariant *)

Lemma ordered_app {A : Type} (R : A -> A -> Prop) (l1 l2 : list A) :
  ForallOrdPairs R (l1 ++ l2) <->
  ForallOrdPairs R l1 /\ ForallOrdPairs R l2 /\
  (forall a c, In a l1 -> In c l2 -> R a c).
Proof.
  induction l1 as [|a0 l1 IH]; simpl.
  - split; [intros H; repeat split; [constructor | assumption | intros ? ? []]
           | intros (_ & H & _); assumption].
  - split.
    + intros H. inversion H as [|? ? Ha Hr]; subst.
      apply IH in Hr. destruct Hr as (H1 & H2 & H12).
      rewrite Forall_forall in Ha. repeat split; auto.
      * constructor; [|assumption]. apply Forall_forall. intros; apply Ha, in_or_app; auto.
      * intros a c [<- | Hin] Hc; [apply Ha, in_or_app|]; auto.
    + intros (H1 & H2 & H12). inversion H1 as [|? ? Ha Hr]; subst.
      constructor.
      * apply Forall_forall. intros c Hc. apply in_app_or in Hc.
        rewrite Forall_forall in Ha. destruct Hc; auto.
      * apply IH. repeat split; auto.
Qed.

Lemma ordered_cons {A : Type} (R : A -> A -> Prop) (a : A) (l : list A) :
  ForallOrdPairs R (a :: l) <-> (forall c, In c l -> R a c) /\ ForallOrdPairs R l.
Proof.
  split.
  - intros H; inversion H; subst. rewrite Forall_forall in *. auto.
  - intros [H1 H2]. constructor; [apply Forall_forall|]; auto.
Qed.

Lemma apart_sym (A B : Ship) : apart A B -> apart B A.
Proof. unfold apart. tauto. Qed.

Lemma apart_set_valid_l (A B : Ship) (v : list Point) :
  apart A B -> apart (set_valid A v) B.
Proof. auto. Qed.

Lemma ship_ok_frame (b b' : Board) (s : Ship) :
  same_frame b b' -> ship_ok b s -> ship_ok b' s.
Proof.
  intros (Hi & Hw & Hh). destruct b, b'; simpl in *; subst. auto.
Qed.

Lemma ship_ok_board (b : Board) (s : Ship) (e : Point) :
  ship_ok b s -> In e (ext s) -> board e = ident b.
Proof.
  intros (ox & oy & hz & len & _ & _ & _ & He & _) Hin.
  rewrite He in Hin. apply segment_in in Hin. destruct Hin as (n & _ & ->).
  destruct hz; reflexivity.
Qed.

Lemma ship_ok_set_valid (b : Board) (s : Ship) (c : Point) :
  ship_ok b s -> remove_first c (valid s) <> [] ->
  ship_ok b (set_valid s (remove_first c (valid s))).
Proof.
  intros (ox & oy & hz & len & Hl & Hlo & Hhi & He & Hb & Hnd & Hi & Hne) Hv.
  exists ox, oy, hz, len. simpl. repeat split; auto; try lia.
  - now apply remove_first_NoDup.
  - intros e H. apply Hi. eapply remove_first_in, H.
Qed.

Lemma fleet_ok_after (b b' : Board) (c : Point) :
  fleet_ok b -> same_frame b b' -> content b' = content_after c (content b) ->
  fleet_ok b'.
Proof.
  intros [Hs Ha] Hf Hc. unfold fleet_ok. rewrite Hc. unfold content_after.
  destruct (find_hit c (content b)) as [[[before ship] after]|] eqn:F.
  2:{ split; [|assumption]. eapply Forall_impl; [|exact Hs].
      intros s. now apply ship_ok_frame. }
  apply find_hit_Some in F. destruct F as (E & Hin & _). rewrite E in *.
  apply Forall_app in Hs. destruct Hs as [Hs1 Hs2].
  inversion Hs2 as [|? ? Hship Hs3]; subst.
  apply ordered_app in Ha. destruct Ha as (Ha1 & Ha2 & Ha12).
  apply ordered_cons in Ha2. destruct Ha2 as [Ha2 Ha3].
  assert (Hfr : forall l, Forall (ship_ok b) l -> Forall (ship_ok b') l).
  { intros l H. eapply Forall_impl; [|exact H]. intros s. now apply ship_ok_frame. }
  destruct (remove_first c (valid ship)) as [|v0 v] eqn:R.
  - split.
    + apply Forall_app. auto.
    + apply ordered_app. split; [assumption|]. split; [assumption|].
      intros s0 s1 H1 H2. apply Ha12; [assumption | right; assumption].
  - split.
    + apply Forall_app. split; [auto|]. constructor; [|auto].
      apply ship_ok_frame with (b := b); [assumption|]. rewrite <- R.
      apply ship_ok_set_valid; [assumption | rewrite R; discriminate].
    + apply ordered_app. split; [assumption|]. split.
      * apply ordered_cons. split; [|assumption].
        intros s1 H0. apply apart_set_valid_l. auto.
      * intros s0 s1 H1 [<- | H2].
        -- apply apart_sym, apart_set_valid_l, apart_sym. apply Ha12; [assumption | left; reflexivity].
        -- apply Ha12; [assumption | right; assumption].
Qed.

Lemma segment_NoDup (bid : nat) (ox oy : Z) (hz : bool) (len : nat) :
  NoDup (segment bid ox oy hz len).
Proof.
  unfold segment, range. rewrite map_map.
  apply NoDup_map_NoDup_ForallPairs; [|apply seq_NoDup].
  intros i j _ _ E. destruct hz; inversion E; lia.
Qed.

Lemma built_ship_ok (b : Board) (origin : Point) (d knd : string) (len : nat) :
  lookup knd length_table = Some len -> str_in d direct = true ->
  (forall c, In c (computed origin d len) -> in_bounds b (fst c) (snd c) = true) ->
  ship_ok b (built_ship b origin d knd len).
Proof.
  intros Hk Hd Hin. pose proof (length_range _ _ Hk) as Hlen.
  destruct (lowest_in_bounds b origin d knd len Hk Hd Hin) as [Hlo Hhi].
  exists (fst (lowest origin d len)), (snd (lowest origin d len)), (horizontal d), len.
  unfold built_ship; cbn [ext valid buffer].
  split; [assumption|]. split; [assumption|]. split.
  { destruct (horizontal d); tauto. }
  split; [reflexivity|]. split; [reflexivity|]. split; [apply segment_NoDup|].
  split; [apply incl_refl|].
  destruct (segment_first (ident b) (fst (lowest origin d len)) (snd (lowest origin d len))
              (horizontal d) len) as [tl ->]; [lia | discriminate].
Qed.

Lemma built_ship_ext_computed (b : Board) (origin : Point) (d knd : string) (len : nat)
                              (p : Point) :
  str_in d direct = true ->
  In p (ext (built_ship b origin d knd len)) ->
  exists c, In c (computed origin d len) /\ p = point_at b c.
Proof.
  intros Hd. unfold built_ship; cbn [ext].
  rewrite <- sort_computed by assumption.
  unfold list_sort. intros H.
  assert (G : forall l acc, In p (fold_left (fun acc q => insert_sorted q acc) l acc) ->
                            In p l \/ In p acc).
  { clear. induction l as [|a l IH]; intros acc H; simpl in *; [auto|].
    apply IH in H. destruct H as [H | H]; [auto|].
    assert (I : forall l0, In p (insert_sorted a l0) -> p = a \/ In p l0).
    { clear. induction l0 as [|e l0 IH]; simpl.
      - intros [<- | []]; auto.
      - destruct (Point_lt a e); simpl.
        + intros [<- | [<- | H]]; auto.
        + intros [<- | H]; auto. apply IH in H. tauto. }
    apply I in H. destruct H as [-> | H]; auto. }
  apply G in H. destruct H as [H | []].
  apply in_map_iff in H. destruct H as (c & <- & Hc). exists c. auto.
Qed.

(** ** Neighbourhood of a Ship *)

Section ShipGeometry.
Variables (b : Board) (s : Ship).
Hypothesis Hs : ship_ok b s.

(** Every Point of the buffer is next to an occupied Point. *)
Lemma ship_buffer_near (r : Point) :
  In r (buffer s) ->
  exists e, In e (ext s) /\ Z.abs (x e - x r) + Z.abs (y e - y r) = 1.
Proof.
  destruct Hs as (ox & oy & hz & len & Hl & Hlo & Hhi & He & Hb & _).
  rewrite He, Hb. destruct hz.
  - rewrite row_buffer_in. intros (Br & H).
    exists (mkPoint (Z.max ox (Z.min (x r) (ox + Z.of_nat len - 1))) oy (ident b)).
    rewrite segment_row_in. simpl. lia.
  - rewrite column_buffer_in. intros (Br & H).
    exists (mkPoint ox (Z.max oy (Z.min (y r) (oy + Z.of_nat len - 1))) (ident b)).
    rewrite segment_column_in. simpl. lia.
Qed.

(** Every coordinate of the Board next to an occupied Point is occupied or
    in the buffer. *)
Lemma ship_near_covered (q : Point) (ex ey : Z) :
  In q (ext s) -> in_bounds b ex ey = true ->
  Z.abs (x q - ex) + Z.abs (y q - ey) = 1 ->
  (exists p, In p (ext s) /\ x p = ex /\ y p = ey) \/
  (exists p, In p (buffer s) /\ x p = ex /\ y p = ey).
Proof.
  destruct Hs as (ox & oy & hz & len & Hl & Hlo & Hhi & He & Hb & _).
  rewrite He, Hb. intros Hq Hin Hd.
  apply in_bounds_iff in Hlo, Hhi, Hin. destruct hz.
  - apply segment_row_in in Hq.
    destruct (Z_le_gt_dec ox ex) as [L1 | L1], (Z_lt_ge_dec ex (ox + Z.of_nat len)) as [L2 | L2],
             (Z.eq_dec ey oy) as [L3 | L3];
      try (left; exists (mkPoint ex ey (ident b)); rewrite segment_row_in; simpl; lia);
      right; exists (mkPoint ex ey (ident b)); rewrite row_buffer_in; simpl; lia.
  - apply segment_column_in in Hq.
    destruct (Z_le_gt_dec oy ey) as [L1 | L1], (Z_lt_ge_dec ey (oy + Z.of_nat len)) as [L2 | L2],
             (Z.eq_dec ex ox) as [L3 | L3];
      try (left; exists (mkPoint ex ey (ident b)); rewrite segment_column_in; simpl; lia);
      right; exists (mkPoint ex ey (ident b)); rewrite column_buffer_in; simpl; lia.
Qed.

Lemma ship_ext_in_bounds (e : Point) :
  In e (ext s) -> in_bounds b (x e) (y e) = true.
Proof.
  destruct Hs as (ox & oy & hz & len & Hl & Hlo & Hhi & He & _).
  rewrite He. apply in_bounds_iff in Hlo, Hhi. rewrite in_bounds_iff. destruct hz.
  - rewrite segment_row_in. lia.
  - rewrite segment_column_in. lia.
Qed.
End ShipGeometry.

(** ** Placement keeps Ships apart *)

Lemma placement_apart (b : Board) (origin : Point) (d knd : string) (len : nat) (old : Ship) :
  lookup knd length_table = Some len -> str_in d direct = true ->
  (forall c, In c (computed origin d len) ->
             in_bounds b (fst c) (snd c) = true /\ isoverlap b (point_at b c) = false) ->
  ship_ok b old -> In old (content b) ->
  apart old (built_ship b origin d knd len).
Proof.
  intros Hk Hd Hc Hold Hin.
  set (s := built_ship b origin d knd len).
  assert (Hs : ship_ok b s) by (apply built_ship_ok; auto; intros c H; apply Hc, H).
  assert (Hfree : forall e, In e (ext s) ->
                            point_in e (ext old) = false /\ point_in e (buffer old) = false).
  { intros e He. apply built_ship_ext_computed in He; [|assumption].
    destruct He as (c & Hcc & ->). destruct (Hc c Hcc) as [_ Ho].
    destruct (point_in (point_at b c) (ext old)) eqn:E1.
    { assert (isoverlap b (point_at b c) = true) by (apply isoverlap_iff; eauto). congruence. }
    destruct (point_in (point_at b c) (buffer old)) eqn:E2.
    { assert (isoverlap b (point_at b c) = true) by (apply isoverlap_iff; eauto). congruence. }
    auto. }
  split; split.
  - intros q Hq. apply not_true_iff_false. intros H.
    apply point_in_iff in H. destruct H as (e & He & Hx & Hy).
    destruct (Hfree e He) as [F _].
    assert (point_in e (ext old) = true) by (apply point_in_iff; exists q; auto).
    congruence.
  - intros q Hq. apply not_true_iff_false. intros H.
    apply point_in_iff in H. destruct H as (r & Hr & Hx & Hy).
    destruct (ship_buffer_near b s Hs r Hr) as (e & He & Hd1).
    destruct (Hfree e He) as [F1 F2].
    destruct (ship_near_covered b old Hold q (x e) (y e) Hq) as [(p & Hp & Px & Py) | (p & Hp & Px & Py)].
    + now apply (ship_ext_in_bounds b s).
    + lia.
    + assert (point_in e (ext old) = true) by (apply point_in_iff; exists p; auto). congruence.
    + assert (point_in e (buffer old) = true) by (apply point_in_iff; exists p; auto). congruence.
  - intros e He. apply Hfree, He.
  - intros e He. apply Hfree, He.
Qed.

Lemma fleet_ok_place (b : Board) (origin : Point) (d knd : string) :
  fleet_ok b -> fleet_ok (fst (Ship_init b origin d knd)).
Proof.
  intros [Hs Ha].
  destruct (Ship_init_outcomes b origin d knd) as [E | [E | [E | (len & Hk & Hd & E)]]];
    rewrite E; simpl; try (split; assumption).
  destruct (Ship_init_Ok_inv _ _ _ _ _ _ E) as (len' & Hk' & _ & Hc & _ & _).
  assert (len' = len) by congruence. subst len'.
  assert (Hf : same_frame b (set_content b (content b ++ [built_ship b origin d knd len])))
    by (repeat split).
  split; simpl.
  - eapply Forall_impl; [intros s0; apply (ship_ok_frame _ _ s0 Hf)|].
    apply Forall_app. split; [assumption|]. constructor; [|constructor].
    apply built_ship_ok; auto. intros c H; apply Hc, H.
  - apply ordered_app. split; [assumption|]. split.
    + constructor; constructor.
    + intros old s0 Hold [<- | []].
      apply placement_apart; auto. rewrite Forall_forall in Hs. auto.
Qed.

Lemma fleet_ok_new (id : nat) (nm : string) : fleet_ok (Board_init id nm).
Proof. split; constructor. Qed.

Lemma fleet_ok_reachable (b : Board) : board_reachable b -> fleet_ok b.
Proof.
  induction 1 as [id nm | b origin d knd _ IH | b b' p sym _ IH E
                 | b b' c hit out _ IH E | a a' b b' c hit out _ IH E].
  - apply fleet_ok_new.
  - now apply fleet_ok_place.
  - apply display_frame in E. destruct E as [Hf Hc].
    destruct IH as [Hs Ha]. split; rewrite Hc; [|assumption].
    eapply Forall_impl; [|exact Hs]. intros s. now apply ship_ok_frame.
  - apply Player_check_guess_inv in E. destruct E as (Hf & Hc & _).
    eapply fleet_ok_after; eauto.
  - apply AI_check_guess_inv in E. destruct E as (Hf & Hc & _).
    eapply fleet_ok_after; eauto.
Qed.

Lemma ordered_nth {A : Type} (R : A -> A -> Prop) (l : list A) :
  (forall a c, R a c -> R c a) -> ForallOrdPairs R l ->
  forall (i j : nat) (a c : A),
    i <> j -> nth_error l i = Some a -> nth_error l j = Some c -> R a c.
Proof.
  intros Hsym H. induction H as [|a0 l Ha Hl IH]; intros i j a c Hij Hi Hj.
  - destruct i; discriminate.
  - rewrite Forall_forall in Ha. destruct i as [|i], j as [|j]; simpl in *.
    + congruence.
    + inversion Hi; subst. apply Ha. eapply nth_error_In, Hj.
    + inversion Hj; subst. apply Hsym, Ha. eapply nth_error_In, Hi.
    + apply (IH i j); auto.
Qed.

Lemma disjoint_by_coordinates (l1 l2 : list Point) (p : Point) :
  disjoint l1 l2 -> point_in p l1 = true -> point_in p l2 = false.
Proof.
  intros H Hp. apply point_in_iff in Hp. destruct Hp as (e & He & Hx & Hy).
  rewrite <- (point_in_same e p) by assumption. apply H, He.
Qed.

(** C5.  On every reachable Board, after whatever placements and guesses,
    two Ships at different places of [content] occupy no common coordinate,
    and neither occupies a coordinate of the other's buffer. *)
Theorem ships_never_touch :
  forall b : Board,
    board_reachable b ->
    forall (i j : nat) (A B : Ship),
      i <> j ->
      nth_error (content b) i = Some A ->
      nth_error (content b) j = Some B ->
      forall p : Point,
        point_in p (ext A) = true ->
        point_in p (ext B) = false /\ point_in p (buffer B) = false.
Proof.
  intros b Hb i j A B Hij HA HB p Hp.
  destruct (fleet_ok_reachable b Hb) as [_ Ha].
  destruct (ordered_nth apart (content b) apart_sym Ha i j A B Hij HA HB) as [[H1 H2] _].
  split; eapply disjoint_by_coordinates; eauto.
Qed.

(** The Destroyer at C3 and the Submarine at A0: the Destroyer's C3 is not in
    the Submarine's buffer, and the other way round for A0. *)
Lemma ships_never_touch_witness :
  point_in (mkPoint 2 3 1) (buffer (built_ship board_c3 (mkPoint 0 0 1) "down" "submarine" 1))
  = false /\
  point_in (mkPoint 0 0 1) (buffer (built_ship empty_board (mkPoint 2 3 1) "right" "destroyer" 2))
  = false.
Proof.
  assert (R : board_reachable board_c3_a0)
    by (apply reach_place, reach_place, reach_new).
  split.
  - apply (ships_never_touch board_c3_a0 R 0 1
             (built_ship empty_board (mkPoint 2 3 1) "right" "destroyer" 2)
             (built_ship board_c3 (mkPoint 0 0 1) "down" "submarine" 1));
      [discriminate | reflexivity | reflexivity | reflexivity].
  - apply (ships_never_touch board_c3_a0 R 1 0
             (built_ship board_c3 (mkPoint 0 0 1) "down" "submarine" 1)
             (built_ship empty_board (mkPoint 2 3 1) "right" "destroyer" 2));
      [discriminate | reflexivity | reflexivity | reflexivity].
Defined.

(** ** [Player.check_guess] *)

Lemma grid_ok_new (id : nat) (nm : string) : grid_ok (Board_init id nm).
Proof.
  split; [reflexivity|]. simpl. repeat constructor.
Qed.

Lemma grid_ok_content (b : Board) (l : list Ship) : grid_ok b -> grid_ok (set_content b l).
Proof. auto. Qed.

Lemma Player_check_guess_Ok (b : Board) (c : Point) :
  grid_ok b -> in_bounds b (x c) (y c) = true ->
  exists g,
    grid_ok (set_grid b g) /\
    Player_check_guess b c =
    match find_hit c (content b) with
    | Some (before, ship, after) =>
        match remove_first c (valid ship) with
        | [] => Ok (true, [PBoard; PHit c (kind ship); PSank (kind ship); PBoard],
                    set_content (set_grid b g) (before ++ after))
        | v => Ok (true, [PBoard; PHit c (kind ship)],
                   set_content (set_grid b g) (before ++ set_valid ship v :: after))
        end
    | None => Ok (false, [PBoard; PMiss c], set_grid b g)
    end.
Proof.
  intros Hg Hin. unfold Player_check_guess.
  destruct (find_hit c (content b)) as [[[before ship] after]|] eqn:F.
  - destruct (display_Ok b c "X" Hg Hin) as (g & -> & Hg'). exists g. split; [assumption|].
    cbn [bind]. apply find_hit_Some in F. destruct F as (_ & Hc & _).
    rewrite list_remove_Ok by assumption. cbn [bind valid set_valid kind].
    destruct (remove_first c (valid ship)); reflexivity.
  - destruct (display_Ok b c " " Hg Hin) as (g & -> & Hg'). exists g. split; [assumption|].
    reflexivity.
Qed.

Lemma find_hit_unique (c : Point) (before after : list Ship) (ship : Ship) :
  (forall s, In s before -> point_in c (valid s) = false) ->
  point_in c (valid ship) = true ->
  find_hit c (before ++ ship :: after) = Some (before, ship, after).
Proof.
  intros Hb Hs. induction before as [|s0 before IH]; simpl.
  - now rewrite Hs.
  - rewrite (Hb s0) by (left; reflexivity). rewrite IH; [reflexivity|].
    intros; apply Hb; right; assumption.
Qed.

Lemma display_grid_ok (b b' : Board) (p : Point) (sym : string) :
  display b p sym = Ok b' -> grid_ok b -> grid_ok b'.
Proof.
  unfold display, py_nth, py_set. intros E [Hh Hw].
  destruct (py_index (Z.of_nat (List.length (grid b))) (y p)) as [k | |]; try discriminate.
  cbn [bind] in E.
  destruct (nth_error (grid b) k) as [row|] eqn:Er; try discriminate.
  cbn [bind] in E.
  destruct (py_index (Z.of_nat (List.length row)) (x p)) as [k' | |]; try discriminate.
  cbn [bind] in E. inversion E; subst. split; simpl.
  - now rewrite set_nth_length.
  - apply set_nth_Forall; [assumption|]. rewrite set_nth_length.
    rewrite Forall_forall in Hw. apply Hw. eapply nth_error_In, Er.
Qed.

Lemma Player_check_guess_grid (b b' : Board) (c : Point) (hit : bool) (out : list printed) :
  Player_check_guess b c = Ok (hit, out, b') -> grid_ok b -> grid_ok b'.
Proof.
  unfold Player_check_guess. intros E Hg.
  destruct (find_hit c (content b)) as [[[before ship] after]|].
  - destruct (display b c "X") as [b1 | |] eqn:D; try discriminate. cbn [bind] in E.
    apply display_grid_ok in D; [|assumption].
    destruct (list_remove c (valid ship)) as [v | |]; try discriminate. cbn [bind] in E.
    destruct (_ =? _)%nat; inversion E; subst; apply grid_ok_content, D.
  - destruct (display b c " ") as [b1 | |] eqn:D; try discriminate. cbn [bind] in E.
    apply display_grid_ok in D; [|assumption]. inversion E; subst. assumption.
Qed.

Lemma AI_check_guess_grid (a a' : AI) (b b' : Board) (c : Point) (hit : bool)
                          (out : list printed) :
  AI_check_guess a b c = Ok (hit, out, a', b') -> grid_ok b -> grid_ok b'.
Proof.
  unfold AI_check_guess. intros E Hg.
  destruct (find_hit c (content b)) as [[[before ship] after]|].
  - destruct (display b c "X") as [b1 | |] eqn:D; try discriminate. cbn [bind] in E.
    apply display_grid_ok in D; [|assumption].
    destruct (list_remove c (valid ship)) as [v | |]; try discriminate. cbn [bind] in E.
    destruct (valid (set_valid ship v)); inversion E; subst; apply grid_ok_content, D.
  - destruct (display b c " ") as [b1 | |] eqn:D; try discriminate. cbn [bind] in E.
    apply display_grid_ok in D; [|assumption]. inversion E; subst. assumption.
Qed.

Lemma grid_ok_reachable (b : Board) : board_reachable b -> grid_ok b.
Proof.
  induction 1 as [id nm | b origin d knd _ IH | b b' p sym _ IH E
                 | b b' c hit out _ IH E | a a' b b' c hit out _ IH E].
  - apply grid_ok_new.
  - destruct (Ship_init_outcomes b origin d knd) as [E | [E | [E | (len & _ & _ & E)]]];
      rewrite E; simpl; auto.
  - eapply display_grid_ok; eauto.
  - eapply Player_check_guess_grid; eauto.
  - eapply AI_check_guess_grid; eauto.
Qed.

(** After a hit on [c], no Ship of a sound fleet still holds [c]. *)
Lemma content_after_clear (b : Board) (c : Point) (s : Ship) :
  fleet_ok b -> In s (content_after c (content b)) -> point_in c (valid s) = false.
Proof.
  intros [Hs Ha]. unfold content_after.
  destruct (find_hit c (content b)) as [[[before ship] after]|] eqn:F.
  2:{ rewrite find_hit_None in F. apply F. }
  apply find_hit_Some in F. destruct F as (E & Hc & Hb). rewrite E in *.
  apply Forall_app in Hs. destruct Hs as [_ Hs]. inversion Hs as [|? ? Hship Hrest]; subst.
  apply ordered_app in Ha. destruct Ha as (_ & Ha & _).
  apply ordered_cons in Ha. destruct Ha as [Ha _].
  assert (Hafter : forall s0, In s0 after -> point_in c (valid s0) = false).
  { intros s0 H0. destruct (Ha s0 H0) as [[D _] _].
    apply not_true_iff_false. intros H. apply point_in_iff in H.
    destruct H as (e & He & Hx & Hy).
    assert (Hok : ship_ok b s0).
    { rewrite Forall_forall in Hrest. apply Hrest, H0. }
    destruct Hok as (ox & oy & hz & len & _ & _ & _ & _ & _ & _ & Hi & _).
    assert (H1 : point_in c (ext ship) = true).
    { destruct Hship as (ox' & oy' & hz' & len' & _ & _ & _ & _ & _ & _ & Hi' & _).
      apply point_in_iff in Hc. destruct Hc as (e' & He' & ? & ?).
      apply point_in_iff. exists e'. auto. }
    pose proof (disjoint_by_coordinates _ _ c D H1) as H2.
    assert (point_in c (ext s0) = true) by (apply point_in_iff; exists e; auto).
    congruence. }
  assert (Hgone : point_in c (remove_first c (valid ship)) = false).
  { pose proof (ship_ok_board b ship) as Hbd.
    destruct Hship as (ox & oy & hz & len & Hl & Hlo & Hhi & He & Hbf & Hnd & Hi & Hne).
    apply (remove_first_gone (ident b)); [assumption|].
    intros e He'. apply Hbd; [|apply Hi, He'].
    exists ox, oy, hz, len. repeat split; auto; lia. }
  destruct (remove_first c (valid ship)) as [|v0 v] eqn:R.
  - intros H. apply in_app_or in H. destruct H; auto.
  - intros H. apply in_app_or in H. destruct H as [H | [<- | H]]; auto.
Qed.

(** C4.  Checking a guess [c] that lies on the Board: when some Ship still
    holds [c], the first such Ship loses [c], the call reports a hit, tells
    that the Ship sank exactly when nothing remains of it, and in that case
    the Ship leaves [content] in the same call; when no Ship holds [c] the
    call reports a miss and [content] stays as it is.  On a reachable Board
    a second guess at [c] is therefore a miss that removes nothing. *)
Theorem check_guess_hit_or_miss :
  forall (b : Board) (c : Point),
    grid_ok b -> in_bounds b (x c) (y c) = true ->
    exists (hit : bool) (out : list printed) (b' : Board),
      Player_check_guess b c = Ok (hit, out, b') /\
      (forall before ship after,
          content b = before ++ ship :: after ->
          (forall s, In s before -> point_in c (valid s) = false) ->
          point_in c (valid ship) = true ->
          hit = true /\
          (In (PSank (kind ship)) out <-> remove_first c (valid ship) = []) /\
          content b' = match remove_first c (valid ship) with
                       | [] => before ++ after
                       | v => before ++ set_valid ship v :: after
                       end) /\
      ((forall s, In s (content b) -> point_in c (valid s) = false) ->
          hit = false /\ out = [PBoard; PMiss c] /\ content b' = content b) /\
      (board_reachable b ->
          exists out2 b'',
            Player_check_guess b' c = Ok (false, out2, b'') /\
            content b'' = content b').
Proof.
  intros b c Hg Hin.
  destruct (Player_check_guess_Ok b c Hg Hin) as (g & Hg' & E).
  assert (Hex : exists hit out b', Player_check_guess b c = Ok (hit, out, b')).
  { rewrite E. destruct (find_hit c (content b)) as [[[bf sh] af]|]; [|eauto].
    destruct (remove_first c (valid sh)); eauto. }
  destruct Hex as (hit & out & b' & E').
  exists hit, out, b'. split; [assumption|]. rewrite E' in E.
  split; [|split].
  - intros before ship after Hc Hb Hs.
    rewrite Hc, (find_hit_unique c before after ship Hb Hs) in E.
    destruct (remove_first c (valid ship)) as [|v0 v]; inversion E; subst; simpl.
    + repeat split; auto.
    + repeat split; auto; try discriminate.
      intros [H | [H | []]]; discriminate.
  - intros Hmiss. apply find_hit_None in Hmiss. rewrite Hmiss in E.
    inversion E; subst. auto.
  - intros Hr. pose proof (fleet_ok_reachable b Hr) as Hf.
    destruct (Player_check_guess_inv b b' c hit out E') as ((Hi & Hw & Hh) & Hc & _).
    assert (Hg2 : grid_ok b') by (eapply Player_check_guess_grid; eauto).
    assert (Hin2 : in_bounds b' (x c) (y c) = true).
    { unfold in_bounds in *. now rewrite Hw, Hh. }
    destruct (Player_check_guess_Ok b' c Hg2 Hin2) as (g2 & _ & E2).
    assert (Hnone : find_hit c (content b') = None).
    { apply find_hit_None. intros s Hs. rewrite Hc in Hs.
      eapply content_after_clear; eauto. }
    rewrite Hnone in E2. eauto.
Qed.

(** A guess at C3 on the Board that holds a Destroyer at C3 and D3: a hit. *)
Lemma check_guess_hit_or_miss_witness :
  exists (out : list printed) (b' : Board),
    Player_check_guess board_c3 (mkPoint 2 3 1) = Ok (true, out, b').
Proof.
  assert (Hg : grid_ok board_c3) by (apply grid_ok_reachable, reach_place, reach_new).
  destruct (check_guess_hit_or_miss board_c3 (mkPoint 2 3 1) Hg eq_refl)
    as (hit & out & b' & E & Hhit & _).
  destruct (Hhit [] (built_ship empty_board (mkPoint 2 3 1) "right" "destroyer" 2) [])
    as [-> _]; [reflexivity | intros s [] | reflexivity |].
  exists out, b'. exact E.
Defined.

(** ** Deques *)

Lemma rotate_left_one (first : Point) (rest : list Point) :
  rotate (-1) (first :: rest) = rest ++ [first].
Proof.
  unfold rotate. cbn [List.length].
  assert (E : (-1) mod Z.of_nat (S (List.length rest)) = Z.of_nat (List.length rest)).
  { symmetry. apply (Zmod_unique _ _ (-1)); lia. }
  rewrite E, Nat2Z.id.
  replace (S (List.length rest) - List.length rest)%nat with 1%nat by lia.
  reflexivity.
Qed.

Lemma rotate_in (n : Z) (d : list Point) (q : Point) : In q (rotate n d) <-> In q d.
Proof.
  unfold rotate. destruct d as [|p d]; [reflexivity|].
  set (k := (List.length (p :: d) - Z.to_nat (n mod Z.of_nat (List.length (p :: d))))%nat).
  rewrite <- (firstn_skipn k (p :: d)) at 3. rewrite !in_app_iff. tauto.
Qed.

Lemma rotate_length (n : Z) (d : list Point) : List.length (rotate n d) = List.length d.
Proof.
  unfold rotate. destruct d as [|p d]; [reflexivity|].
  set (k := (List.length (p :: d) - Z.to_nat (n mod Z.of_nat (List.length (p :: d))))%nat).
  rewrite <- (firstn_skipn k (p :: d)) at 3. rewrite !length_app. lia.
Qed.

Lemma rotate_Permutation (n : Z) (d : list Point) : Permutation d (rotate n d).
Proof.
  unfold rotate. destruct d as [|p d]; [constructor|].
  set (k := (List.length (p :: d) - Z.to_nat (n mod Z.of_nat (List.length (p :: d))))%nat).
  rewrite <- (firstn_skipn k (p :: d)) at 1. apply Permutation_app_comm.
Qed.

(** ** The line queue *)

Lemma make_guess_follows_guide (a : AI) (pb : Board) (rng : list Z)
                               (first : Point) (rest : list Point) :
  guide a = first :: rest ->
  make_guess a pb rng
  = Ok (first, set_guesses (set_guide a rest) (guesses a ++ [first]), rng).
Proof. intros E. unfold make_guess. rewrite E. reflexivity. Qed.

Lemma AI_check_guess_miss (a : AI) (pb : Board) (c : Point) :
  grid_ok pb -> in_bounds pb (x c) (y c) = true ->
  find_hit c (content pb) = None ->
  exists g,
    grid_ok (set_grid pb g) /\
    AI_check_guess a pb c
    = Ok (false, [PMiss c; PBoard],
          match guide a with
          | _ :: _ => set_guide a (rotate (-1) (guide a))
          | [] => a
          end, set_grid pb g).
Proof.
  intros Hg Hin F. unfold AI_check_guess. rewrite F.
  destruct (display_Ok pb c " " Hg Hin) as (g & -> & Hg'). exists g. auto.
Qed.

(** C8.  A miss recorded while the line queue holds [first :: rest] leaves
    the queue as [rest ++ [first]]: rotated by one position, nothing
    discarded, and the next guess is the new front.  With E6, E7, E3, E2 in
    the queue, the queue becomes E7, E3, E2, E6 and the next guess is E7. *)
Theorem miss_rotates_guide :
  forall (a : AI) (pb : Board) (c : Point) (first : Point) (rest : list Point),
    grid_ok pb -> in_bounds pb (x c) (y c) = true ->
    (forall s, In s (content pb) -> point_in c (valid s) = false) ->
    guide a = first :: rest ->
    exists (out : list printed) (a' : AI) (pb' : Board),
      AI_check_guess a pb c = Ok (false, out, a', pb') /\
      guide a' = rest ++ [first] /\
      Permutation (guide a) (guide a') /\
      (forall rng, exists a'',
          make_guess a' pb' rng = Ok (hd first rest, a'', rng)) /\
      (forall bid,
          guide a = [mkPoint 4 6 bid; mkPoint 4 7 bid; mkPoint 4 3 bid; mkPoint 4 2 bid] ->
          guide a' = [mkPoint 4 7 bid; mkPoint 4 3 bid; mkPoint 4 2 bid; mkPoint 4 6 bid] /\
          forall rng, exists a'',
            make_guess a' pb' rng = Ok (mkPoint 4 7 bid, a'', rng)).
Proof.
  intros a pb c first rest Hg Hin Hmiss E.
  apply find_hit_None in Hmiss.
  destruct (AI_check_guess_miss a pb c Hg Hin Hmiss) as (g & _ & Ec).
  rewrite E in Ec. rewrite rotate_left_one in Ec.
  eexists _, _, _. split; [exact Ec|]. cbn [guide set_guide].
  split; [reflexivity|]. split.
  { rewrite E. change (first :: rest) with ([first] ++ rest). apply Permutation_app_comm. }
  split.
  - intros rng. destruct rest as [|second rest]; simpl; eexists;
      apply make_guess_follows_guide; reflexivity.
  - intros bid E'. rewrite E in E'. inversion E'; subst. split; [reflexivity|].
    intros rng. eexists. apply make_guess_follows_guide. reflexivity.
Qed.

(** The specification's scenario on the Board with one Destroyer: the queue holds E6,
    E7, E3, E2 and the guess at E6 misses. *)
Lemma miss_rotates_guide_witness :
  exists (out : list printed) (a' : AI) (pb' : Board),
    AI_check_guess
      (set_guide new_engine [mkPoint 4 6 1; mkPoint 4 7 1; mkPoint 4 3 1; mkPoint 4 2 1])
      board_c3 (mkPoint 4 6 1) = Ok (false, out, a', pb') /\
    guide a' = [mkPoint 4 7 1; mkPoint 4 3 1; mkPoint 4 2 1; mkPoint 4 6 1].
Proof.
  assert (Hg : grid_ok board_c3)
    by (split; [vm_compute; reflexivity | vm_compute; repeat constructor]).
  assert (Hin : in_bounds board_c3 (x (mkPoint 4 6 1)) (y (mkPoint 4 6 1)) = true)
    by (vm_compute; reflexivity).
  assert (Hmiss : forall s, In s (content board_c3) ->
                            point_in (mkPoint 4 6 1) (valid s) = false)
    by (apply find_hit_None; vm_compute; reflexivity).
  destruct (miss_rotates_guide
              (set_guide new_engine [mkPoint 4 6 1; mkPoint 4 7 1; mkPoint 4 3 1; mkPoint 4 2 1])
              board_c3 (mkPoint 4 6 1) (mkPoint 4 6 1)
              [mkPoint 4 7 1; mkPoint 4 3 1; mkPoint 4 2 1] Hg Hin Hmiss eq_refl)
    as (out & a' & pb' & E & G & _).
  exists out, a', pb'. split; [exact E | exact G].
Defined.

(** ** Games *)

Lemma board_set_up_reachable (b : Board) : board_set_up b -> board_reachable b.
Proof.
  induction 1; [apply reach_new | now apply reach_place | eapply reach_display; eauto].
Qed.

Lemma board_set_up_place_ship (b : Board) (origin : Point) (d : string) (order : Z) :
  board_set_up b -> board_set_up (fst (place_ship b origin d order)).
Proof.
  intros H. unfold place_ship.
  repeat match goal with |- context [if ?c then _ else _] => destruct c end;
    now apply set_up_place.
Qed.

Lemma board_set_up_place_all (l : list (Z * Z * string)) (b : Board) :
  board_set_up b -> board_set_up (place_all b l).
Proof.
  unfold place_all. generalize 0 as order. revert b.
  induction l as [|[[px py] d] l IH]; intros b order H; simpl; [assumption|].
  apply IH. now apply board_set_up_place_ship.
Qed.

Lemma fleet_board_set_up : board_set_up fleet_board.
Proof. apply board_set_up_place_all, set_up_new. Qed.

Lemma play_reachable (draws : list (list Z)) (a a' : AI) (pb pb' : Board) :
  game_reachable a pb -> play a pb draws = Ok (a', pb') -> game_reachable a' pb'.
Proof.
  revert a pb. induction draws as [|rng draws IH]; intros a pb H E; simpl in E.
  - inversion E; subst. assumption.
  - destruct (guess a pb rng) as [[[a1 pb1] rng1] | |] eqn:G; try discriminate.
    cbn [bind] in E. eapply IH; [|exact E]. eapply game_guess; eauto.
Qed.

Lemma play_reachable_of (draws : list (list Z)) :
  (exists st, play new_engine fleet_board draws = Ok st) ->
  game_reachable (engine_of (play new_engine fleet_board draws))
                 (board_of (play new_engine fleet_board draws)).
Proof.
  intros [[a pb] E]. rewrite E. simpl.
  eapply play_reachable; [|exact E]. apply game_start, fleet_board_set_up.
Qed.

(** C1, the failing run.  After the random search guessed F6 and F4 (two
    misses) and F5 (a hit on the Destroyer at F5 and G5), the adjacency probe
    returns F4 although F4 is in [guesses]; [guesses] then holds F4 twice. *)
Theorem adjacency_probe_repeats_guess :
  game_reachable (engine_of after_f5) (board_of after_f5) /\
  point_in (mkPoint 5 4 1) (guesses (engine_of after_f5)) = true /\
  exists a' : AI,
    make_guess (engine_of after_f5) (board_of after_f5) [2]
    = Ok (mkPoint 5 4 1, a', []) /\
    guesses a' = guesses (engine_of after_f5) ++ [mkPoint 5 4 1].
Proof.
  split.
  { apply play_reachable_of. eexists. vm_compute. reflexivity. }
  split; [vm_compute; reflexivity|].
  eexists. split; vm_compute; reflexivity.
Qed.




(** The catch-all branch: with an empty line queue and more than two hits in
    the streak, [gs] is never bound and [self.guesses.append(gs)] raises. *)
Lemma catch_all_raises (a : AI) (pb : Board) (rng : list Z) :
  guide a = [] -> (2 < List.length (combo a))%nat ->
  make_guess a pb rng = Raise UnboundLocalError.
Proof.
  intros G C. unfold make_guess. rewrite G.
  destruct (combo a) as [|p0 [|p1 [|p2 l]]] eqn:Ec; simpl in C; try lia.
  cbn [List.length Nat.eqb andb bind]. rewrite Ec. reflexivity.
Qed.

(** ** Selecting a guess: the pieces *)

Lemma adj_pts_Ok (b : Board) (p : Point) :
  on_board b p -> 2 <= width b -> 2 <= height b ->
  exists adj,
    adj_pts b p = Ok adj /\ (2 <= List.length adj)%nat /\
    forall q, In q adj -> on_board b q /\ dist1 p q.
Proof.
  intros Hp Hw Hh. apply on_board_inv in Hp. destruct Hp as (Hx & Hy & _).
  unfold adj_pts.
  destruct (Z.ltb_spec (y p + 1) (height b)) as [G1 | G1];
    destruct (Z.gtb_spec (y p) 0) as [G2 | G2];
    destruct (Z.ltb_spec (x p + 1) (width b)) as [G3 | G3];
    destruct (Z.gtb_spec (x p) 0) as [G4 | G4];
    rewrite ?Point_init_Ok by lia; cbn [bind app];
    rewrite ?Point_init_Ok by lia; cbn [bind app];
    rewrite ?Point_init_Ok by lia; cbn [bind app];
    rewrite ?Point_init_Ok by lia; cbn [bind app];
    try lia;
    (eexists; split; [reflexivity|]; split; [simpl; lia|];
     intros q Hq; simpl in Hq;
     repeat (destruct Hq as [<- | Hq];
             [split; [apply on_board_iff; rewrite in_bounds_iff; simpl; split; [lia | reflexivity]
                     | unfold dist1; simpl; lia]|]);
     destruct Hq).
Qed.

Lemma remove_first_incl (c : Point) (l : list Point) : incl (remove_first c l) l.
Proof. intros e. apply remove_first_in. Qed.

Lemma remove_guessed_in_place_Ok (g : list Point) (fuel i : nat) (adj : list Point) :
  exists adj',
    remove_guessed_in_place fuel i adj g = Ok adj' /\ incl adj' adj /\
    (List.length adj + Nat.min i (S (List.length adj)) <= 2 * List.length adj' + 1)%nat.
Proof.
  revert i adj. induction fuel as [|fuel IH]; intros i adj; simpl.
  - exists adj. split; [reflexivity|]. split; [apply incl_refl | lia].
  - destruct (nth_error adj i) as [p|] eqn:E.
    + assert (Hin : point_in p adj = true) by (eapply point_in_In, nth_error_In, E).
      assert (Hi : (i < List.length adj)%nat) by (apply nth_error_Some; congruence).
      destruct (point_in p g).
      * rewrite list_remove_Ok by assumption. cbn [bind].
        destruct (IH (S i) (remove_first p adj)) as (adj' & -> & Hincl & Hlen).
        pose proof (remove_first_length p adj Hin).
        exists adj'. split; [reflexivity|]. split.
        -- intros e He. eapply remove_first_incl, Hincl, He.
        -- lia.
      * destruct (IH (S i) adj) as (adj' & -> & Hincl & Hlen).
        exists adj'. split; [reflexivity|]. split; [assumption | lia].
    + exists adj. split; [reflexivity|]. split; [apply incl_refl | lia].
Qed.

Lemma pop_Ok (d : list Point) :
  d <> [] -> exists gs d', pop d = Ok (gs, d') /\ d = d' ++ [gs].
Proof.
  intros Hd. unfold pop. destruct (rev d) as [|p r] eqn:E.
  - apply (f_equal (@rev Point)) in E. rewrite rev_involutive in E. contradiction.
  - exists p, (rev r). split; [reflexivity|].
    apply (f_equal (@rev Point)) in E. rewrite rev_involutive in E. exact E.
Qed.

Lemma remove_first_skip (p : Point) (keep rest : list Point) :
  (forall e, In e keep -> Point_eq e p = false) ->
  remove_first p (keep ++ p :: rest) = keep ++ rest.
Proof.
  intros H. induction keep as [|e keep IH]; simpl.
  - now rewrite Point_eq_refl.
  - rewrite (H e) by (left; reflexivity). rewrite IH; [reflexivity|].
    intros; apply H; right; assumption.
Qed.

Lemma point_in_app (p : Point) (l1 l2 : list Point) :
  point_in p (l1 ++ l2) = point_in p l1 || point_in p l2.
Proof. unfold point_in. apply existsb_app. Qed.

(** The walk over a copy removes exactly the guessed Points. *)
Lemma remove_guessed_filter (g todo keep : list Point) :
  (forall e, In e keep -> point_in e g = false) ->
  remove_guessed todo (keep ++ todo) g
  = Ok (keep ++ filter (fun e => negb (point_in e g)) todo).
Proof.
  revert keep. induction todo as [|p todo IH]; intros keep Hk; simpl; [reflexivity|].
  destruct (point_in p g) eqn:E; simpl.
  - unfold list_remove. rewrite point_in_app. simpl. rewrite Point_eq_refl, orb_true_r.
    cbn [bind]. rewrite remove_first_skip.
    + apply IH, Hk.
    + intros e He. apply not_true_iff_false. intros H. apply Point_eq_iff in H.
      pose proof (Hk e He) as Hg. rewrite (point_in_same e p) in Hg by tauto.
      congruence.
  - change (keep ++ p :: todo) with (keep ++ [p] ++ todo). rewrite app_assoc.
    rewrite IH; [now rewrite <- app_assoc|].
    intros e He. apply in_app_or in He. destruct He as [He | [<- | []]]; auto.
Qed.

Lemma remove_guessed_all (g line : list Point) :
  remove_guessed line line g = Ok (filter (fun e => negb (point_in e g)) line).
Proof. apply (remove_guessed_filter g line []). intros e []. Qed.

(** ** The random search *)

Lemma rand_point_cases (b : Board) (rng : list Z) :
  0 < width b -> 0 < height b ->
  match rng with
  | rx :: ry :: rest =>
      rand_point b rng = Ok (mkPoint (rx mod width b) (ry mod height b) (ident b), rest)
  | _ => rand_point b rng = Starved
  end.
Proof.
  intros Hw Hh. unfold rand_point, randrange.
  destruct (Z.leb_spec (width b) 0); [lia|].
  destruct rng as [|rx [|ry rest]]; cbn [bind]; try reflexivity.
  - destruct (Z.leb_spec (height b) 0); [lia | reflexivity].
  - destruct (Z.leb_spec (height b) 0); [lia|]. cbn [bind].
    rewrite Point_init_Ok; [reflexivity | |]; apply Z.mod_pos_bound; assumption.
Qed.

Lemma mod_point_on_board (b : Board) (rx ry : Z) :
  0 < width b -> 0 < height b ->
  on_board b (mkPoint (rx mod width b) (ry mod height b) (ident b)).
Proof.
  intros Hw Hh. unfold on_board. simpl.
  apply Point_init_Ok; apply Z.mod_pos_bound; assumption.
Qed.

Lemma random_guess_loop_cases (a : AI) (b : Board) (fuel : nat) (rng : list Z) :
  0 < width b -> 0 < height b ->
  random_guess_loop fuel a b rng = Starved \/
  exists gs rng', random_guess_loop fuel a b rng = Ok (gs, rng') /\
                  on_board b gs /\ point_in gs (guesses a) = false.
Proof.
  intros Hw Hh. revert rng. induction fuel as [|fuel IH]; intros rng; simpl;
    pose proof (rand_point_cases b rng Hw Hh) as R;
    destruct rng as [|rx [|ry rest]]; rewrite R; cbn [bind]; auto.
  destruct (point_in _ (guesses a)) eqn:E; [apply IH|].
  right. eexists _, _. split; [reflexivity|]. split; [|assumption].
  now apply mod_point_on_board.
Qed.

Lemma random_guess_loop_draws (a : AI) (b : Board) (pre : list (Z * Z)) (rx ry : Z)
                              (post : list Z) (fuel : nat) :
  0 < width b -> 0 < height b ->
  (List.length pre < fuel)%nat ->
  point_in (mkPoint (rx mod width b) (ry mod height b) (ident b)) (guesses a) = false ->
  exists gs rng',
    random_guess_loop fuel a b (flat_map (fun d => [fst d; snd d]) pre ++ rx :: ry :: post)
    = Ok (gs, rng').
Proof.
  intros Hw Hh Hf Hfree. revert fuel Hf.
  induction pre as [|[px py] pre IH]; intros fuel Hf;
    (destruct fuel as [|fuel]; [simpl in Hf; lia|]); simpl.
  - pose proof (rand_point_cases b (rx :: ry :: post) Hw Hh) as R. simpl in R.
    rewrite R. cbn [bind]. rewrite Hfree. eauto.
  - pose proof (rand_point_cases b
       (px :: py :: flat_map (fun d => [fst d; snd d]) pre ++ rx :: ry :: post) Hw Hh) as R.
    simpl in R. rewrite R. cbn [bind].
    destruct (point_in (mkPoint (px mod width b) (py mod height b) (ident b)) (guesses a));
      [|eauto].
    apply IH. simpl in Hf. lia.
Qed.

Lemma random_guess_draws (a : AI) (b : Board) (rng : list Z) :
  0 < width b -> 0 < height b -> draws_free a b rng ->
  exists gs rng', random_guess a b rng = Ok (gs, rng').
Proof.
  intros Hw Hh (pre & rx & ry & post & -> & Hfree). unfold random_guess.
  apply random_guess_loop_draws; auto.
  rewrite length_app. simpl.
  assert (List.length (flat_map (fun d : Z * Z => [fst d; snd d]) pre)
          = (2 * List.length pre)%nat).
  { clear. induction pre as [|d pre IH]; simpl; [reflexivity | lia]. }
  lia.
Qed.

Lemma some_free_draws (a : AI) (b : Board) :
  some_free a b -> exists rng, draws_free a b rng.
Proof.
  intros (p & Hp & Hfree). apply on_board_inv in Hp. destruct Hp as (Hx & Hy & Hb).
  exists [x p; y p], [], (x p), (y p), []. split; [reflexivity|].
  rewrite !Z.mod_small by lia. rewrite <- Hb. destruct p; exact Hfree.
Qed.

(** ** The line through two hits on a Ship *)

Lemma Point_is_sym (p : Point) (a c : Z) (bid : nat) :
  mkPoint a c bid = p <-> x p = a /\ y p = c /\ board p = bid.
Proof. rewrite <- Point_is. split; intros H; symmetry; exact H. Qed.

Lemma ray_beyond_in (b : Board) (h : Point) (dx dy : Z) (q : Point) :
  In q (ray_beyond b h dx dy) <->
  board q = ident b /\ in_bounds b (x h + dx) (y h + dy) = true /\
  ((x q = x h + dx /\ y q = y h + dy) \/
   (x q = x h + 2 * dx /\ y q = y h + 2 * dy /\
    in_bounds b (x h + 2 * dx) (y h + 2 * dy) = true)).
Proof.
  unfold ray_beyond.
  destruct (in_bounds b (x h + dx) (y h + dy)) eqn:E1.
  - destruct (in_bounds b (x h + 2 * dx) (y h + 2 * dy)) eqn:E2; simpl;
      rewrite !Point_is_sym.
    + split; [intros [H | [H | []]] | intros (H1 & _ & [H | H])]; intuition lia.
    + split; [intros [H | []] | intros (H1 & _ & [H | H])]; intuition (try lia; discriminate).
  - simpl. split; [intros [] | intros (_ & H & _); discriminate].
Qed.

Lemma ship_ok_ext_coords (b : Board) (A : Ship) :
  ship_ok b A ->
  exists (ox oy : Z) (hz : bool) (len : Z),
    1 <= len <= 4 /\ 0 <= ox /\ 0 <= oy /\
    (if hz then ox + len <= width b /\ oy < height b
     else ox < width b /\ oy + len <= height b) /\
    forall p, (exists e, In e (ext A) /\ x e = x p /\ y e = y p) <->
              (if hz then ox <= x p < ox + len /\ y p = oy
               else x p = ox /\ oy <= y p < oy + len).
Proof.
  intros (ox & oy & hz & len & Hl & Hlo & Hhi & He & _).
  apply in_bounds_iff in Hlo, Hhi.
  exists ox, oy, hz, (Z.of_nat len). rewrite He.
  split; [lia|]. split; [lia|]. split; [lia|]. split; [destruct hz; lia|].
  intros p. destruct hz.
  - split.
    + intros (e & Hin & Hx & Hy). apply segment_row_in in Hin. lia.
    + intros H. exists (mkPoint (x p) (y p) (ident b)). rewrite segment_row_in. simpl. lia.
  - split.
    + intros (e & Hin & Hx & Hy). apply segment_column_in in Hin. lia.
    + intros H. exists (mkPoint (x p) (y p) (ident b)). rewrite segment_column_in. simpl. lia.
Qed.

(** On a run of at most 4 cells that holds two neighbouring cells [c1] and
    [c2], any other cell is one or two steps beyond [c2], or one or two steps
    beyond [c1] the other way. *)
Lemma run_of_four (c1 c2 c lo len : Z) :
  1 <= len <= 4 -> lo <= c1 < lo + len -> lo <= c2 < lo + len -> lo <= c < lo + len ->
  c2 - c1 = 1 \/ c2 - c1 = -1 -> c <> c1 -> c <> c2 ->
  c = c2 + (c2 - c1) \/ c = c2 + 2 * (c2 - c1) \/
  c = c1 - (c2 - c1) \/ c = c1 - 2 * (c2 - c1).
Proof. lia. Qed.

Lemma ray_beyond_reach (b : Board) (h q : Point) (dx dy : Z) :
  board q = ident b -> in_bounds b (x q) (y q) = true ->
  (x q = x h + dx /\ y q = y h + dy) \/
  (x q = x h + 2 * dx /\ y q = y h + 2 * dy /\
   in_bounds b (x h + dx) (y h + dy) = true) ->
  In q (ray_beyond b h dx dy).
Proof.
  intros Hb Hin H. apply ray_beyond_in. split; [assumption|].
  destruct H as [[Hx Hy] | (Hx & Hy & H1)].
  - rewrite <- Hx, <- Hy. split; [assumption|]. left. auto.
  - split; [assumption|]. right. rewrite <- Hx, <- Hy. auto.
Qed.

Lemma sgn_unit (d : Z) : d = 1 \/ d = -1 \/ d = 0 -> Z.sgn d = d.
Proof. intros [-> | [-> | ->]]; reflexivity. Qed.

(** The line of [inline] along a row and along a column. *)
Lemma line_covers_row (b : Board) (P Q p : Point) (lo len : Z) :
  1 <= len <= 4 -> 0 <= lo -> lo + len <= width b ->
  0 <= y P < height b -> y Q = y P -> y p = y P -> board p = ident b ->
  lo <= x P < lo + len -> lo <= x Q < lo + len -> lo <= x p < lo + len ->
  x Q - x P = 1 \/ x Q - x P = -1 -> x p <> x P -> x p <> x Q ->
  In p (line_between b P Q).
Proof.
  intros Hl Hlo Hhi Hy HyQ Hyp Hb HP HQ Hp Hd N1 N2.
  unfold line_between. rewrite HyQ, Z.sub_diag.
  rewrite (sgn_unit (x Q - x P)) by tauto. simpl Z.sgn. simpl Z.opp.
  assert (Hin : forall c, lo <= c < lo + len -> in_bounds b c (y P) = true)
    by (intros c Hc; apply in_bounds_iff; lia).
  apply in_or_app.
  destruct (run_of_four (x P) (x Q) (x p) lo len Hl HP HQ Hp Hd N1 N2) as [K | [K | [K | K]]].
  - left. apply ray_beyond_reach; [assumption | rewrite Hyp; auto|].
    left. split; [exact K | lia].
  - left. apply ray_beyond_reach; [assumption | rewrite Hyp; auto|].
    right. split; [exact K|]. split; [lia|]. rewrite Z.add_0_r, HyQ. apply Hin. lia.
  - right. apply ray_beyond_reach; [assumption | rewrite Hyp; auto|].
    left. split; lia.
  - right. apply ray_beyond_reach; [assumption | rewrite Hyp; auto|].
    right. split; [lia|]. split; [lia|]. rewrite Z.add_0_r. apply Hin. lia.
Qed.

Lemma line_covers_column (b : Board) (P Q p : Point) (lo len : Z) :
  1 <= len <= 4 -> 0 <= lo -> lo + len <= height b ->
  0 <= x P < width b -> x Q = x P -> x p = x P -> board p = ident b ->
  lo <= y P < lo + len -> lo <= y Q < lo + len -> lo <= y p < lo + len ->
  y Q - y P = 1 \/ y Q - y P = -1 -> y p <> y P -> y p <> y Q ->
  In p (line_between b P Q).
Proof.
  intros Hl Hlo Hhi Hx HxQ Hxp Hb HP HQ Hp Hd N1 N2.
  unfold line_between. rewrite HxQ, Z.sub_diag.
  rewrite (sgn_unit (y Q - y P)) by tauto. simpl Z.sgn. simpl Z.opp.
  assert (Hin : forall c, lo <= c < lo + len -> in_bounds b (x P) c = true)
    by (intros c Hc; apply in_bounds_iff; lia).
  apply in_or_app.
  destruct (run_of_four (y P) (y Q) (y p) lo len Hl HP HQ Hp Hd N1 N2) as [K | [K | [K | K]]].
  - left. apply ray_beyond_reach; [assumption | rewrite Hxp; auto|].
    left. split; [lia | exact K].
  - left. apply ray_beyond_reach; [assumption | rewrite Hxp; auto|].
    right. split; [lia|]. split; [exact K|]. rewrite Z.add_0_r, HxQ. apply Hin. lia.
  - right. apply ray_beyond_reach; [assumption | rewrite Hxp; auto|].
    left. split; lia.
  - right. apply ray_beyond_reach; [assumption | rewrite Hxp; auto|].
    right. split; [lia|]. split; [lia|]. rewrite Z.add_0_r. apply Hin. lia.
Qed.

(** Two hits next to each other on a Ship: every other Point of the Ship is
    on the line [inline] returns. *)
Lemma inline_covers (b : Board) (A : Ship) (P Q p : Point) :
  ship_ok b A -> on_board b P -> on_board b Q -> dist1 P Q ->
  point_in P (ext A) = true -> point_in Q (ext A) = true ->
  In p (ext A) -> Point_eq p P = false -> Point_eq p Q = false ->
  exists line, inline b P Q = Ok line /\ In p line.
Proof.
  intros HA HP HQ Hd HPA HQA Hp HpP HpQ.
  assert (Hne : Point_eq P Q = false).
  { apply not_true_iff_false. rewrite Point_eq_iff. unfold dist1 in Hd. lia. }
  assert (Hcol : colinear P Q) by (unfold colinear, dist1 in *; lia).
  rewrite (inline_refines b P Q HP HQ Hcol Hne). eexists. split; [reflexivity|].
  pose proof (ship_ok_board b A p HA Hp) as Hb.
  destruct (ship_ok_ext_coords b A HA) as (ox & oy & hz & len & Hl & Hox & Hoy & Hhi & Hext).
  apply point_in_iff in HPA, HQA. apply Hext in HPA, HQA.
  assert (Hpe : exists e, In e (ext A) /\ x e = x p /\ y e = y p) by (exists p; auto).
  apply Hext in Hpe. clear Hext HA Hp Hne Hcol.
  apply not_true_iff_false in HpP, HpQ. rewrite Point_eq_iff in HpP, HpQ.
  apply on_board_inv in HP, HQ. unfold dist1 in Hd.
  destruct hz.
  - apply (line_covers_row b P Q p ox len); try tauto; try lia.
  - apply (line_covers_column b P Q p oy len); try tauto; try lia.
Qed.

Lemma line_between_on_board (b : Board) (h1 h2 q : Point) :
  In q (line_between b h1 h2) -> on_board b q.
Proof.
  unfold line_between. rewrite in_app_iff, !ray_beyond_in, on_board_iff.
  intros [(Hb & H1 & [[Hx Hy] | (Hx & Hy & H2)]) | (Hb & H1 & [[Hx Hy] | (Hx & Hy & H2)])];
    rewrite Hx, Hy; auto.
Qed.

Lemma fleet_ok_ship (pb : Board) (A : Ship) :
  fleet_ok pb -> In A (content pb) -> ship_ok pb A.
Proof. intros [H _] HA. rewrite Forall_forall in H. auto. Qed.

Lemma ship_ok_valid (pb : Board) (A : Ship) :
  ship_ok pb A -> exists p, In p (valid A) /\ In p (ext A).
Proof.
  intros (ox & oy & hz & len & _ & _ & _ & _ & _ & _ & Hi & Hne).
  destruct (valid A) as [|p v]; [contradiction|].
  exists p. split; [left; reflexivity | apply Hi; left; reflexivity].
Qed.

(** ** Selecting a guess keeps the game sound *)

Section Selection.
Variables (a : AI) (pb : Board) (rng : list Z).
Hypothesis Hok : game_ok a pb.

Lemma select_from_guide (first : Point) (rest : list Point) :
  guide a = first :: rest ->
  exists a', make_guess a pb rng = Ok (first, a', rng) /\ selected_ok a pb first a'.
Proof.
  intros G. destruct Hok as (Hf & Hg & Hw & Hh & Hu & Hpts & Hcg & Hph).
  eexists. split; [apply make_guess_follows_guide, G|].
  split; [reflexivity|]. split; [reflexivity|]. split.
  { apply Hpts. rewrite G. apply in_or_app. right. apply in_or_app. right. left. reflexivity. }
  split.
  { simpl. intros p Hp. apply Hpts. rewrite G.
    apply in_or_app. right. apply in_app_or in Hp. apply in_or_app.
    destruct Hp; [left | right; right]; assumption. }
  unfold phase_ok in *. cbn [combo adj_guide guide set_guesses set_guide].
  destruct (combo a) as [|P [|Q rest']].
  - destruct Hph as [_ E]. rewrite G in E. discriminate.
  - destruct Hph as [E _]. rewrite G in E. discriminate.
  - destruct Hph as [(_ & _ & E & _) | (A & HA & Hall)].
    + rewrite G in E. discriminate.
    + right. exists A. split; [assumption|]. rewrite G in Hall. exact Hall.
Qed.

Lemma select_at_random :
  guide a = [] -> combo a = [] ->
  make_guess a pb rng = Starved \/
  exists gs a' rng', make_guess a pb rng = Ok (gs, a', rng') /\ selected_ok a pb gs a'.
Proof.
  intros G C. destruct Hok as (Hf & Hg & Hw & Hh & Hu & Hpts & Hcg & Hph).
  unfold make_guess. rewrite G, C. unfold random_guess.
  destruct (random_guess_loop_cases a pb (List.length rng) rng) as [-> | (gs & rng' & -> & Hb & Hfree)];
    try lia; [left; reflexivity|].
  right. eexists _, _, _. split; [reflexivity|].
  split; [reflexivity|]. split; [reflexivity|]. split; [assumption|].
  unfold phase_ok in *. cbn [combo adj_guide guide set_guesses]. rewrite C in *.
  destruct Hph as [E1 E2]. rewrite E1, E2. split; [intros p []|]. auto.
Qed.

Lemma select_adjacent (P : Point) :
  guide a = [] -> combo a = [P] ->
  make_guess a pb rng = Starved \/
  exists gs a' rng', make_guess a pb rng = Ok (gs, a', rng') /\ selected_ok a pb gs a'.
Proof.
  intros G C. destruct Hok as (Hf & Hg & Hw & Hh & Hu & Hpts & Hcg & Hph).
  unfold phase_ok in Hph. rewrite C in Hph. destruct Hph as (_ & HA & Hadj).
  assert (HP : on_board pb P) by (apply Hpts; rewrite C; left; reflexivity).
  unfold make_guess. rewrite G, C. cbn [List.length Nat.eqb andb].
  destruct (adj_guide a) as [|q0 d0] eqn:Ea.
  - change (py_nth [P] (-1)) with (Ok P). cbn [bind].
    destruct (adj_pts_Ok pb P HP Hw Hh) as (adj & -> & Hlen & Hprop). cbn [bind].
    destruct (remove_guessed_in_place_Ok (guesses a) (List.length adj) 0 adj)
      as (adj' & -> & Hincl & Hlen').
    cbn [bind adj_guide set_adj_guide app].
    assert (Hne : adj' <> []) by (destruct adj'; [simpl in Hlen'; lia | discriminate]).
    unfold randrange.
    destruct (Z.leb_spec (Z.of_nat (List.length adj')) 0) as [L | L].
    { destruct adj'; [contradiction | simpl in L; lia]. }
    destruct rng as [|r rng']; [left; reflexivity|]. right.
    cbn [bind adj_guide set_adj_guide combo]. rewrite C. cbn [List.length Nat.eqb].
    set (n := r mod Z.of_nat (List.length adj')).
    assert (Hr : rotate n adj' <> []).
    { intros E. apply (f_equal (@List.length Point)) in E.
      rewrite rotate_length in E. destruct adj'; [contradiction | discriminate]. }
    destruct (pop_Ok _ Hr) as (gs & d' & -> & Ed). cbn [bind].
    eexists _, _, _. split; [reflexivity|].
    assert (Hall : forall q, In q (gs :: d') -> on_board pb q /\ dist1 P q).
    { intros q Hq. apply Hprop, Hincl. apply (rotate_in n). rewrite Ed.
      apply in_or_app. destruct Hq as [<- | Hq]; [right; left; reflexivity | left; assumption]. }
    split; [reflexivity|]. split; [reflexivity|]. split; [apply Hall; left; reflexivity|].
    split.
    { cbn [adj_guide guide set_guesses set_adj_guide]. rewrite G, app_nil_r.
      intros p Hp. apply Hall. right. assumption. }
    unfold phase_ok. cbn [combo adj_guide guide set_guesses set_adj_guide]. rewrite C, G.
    split; [reflexivity|]. split; [assumption|].
    intros q Hq. apply Hall. exact Hq.
  - right. cbn [bind combo List.length Nat.eqb]. rewrite C. cbn [List.length Nat.eqb].
    destruct (pop_Ok (q0 :: d0)) as (gs & d' & Epop & Ed); [discriminate|].
    exists gs, (set_guesses (set_adj_guide a d') (guesses a ++ [gs])), rng.
    rewrite Ea, Epop. cbn [bind]. split; [reflexivity|].
    assert (Hin : forall q, In q (gs :: d') -> In q (q0 :: d0)).
    { intros q Hq. rewrite Ed. apply in_or_app.
      destruct Hq as [<- | Hq]; [right; left; reflexivity | left; assumption]. }
    assert (Hb : forall q, In q (q0 :: d0) -> on_board pb q).
    { intros q Hq. apply Hpts. apply in_or_app. right. apply in_or_app. left. exact Hq. }
    split; [reflexivity|]. split; [reflexivity|].
    split; [apply Hb, Hin; left; reflexivity|]. split.
    { cbn [adj_guide guide set_guesses set_adj_guide]. rewrite G, app_nil_r.
      intros p Hp. apply Hb, Hin. right. assumption. }
    unfold phase_ok. cbn [combo adj_guide guide set_guesses set_adj_guide]. rewrite C, G.
    split; [reflexivity|]. split; [assumption|].
    intros q Hq. apply Hadj, Hin. exact Hq.
Qed.
End Selection.

Section SelectionLine.
Variables (a : AI) (pb : Board) (rng : list Z).
Hypothesis Hok : game_ok a pb.

Lemma select_line (P Q : Point) :
  guide a = [] -> combo a = [P; Q] ->
  exists gs a', make_guess a pb rng = Ok (gs, a', rng) /\ selected_ok a pb gs a'.
Proof.
  intros G C. destruct Hok as (Hf & Hg & Hw & Hh & Hu & Hpts & Hcg & Hph).
  unfold phase_ok in Hph. rewrite C, G in Hph.
  assert (HP : on_board pb P) by (apply Hpts; rewrite C; left; reflexivity).
  assert (HQ : on_board pb Q) by (apply Hpts; rewrite C; right; left; reflexivity).
  destruct Hph as [(_ & _ & _ & Hd & A & HA & HPA & HQA) | (A & HA & Hall)].
  2:{ destruct (ship_ok_valid pb A (fleet_ok_ship pb A Hf HA)) as (p & Hp & _).
      specialize (Hall p Hp). discriminate. }
  pose proof (fleet_ok_ship pb A Hf HA) as HsA.
  assert (Hcover : forall p, In p (valid A) ->
            exists line, inline pb P Q = Ok line /\ In p line /\
                         point_in p (guesses a) = false).
  { intros p Hp.
    assert (Hpe : In p (ext A)).
    { destruct HsA as (ox & oy & hz & len & _ & _ & _ & _ & _ & _ & Hi & _). apply Hi, Hp. }
    pose proof (Hu A p HA Hp) as Hfree.
    assert (N : forall R, In R (combo a) -> Point_eq p R = false).
    { intros R HR. apply not_true_iff_false. intros E. apply Point_eq_iff in E.
      rewrite (point_in_same p R) in Hfree by tauto. rewrite (Hcg R HR) in Hfree. discriminate. }
    destruct (inline_covers pb A P Q p HsA HP HQ Hd HPA HQA Hpe) as (line & El & Hl).
    - apply N. rewrite C. left. reflexivity.
    - apply N. rewrite C. right. left. reflexivity.
    - exists line. auto. }
  destruct (ship_ok_valid pb A HsA) as (p0 & Hp0 & _).
  destruct (Hcover p0 Hp0) as (line & El & Hl0 & Hfree0).
  unfold make_guess. rewrite G, C. cbn [List.length Nat.eqb andb bind].
  rewrite C. cbn [List.length Nat.eqb].
  change (py_nth [P; Q] (-2)) with (Ok P). change (py_nth [P; Q] (-1)) with (Ok Q).
  cbn [bind]. rewrite El. cbn [bind].
  rewrite remove_guessed_all.
  cbn [bind app guide set_guide]. rewrite G. cbn [app].
  set (kept := filter (fun e => negb (point_in e (guesses a))) line).
  assert (Hkept : forall p, In p (valid A) -> In p kept).
  { intros p Hp. destruct (Hcover p Hp) as (line' & El' & Hl & Hfree).
    assert (line' = line) by congruence. subst line'.
    apply filter_In. split; [assumption|]. now rewrite Hfree. }
  assert (Hline : forall q, In q kept -> on_board pb q).
  { intros q Hq. apply filter_In in Hq. destruct Hq as [Hq _].
    assert (Hne : Point_eq P Q = false).
    { apply not_true_iff_false. rewrite Point_eq_iff. unfold dist1 in Hd. lia. }
    rewrite (inline_refines pb P Q HP HQ) in El;
      [| unfold colinear, dist1 in *; lia | assumption].
    inversion El; subst line. eapply line_between_on_board, Hq. }
  destruct kept as [|g0 grest] eqn:Ek.
  { destruct (Hkept p0 Hp0). }
  cbn [popleft bind]. eexists _, _. split; [reflexivity|].
  split; [reflexivity|]. split; [reflexivity|].
  split; [apply Hline; left; reflexivity|]. split.
  { cbn [adj_guide guide set_guesses set_guide]. intros p Hp.
    apply in_app_or in Hp. destruct Hp as [Hp | Hp].
    - apply Hpts. apply in_or_app. right. apply in_or_app. left. exact Hp.
    - apply Hline. right. exact Hp. }
  unfold phase_ok. cbn [combo adj_guide guide set_guesses set_guide]. rewrite C.
  right. exists A. split; [assumption|].
  intros p Hp. apply point_in_In. apply Hkept, Hp.
Qed.

Lemma no_overflow (P Q R : Point) (rest : list Point) :
  guide a = [] -> combo a <> P :: Q :: R :: rest.
Proof.
  intros G C. destruct Hok as (Hf & _ & _ & _ & _ & _ & _ & Hph).
  unfold phase_ok in Hph. rewrite C, G in Hph.
  destruct Hph as [(_ & E & _) | (A & HA & Hall)]; [discriminate|].
  destruct (ship_ok_valid pb A (fleet_ok_ship pb A Hf HA)) as (p & Hp & _).
  specialize (Hall p Hp). discriminate.
Qed.

(** A guess is selected, or the oracle ran dry: no exception. *)
Lemma make_guess_progress :
  make_guess a pb rng = Starved \/
  exists gs a' rng', make_guess a pb rng = Ok (gs, a', rng') /\ selected_ok a pb gs a'.
Proof.
  destruct (guide a) as [|g0 grest] eqn:G.
  - destruct (combo a) as [|P [|Q [|R rest]]] eqn:C.
    + now apply select_at_random.
    + now apply (select_adjacent a pb rng Hok P).
    + right. destruct (select_line P Q G C) as (gs & a' & E & H). eauto.
    + exfalso. eapply no_overflow; eauto.
  - right. destruct (select_from_guide a pb rng Hok g0 grest G) as (a' & E & H). eauto.
Qed.
End SelectionLine.

(** ** Checking the guess keeps the game sound *)

Lemma rotate_nil (n : Z) : rotate n [] = [].
Proof. reflexivity. Qed.

Lemma AI_check_guess_cases (a a' : AI) (pb pb' : Board) (c : Point) (hit : bool)
                           (out : list printed) :
  AI_check_guess a pb c = Ok (hit, out, a', pb') ->
  match find_hit c (content pb) with
  | None =>
      guesses a' = guesses a /\ combo a' = combo a /\
      adj_guide a' = adj_guide a /\ guide a' = rotate (-1) (guide a)
  | Some (before, ship, after) =>
      match remove_first c (valid ship) with
      | [] =>
          guesses a' = add_buffer (guesses a) (buffer ship) /\ combo a' = [] /\
          adj_guide a' = [] /\ guide a' = []
      | _ :: _ =>
          guesses a' = guesses a /\ combo a' = combo a ++ [c] /\
          adj_guide a' = adj_guide a /\ guide a' = guide a
      end
  end.
Proof.
  unfold AI_check_guess.
  destruct (find_hit c (content pb)) as [[[before ship] after]|] eqn:F.
  - destruct (display pb c "X") as [b1 | |]; try discriminate. cbn [bind].
    apply find_hit_Some in F. destruct F as (_ & Hin & _).
    rewrite list_remove_Ok by assumption. cbn [bind valid set_valid].
    destruct (remove_first c (valid ship)); intros E; inversion E; subst;
      cbn [guesses combo adj_guide guide set_guesses set_combo set_adj_guide set_guide];
      repeat split; reflexivity.
  - destruct (display pb c " ") as [b1 | |]; try discriminate. cbn [bind].
    intros E; inversion E; subst. destruct (guide a) eqn:G;
      cbn [guesses combo adj_guide guide set_guide]; rewrite ?G; repeat split; reflexivity.
Qed.

Lemma content_after_back (c : Point) (ships : list Ship) (s' : Ship) :
  In s' (content_after c ships) ->
  exists s, In s ships /\ ext s' = ext s /\ buffer s' = buffer s /\
            incl (valid s') (valid s).
Proof.
  unfold content_after.
  destruct (find_hit c ships) as [[[before ship] after]|] eqn:F.
  2:{ intros H. exists s'. repeat split; auto. apply incl_refl. }
  apply find_hit_Some in F. destruct F as (-> & _ & _).
  assert (Hkeep : forall s0, In s0 (before ++ after) ->
            exists s, In s (before ++ ship :: after) /\ ext s0 = ext s /\
                      buffer s0 = buffer s /\ incl (valid s0) (valid s)).
  { intros s0 H. exists s0. repeat split; [|apply incl_refl].
    apply in_app_or in H. apply in_or_app. destruct H; [left | right; right]; assumption. }
  destruct (remove_first c (valid ship)) as [|v0 v] eqn:R; [exact (Hkeep s')|].
  intros H. apply in_app_or in H. destruct H as [H | [<- | H]].
  - apply Hkeep, in_or_app. auto.
  - exists ship. split; [apply in_or_app; right; left; reflexivity|].
    simpl. repeat split. rewrite <- R. apply remove_first_incl.
  - apply Hkeep, in_or_app. auto.
Qed.

Lemma content_after_forth (c : Point) (ships : list Ship) (s : Ship) :
  match find_hit c ships with
  | Some (_, ship, _) => remove_first c (valid ship) <> []
  | None => True
  end ->
  In s ships ->
  exists s', In s' (content_after c ships) /\ ext s' = ext s /\
             incl (valid s') (valid s).
Proof.
  unfold content_after.
  destruct (find_hit c ships) as [[[before ship] after]|] eqn:F.
  2:{ intros _ H. exists s. repeat split; auto. apply incl_refl. }
  apply find_hit_Some in F. destruct F as (-> & _ & _).
  intros Hne H. destruct (remove_first c (valid ship)) as [|v0 v] eqn:R; [contradiction|].
  apply in_app_or in H. destruct H as [H | [<- | H]].
  - exists s. split; [apply in_or_app; auto|]. split; [reflexivity | apply incl_refl].
  - exists (set_valid ship (v0 :: v)). split; [apply in_or_app; right; left; reflexivity|].
    simpl. split; [reflexivity|]. rewrite <- R. apply remove_first_incl.
  - exists s. split; [apply in_or_app; right; right; assumption|].
    split; [reflexivity | apply incl_refl].
Qed.

Lemma point_in_cons (p q : Point) (l : list Point) :
  point_in p (q :: l) = Point_eq q p || point_in p l.
Proof. reflexivity. Qed.

Lemma point_in_perm (p : Point) (l l' : list Point) :
  (forall q, In q l -> In q l') -> point_in p l = true -> point_in p l' = true.
Proof.
  intros H Hp. apply point_in_iff in Hp. destruct Hp as (e & He & Hx & Hy).
  apply point_in_iff. exists e. auto.
Qed.

Lemma add_buffer_in (p : Point) (buf g : list Point) :
  point_in p (add_buffer g buf) = point_in p g || point_in p buf.
Proof.
  unfold add_buffer. revert g. induction buf as [|q buf IH]; intros g; simpl.
  - now rewrite orb_false_r.
  - rewrite IH. destruct (point_in q g) eqn:E; simpl.
    + destruct (Point_eq q p) eqn:Q; simpl; [|reflexivity].
      apply Point_eq_iff in Q. rewrite (point_in_same p q) by (symmetry; tauto).
      rewrite E. reflexivity.
    + rewrite point_in_app. simpl. rewrite orb_false_r, orb_assoc. reflexivity.
Qed.

Lemma on_board_frame (b b' : Board) (p : Point) :
  same_frame b b' -> on_board b p -> on_board b' p.
Proof.
  intros (Hi & Hw & Hh). rewrite !on_board_iff. unfold in_bounds.
  now rewrite Hi, Hw, Hh.
Qed.

Lemma in_content_after_miss (c : Point) (ships : list Ship) :
  find_hit c ships = None -> content_after c ships = ships.
Proof. intros F. unfold content_after. now rewrite F. Qed.

Lemma valid_in_ext (pb : Board) (A : Ship) (p : Point) :
  ship_ok pb A -> point_in p (valid A) = true -> point_in p (ext A) = true.
Proof.
  intros (ox & oy & hz & len & _ & _ & _ & _ & _ & _ & Hi & _) H.
  eapply point_in_perm; [|exact H]. exact Hi.
Qed.

(** ** The bounded loops run to their end *)

Lemma bind_Ok_inv {A B : Type} (m : outcome A) (f : A -> outcome B) (r : B) :
  bind m f = Ok r -> exists v, m = Ok v /\ f v = Ok r.
Proof. destruct m as [v | e |]; simpl; intros H; try discriminate. eauto. Qed.

(** More rounds than the length of the list change nothing in the walk that
    removes while it iterates. *)
Lemma remove_guessed_in_place_fuel (g : list Point) (fuel i : nat) (adj : list Point) :
  (List.length adj <= fuel + i)%nat ->
  remove_guessed_in_place (S fuel) i adj g = remove_guessed_in_place fuel i adj g.
Proof.
  revert i adj. induction fuel as [|fuel IH]; intros i adj Hlen.
  - simpl. destruct (nth_error adj i) eqn:E; [|reflexivity].
    assert (i < List.length adj)%nat by (apply nth_error_Some; congruence). lia.
  - cbn [remove_guessed_in_place]. destruct (nth_error adj i) as [p|] eqn:E; [|reflexivity].
    assert (Hin : point_in p adj = true) by (eapply point_in_In, nth_error_In, E).
    destruct (point_in p g).
    + rewrite list_remove_Ok by assumption. cbn [bind].
      pose proof (remove_first_length p adj Hin).
      apply (IH (S i) (remove_first p adj)). lia.
    + apply (IH (S i) adj). lia.
Qed.

Lemma rand_point_consumes (b : Board) (rng rest : list Z) (p : Point) :
  rand_point b rng = Ok (p, rest) -> List.length rng = S (S (List.length rest)).
Proof.
  unfold rand_point, randrange. intros H.
  destruct (width b <=? 0); [discriminate|].
  destruct rng as [|rx rng]; [discriminate|]. cbn [bind] in H.
  destruct (height b <=? 0); [discriminate|].
  destruct rng as [|ry rng]; [discriminate|]. cbn [bind] in H.
  destruct (Point_init b (rx mod width b) (ry mod height b)); try discriminate.
  cbn [bind] in H. inversion H; subst. reflexivity.
Qed.

(** More rounds than the oracle can feed change nothing in the random
    search. *)
Lemma random_guess_loop_fuel (a : AI) (b : Board) (fuel : nat) (rng : list Z) :
  (List.length rng <= 2 * fuel + 1)%nat ->
  random_guess_loop (S fuel) a b rng = random_guess_loop fuel a b rng.
Proof.
  revert rng. induction fuel as [|fuel IH]; intros rng Hlen.
  - cbn [random_guess_loop].
    destruct (rand_point b rng) as [[p rest] | e |] eqn:E; try reflexivity.
    apply rand_point_consumes in E. simpl in Hlen. lia.
  - cbn [random_guess_loop].
    destruct (rand_point b rng) as [[p rest] | e |] eqn:E; try reflexivity.
    cbn [bind]. destruct (point_in p (guesses a)); [|reflexivity].
    apply rand_point_consumes in E. apply IH. lia.
Qed.

(** ** The history of guesses *)

(** Whatever it returns, [make_guess] appends it to [guesses], once. *)
Lemma make_guess_appends (a a' : AI) (pb : Board) (rng rng' : list Z) (gs : Point) :
  make_guess a pb rng = Ok (gs, a', rng') -> guesses a' = guesses a ++ [gs].
Proof.
  unfold make_guess. destruct (guide a) as [|g0 grest].
  - destruct (combo a) as [|c0 cs].
    + intros H. apply bind_Ok_inv in H. destruct H as ([gs0 rng0] & _ & H).
      inversion H; subst. reflexivity.
    + intros H. apply bind_Ok_inv in H. destruct H as ([a1 rng1] & H1 & H).
      apply bind_Ok_inv in H. destruct H as ([gs0 a2] & H2 & H).
      inversion H; subst. clear H.
      assert (E1 : guesses a1 = guesses a).
      { destruct (_ && _) in H1; [|inversion H1; reflexivity].
        apply bind_Ok_inv in H1. destruct H1 as (last_hit & _ & H1).
        apply bind_Ok_inv in H1. destruct H1 as (adj & _ & H1).
        apply bind_Ok_inv in H1. destruct H1 as (adj0 & _ & H1).
        apply bind_Ok_inv in H1. destruct H1 as ([n rng0] & _ & H1).
        inversion H1; subst. reflexivity. }
      assert (E2 : guesses a2 = guesses a1).
      { destruct (List.length (combo a1) =? 1)%nat.
        - apply bind_Ok_inv in H2. destruct H2 as ([gs1 d] & _ & H2).
          inversion H2; subst. reflexivity.
        - destruct (List.length (combo a1) =? 2)%nat; [|discriminate].
          apply bind_Ok_inv in H2. destruct H2 as (h1 & _ & H2).
          apply bind_Ok_inv in H2. destruct H2 as (h2 & _ & H2).
          apply bind_Ok_inv in H2. destruct H2 as (line & _ & H2).
          apply bind_Ok_inv in H2. destruct H2 as (line0 & _ & H2).
          apply bind_Ok_inv in H2. destruct H2 as ([gs1 d] & _ & H2).
          inversion H2; subst. reflexivity. }
      cbn [guesses set_guesses]. now rewrite E2, E1.
  - cbn [popleft bind]. intros H. inversion H; subst. reflexivity.
Qed.

Lemma apart_in_split (before after : list Ship) (S s : Ship) :
  ForallOrdPairs apart (before ++ S :: after) -> In s (before ++ after) -> apart s S.
Proof.
  intros H Hs. apply ordered_app in H. destruct H as (_ & H2 & H12).
  apply ordered_cons in H2. destruct H2 as [H2 _].
  apply in_app_or in Hs. destruct Hs as [Hs | Hs].
  - apply H12; [assumption | left; reflexivity].
  - apply apart_sym, H2, Hs.
Qed.

Section CheckStep.
Variables (a a' a'' : AI) (pb pb'' : Board) (gs : Point) (hit : bool) (out : list printed).
Hypothesis Hok : game_ok a pb.
Hypothesis Hsel : selected_ok a pb gs a'.
Hypothesis Hcheck : AI_check_guess a' pb gs = Ok (hit, out, a'', pb'').

Lemma step_frame : same_frame pb pb'' /\ content pb'' = content_after gs (content pb).
Proof. destruct (AI_check_guess_inv _ _ _ _ _ _ _ Hcheck) as (H1 & H2 & _). auto. Qed.

Lemma step_clear (s : Ship) : In s (content pb'') -> point_in gs (valid s) = false.
Proof.
  destruct step_frame as [_ Hc]. rewrite Hc.
  destruct Hok as (Hf & _). now apply content_after_clear.
Qed.

Lemma step_fleet : fleet_ok pb'' /\ grid_ok pb'' /\ 2 <= width pb'' /\ 2 <= height pb''.
Proof.
  destruct step_frame as [Hfr Hc]. destruct Hok as (Hf & Hg & Hw & Hh & _).
  split; [eapply fleet_ok_after; eauto|].
  split; [eapply AI_check_guess_grid; eauto|].
  destruct Hfr as (_ & -> & ->). auto.
Qed.

Lemma step_not_selected (s : Ship) (p : Point) :
  In s (content pb'') -> In p (valid s) -> point_in p (guesses a') = false.
Proof.
  intros Hs Hp. destruct step_frame as [_ Hc].
  destruct Hok as (_ & _ & _ & _ & Hu & _). destruct Hsel as (Eg & _).
  pose proof (step_clear s Hs) as Hcl.
  rewrite Hc in Hs. apply content_after_back in Hs.
  destruct Hs as (s0 & Hs0 & _ & _ & Hi).
  rewrite Eg, point_in_app, (Hu s0 p Hs0 (Hi p Hp)). simpl. rewrite orb_false_r.
  apply not_true_iff_false. intros E. apply Point_eq_iff in E.
  rewrite point_in_false_iff in Hcl. apply (Hcl p Hp); lia.
Qed.

Lemma step_unguessed : unguessed (guesses a'') pb''.
Proof.
  intros s p Hs Hp. pose proof (step_not_selected s p Hs Hp) as Hn.
  destruct step_frame as [_ Hc]. destruct step_fleet as (Hf'' & _).
  pose proof (AI_check_guess_cases _ _ _ _ _ _ _ Hcheck) as Hcases.
  destruct (find_hit gs (content pb)) as [[[before ship] after]|] eqn:F.
  2:{ destruct Hcases as (-> & _). assumption. }
  destruct (remove_first gs (valid ship)) as [|v0 v] eqn:R.
  2:{ destruct Hcases as (-> & _). assumption. }
  destruct Hcases as (-> & _). rewrite add_buffer_in, Hn. simpl.
  unfold content_after in Hc. rewrite F, R in Hc.
  apply find_hit_Some in F. destruct F as (Ec & _ & _).
  destruct Hok as ([_ Ha] & _). rewrite Ec in Ha. rewrite Hc in Hs.
  destruct (apart_in_split before after ship s Ha Hs) as [[_ D] _].
  apply (disjoint_by_coordinates _ _ p D).
  apply (valid_in_ext pb'' s); [|now apply point_in_In].
  apply fleet_ok_ship; [assumption | now rewrite Hc].
Qed.

Lemma step_combo_guessed (p : Point) : In p (combo a'') -> point_in p (guesses a'') = true.
Proof.
  intros Hp. destruct Hok as (_ & _ & _ & _ & _ & _ & Hcg & _).
  destruct Hsel as (Eg & Ec & _).
  assert (H' : In p (combo a ++ [gs]) -> point_in p (guesses a') = true).
  { intros H. rewrite Eg, point_in_app. apply in_app_or in H. destruct H as [H | [<- | []]].
    - now rewrite (Hcg p H).
    - simpl. now rewrite Point_eq_refl, orb_true_r. }
  pose proof (AI_check_guess_cases _ _ _ _ _ _ _ Hcheck) as Hcases.
  destruct (find_hit gs (content pb)) as [[[before ship] after]|].
  - destruct (remove_first gs (valid ship)).
    + destruct Hcases as (_ & E & _). rewrite E in Hp. destruct Hp.
    + destruct Hcases as (-> & E & _). rewrite E, Ec in Hp. auto.
  - destruct Hcases as (-> & E & _). rewrite E, Ec in Hp.
    apply H', in_or_app. auto.
Qed.

Lemma step_points (p : Point) :
  In p (combo a'' ++ adj_guide a'' ++ guide a'') -> on_board pb'' p.
Proof.
  intros Hp. destruct step_frame as [Hfr _]. apply (on_board_frame pb); [assumption|].
  destruct Hok as (_ & _ & _ & _ & _ & Hpts & _).
  destruct Hsel as (_ & Ec & Hgs & Hpts' & _).
  assert (Hc : forall q, In q (combo a ++ [gs]) -> on_board pb q).
  { intros q H. apply in_app_or in H. destruct H as [H | [<- | []]]; [|assumption].
    apply Hpts, in_or_app. auto. }
  pose proof (AI_check_guess_cases _ _ _ _ _ _ _ Hcheck) as Hcases.
  destruct (find_hit gs (content pb)) as [[[before ship] after]|].
  - destruct (remove_first gs (valid ship)).
    + destruct Hcases as (_ & E1 & E2 & E3). rewrite E1, E2, E3 in Hp. destruct Hp.
    + destruct Hcases as (_ & E1 & E2 & E3). rewrite E1, E2, E3, Ec in Hp.
      apply in_app_or in Hp. destruct Hp; auto.
  - destruct Hcases as (_ & E1 & E2 & E3). rewrite E1, E2, E3, Ec in Hp.
    apply in_app_or in Hp. destruct Hp as [Hp | Hp]; [apply Hc, in_or_app; auto|].
    apply Hpts'. apply in_app_or in Hp. apply in_or_app.
    destruct Hp as [Hp | Hp]; [auto|]. right. now apply (rotate_in (-1)).
Qed.

Lemma step_phase : phase_ok [] a'' pb''.
Proof.
  destruct step_frame as [Hfr Hc]. destruct step_fleet as (Hf'' & _).
  pose proof step_clear as Hclear.
  destruct Hok as (Hf & Hg & Hw & Hh & Hu & Hpts & Hcg & Hph).
  destruct Hsel as (Eg & Ec & Hgs & Hpts' & Hph').
  pose proof (AI_check_guess_cases _ _ _ _ _ _ _ Hcheck) as Hcases.
  unfold phase_ok in *. rewrite Ec in Hph'.
  destruct (find_hit gs (content pb)) as [[[before ship] after]|] eqn:F.
  - destruct (remove_first gs (valid ship)) as [|v0 v] eqn:R.
    + destruct Hcases as (_ & -> & -> & ->). auto.
    + destruct Hcases as (_ & E1 & E2 & E3). rewrite E1, E2, E3, Ec.
      destruct (find_hit_Some _ _ _ _ _ F) as (Econt & Hin & Hbefore).
      assert (Hship : In ship (content pb))
        by (rewrite Econt; apply in_or_app; right; left; reflexivity).
      assert (HS' : In (set_valid ship (v0 :: v)) (content pb'')).
      { rewrite Hc. unfold content_after. rewrite F, R.
        apply in_or_app; right; left; reflexivity. }
      assert (Hgse : point_in gs (ext ship) = true)
        by (apply (valid_in_ext pb); [now apply fleet_ok_ship | assumption]).
      destruct (combo a) as [|P [|Q rest]]; cbn [app].
      * destruct Hph' as [Ea Eg']. split; [assumption|]. split.
        -- exists (set_valid ship (v0 :: v)). split; [assumption | exact Hgse].
        -- rewrite Ea. intros q [].
      * destruct Hph' as (Eg' & (A & HA & HPA) & Hadj). left.
        assert (Hd : dist1 P gs) by (apply Hadj; left; reflexivity).
        split; [reflexivity|]. split; [reflexivity|]. split; [assumption|].
        split; [assumption|].
        exists (set_valid ship (v0 :: v)). split; [assumption|]. split; [|exact Hgse].
        cbn [ext set_valid].
        assert (HAs : In A (before ++ after) \/ A = ship).
        { rewrite Econt in HA. apply in_app_or in HA.
          destruct HA as [HA | [HA | HA]]; [left | right | left];
            try (apply in_or_app); auto. }
        destruct HAs as [HAs | ->]; [exfalso | assumption].
        destruct Hf as [_ Hap]. rewrite Econt in Hap.
        destruct (apart_in_split before after ship A Hap HAs) as [_ [D1 D2]].
        pose proof (disjoint_by_coordinates _ _ gs D1 Hgse) as N1.
        pose proof (disjoint_by_coordinates _ _ gs D2 Hgse) as N2.
        apply point_in_iff in HPA. destruct HPA as (e & He & Hex & Hey).
        apply on_board_iff in Hgs. destruct Hgs as [Hgsb _].
        assert (HokA : ship_ok pb A).
        { destruct Hok as (Hf0 & _). apply fleet_ok_ship; [assumption|].
          rewrite Econt. apply in_app_or in HAs. apply in_or_app.
          destruct HAs; [left | right; right]; assumption. }
        destruct (ship_near_covered pb A HokA e (x gs) (y gs) He Hgsb)
          as [(p & Hp & Hx & Hy) | (p & Hp & Hx & Hy)].
        -- unfold dist1 in Hd. lia.
        -- assert (point_in gs (ext A) = true) by (apply point_in_iff; exists p; auto).
           congruence.
        -- assert (point_in gs (buffer A) = true) by (apply point_in_iff; exists p; auto).
           congruence.
      * destruct Hph' as [(Hfront & _) | (A & HA & Hall)]; [discriminate|]. right.
        destruct (content_after_forth gs (content pb) A) as (A2 & HA2 & Eext & Hincl);
          [rewrite F, R; discriminate | assumption|].
        rewrite <- Hc in HA2.
        exists A2. split; [assumption|]. intros p Hp. cbn [app].
        specialize (Hall p (Hincl p Hp)). cbn [app] in Hall.
        rewrite point_in_cons in Hall. apply orb_true_iff in Hall.
        destruct Hall as [Hall | Hall]; [|assumption].
        apply Point_eq_iff in Hall.
        pose proof (Hclear A2 HA2) as N. rewrite point_in_false_iff in N.
        exfalso. apply (N p Hp); lia.
  - destruct Hcases as (_ & E1 & E2 & E3). rewrite E1, E2, E3, Ec.
    rewrite (in_content_after_miss _ _ F) in Hc.
    rewrite find_hit_None in F.
    destruct (combo a) as [|P [|Q rest]].
    + destruct Hph' as [Ea Eg']. rewrite Eg'. auto.
    + destruct Hph' as (Eg' & HA & Hadj). rewrite Eg'. split; [reflexivity|].
      split; [now rewrite Hc|]. intros q Hq. apply Hadj. right. exact Hq.
    + destruct Hph' as [(Hfront & _) | (A & HA & Hall)]; [discriminate|]. right.
      exists A. split; [now rewrite Hc|]. intros p Hp. cbn [app].
      specialize (Hall p Hp). cbn [app] in Hall.
      rewrite point_in_cons in Hall. apply orb_true_iff in Hall.
      destruct Hall as [Hall | Hall].
      * apply Point_eq_iff in Hall.
        pose proof (F A HA) as N. rewrite point_in_false_iff in N.
        exfalso. apply (N p Hp); lia.
      * eapply point_in_perm; [|exact Hall]. intros q Hq. now apply rotate_in.
Qed.

(** One guess checked: the game is sound again. *)
Lemma step_game_ok : game_ok a'' pb''.
Proof.
  destruct step_fleet as (H1 & H2 & H3 & H4).
  repeat split; try assumption.
  - apply H1.
  - apply H1.
  - apply H2.
  - apply H2.
  - apply step_unguessed.
  - apply step_points.
  - apply step_combo_guessed.
  - apply step_phase.
Qed.
End CheckStep.

(** ** Every state of a game is sound *)

Lemma board_set_up_frame (b : Board) : board_set_up b -> width b = 10 /\ height b = 10.
Proof.
  induction 1 as [id nm | b origin d knd _ IH | b b' p sym _ IH E].
  - split; reflexivity.
  - destruct (Ship_init_outcomes b origin d knd) as [E | [E | [E | (len & _ & _ & E)]]];
      rewrite E; exact IH.
  - apply display_frame in E. destruct E as [(_ & -> & ->) _]. exact IH.
Qed.

Lemma game_ok_start (id : nat) (nm : string) (pb : Board) :
  board_set_up pb -> game_ok (AI_init id nm) pb.
Proof.
  intros H. pose proof (board_set_up_frame pb H) as [Hw Hh].
  pose proof (board_set_up_reachable pb H) as Hr.
  split; [now apply fleet_ok_reachable|]. split; [now apply grid_ok_reachable|].
  split; [lia|]. split; [lia|]. split; [intros s p _ _; reflexivity|].
  split; [intros p []|]. split; [intros p []|]. split; reflexivity.
Qed.

Lemma game_ok_guess (a a' : AI) (pb pb' : Board) (rng rng' : list Z) :
  game_ok a pb -> guess a pb rng = Ok (a', pb', rng') -> game_ok a' pb'.
Proof.
  intros Hok E. unfold guess in E.
  destruct (make_guess_progress a pb rng Hok) as [S | (gs & a1 & rng1 & M & Hsel)].
  - rewrite S in E. discriminate.
  - rewrite M in E. cbn [bind] in E.
    destruct (AI_check_guess a1 pb gs) as [[[[hit out] a2] pb2] | |] eqn:C; try discriminate.
    cbn [bind] in E. inversion E; subst.
    eapply step_game_ok; eauto.
Qed.

Lemma game_ok_reachable (a : AI) (pb : Board) : game_reachable a pb -> game_ok a pb.
Proof.
  induction 1 as [id nm pb H | a a' pb pb' rng rng' _ IH E].
  - now apply game_ok_start.
  - eapply game_ok_guess; eauto.
Qed.

(** ** Totality of [make_guess] *)

Lemma make_guess_never_raises (a : AI) (pb : Board) (rng : list Z) (e : exn) :
  game_ok a pb -> make_guess a pb rng <> Raise e.
Proof.
  intros Hok E.
  destruct (make_guess_progress a pb rng Hok) as [S | (gs & a1 & rng1 & M & _)];
    congruence.
Qed.

(** One number of the oracle is enough for the adjacency probe, whatever the
    engine holds: the walk that removes guessed neighbours while it iterates
    leaves at least one of them. *)
Lemma adjacent_returns (a : AI) (pb : Board) (P : Point) (r : Z) (rng : list Z) :
  2 <= width pb -> 2 <= height pb -> on_board pb P ->
  guide a = [] -> combo a = [P] ->
  exists gs a' rng', make_guess a pb (r :: rng) = Ok (gs, a', rng').
Proof.
  intros Hw Hh HP G C. unfold make_guess. rewrite G, C. cbn [List.length Nat.eqb andb].
  destruct (adj_guide a) as [|q0 d0] eqn:Ea.
  - change (py_nth [P] (-1)) with (Ok P). cbn [bind].
    destruct (adj_pts_Ok pb P HP Hw Hh) as (adj & -> & Hlen & _). cbn [bind].
    destruct (remove_guessed_in_place_Ok (guesses a) (List.length adj) 0 adj)
      as (adj' & -> & _ & Hlen').
    cbn [bind adj_guide set_adj_guide app].
    assert (Hne : adj' <> []) by (destruct adj'; [simpl in Hlen'; lia | discriminate]).
    unfold randrange.
    destruct (Z.leb_spec (Z.of_nat (List.length adj')) 0) as [L | L].
    { destruct adj'; [contradiction | simpl in L; lia]. }
    cbn [bind adj_guide set_adj_guide combo]. rewrite C. cbn [List.length Nat.eqb].
    set (n := r mod Z.of_nat (List.length adj')).
    assert (Hr : rotate n adj' <> []).
    { intros E. apply (f_equal (@List.length Point)) in E.
      rewrite rotate_length in E. destruct adj'; [contradiction | discriminate]. }
    destruct (pop_Ok _ Hr) as (gs & d' & -> & _). cbn [bind]. eauto.
  - cbn [bind combo List.length Nat.eqb]. rewrite C. cbn [List.length Nat.eqb].
    destruct (pop_Ok (q0 :: d0)) as (gs & d' & Epop & _); [discriminate|].
    rewrite Ea, Epop. cbn [bind]. eauto.
Qed.

Lemma make_guess_returns (a : AI) (pb : Board) (rng : list Z) :
  game_ok a pb -> draws_free a pb rng ->
  exists gs a' rng', make_guess a pb rng = Ok (gs, a', rng') /\ on_board pb gs.
Proof.
  intros Hok Hd.
  destruct (make_guess_progress a pb rng Hok) as [S | (gs & a1 & rng1 & M & Hsel)].
  2:{ exists gs, a1, rng1. split; [assumption|]. destruct Hsel as (_ & _ & H & _). exact H. }
  exfalso.
  pose proof Hok as (_ & _ & Hw & Hh & _ & Hpts & _ & _).
  destruct (guide a) as [|g0 grest] eqn:G.
  - destruct (combo a) as [|P [|Q [|R rest]]] eqn:C.
    + destruct (random_guess_draws a pb rng) as (gs & rng' & E); [lia | lia | assumption|].
      unfold make_guess in S. rewrite G, C, E in S. discriminate.
    + destruct Hd as (pre & rx & ry & post & -> & _).
      assert (HP : on_board pb P) by (apply Hpts; left; reflexivity).
      destruct pre as [|[px py] pre]; simpl in S;
        match type of S with make_guess a pb (?r :: ?l) = _ =>
          destruct (adjacent_returns a pb P r l Hw Hh HP G C) as (gs & a1 & rng1 & E)
        end; congruence.
    + destruct (select_line a pb rng Hok P Q G C) as (gs & a1 & E & _). congruence.
    + eapply no_overflow; eauto.
  - destruct (select_from_guide a pb rng Hok g0 grest G) as (a1 & E & _). congruence.
Qed.

(** C3.  In every state of a game [make_guess] raises nothing, whatever the
    random numbers; when they draw a coordinate that is not in [guesses] it
    returns a Point of the player's Board, and such numbers exist as soon as
    one coordinate of the Board is not in [guesses].  In the adjacency probe
    (one hit, empty line queue), in any state at all, with the adjacency
    queue emptied or every neighbour of the hit already in [guesses], one
    random number is enough for [make_guess] to return. *)
Theorem make_guess_total :
  (forall (a : AI) (pb : Board),
      game_reachable a pb ->
      (forall rng e, make_guess a pb rng <> Raise e) /\
      (forall rng, draws_free a pb rng ->
         exists gs a' rng', make_guess a pb rng = Ok (gs, a', rng') /\ on_board pb gs) /\
      (some_free a pb -> exists rng, draws_free a pb rng)) /\
  (forall (a : AI) (pb : Board) (P : Point) (r : Z) (rng : list Z),
      2 <= width pb -> 2 <= height pb -> on_board pb P ->
      guide a = [] -> combo a = [P] ->
      exists gs a' rng', make_guess a pb (r :: rng) = Ok (gs, a', rng')).
Proof.
  split.
  - intros a pb Hr. pose proof (game_ok_reachable a pb Hr) as Hok.
    split; [|split].
    + intros rng e. now apply make_guess_never_raises.
    + intros rng. now apply make_guess_returns.
    + apply some_free_draws.
  - apply adjacent_returns.
Qed.

(** After the hit at F5, with F6 and F4 already guessed, the engine is in the
    adjacency probe and returns a guess. *)
Lemma make_guess_total_witness :
  exists gs a' rng',
    make_guess (engine_of after_f5) (board_of after_f5) [2; 0] = Ok (gs, a', rng') /\
    on_board (board_of after_f5) gs.
Proof.
  destruct make_guess_total as [T _].
  destruct (T (engine_of after_f5) (board_of after_f5)) as (_ & R & _).
  - apply play_reachable_of. eexists. vm_compute. reflexivity.
  - apply R. exists [], 2, 0, []. split; [reflexivity | vm_compute; reflexivity].
Defined.

(** ** Derived comparisons of Points *)

Lemma Point_le_iff (p q : Point) :
  Point_le p q = true <-> x p < x q \/ (x p = x q /\ y p <= y q).
Proof.
  unfold Point_le, Point_gt.
  rewrite !Z.gtb_ltb.
  destruct (Z.eqb_spec (x p) (x q)), (Z.ltb_spec (y q) (y p)), (Z.ltb_spec (x q) (x p));
    cbn; split; intros; try discriminate; try lia; reflexivity.
Qed.

(** X1.  The derived comparisons agree with [<] and [==]: [p <= q] holds
    exactly when [p < q] or [p == q], [p >= q] is [q <= p], [p != q] is the
    negation of [p == q], and [<=] is a total order on coordinates: any two
    Points compare one way or the other, both ways only when they are
    [==], and the comparison is transitive. *)
Theorem Point_le_total_order (p q : Point) :
  (Point_le p q = true <-> Point_lt p q = true \/ Point_eq p q = true) /\
  Point_ge p q = Point_le q p /\
  Point_ne p q = negb (Point_eq p q) /\
  (Point_le p q = true \/ Point_le q p = true) /\
  (Point_le p q = true -> Point_le q p = true -> Point_eq p q = true) /\
  (forall r, Point_le p q = true -> Point_le q r = true -> Point_le p r = true).
Proof.
  repeat split.
  - rewrite Point_le_iff, Point_lt_iff, Point_eq_iff. lia.
  - rewrite Point_le_iff, Point_lt_iff, Point_eq_iff. lia.
  - unfold Point_ge, Point_le. rewrite Point_gt_lt.
    destruct (Point_lt p q); reflexivity.
  - unfold Point_ne. destruct (Point_eq p q); reflexivity.
  - rewrite !Point_le_iff. lia.
  - rewrite !Point_le_iff, Point_eq_iff. lia.
  - intro r. rewrite !Point_le_iff. lia.
Qed.

(** ** Neighbours *)

(** X2.  [adj_pts] of a Point of the Board never raises and returns exactly
    the Points of the Board one step away on the row or on the column, each
    once, at most four of them, in the order down, up, right, left. *)
Theorem adj_pts_neighbours (b : Board) (p : Point) :
  on_board b p ->
  exists adj,
    adj_pts b p = Ok adj /\
    (forall q, In q adj <-> on_board b q /\ dist1 p q) /\
    NoDup adj /\ (List.length adj <= 4)%nat /\
    adj = filter (fun q => in_bounds b (x q) (y q))
                 [mkPoint (x p) (y p + 1) (ident b); mkPoint (x p) (y p - 1) (ident b);
                  mkPoint (x p + 1) (y p) (ident b); mkPoint (x p - 1) (y p) (ident b)].
Proof.
  intro Hp. apply on_board_inv in Hp. destruct Hp as (Hx & Hy & Hb).
  assert (E : adj_pts b p
              = Ok (filter (fun q => in_bounds b (x q) (y q))
                      [mkPoint (x p) (y p + 1) (ident b); mkPoint (x p) (y p - 1) (ident b);
                       mkPoint (x p + 1) (y p) (ident b); mkPoint (x p - 1) (y p) (ident b)])).
  { unfold adj_pts. cbn [filter x y]. rewrite !Point_init_in_bounds.
    unfold in_bounds. rewrite !Z.gtb_ltb.
    destruct (Z.ltb_spec (y p + 1) (height b)), (Z.ltb_spec 0 (y p)),
             (Z.ltb_spec (x p + 1) (width b)), (Z.ltb_spec 0 (x p));
      repeat match goal with
             | |- context [?a <=? ?c] => destruct (Z.leb_spec a c); try lia
             | |- context [?a <? ?c] => destruct (Z.ltb_spec a c); try lia
             end; reflexivity. }
  eexists. split; [exact E|]. split; [|split; [|split; [|reflexivity]]].
  - intro q. rewrite filter_In, on_board_iff. unfold dist1. cbn [In]. split.
    + intros [[H | [H | [H | [H | []]]]] Hq]; subst q; cbn [x y board] in *;
        (split; [split; [exact Hq | reflexivity] | lia]).
    + intros [[Hq Hbq] Hd]. split; [|exact Hq].
      destruct q as [qx qy qb]. cbn [x y board] in *. subst qb.
      assert (C : (qx = x p /\ qy = y p + 1) \/ (qx = x p /\ qy = y p - 1) \/
                  (qx = x p + 1 /\ qy = y p) \/ (qx = x p - 1 /\ qy = y p)) by lia.
      destruct C as [[-> ->] | [[-> ->] | [[-> ->] | [-> ->]]]]; auto 6.
  - apply NoDup_filter.
    repeat constructor; cbn [In];
      repeat (intros [H | H]; [inversion H; lia | revert H]); intros [].
  - etransitivity; [apply filter_length_le|]. cbn. lia.
Qed.

Lemma adj_pts_neighbours_witness :
  exists adj,
    adj_pts (Board_init 1 "Player") (mkPoint 0 9 1) = Ok adj /\
    adj = [mkPoint 0 8 1; mkPoint 1 9 1].
Proof.
  destruct (adj_pts_neighbours (Board_init 1 "Player") (mkPoint 0 9 1))
    as (adj & E & _ & _ & _ & F).
  - reflexivity.
  - exists adj. split; [exact E | exact F].
Defined.

(** ** The overlap test as a distance *)

(** X3.  On a reachable Board, [isoverlap] holds of a Point of the Board
    exactly when some cell of some Ship afloat, hit or not, is the Point
    itself or its neighbour on the row or on the column; a cell that touches
    a Ship by a corner only does not overlap. *)
Theorem isoverlap_within_one_step (b : Board) (p : Point) :
  board_reachable b -> on_board b p ->
  (isoverlap b p = true <->
   exists s e, In s (content b) /\ In e (ext s) /\
               Z.abs (x e - x p) + Z.abs (y e - y p) <= 1).
Proof.
  intros Hb Hp. apply fleet_ok_reachable in Hb.
  apply on_board_iff in Hp. destruct Hp as [Hp _].
  rewrite isoverlap_iff. split.
  - intros (s & Hs & [H | H]); apply point_in_iff in H; destruct H as (e & He & Hx & Hy).
    + exists s, e. repeat split; try assumption. lia.
    + destruct (ship_buffer_near b s (fleet_ok_ship b s Hb Hs) e He) as (e' & He' & Hd).
      exists s, e'. repeat split; try assumption. lia.
  - intros (s & e & Hs & He & Hd). exists s. split; [exact Hs|].
    assert (C : Z.abs (x e - x p) + Z.abs (y e - y p) = 0 \/
                Z.abs (x e - x p) + Z.abs (y e - y p) = 1) by lia.
    destruct C as [C | C].
    + left. apply point_in_iff. exists e. split; [exact He | lia].
    + destruct (ship_near_covered b s (fleet_ok_ship b s Hb Hs) e (x p) (y p) He Hp C)
        as [(r & Hr & Hx & Hy) | (r & Hr & Hx & Hy)].
      * left. apply point_in_iff. exists r. auto.
      * right. apply point_in_iff. exists r. auto.
Qed.

Lemma isoverlap_within_one_step_witness :
  isoverlap board_c3 (mkPoint 4 3 1) = true /\
  isoverlap board_c3 (mkPoint 4 2 1) = false.
Proof.
  split.
  - apply (isoverlap_within_one_step board_c3 (mkPoint 4 3 1)).
    + apply reach_place, reach_new.
    + reflexivity.
    + exists (built_ship empty_board (mkPoint 2 3 1) "right" "destroyer" 2), (mkPoint 3 3 1).
      split; [left; reflexivity|]. split; [right; left; reflexivity|].
      vm_compute. discriminate.
  - reflexivity.
Defined.

(** ** Placement by order *)

Lemma place_ship_class (b b' : Board) (point : Point) (d : string) (order : Z) (s : Ship) :
  place_ship b point d order = (b', Ok s) ->
  (kind s, List.length (ext s)) = class_of_order order.
Proof.
  intro E. unfold place_ship in E.
  assert (K : forall knd len,
             lookup knd length_table = Some len ->
             forall d0, Ship_init b point d0 knd = (b', Ok s) ->
             (kind s, List.length (ext s)) = (knd, len)).
  { intros knd len Hk d0 E0. apply Ship_init_Ok_inv in E0.
    destruct E0 as (len' & Hl & _ & _ & -> & _).
    rewrite Hk in Hl. injection Hl as <-.
    cbn [ext kind built_ship]. f_equal.
    unfold segment, range. rewrite !length_map, length_seq. reflexivity. }
  unfold class_of_order. rewrite !Z.gtb_ltb in *.
  destruct (Z.ltb_spec 5 order).
  - apply (K "submarine"%string 1%nat eq_refl) in E. exact E.
  - destruct (Z.ltb_spec order 6); [|lia]. destruct (Z.ltb_spec 2 order); cbn [andb] in E.
    + apply (K "destroyer"%string 2%nat eq_refl) in E. exact E.
    + destruct (Z.eqb_spec order 1); [|destruct (Z.eqb_spec order 2)]; cbn [orb] in E.
      * apply (K "cruiser"%string 3%nat eq_refl) in E.
        destruct (Z.ltb_spec 0 order); [exact E | lia].
      * apply (K "cruiser"%string 3%nat eq_refl) in E.
        destruct (Z.ltb_spec 0 order); [exact E | lia].
      * apply (K "battleship"%string 4%nat eq_refl) in E.
        destruct (Z.ltb_spec 0 order); [lia | exact E].
Qed.

(** X4.  The class of the Ship [place_ship] builds depends on [order] only:
    a Battleship of 4 cells for an order of 0 or less, a Cruiser of 3 for 1
    and 2, a Destroyer of 2 for 3 to 5, a Submarine of 1 above 5; and above
    5 the direction that was passed is not looked at. *)
Theorem place_ship_class_by_order (b : Board) (point : Point) (d : string) (order : Z) :
  (forall b' s, place_ship b point d order = (b', Ok s) ->
     (order <= 0 -> kind s = "battleship"%string /\ List.length (ext s) = 4%nat) /\
     (1 <= order <= 2 -> kind s = "cruiser"%string /\ List.length (ext s) = 3%nat) /\
     (3 <= order <= 5 -> kind s = "destroyer"%string /\ List.length (ext s) = 2%nat) /\
     (5 < order -> kind s = "submarine"%string /\ List.length (ext s) = 1%nat)) /\
  (5 < order -> forall d', place_ship b point d' order = place_ship b point d order).
Proof.
  split.
  - intros b' s E. apply place_ship_class in E. unfold class_of_order in E.
    rewrite !Z.gtb_ltb in E.
    destruct (Z.ltb_spec 5 order); [|destruct (Z.ltb_spec 2 order);
                                      [|destruct (Z.ltb_spec 0 order)]];
      injection E as -> ->; repeat split; intros; try lia; reflexivity.
  - intros H d'. unfold place_ship. rewrite Z.gtb_ltb.
    destruct (Z.ltb_spec 5 order); [reflexivity | lia].
Qed.

Lemma place_ship_class_by_order_witness :
  exists b' s,
    place_ship empty_board (mkPoint 2 3 1) "right" 4 = (b', Ok s) /\
    kind s = "destroyer"%string /\ List.length (ext s) = 2%nat.
Proof.
  eexists. eexists. split; [reflexivity|].
  apply (proj1 (place_ship_class_by_order empty_board (mkPoint 2 3 1) "right" 4) _ _ eq_refl).
  lia.
Defined.

(** ** Random Points and Ships *)

(** X5.  On a Board with cells, [rand_point] never raises: it reads two
    numbers of the random source, stays unfinished when they are not there,
    and returns a Point of the Board; and every Point of the Board is
    returned for some pair of numbers. *)
Theorem rand_point_on_board (b : Board) :
  0 < width b -> 0 < height b ->
  (forall rng e, rand_point b rng <> Raise e) /\
  (forall rng p rest, rand_point b rng = Ok (p, rest) ->
     on_board b p /\ exists rx ry, rng = rx :: ry :: rest) /\
  (forall rng, (List.length rng < 2)%nat -> rand_point b rng = Starved) /\
  (forall p rest, on_board b p -> rand_point b (x p :: y p :: rest) = Ok (p, rest)).
Proof.
  intros Hw Hh. repeat split.
  - intros rng e. pose proof (rand_point_cases b rng Hw Hh) as C.
    destruct rng as [|rx [|ry rest]]; rewrite C; discriminate.
  - pose proof (rand_point_cases b rng Hw Hh) as C.
    destruct rng as [|rx [|ry rest']]; rewrite C in H; try discriminate.
    injection H as <- _. apply mod_point_on_board; assumption.
  - pose proof (rand_point_cases b rng Hw Hh) as C.
    destruct rng as [|rx [|ry rest']]; rewrite C in H; try discriminate.
    injection H as _ <-. eauto.
  - intros rng L. pose proof (rand_point_cases b rng Hw Hh) as C.
    destruct rng as [|rx [|ry rest]]; cbn in L; try lia; exact C.
  - intros p rest Hp. pose proof (rand_point_cases b (x p :: y p :: rest) Hw Hh) as C.
    cbv beta iota in C. rewrite C.
    apply on_board_inv in Hp. destruct Hp as (Hx & Hy & Hb).
    rewrite !Z.mod_small by lia. destruct p as [px py pb]. cbn [x y board] in *.
    subst pb. reflexivity.
Qed.

Lemma rand_point_on_board_witness :
  rand_point empty_board [5; 4] = Ok (mkPoint 5 4 1, []).
Proof.
  apply (proj2 (proj2 (proj2 (rand_point_on_board empty_board ltac:(reflexivity) ltac:(reflexivity))))
           (mkPoint 5 4 1) []).
  reflexivity.
Defined.

(** ** Every way an accepted placement ends *)

Lemma Ship_init_three_ways (b : Board) (origin : Point) (d knd : string) (len : nat) :
  lookup knd length_table = Some len -> str_in d direct = true ->
  ((exists c, In c (computed origin d len) /\ in_bounds b (fst c) (snd c) = false) /\
   Ship_init b origin d knd = (b, Raise OOBError)) \/
  ((forall c, In c (computed origin d len) -> in_bounds b (fst c) (snd c) = true) /\
   (exists c, In c (computed origin d len) /\ isoverlap b (point_at b c) = true) /\
   Ship_init b origin d knd = (b, Raise OverlapError)) \/
  ((forall c, In c (computed origin d len) -> in_bounds b (fst c) (snd c) = true) /\
   (forall c, In c (computed origin d len) -> isoverlap b (point_at b c) = false) /\
   Ship_init b origin d knd
   = (set_content b (content b ++ [built_ship b origin d knd len]),
      Ok (built_ship b origin d knd len))).
Proof.
  intros Hk Hd.
  destruct (mapM_Point_init_cases (Z * Z) b fst snd (computed origin d len)) as [Hin | Hout].
  2:{ left. split; [assumption|]. now apply (Ship_init_out_of_bounds b origin d knd len). }
  destruct (existsb (fun c => isoverlap b (point_at b c)) (computed origin d len)) eqn:Ho.
  { apply existsb_exists in Ho. right; left. repeat split; try assumption.
    now apply (Ship_init_overlap b origin d knd len). }
  rewrite existsb_false_iff in Ho. right; right. repeat split; try assumption.
  now apply (Ship_init_success b origin d knd len).
Qed.

Lemma rand_direction_cases (rng : list Z) :
  match rng with
  | [] => rand_direction rng = Starved
  | r :: rest =>
      exists d, rand_direction rng = Ok (d, rest) /\ str_in d direct = true /\
                nth_error ["down"; "up"; "right"; "left"]%string (Z.to_nat (r mod 4)) = Some d
  end.
Proof.
  destruct rng as [|r rest]; [reflexivity|].
  unfold rand_direction, randrange. cbn [Z.leb Z.compare bind].
  assert (H : 0 <= r mod 4 < 4) by (apply Z.mod_pos_bound; lia).
  assert (C : r mod 4 = 0 \/ r mod 4 = 1 \/ r mod 4 = 2 \/ r mod 4 = 3) by lia.
  destruct C as [-> | [-> | [-> | ->]]]; eexists; repeat split; reflexivity.
Qed.

Lemma place_ship_is_Ship_init (b : Board) (point : Point) (d : string) (order : Z) :
  str_in d direct = true ->
  exists d' knd len,
    place_ship b point d order = Ship_init b point d' knd /\
    lookup knd length_table = Some len /\ str_in d' direct = true.
Proof.
  intro Hd. unfold place_ship.
  destruct (order >? 5); [exists "down"%string, "submarine"%string, 1%nat; auto|].
  destruct ((order <? 6) && (order >? 2)); [exists d, "destroyer"%string, 2%nat; auto|].
  destruct ((order =? 1) || (order =? 2)); [exists d, "cruiser"%string, 3%nat; auto|].
  exists d, "battleship"%string, 4%nat; auto.
Qed.

(** X6.  [rand_ship] on a Board with cells reads three numbers of the random
    source, two for the Point and one for the direction, and stays
    unfinished without them.  With them it ends in one of three ways only:
    OOBError or OverlapError with the Board as it was, or a Ship of the
    Board added at the end of [content]; it never raises InputError,
    whatever the order and the numbers, since [rand_direction] returns one
    of the four directions for every number. *)
Theorem rand_ship_outcomes (b : Board) (order : Z) (rng : list Z) :
  0 < width b -> 0 < height b ->
  ((List.length rng < 3)%nat -> rand_ship b order rng = (b, Starved)) /\
  (forall rx ry rd rest, rng = rx :: ry :: rd :: rest ->
     rand_ship b order rng = (b, Raise OOBError) \/
     rand_ship b order rng = (b, Raise OverlapError) \/
     exists s, rand_ship b order rng = (set_content b (content b ++ [s]), Ok (s, rest)) /\
               ship_ok b s /\
               forall old, In old (content b) -> ship_ok b old -> apart old s).
Proof.
  intros Hw Hh. split.
  - intro L. unfold rand_ship. pose proof (rand_point_cases b rng Hw Hh) as C.
    destruct rng as [|rx [|ry [|rd rest]]]; cbn in L; try lia; rewrite C; reflexivity.
  - intros rx ry rd rest ->. unfold rand_ship.
    pose proof (rand_point_cases b (rx :: ry :: rd :: rest) Hw Hh) as C.
    cbv beta iota in C. rewrite C. cbn [bind].
    destruct (rand_direction_cases (rd :: rest)) as (d & Ed & Hd & _).
    rewrite Ed. cbn [bind].
    destruct (place_ship_is_Ship_init b (mkPoint (rx mod width b) (ry mod height b) (ident b))
                d order Hd) as (d' & knd & len & -> & Hk & Hd').
    destruct (Ship_init_three_ways b (mkPoint (rx mod width b) (ry mod height b) (ident b))
                d' knd len Hk Hd') as [(_ & E) | [(_ & _ & E) | (Hin & Hno & E)]];
      rewrite E; cbn [bind]; auto.
    right; right. eexists. split; [reflexivity|]. split.
    + apply built_ship_ok; assumption.
    + intros old Ho Hok. apply placement_apart; try assumption.
      intros c Hc. split; [apply Hin | apply Hno]; assumption.
Qed.

Lemma rand_ship_outcomes_witness :
  rand_ship board_c3 0 [3; 3; 0] = (board_c3, Raise OverlapError) /\
  rand_ship board_c3 0 [3; 9; 0] = (board_c3, Raise OOBError) /\
  exists s, rand_ship board_c3 0 [3; 5; 0]
            = (set_content board_c3 (content board_c3 ++ [s]), Ok (s, [])).
Proof.
  pose proof (rand_ship_outcomes board_c3 0 [3; 5; 0] ltac:(reflexivity) ltac:(reflexivity)) as [_ H].
  destruct (H 3 5 0 [] eq_refl) as [E | [E | (s & E & _)]].
  - vm_compute in E. discriminate E.
  - vm_compute in E. discriminate E.
  - split; [vm_compute; reflexivity|]. split; [vm_compute; reflexivity|].
    exists s. exact E.
Defined.

(** ** A Ship from either end *)

Lemma computed_up_down (origin : Point) (len : nat) (c : Z * Z) :
  In c (computed origin "up" len) <->
  In c (computed (mkPoint (x origin) (y origin - (Z.of_nat len - 1)) (board origin)) "down" len).
Proof.
  rewrite !computed_in. cbn [step String.eqb Ascii.eqb Bool.eqb fst snd x y]. split.
  - intros (n & Hn & ->). exists (Z.of_nat len - 1 - n). split; [lia|]. f_equal; lia.
  - intros (n & Hn & ->). exists (Z.of_nat len - 1 - n). split; [lia|]. f_equal; lia.
Qed.

Lemma computed_left_right (origin : Point) (len : nat) (c : Z * Z) :
  In c (computed origin "left" len) <->
  In c (computed (mkPoint (x origin - (Z.of_nat len - 1)) (y origin) (board origin)) "right" len).
Proof.
  rewrite !computed_in. cbn [step String.eqb Ascii.eqb Bool.eqb fst snd x y]. split.
  - intros (n & Hn & ->). exists (Z.of_nat len - 1 - n). split; [lia|]. f_equal; lia.
  - intros (n & Hn & ->). exists (Z.of_nat len - 1 - n). split; [lia|]. f_equal; lia.
Qed.

Lemma Ship_init_same_cells (b : Board) (o1 o2 : Point) (d1 d2 knd : string) (len : nat) :
  lookup knd length_table = Some len ->
  str_in d1 direct = true -> str_in d2 direct = true ->
  (forall c, In c (computed o1 d1 len) <-> In c (computed o2 d2 len)) ->
  built_ship b o1 d1 knd len = built_ship b o2 d2 knd len ->
  Ship_init b o1 d1 knd = Ship_init b o2 d2 knd.
Proof.
  intros Hk H1 H2 Hc Hs.
  destruct (Ship_init_three_ways b o1 d1 knd len Hk H1)
    as [((c & Hin & Ho) & E) | [(Hin & (c & Hcc & Ho) & E) | (Hin & Hno & E)]]; rewrite E.
  - symmetry. apply (Ship_init_out_of_bounds b o2 d2 knd len); try assumption.
    exists c. split; [apply Hc, Hin | exact Ho].
  - symmetry. apply (Ship_init_overlap b o2 d2 knd len); try assumption.
    + intros c' Hc'. apply Hin, Hc, Hc'.
    + exists c. split; [apply Hc, Hcc | exact Ho].
  - rewrite Hs. symmetry. apply (Ship_init_success b o2 d2 knd len); try assumption.
    + intros c' Hc'. apply Hin, Hc, Hc'.
    + intros c' Hc'. apply Hno, Hc, Hc'.
Qed.

(** X7.  A Ship built upwards from a Point is the Ship built downwards from
    the cell where it ends, and a Ship built to the left is the Ship built
    to the right from the cell where it ends: the two calls of
    [Ship.__init__] return equal Ships, with [ext] in the same ascending
    order, leave equal Boards, and fail with the same exception when they
    fail. *)
Theorem Ship_init_from_either_end (b : Board) (origin : Point) (knd : string) (len : nat) :
  lookup knd length_table = Some len ->
  Ship_init b origin "up" knd
  = Ship_init b (mkPoint (x origin) (y origin - (Z.of_nat len - 1)) (board origin)) "down" knd /\
  Ship_init b origin "left" knd
  = Ship_init b (mkPoint (x origin - (Z.of_nat len - 1)) (y origin) (board origin)) "right" knd.
Proof.
  intro Hk. split.
  - apply (Ship_init_same_cells b _ _ "up"%string "down"%string knd len Hk eq_refl eq_refl).
    + apply computed_up_down.
    + reflexivity.
  - apply (Ship_init_same_cells b _ _ "left"%string "right"%string knd len Hk eq_refl eq_refl).
    + apply computed_left_right.
    + reflexivity.
Qed.

Lemma Ship_init_from_either_end_witness :
  Ship_init board_c3 (mkPoint 5 9 1) "up" "cruiser"
  = Ship_init board_c3 (mkPoint 5 7 1) "down" "cruiser".
Proof.
  exact (proj1 (Ship_init_from_either_end board_c3 (mkPoint 5 9 1) "cruiser" 3 eq_refl)).
Defined.

(** ** One cell of the grid *)

Lemma nth_error_set_nth_same {A : Type} (l : list A) (k : nat) (v : A) :
  (k < List.length l)%nat -> nth_error (set_nth l k v) k = Some v.
Proof.
  revert k. induction l as [|a l IH]; intros [|k] L; cbn in *; try lia; [reflexivity|].
  apply IH. lia.
Qed.

Lemma nth_error_set_nth_other {A : Type} (l : list A) (k j : nat) (v : A) :
  j <> k -> nth_error (set_nth l k v) j = nth_error l j.
Proof.
  revert k j. induction l as [|a l IH]; intros [|k] [|j] N; cbn; try reflexivity; try lia.
  apply IH. lia.
Qed.

Lemma py_nth_in_range {A : Type} (l : list A) (i : Z) :
  0 <= i < Z.of_nat (List.length l) -> py_nth l i = match nth_error l (Z.to_nat i) with
                                                     | Some a => Ok a
                                                     | None => Raise IndexError
                                                     end.
Proof. intro H. unfold py_nth. rewrite py_index_Ok by assumption. reflexivity. Qed.

Lemma py_nth_beyond {A : Type} (l : list A) (i : Z) :
  Z.of_nat (List.length l) <= i -> py_nth l i = Raise IndexError.
Proof.
  intro H. unfold py_nth, py_index.
  destruct (Z.leb_spec 0 i); [|lia]. destruct (Z.ltb_spec i (Z.of_nat (List.length l))); [lia|].
  cbn [andb]. destruct (Z.leb_spec (- Z.of_nat (List.length l)) i); cbn [andb].
  - destruct (Z.ltb_spec i 0); [lia | reflexivity].
  - reflexivity.
Qed.

Lemma py_set_beyond {A : Type} (l : list A) (i : Z) (v : A) :
  Z.of_nat (List.length l) <= i -> py_set l i v = Raise IndexError.
Proof.
  intro H. unfold py_set, py_index.
  destruct (Z.leb_spec 0 i); [|lia]. destruct (Z.ltb_spec i (Z.of_nat (List.length l))); [lia|].
  cbn [andb]. destruct (Z.leb_spec (- Z.of_nat (List.length l)) i); cbn [andb].
  - destruct (Z.ltb_spec i 0); [lia | reflexivity].
  - reflexivity.
Qed.

Lemma grid_row (b : Board) (py : Z) :
  grid_ok b -> 0 <= py < height b ->
  exists row, nth_error (grid b) (Z.to_nat py) = Some row /\
              Z.of_nat (List.length row) = width b.
Proof.
  intros [Hh Hw] Hy.
  destruct (nth_error (grid b) (Z.to_nat py)) as [row|] eqn:E.
  - exists row. split; [reflexivity|]. rewrite Forall_forall in Hw.
    apply Hw. eapply nth_error_In, E.
  - apply nth_error_None in E. lia.
Qed.

(** What [display] leaves, cell by cell. *)
Lemma display_cells (b : Board) (p : Point) (sym : string) :
  grid_ok b -> in_bounds b (x p) (y p) = true ->
  exists b',
    display b p sym = Ok b' /\
    cell b' (x p) (y p) = Ok sym /\
    (forall qx qy, in_bounds b qx qy = true -> qx <> x p \/ qy <> y p ->
                   cell b' qx qy = cell b qx qy) /\
    content b' = content b /\ same_frame b b' /\ grid_ok b'.
Proof.
  intros Hg Hp. pose proof Hg as [Hh Hw]. apply in_bounds_iff in Hp. destruct Hp as [Hx Hy].
  destruct (grid_row b (y p) Hg Hy) as (row & Er & Lr).
  assert (E : display b p sym
              = Ok (set_grid b (set_nth (grid b) (Z.to_nat (y p))
                                  (set_nth row (Z.to_nat (x p)) sym)))).
  { unfold display. rewrite py_nth_in_range by lia. rewrite Er. cbn [bind].
    unfold py_set. rewrite !py_index_Ok by lia. reflexivity. }
  eexists. split; [exact E|].
  assert (Hg' : grid_ok (set_grid b (set_nth (grid b) (Z.to_nat (y p))
                                       (set_nth row (Z.to_nat (x p)) sym)))).
  { split; cbn [grid set_grid height width].
    - rewrite set_nth_length. exact Hh.
    - apply set_nth_Forall; [exact Hw|]. rewrite set_nth_length. exact Lr. }
  split; [|split; [|split; [reflexivity | split; [repeat split | exact Hg']]]].
  - unfold cell. cbn [grid set_grid].
    rewrite py_nth_in_range by (rewrite set_nth_length; lia).
    rewrite nth_error_set_nth_same by lia. cbn [bind].
    rewrite py_nth_in_range by (rewrite set_nth_length; lia).
    rewrite nth_error_set_nth_same by lia. reflexivity.
  - intros qx qy Hq N. apply in_bounds_iff in Hq. destruct Hq as [Hqx Hqy].
    unfold cell. cbn [grid set_grid].
    rewrite !py_nth_in_range by (rewrite ?set_nth_length; lia).
    destruct (Z.eq_dec qy (y p)) as [-> | Ny].
    + rewrite nth_error_set_nth_same by lia. rewrite Er. cbn [bind].
      rewrite !py_nth_in_range by (rewrite ?set_nth_length; lia).
      rewrite nth_error_set_nth_other by lia. reflexivity.
    + rewrite nth_error_set_nth_other by lia. reflexivity.
Qed.

(** X8.  [display] on a Point inside a well-formed grid never raises and
    writes one cell: the cell of the Point reads as the symbol afterwards,
    every other cell reads as before, and the Ships and the dimensions are
    untouched.  On a Point beyond the right or the bottom edge it raises
    IndexError. *)
Theorem display_writes_one_cell (b : Board) (p : Point) (sym : string) :
  grid_ok b -> 0 <= x p -> 0 <= y p ->
  (in_bounds b (x p) (y p) = true ->
   exists b',
     display b p sym = Ok b' /\
     cell b' (x p) (y p) = Ok sym /\
     (forall qx qy, in_bounds b qx qy = true -> qx <> x p \/ qy <> y p ->
                    cell b' qx qy = cell b qx qy) /\
     content b' = content b /\ same_frame b b' /\ grid_ok b') /\
  (in_bounds b (x p) (y p) = false -> display b p sym = Raise IndexError).
Proof.
  intros Hg Hx Hy. split; [apply display_cells, Hg|].
  intro Hout. pose proof Hg as [Hh Hw]. unfold display.
  destruct (Z.lt_ge_cases (y p) (height b)) as [Ly | Ly].
  - destruct (grid_row b (y p) Hg (conj Hy Ly)) as (row & Er & Lr).
    rewrite py_nth_in_range by lia. rewrite Er. cbn [bind].
    rewrite py_set_beyond; [reflexivity|].
    destruct (Z.lt_ge_cases (x p) (width b)) as [Lx | Lx]; [|lia].
    assert (in_bounds b (x p) (y p) = true) by (apply in_bounds_iff; lia). congruence.
  - rewrite py_nth_beyond by lia. reflexivity.
Qed.

Lemma display_writes_one_cell_witness :
  exists b',
    display empty_board (mkPoint 2 3 1) "X" = Ok b' /\
    cell b' 2 3 = Ok "X"%string /\ cell b' 3 2 = Ok "~"%string.
Proof.
  destruct (display_writes_one_cell empty_board (mkPoint 2 3 1) "X") as [H _].
  - apply grid_ok_new.
  - cbn. lia.
  - cbn. lia.
  - destruct (H eq_refl) as (b' & E & C & O & _).
    exists b'. split; [exact E|]. split; [exact C|].
    rewrite (O 3 2 eq_refl); [reflexivity | left; cbn; lia].
Defined.

(** ** The two sides check a guess alike *)


(** ** Cells afloat *)

Lemma list_sum_app_valid (before after : list Ship) :
  list_sum (map (fun s => List.length (valid s)) (before ++ after))
  = (list_sum (map (fun s => List.length (valid s)) before)
     + list_sum (map (fun s => List.length (valid s)) after))%nat.
Proof. rewrite map_app, list_sum_app. reflexivity. Qed.

Lemma content_after_cells (c : Point) (ships : list Ship) :
  list_sum (map (fun s => List.length (valid s)) ships)
  = (list_sum (map (fun s => List.length (valid s)) (content_after c ships))
     + match find_hit c ships with Some _ => 1 | None => 0 end)%nat.
Proof.
  unfold content_after. destruct (find_hit c ships) as [[[before ship] after]|] eqn:E; [|lia].
  apply find_hit_Some in E. destruct E as (-> & Hin & _).
  pose proof (remove_first_length c (valid ship) Hin) as L.
  destruct (remove_first c (valid ship)) as [|v0 v] eqn:Ev.
  - rewrite !list_sum_app_valid. unfold list_sum. cbn [map fold_right].
    cbn [List.length] in L. lia.
  - rewrite !list_sum_app_valid. unfold list_sum.
    cbn [map fold_right valid set_valid List.length] in *. lia.
Qed.

(** X10.  On a reachable Board a guess that was checked takes exactly one
    cell from the Ships afloat when it is a hit and none when it is a miss,
    and the Board has no Ship left exactly when no cell is left: a fleet of
    [n] cells is sunk by the [n]-th hit and not before. *)
Theorem hit_takes_one_cell (b b' : Board) (c : Point) (hit : bool) (out : list printed) :
  board_reachable b ->
  Player_check_guess b c = Ok (hit, out, b') ->
  afloat_cells b = (afloat_cells b' + if hit then 1 else 0)%nat /\
  (content b' = [] <-> afloat_cells b' = 0%nat).
Proof.
  intros Hb E. pose proof (reach_player_guess _ _ _ _ _ Hb E) as Hb'.
  apply Player_check_guess_inv in E. destruct E as (_ & Ec & ->).
  split.
  - unfold afloat_cells. rewrite Ec, (content_after_cells c (content b)).
    destruct (find_hit c (content b)); reflexivity.
  - apply fleet_ok_reachable in Hb'. unfold afloat_cells. split.
    + intros ->. reflexivity.
    + intro Z0. destruct (content b') as [|s rest] eqn:Es; [reflexivity|].
      assert (Hs : ship_ok b' s) by (apply fleet_ok_ship; [assumption | rewrite Es; left; reflexivity]).
      destruct (ship_ok_valid _ _ Hs) as (p & Hp & _).
      unfold list_sum in Z0. cbn [map fold_right] in Z0.
      destruct (valid s); [destruct Hp | cbn [List.length] in Z0; lia].
Qed.

Lemma hit_takes_one_cell_witness :
  exists b',
    Player_check_guess board_c3 (mkPoint 2 3 1) = Ok (true, [PBoard; PHit (mkPoint 2 3 1) "destroyer"], b') /\
    afloat_cells board_c3 = (afloat_cells b' + 1)%nat.
Proof.
  eexists. split; [vm_compute; reflexivity|].
  refine (proj1 (hit_takes_one_cell board_c3 _ (mkPoint 2 3 1) true _ _ _)).
  - apply reach_place, reach_new.
  - vm_compute. reflexivity.
Defined.

(** ** Distinct Points *)

Lemma point_in_coords (p : Point) (l : list Point) :
  point_in p l = true <-> In (coords p) (map coords l).
Proof.
  rewrite point_in_iff, in_map_iff. unfold coords. split.
  - intros (e & He & Hx & Hy). exists e. split; [congruence | assumption].
  - intros (e & Hc & He). exists e. inversion Hc. auto.
Qed.

Lemma distinct_cons (p : Point) (l : list Point) :
  distinct (p :: l) <-> point_in p l = false /\ distinct l.
Proof.
  unfold distinct. cbn [map]. rewrite NoDup_cons_iff, <- point_in_coords.
  rewrite not_true_iff_false. reflexivity.
Qed.

Lemma distinct_rotate (n : Z) (d : list Point) : distinct d -> distinct (rotate n d).
Proof.
  unfold distinct. apply Permutation_NoDup, Permutation_map, rotate_Permutation.
Qed.

Lemma distinct_filter (f : Point -> bool) (l : list Point) :
  distinct l -> distinct (filter f l).
Proof.
  induction l as [|p l IH]; [trivial|]. rewrite distinct_cons. intros [Hp Hl].
  cbn [filter]. destruct (f p); [|auto]. apply distinct_cons. split; [|auto].
  apply point_in_false_iff. intros e He. apply filter_In in He.
  rewrite point_in_false_iff in Hp. apply Hp, He.
Qed.

Lemma point_in_single (p q : Point) : point_in p [q] = Point_eq q p.
Proof. unfold point_in. cbn. apply orb_false_r. Qed.

(** ** What a sinking hit leaves in the engine *)

Lemma add_buffer_appends (buf g : list Point) :
  exists added,
    add_buffer g buf = g ++ added /\ incl added buf /\ distinct added /\
    forall p, In p added -> point_in p g = false.
Proof.
  revert g. induction buf as [|q buf IH]; intro g.
  - exists []. cbn. rewrite app_nil_r. repeat split; [apply incl_refl | constructor | intros _ []].
  - unfold add_buffer. cbn [fold_left]. fold (add_buffer (if negb (point_in q g) then g ++ [q] else g) buf).
    destruct (point_in q g) eqn:Hq; cbn [negb].
    + destruct (IH g) as (added & E & Hi & Hd & Hf).
      exists added. repeat split; auto. apply incl_tl, Hi.
    + destruct (IH (g ++ [q])) as (added & E & Hi & Hd & Hf).
      exists (q :: added). rewrite E, <- app_assoc. split; [reflexivity|].
      split; [apply incl_cons; [left; reflexivity | apply incl_tl, Hi]|].
      split.
      * apply distinct_cons. split; [|exact Hd].
        apply point_in_false_iff. intros e He Hx Hy.
        specialize (Hf e He). rewrite point_in_app, point_in_single in Hf.
        apply orb_false_elim in Hf. destruct Hf as [_ Hf].
        apply not_true_iff_false in Hf. apply Hf, Point_eq_iff. auto.
      * intros p [<- | Hp]; [exact Hq|].
        specialize (Hf p Hp). rewrite point_in_app in Hf.
        apply orb_false_elim in Hf. apply Hf.
Qed.

(** X11.  When [AI.check_guess] reports a Ship as sunk, that Ship leaves the
    Board and the engine forgets the chase: the streak and both queues are
    empty afterwards.  The earlier guesses are kept in their order, and the
    Points of the sunk Ship's buffer that were not guessed yet are appended
    to them, each once, so that every Point of the buffer is excluded from
    then on. *)
Theorem sink_resets_targeting (a a' : AI) (pb pb' : Board) (c : Point) (hit : bool)
                              (out : list printed) (knd : string) :
  AI_check_guess a pb c = Ok (hit, out, a', pb') ->
  In (PSank knd) out ->
  hit = true /\
  exists before ship after added,
    content pb = before ++ ship :: after /\ kind ship = knd /\
    content pb' = before ++ after /\
    combo a' = [] /\ adj_guide a' = [] /\ guide a' = [] /\
    guesses a' = guesses a ++ added /\
    incl added (buffer ship) /\ distinct added /\
    (forall p, In p added -> point_in p (guesses a) = false) /\
    (forall p, In p (buffer ship) -> point_in p (guesses a') = true).
Proof.
  intros E Hs. unfold AI_check_guess in E.
  destruct (find_hit c (content pb)) as [[[before ship] after]|] eqn:F.
  2:{ destruct (display _ _ _); cbn [bind] in E; inversion E; subst.
      destruct Hs as [H | [H | []]]; discriminate. }
  apply find_hit_Some in F. destruct F as (Ec & _ & _).
  destruct (display pb c "X") as [pb1| |] eqn:D; cbn [bind] in E; try discriminate.
  destruct (list_remove c (valid ship)) as [v| |]; cbn [bind] in E; try discriminate.
  cbn [valid set_valid kind buffer] in E. destruct v as [|v0 v].
  2:{ inversion E; subst. destruct Hs as [H | [H | []]]; discriminate. }
  inversion E; subst. clear E. split; [reflexivity|].
  destruct Hs as [H | [H | [H | []]]]; try discriminate. injection H as H.
  destruct (add_buffer_appends (buffer ship) (guesses a)) as (added & Ea & Hi & Hd & Hf).
  exists before, ship, after, added.
  apply display_frame in D. destruct D as [_ D].
  cbn [content set_content combo adj_guide guide guesses set_guesses set_combo set_guide
       set_adj_guide].
  repeat split; auto.
  intros p Hp. rewrite add_buffer_in. apply orb_true_iff. right. apply point_in_In, Hp.
Qed.

Lemma sink_resets_targeting_witness :
  exists out a' pb',
    AI_check_guess new_engine board_c3_a0 (mkPoint 0 0 1) = Ok (true, out, a', pb') /\
    combo a' = [] /\ guide a' = [] /\
    point_in (mkPoint 1 0 1) (guesses a') = true.
Proof.
  assert (E : exists out a' pb',
             AI_check_guess new_engine board_c3_a0 (mkPoint 0 0 1) = Ok (true, out, a', pb') /\
             In (PSank "submarine") out /\
             content board_c3_a0 = [built_ship empty_board (mkPoint 2 3 1) "right" "destroyer" 2;
                                    built_ship board_c3 (mkPoint 0 0 1) "down" "submarine" 1]).
  { vm_compute. eexists; eexists; eexists. split; [reflexivity|].
    split; [right; left; reflexivity | reflexivity]. }
  destruct E as (out & a' & pb' & E & Hs & Ec).
  exists out, a', pb'. split; [exact E|].
  destruct (sink_resets_targeting _ _ _ _ _ _ _ _ E Hs)
    as (_ & before & ship & after & added & Eb & Ek & _ & C & _ & G & _ & _ & _ & _ & Hall).
  split; [exact C|]. split; [exact G|].
  apply Hall. rewrite Ec in Eb.
  destruct before as [|s0 [|s1 [|s2 before]]]; inversion Eb; subst.
  - vm_compute in Ek. discriminate Ek.
  - vm_compute. auto.
Defined.

(** ** A whole turn of the engine *)

Lemma AI_check_guess_Ok (a : AI) (pb : Board) (c : Point) :
  grid_ok pb -> in_bounds pb (x c) (y c) = true ->
  exists hit out a' pb', AI_check_guess a pb c = Ok (hit, out, a', pb').
Proof.
  intros Hg Hc. unfold AI_check_guess.
  destruct (find_hit c (content pb)) as [[[before ship] after]|] eqn:F.
  - apply find_hit_Some in F. destruct F as (_ & Hin & _).
    destruct (display_Ok pb c "X" Hg Hc) as (g & -> & _). cbn [bind].
    rewrite (list_remove_Ok _ _ Hin). cbn [bind valid set_valid].
    destruct (remove_first c (valid ship)); eauto.
  - destruct (display_Ok pb c " " Hg Hc) as (g & -> & _). cbn [bind]. eauto.
Qed.

Lemma guess_after_selection (a a1 : AI) (pb : Board) (rng rng1 : list Z) (gs : Point) :
  game_ok a pb ->
  make_guess a pb rng = Ok (gs, a1, rng1) -> selected_ok a pb gs a1 ->
  exists a' pb', guess a pb rng = Ok (a', pb', rng1).
Proof.
  intros Hok M Hsel. unfold guess. rewrite M. cbn [bind].
  destruct Hok as (_ & Hg & _). destruct Hsel as (_ & _ & Hon & _).
  apply on_board_iff in Hon. destruct Hon as [Hin _].
  destruct (AI_check_guess_Ok a1 pb gs Hg Hin) as (hit & out & a' & pb' & ->).
  cbn [bind]. eauto.
Qed.

(** X12.  In every state of a game a whole turn of the engine, [AI.guess],
    raises nothing, whatever the random numbers: the guess it selects is on
    the player's Board, so that [check_guess] finds the cell to display and,
    on a hit, the Point to remove.  When the numbers draw a coordinate that
    is not in [guesses] the turn returns, in a state of the game again. *)
Theorem guess_total (a : AI) (pb : Board) :
  game_reachable a pb ->
  (forall rng e, guess a pb rng <> Raise e) /\
  (forall rng, draws_free a pb rng ->
     exists a' pb' rng', guess a pb rng = Ok (a', pb', rng') /\ game_reachable a' pb').
Proof.
  intro Hr. pose proof (game_ok_reachable a pb Hr) as Hok. split.
  - intros rng e.
    destruct (make_guess_progress a pb rng Hok) as [S | (gs & a1 & rng1 & M & Hsel)].
    + unfold guess. rewrite S. discriminate.
    + destruct (guess_after_selection a a1 pb rng rng1 gs Hok M Hsel) as (a' & pb' & ->).
      discriminate.
  - intros rng Hd.
    destruct (make_guess_returns a pb rng Hok Hd) as (gs & a1 & rng1 & M & _).
    destruct (make_guess_progress a pb rng Hok) as [S | (gs' & a1' & rng1' & M' & Hsel)];
      [congruence|].
    destruct (guess_after_selection a a1' pb rng rng1' gs' Hok M' Hsel) as (a' & pb' & E).
    exists a', pb', rng1'. split; [exact E|]. eapply game_guess; eassumption.
Qed.

Lemma guess_total_witness :
  exists a' pb' rng', guess new_engine fleet_board [5; 5] = Ok (a', pb', rng').
Proof.
  destruct (proj2 (guess_total new_engine fleet_board
                     (game_start 2 "Opponent" fleet_board fleet_board_set_up)) [5; 5])
    as (a' & pb' & rng' & E & _).
  - exists [], 5, 5, []. split; reflexivity.
  - exists a', pb', rng'. exact E.
Defined.

(** ** What the engine remembers *)

(** X13.  In every state of a game the engine's memory is sound: no cell
    that a Ship afloat still holds is in [guesses], so that no Ship is ever
    put out of the engine's reach; every hit of the streak is in [guesses];
    and every Point of the streak and of the two queues is on the player's
    Board. *)
Theorem live_cells_never_excluded (a : AI) (pb : Board) :
  game_reachable a pb ->
  (forall s p, In s (content pb) -> In p (valid s) -> point_in p (guesses a) = false) /\
  (forall p, In p (combo a) -> point_in p (guesses a) = true) /\
  (forall p, In p (combo a ++ adj_guide a ++ guide a) -> on_board pb p).
Proof.
  intro Hr. destruct (game_ok_reachable a pb Hr) as (_ & _ & _ & _ & Hu & Hp & Hc & _).
  repeat split; assumption.
Qed.

Lemma live_cells_never_excluded_witness :
  point_in (mkPoint 6 5 1) (guesses (engine_of after_f5)) = false.
Proof.
  assert (H : exists s, In s (content (board_of after_f5)) /\ In (mkPoint 6 5 1) (valid s)).
  { vm_compute. eexists. split; [do 5 right; left; reflexivity | left; reflexivity]. }
  destruct H as (s & Hs & Hp).
  apply (proj1 (live_cells_never_excluded (engine_of after_f5) (board_of after_f5)
                  (play_reachable_of [[5; 6]; [5; 4]; [5; 5]]
                     ltac:(eexists; vm_compute; reflexivity))) s (mkPoint 6 5 1) Hs Hp).
Defined.
(** ** The random search *)

Lemma random_guess_loop_skips (a : AI) (b : Board) (pre : list (Z * Z)) (rx ry : Z)
                              (post : list Z) (fuel : nat) :
  0 < width b -> 0 < height b ->
  (List.length pre < fuel)%nat ->
  (forall d, In d pre ->
     point_in (mkPoint (fst d mod width b) (snd d mod height b) (ident b)) (guesses a) = true) ->
  point_in (mkPoint (rx mod width b) (ry mod height b) (ident b)) (guesses a) = false ->
  random_guess_loop fuel a b (flat_map (fun d => [fst d; snd d]) pre ++ rx :: ry :: post)
  = Ok (mkPoint (rx mod width b) (ry mod height b) (ident b), post).
Proof.
  intros Hw Hh Hf Hpre Hfree. revert fuel Hf.
  induction pre as [|[px py] pre IH]; intros fuel Hf;
    (destruct fuel as [|fuel]; [simpl in Hf; lia|]); simpl.
  - pose proof (rand_point_cases b (rx :: ry :: post) Hw Hh) as R. simpl in R.
    rewrite R. cbn [bind]. rewrite Hfree. reflexivity.
  - pose proof (rand_point_cases b
       (px :: py :: flat_map (fun d => [fst d; snd d]) pre ++ rx :: ry :: post) Hw Hh) as R.
    simpl in R. rewrite R. cbn [bind].
    pose proof (Hpre (px, py) (or_introl eq_refl)) as Hp. cbn [fst snd] in Hp.
    rewrite Hp.
    apply IH; [intros d Hd; apply Hpre; right; exact Hd | simpl in Hf; lia].
Qed.

Lemma random_guess_loop_full (a : AI) (b : Board) (fuel : nat) (rng : list Z) :
  0 < width b -> 0 < height b ->
  (forall p, on_board b p -> point_in p (guesses a) = true) ->
  random_guess_loop fuel a b rng = Starved.
Proof.
  intros Hw Hh Hfull.
  destruct (random_guess_loop_cases a b fuel rng Hw Hh) as [S | (gs & rng' & _ & Hon & Hfree)];
    [exact S|].
  rewrite (Hfull gs Hon) in Hfree. discriminate.
Qed.

(** X14.  [random_guess] on a Board with cells draws Points, two numbers
    each, until one is not in [guesses], and returns that one with the rest
    of the random source: the draws that fall on guessed coordinates are
    skipped.  When every Point of the Board is in [guesses] no draw ends the
    loop: it never returns, whatever the random source. *)
Theorem random_guess_skips_guessed (a : AI) (b : Board) :
  0 < width b -> 0 < height b ->
  (forall (pre : list (Z * Z)) (rx ry : Z) (post : list Z),
     (forall d, In d pre ->
        point_in (mkPoint (fst d mod width b) (snd d mod height b) (ident b)) (guesses a)
        = true) ->
     point_in (mkPoint (rx mod width b) (ry mod height b) (ident b)) (guesses a) = false ->
     random_guess a b (flat_map (fun d => [fst d; snd d]) pre ++ rx :: ry :: post)
     = Ok (mkPoint (rx mod width b) (ry mod height b) (ident b), post)) /\
  ((forall p, on_board b p -> point_in p (guesses a) = true) ->
   forall rng, random_guess a b rng = Starved).
Proof.
  intros Hw Hh. split.
  - intros pre rx ry post Hpre Hfree. unfold random_guess.
    apply random_guess_loop_skips; try assumption.
    rewrite length_app. cbn [List.length].
    assert (L : List.length (flat_map (fun d : Z * Z => [fst d; snd d]) pre)
                = (2 * List.length pre)%nat).
    { clear. induction pre as [|d pre IH]; [reflexivity|]. cbn [flat_map List.length app].
      rewrite IH. lia. }
    lia.
  - intros Hfull rng. apply random_guess_loop_full; assumption.
Qed.

Lemma random_guess_skips_guessed_witness :
  random_guess (engine_of after_f5) empty_board [5; 6; 5; 4; 7; 7; 1]
  = Ok (mkPoint 7 7 1, [1]).
Proof.
  apply (proj1 (random_guess_skips_guessed (engine_of after_f5) empty_board
                  ltac:(reflexivity) ltac:(reflexivity))
           [(5, 6); (5, 4)] 7 7 [1]).
  - intros d [<- | [<- | []]]; vm_compute; reflexivity.
  - vm_compute. reflexivity.
Defined.

(** ** Guesses that are new *)

Lemma make_guess_line (a : AI) (pb : Board) (rng : list Z) (P Q : Point) (line : list Point) :
  guide a = [] -> combo a = [P; Q] -> inline pb P Q = Ok line ->
  make_guess a pb rng
  = match filter (fun e => negb (point_in e (guesses a))) line with
    | [] => Raise IndexError
    | gs :: d => Ok (gs, set_guesses (set_guide a d) (guesses a ++ [gs]), rng)
    end.
Proof.
  intros G C El. unfold make_guess. rewrite G, C. cbn [List.length Nat.eqb andb bind].
  rewrite C. cbn [List.length Nat.eqb].
  change (py_nth [P; Q] (-2)) with (Ok P). change (py_nth [P; Q] (-1)) with (Ok Q).
  cbn [bind]. rewrite El. cbn [bind].
  rewrite remove_guessed_all.
  cbn [bind app guide set_guide]. rewrite G. cbn [app].
  destruct (filter _ line); reflexivity.
Qed.

Lemma line_between_distinct (b : Board) (P Q : Point) :
  dist1 P Q -> distinct (line_between b P Q).
Proof.
  intro Hd. unfold dist1 in Hd. unfold line_between, ray_beyond.
  assert (C : (x Q - x P = 1 /\ y Q - y P = 0) \/ (x Q - x P = -1 /\ y Q - y P = 0) \/
              (x Q - x P = 0 /\ y Q - y P = 1) \/ (x Q - x P = 0 /\ y Q - y P = -1)) by lia.
  destruct C as [[-> ->] | [[-> ->] | [[-> ->] | [-> ->]]]]; cbn [Z.sgn Z.opp];
    repeat match goal with
           | |- context [if ?c then _ else _] => destruct c
           end;
    cbn [app]; unfold distinct; cbn [map coords x y];
    repeat constructor; cbn [In]; intuition (try (inversion H; lia); try (inversion H0; lia)).
Qed.

Lemma fresh_after_selection (a a1 : AI) (pb : Board) (rng rng1 : list Z) (gs : Point) :
  game_ok a pb -> fresh_queue (guesses a) (guide a) ->
  make_guess a pb rng = Ok (gs, a1, rng1) ->
  fresh_queue (guesses a1) (guide a1) /\
  (List.length (combo a) <> 1%nat -> point_in gs (guesses a) = false).
Proof.
  intros Hok [Hd Hf] M.
  assert (Step : forall first rest,
             distinct (first :: rest) ->
             (forall p, In p (first :: rest) -> point_in p (guesses a) = false) ->
             fresh_queue (guesses a ++ [first]) rest /\ point_in first (guesses a) = false).
  { intros first rest Hd' Hf'. apply distinct_cons in Hd'. destruct Hd' as [Hn Hd'].
    split; [|apply Hf'; left; reflexivity]. split; [exact Hd'|].
    intros p Hp. rewrite point_in_app, point_in_single.
    rewrite (Hf' p (or_intror Hp)). cbn [orb].
    apply not_true_iff_false. intro E. apply Point_eq_iff in E.
    rewrite point_in_false_iff in Hn. apply (Hn p Hp); symmetry; apply E. }
  destruct (guide a) as [|first rest] eqn:G.
  2:{ rewrite (make_guess_follows_guide a pb rng first rest G) in M.
      inversion M; subst. cbn [guesses guide set_guesses set_guide].
      destruct (Step gs rest Hd Hf) as [H1 H2]. split; [exact H1 | intros _; exact H2]. }
  pose proof Hok as (Hfl & _ & Hw & Hh & _ & Hpts & _ & Hph).
  destruct (combo a) as [|P [|Q [|R more]]] eqn:C.
  - unfold make_guess in M. rewrite G, C in M. unfold random_guess in M.
    destruct (random_guess_loop_cases a pb (List.length rng) rng ltac:(lia) ltac:(lia))
      as [S | (gs' & rng' & E & _ & Hfree)]; rewrite ?S, ?E in M; cbn [bind] in M;
      [discriminate|].
    inversion M; subst. cbn [guesses guide set_guesses]. rewrite G.
    split; [|intros _; exact Hfree]. split; [constructor | intros p []].
  - split; [|intro N; cbn in N; lia].
    destruct (make_guess_progress a pb rng Hok) as [S | (gs' & a1' & rng1' & M' & Hsel)];
      [congruence|].
    rewrite M in M'. inversion M'; subst.
    destruct Hsel as (_ & Ec & _ & _ & Hph'). unfold phase_ok in Hph'.
    rewrite Ec, C in Hph'. destruct Hph' as (-> & _).
    split; [constructor | intros p []].
  - assert (HP : on_board pb P) by (apply Hpts; left; reflexivity).
    assert (HQ : on_board pb Q) by (apply Hpts; right; left; reflexivity).
    unfold phase_ok in Hph. rewrite C, G in Hph.
    destruct Hph as [(_ & _ & _ & Hdist & _) | (A & HA & Hall)].
    2:{ destruct (ship_ok_valid pb A (fleet_ok_ship pb A Hfl HA)) as (p & Hp & _).
        specialize (Hall p Hp). discriminate. }
    assert (Hne : Point_eq P Q = false).
    { apply not_true_iff_false. rewrite Point_eq_iff. unfold dist1 in Hdist. lia. }
    assert (El : inline pb P Q = Ok (line_between pb P Q)).
    { apply inline_refines; try assumption. unfold colinear, dist1 in *. lia. }
    rewrite (make_guess_line a pb rng P Q _ G C El) in M.
    pose proof (distinct_filter (fun e => negb (point_in e (guesses a))) _
                  (line_between_distinct pb P Q Hdist)) as Hdl.
    assert (Hfl' : forall p,
               In p (filter (fun e => negb (point_in e (guesses a))) (line_between pb P Q)) ->
               point_in p (guesses a) = false).
    { intros p Hp. apply filter_In in Hp. destruct Hp as [_ Hp].
      apply negb_true_iff in Hp. exact Hp. }
    destruct (filter _ (line_between pb P Q)) as [|g0 d]; [discriminate|].
    inversion M; subst. cbn [guesses guide set_guesses set_guide].
    destruct (Step gs d Hdl Hfl') as [H1 H2]. split; [exact H1 | intros _; exact H2].
  - exfalso. eapply no_overflow; eauto.
Qed.

Lemma fresh_after_check (a1 a' : AI) (pb pb' : Board) (gs : Point) (hit : bool)
                        (out : list printed) :
  fresh_queue (guesses a1) (guide a1) ->
  AI_check_guess a1 pb gs = Ok (hit, out, a', pb') ->
  fresh_queue (guesses a') (guide a').
Proof.
  intros [Hd Hf] E. apply AI_check_guess_cases in E.
  destruct (find_hit gs (content pb)) as [[[before ship] after]|].
  - destruct (remove_first gs (valid ship)).
    + destruct E as (_ & _ & _ & ->). split; [constructor | intros p []].
    + destruct E as (-> & _ & _ & ->). split; assumption.
  - destruct E as (-> & _ & _ & ->). split; [apply distinct_rotate, Hd|].
    intros p Hp. apply Hf. apply rotate_in in Hp. exact Hp.
Qed.

Lemma fresh_reachable (a : AI) (pb : Board) :
  game_reachable a pb -> fresh_queue (guesses a) (guide a).
Proof.
  induction 1 as [id nm pb Hs | a a' pb pb' rng rng' Hr IH E].
  - split; [constructor | intros p []].
  - pose proof (game_ok_reachable a pb Hr) as Hok.
    unfold guess in E.
    destruct (make_guess a pb rng) as [[[gs a1] rng1]| |] eqn:M; cbn [bind] in E;
      try discriminate.
    destruct (AI_check_guess a1 pb gs) as [[[[hit out] a2] pb2]| |] eqn:K; cbn [bind] in E;
      try discriminate.
    inversion E; subst.
    eapply fresh_after_check; [|exact K].
    apply (proj1 (fresh_after_selection _ _ _ _ _ _ Hok IH M)).
Qed.

(** X15.  In a game the line queue never holds a Point twice nor a Point
    that is in [guesses]; and, whenever the streak does not hold exactly one
    hit, the Point [make_guess] returns is new: it was not in [guesses].
    Guesses are repeated by the adjacency probe only. *)
Theorem guess_is_new_outside_probe (a : AI) (pb : Board) :
  game_reachable a pb ->
  fresh_queue (guesses a) (guide a) /\
  forall rng gs a' rng',
    List.length (combo a) <> 1%nat ->
    make_guess a pb rng = Ok (gs, a', rng') ->
    point_in gs (guesses a) = false.
Proof.
  intro Hr. pose proof (fresh_reachable a pb Hr) as Hf. split; [exact Hf|].
  intros rng gs a' rng' N M.
  apply (fresh_after_selection a a' pb rng rng' gs (game_ok_reachable a pb Hr) Hf M), N.
Qed.

Lemma guess_is_new_outside_probe_witness :
  exists gs a' rng',
    make_guess (engine_of after_three_hits) (board_of after_three_hits) [] = Ok (gs, a', rng') /\
    point_in gs (guesses (engine_of after_three_hits)) = false.
Proof.
  assert (E : exists gs a' rng',
             make_guess (engine_of after_three_hits) (board_of after_three_hits) []
             = Ok (gs, a', rng')).
  { vm_compute. eexists; eexists; eexists. reflexivity. }
  destruct E as (gs & a' & rng' & E). exists gs, a', rng'. split; [exact E|].
  refine (proj2 (guess_is_new_outside_probe (engine_of after_three_hits)
                   (board_of after_three_hits) _) [] gs a' rng' _ E).
  - apply (play_reachable_of [[1; 0]; [1]; []]). eexists. vm_compute. reflexivity.
  - vm_compute. discriminate.
Defined.

(** ** The probe after one hit *)

(** X16.  In a game, when the streak holds one hit, the Point [make_guess]
    returns is a Point of the player's Board next to that hit on its row or
    on its column, and so is every Point left in the adjacency queue. *)
Theorem probe_is_next_to_hit (a : AI) (pb : Board) (P : Point) :
  game_reachable a pb -> combo a = [P] ->
  forall rng gs a' rng',
    make_guess a pb rng = Ok (gs, a', rng') ->
    on_board pb gs /\ dist1 P gs /\
    forall q, In q (adj_guide a') -> on_board pb q /\ dist1 P q.
Proof.
  intros Hr C rng gs a' rng' M. pose proof (game_ok_reachable a pb Hr) as Hok.
  destruct (make_guess_progress a pb rng Hok) as [S | (gs' & a1 & rng1 & M' & Hsel)];
    [congruence|].
  rewrite M in M'. inversion M'; subst.
  destruct Hsel as (_ & Ec & Hon & Hq & Hph). unfold phase_ok in Hph.
  rewrite Ec, C in Hph. destruct Hph as (_ & _ & Hn).
  split; [exact Hon|]. split; [apply Hn; left; reflexivity|].
  intros q Hq'. split.
  - apply Hq. apply in_or_app. left. exact Hq'.
  - apply Hn. right. exact Hq'.
Qed.

Lemma probe_is_next_to_hit_witness :
  exists gs a' rng',
    make_guess (engine_of after_f5) (board_of after_f5) [2] = Ok (gs, a', rng') /\
    dist1 (mkPoint 5 5 1) gs.
Proof.
  assert (E : exists gs a' rng',
             make_guess (engine_of after_f5) (board_of after_f5) [2] = Ok (gs, a', rng')).
  { vm_compute. eexists; eexists; eexists. reflexivity. }
  destruct E as (gs & a' & rng' & E). exists gs, a', rng'. split; [exact E|].
  refine (proj1 (proj2 (probe_is_next_to_hit (engine_of after_f5) (board_of after_f5)
                          (mkPoint 5 5 1) _ _ [2] gs a' rng' E))).
  - apply (play_reachable_of [[5; 6]; [5; 4]; [5; 5]]). eexists. vm_compute. reflexivity.
  - vm_compute. reflexivity.
Defined.

(** ** Showing a Ship on the grid *)

Lemma in_bounds_frame (b b' : Board) (px py : Z) :
  same_frame b b' -> in_bounds b' px py = in_bounds b px py.
Proof. intros (_ & Hw & Hh). unfold in_bounds. rewrite Hw, Hh. reflexivity. Qed.

Lemma same_frame_trans (b1 b2 b3 : Board) :
  same_frame b1 b2 -> same_frame b2 b3 -> same_frame b1 b3.
Proof. unfold same_frame. intros (? & ? & ?) (? & ? & ?). repeat split; congruence. Qed.

Lemma same_frame_refl (b : Board) : same_frame b b.
Proof. repeat split. Qed.

Lemma display_all_cells (pts : list Point) (sym : string) (b : Board) :
  grid_ok b -> (forall p, In p pts -> in_bounds b (x p) (y p) = true) ->
  exists b',
    display_all b pts sym = Ok b' /\ grid_ok b' /\ same_frame b b' /\
    content b' = content b /\
    forall qx qy, in_bounds b qx qy = true ->
      cell b' qx qy = if point_in (mkPoint qx qy (ident b)) pts then Ok sym else cell b qx qy.
Proof.
  revert b. induction pts as [|p pts IH]; intros b Hg Hin.
  - exists b. cbn [display_all point_in existsb].
    split; [reflexivity|]. split; [exact Hg|]. split; [apply same_frame_refl|].
    split; reflexivity.
  - destruct (display_cells b p sym Hg (Hin p (or_introl eq_refl)))
      as (b1 & E1 & C1 & O1 & K1 & F1 & G1).
    destruct (IH b1 G1) as (b2 & E2 & G2 & F2 & K2 & C2).
    { intros q Hq. rewrite (in_bounds_frame b b1 _ _ F1). apply Hin. right. exact Hq. }
    exists b2. cbn [display_all]. rewrite E1. cbn [bind].
    split; [exact E2|]. split; [exact G2|].
    split; [eapply same_frame_trans; eassumption|].
    split; [congruence|].
    intros qx qy Hq. rewrite C2 by (rewrite (in_bounds_frame b b1 _ _ F1); exact Hq).
    rewrite point_in_cons.
    rewrite (point_in_same (mkPoint qx qy (ident b1)) (mkPoint qx qy (ident b))) by reflexivity.
    destruct (point_in (mkPoint qx qy (ident b)) pts); [rewrite orb_true_r; reflexivity|].
    rewrite orb_false_r.
    destruct (Point_eq p (mkPoint qx qy (ident b))) eqn:Ep.
    + apply Point_eq_iff in Ep. cbn [x y] in Ep. destruct Ep as [<- <-]. exact C1.
    + apply O1; [exact Hq|].
      apply not_true_iff_false in Ep. rewrite Point_eq_iff in Ep. cbn [x y] in Ep. lia.
Qed.

Lemma ship_buffer_in_bounds (b : Board) (s : Ship) (q : Point) :
  ship_ok b s -> In q (buffer s) -> in_bounds b (x q) (y q) = true.
Proof.
  intros (ox & oy & hz & len & Hlen & Hlo & Hhi & _ & Eb & _) Hq. rewrite Eb in Hq.
  apply in_bounds_iff in Hlo, Hhi. apply in_bounds_iff.
  destruct hz.
  - apply row_buffer_in in Hq. lia.
  - apply column_buffer_in in Hq. lia.
Qed.

Lemma ship_ext_not_buffer (b : Board) (s : Ship) (q : Point) :
  ship_ok b s -> point_in q (ext s) = true -> point_in q (buffer s) = false.
Proof.
  intros (ox & oy & hz & len & Hlen & Hlo & Hhi & Ee & Eb & _) Hq.
  apply not_true_iff_false. intro Hq'. rewrite Ee in Hq. rewrite Eb in Hq'.
  apply point_in_iff in Hq, Hq'.
  destruct Hq as (e & He & Hx & Hy). destruct Hq' as (r & Hr & Hx' & Hy').
  destruct hz.
  - apply segment_row_in in He. apply row_buffer_in in Hr. lia.
  - apply segment_column_in in He. apply column_buffer_in in Hr. lia.
Qed.

(** X17.  On a well-formed grid [Ship.display] and [Ship.display_buffer]
    never raise.  The first writes the Ship's symbol on the cells the Ship
    occupies, the second writes the symbol it is given on the cells of the
    Ship's buffer; every other cell reads as before, and the Ships of the
    Board are untouched.  The two sets of cells have nothing in common, so
    that showing the buffer never hides the Ship. *)
Theorem Ship_display_marks_cells (b : Board) (s : Ship) (sym : string) :
  grid_ok b -> ship_ok b s ->
  (exists b',
     Ship_display b s = Ok b' /\ grid_ok b' /\ same_frame b b' /\ content b' = content b /\
     forall qx qy, in_bounds b qx qy = true ->
       cell b' qx qy = if point_in (mkPoint qx qy (ident b)) (ext s)
                       then Ok (symbol s) else cell b qx qy) /\
  (exists b',
     display_buffer b s sym = Ok b' /\ grid_ok b' /\ same_frame b b' /\
     content b' = content b /\
     forall qx qy, in_bounds b qx qy = true ->
       cell b' qx qy = if point_in (mkPoint qx qy (ident b)) (buffer s)
                       then Ok sym else cell b qx qy) /\
  (forall q, point_in q (ext s) = true -> point_in q (buffer s) = false).
Proof.
  intros Hg Hs. split; [|split].
  - apply display_all_cells; [exact Hg|]. intros p Hp. eapply ship_ext_in_bounds; eassumption.
  - apply display_all_cells; [exact Hg|]. intros p Hp. eapply ship_buffer_in_bounds; eassumption.
  - intros q. apply ship_ext_not_buffer with (b := b). exact Hs.
Qed.

Lemma Ship_display_marks_cells_witness :
  exists b',
    Ship_display empty_board (built_ship empty_board (mkPoint 2 3 1) "right" "destroyer" 2)
    = Ok b' /\
    cell b' 3 3 = Ok "D"%string /\ cell b' 4 3 = Ok "~"%string.
Proof.
  destruct (Ship_display_marks_cells empty_board
              (built_ship empty_board (mkPoint 2 3 1) "right" "destroyer" 2) "#")
    as ((b' & E & _ & _ & _ & C) & _).
  - apply grid_ok_new.
  - apply built_ship_ok; [reflexivity | reflexivity |].
    intros c [<- | [<- | []]]; reflexivity.
  - exists b'. split; [exact E|]. split.
    + rewrite (C 3 3 eq_refl). reflexivity.
    + rewrite (C 4 3 eq_refl). reflexivity.
Defined.

(** ** The fleet of the engine *)

Lemma rand_ship_draws_cases (b : Board) (rng : list Z) :
  0 < width b -> 0 < height b ->
  match rng with
  | rx :: ry :: rd :: rest =>
      exists d, rand_ship_draws b rng
                = Ok (mkPoint (rx mod width b) (ry mod height b) (ident b), d, rest) /\
                str_in d direct = true
  | _ => rand_ship_draws b rng = Starved
  end.
Proof.
  intros Hw Hh. unfold rand_ship_draws.
  pose proof (rand_point_cases b rng Hw Hh) as C.
  destruct rng as [|rx [|ry rest]]; rewrite C; try reflexivity. cbn [bind].
  pose proof (rand_direction_cases rest) as D.
  destruct rest as [|rd rest]; [rewrite D; reflexivity|].
  destruct D as (d & -> & Hd & _). cbn [bind]. eauto.
Qed.

(** [rand_ship] is its draws followed by [place_ship]. *)
Lemma rand_ship_by_draws (b : Board) (order : Z) (rng : list Z) :
  rand_ship b order rng
  = match rand_ship_draws b rng with
    | Ok (point, direction, rng') =>
        let '(b', s) := place_ship b point direction order in
        (b', s <- s ;; Ok (s, rng'))
    | Raise e => (b, Raise e)
    | Starved => (b, Starved)
    end.
Proof.
  unfold rand_ship, rand_ship_draws.
  destruct (rand_point b rng) as [[point rng1]| |]; reflexivity.
Qed.

Lemma place_ship_outcomes (b : Board) (point : Point) (d : string) (order : Z) :
  str_in d direct = true ->
  place_ship b point d order = (b, Raise OOBError) \/
  place_ship b point d order = (b, Raise OverlapError) \/
  exists s, place_ship b point d order = (set_content b (content b ++ [s]), Ok s) /\
            ship_ok b s /\ valid s = ext s /\
            (kind s, List.length (ext s)) = class_of_order order /\
            symbol s = symbol_of_kind (kind s) /\
            (forall old, In old (content b) -> ship_ok b old -> apart old s).
Proof.
  intro Hd.
  destruct (place_ship_is_Ship_init b point d order Hd) as (d' & knd & len & E & Hk & Hd').
  destruct (Ship_init_three_ways b point d' knd len Hk Hd')
    as [(_ & E') | [(_ & _ & E') | (Hin & Hno & E')]]; rewrite <- E in E'; auto.
  right; right. eexists. split; [exact E'|].
  split; [apply built_ship_ok; assumption|]. split; [reflexivity|]. split; [|split].
  - apply place_ship_class in E'. exact E'.
  - reflexivity.
  - intros old Ho Hok. apply placement_apart; try assumption.
    intros c Hc. split; [apply Hin | apply Hno]; assumption.
Qed.

Lemma place_ship_one_more (b : Board) (point : Point) (d : string) (order : Z) :
  str_in d direct = true ->
  place_ship b point d order = (b, Raise OOBError) \/
  place_ship b point d order = (b, Raise OverlapError) \/
  exists b' s, place_ship b point d order = (b', Ok s) /\ one_more b b' order s.
Proof.
  intro Hd. destruct (place_ship_outcomes b point d order Hd) as [E | [E | (s & E & H)]]; auto.
  right; right. eexists. exists s. split; [exact E|]. split; [reflexivity | exact H].
Qed.

Lemma rand_ship_loop_cases (fuel : nat) (b : Board) (order : Z) (rng : list Z) :
  0 < width b -> 0 < height b ->
  rand_ship_loop fuel b order rng = Starved \/
  exists b' s rng',
    rand_ship_loop fuel b order rng = Ok (b', rng') /\ one_more b b' order s.
Proof.
  intros Hw Hh. revert rng. induction fuel as [|fuel IH]; intro rng;
    pose proof (rand_ship_draws_cases b rng Hw Hh) as D; cbn [rand_ship_loop].
  - destruct rng as [|rx [|ry [|rd rest]]]; try (rewrite D; auto).
    destruct D as (d & -> & _). auto.
  - destruct rng as [|rx [|ry [|rd rest]]]; try (rewrite D; auto).
    destruct D as (d & -> & Hd). cbn [bind].
    destruct (place_ship_one_more b (mkPoint (rx mod width b) (ry mod height b) (ident b))
                d order Hd) as [E | [E | (b' & s & E & H)]]; rewrite E.
    + apply IH.
    + apply IH.
    + right. exists b', s, rest. auto.
Qed.

Lemma one_more_frame (b b' : Board) (order : Z) (s : Ship) :
  one_more b b' order s -> same_frame b b' /\ grid b' = grid b /\ name b' = name b.
Proof. intros (-> & _). repeat split. Qed.

Lemma rand_fleet_cases (orders : list Z) (b : Board) (rng : list Z) :
  0 < width b -> 0 < height b ->
  rand_fleet orders b rng = Starved \/
  exists b' ships rng',
    rand_fleet orders b rng = Ok (b', rng') /\ fleet_added orders b b' ships.
Proof.
  revert b rng. induction orders as [|i orders IH]; intros b rng Hw Hh.
  - right. exists b, [], rng. split; reflexivity.
  - cbn [rand_fleet].
    destruct (rand_ship_loop_cases (List.length rng) b i rng Hw Hh)
      as [-> | (b1 & s & rng1 & -> & H1)]; [left; reflexivity|].
    cbn [bind]. destruct (one_more_frame _ _ _ _ H1) as ((_ & Ew & Eh) & _).
    destruct (IH b1 rng1 ltac:(lia) ltac:(lia)) as [-> | (b' & ships & rng' & -> & H)];
      [left; reflexivity|].
    right. exists b', (s :: ships), rng'. split; [reflexivity|].
    exists b1. split; assumption.
Qed.

(** What a fleet that was added leaves. *)
Lemma fleet_added_content (orders : list Z) (b b' : Board) (ships : list Ship) :
  fleet_added orders b b' ships ->
  b' = set_content b (content b ++ ships) /\
  map (fun s => (kind s, List.length (ext s))) ships = map class_of_order orders /\
  Forall (fun s => valid s = ext s) ships.
Proof.
  revert b ships. induction orders as [|i orders IH]; intros b [|s ships] H;
    cbn [fleet_added] in H; try contradiction.
  - subst b'. rewrite app_nil_r. destruct b; repeat split. constructor.
  - destruct H as (b1 & (-> & _ & Hv & Hc & _ & _) & H). apply IH in H.
    destruct H as (-> & Hm & Hf). cbn [content set_content]. rewrite <- app_assoc.
    split; [reflexivity|]. split; [cbn [map]; congruence|]. constructor; assumption.
Qed.

Lemma one_more_fleet_ok (b b' : Board) (order : Z) (s : Ship) :
  one_more b b' order s -> fleet_ok b -> fleet_ok b'.
Proof.
  intros (-> & Hs & _ & _ & _ & Ha) [Hf Ho].
  assert (F : same_frame b (set_content b (content b ++ [s]))) by repeat split.
  split; cbn [content set_content].
  - apply Forall_app. split.
    + eapply Forall_impl; [|exact Hf]. intros s0. apply ship_ok_frame, F.
    + constructor; [|constructor]. eapply ship_ok_frame; eassumption.
  - apply ordered_app. split; [exact Ho|]. split; [repeat constructor|].
    intros old s' Hold [<- | []]. apply Ha; [exact Hold|].
    rewrite Forall_forall in Hf. apply Hf, Hold.
Qed.

Lemma fleet_added_fleet_ok (orders : list Z) (b b' : Board) (ships : list Ship) :
  fleet_added orders b b' ships -> fleet_ok b -> fleet_ok b'.
Proof.
  revert b ships. induction orders as [|i orders IH]; intros b [|s ships] H Hf;
    cbn [fleet_added] in H; try contradiction.
  - subst b'. exact Hf.
  - destruct H as (b1 & H1 & H). eapply IH; [exact H|]. eapply one_more_fleet_ok; eassumption.
Qed.

Lemma valid_cells_sum (ships : list Ship) :
  Forall (fun s => valid s = ext s) ships ->
  list_sum (map (fun s => List.length (valid s)) ships)
  = list_sum (map snd (map (fun s => (kind s, List.length (ext s))) ships)).
Proof.
  induction 1 as [|s ships Hs _ IH]; [reflexivity|].
  cbn [map snd]. unfold list_sum in *. cbn [fold_right]. rewrite Hs, IH. reflexivity.
Qed.

(** X18.  [AI.generate_fleet] on a Board with cells raises nothing,
    whatever the random numbers: the two exceptions [rand_ship] can raise are
    the two it catches.  When it returns, ten Ships were added to the end
    of [content], in the order Battleship, two Cruisers, three Destroyers,
    four Submarines, none of them hit, twenty cells in all; the grid was not
    touched, so the engine's Ships are not shown; the engine's memory is as
    it was; and a Board whose Ships were apart keeps them apart. *)
Theorem AI_generate_fleet_builds_fleet (a : AI) (rng : list Z) :
  0 < width (ai_board a) -> 0 < height (ai_board a) ->
  (forall e, AI_generate_fleet a rng <> Raise e) /\
  (forall a' rng', AI_generate_fleet a rng = Ok (a', rng') ->
     exists ships,
       a' = set_ai_board a (set_content (ai_board a) (content (ai_board a) ++ ships)) /\
       map (fun s => (kind s, List.length (ext s))) ships
       = [("battleship", 4); ("cruiser", 3); ("cruiser", 3);
          ("destroyer", 2); ("destroyer", 2); ("destroyer", 2);
          ("submarine", 1); ("submarine", 1); ("submarine", 1); ("submarine", 1)]%string%nat /\
       Forall (fun s => valid s = ext s) ships /\
       afloat_cells (ai_board a') = (afloat_cells (ai_board a) + 20)%nat /\
       (fleet_ok (ai_board a) -> fleet_ok (ai_board a'))).
Proof.
  intros Hw Hh. unfold AI_generate_fleet.
  destruct (rand_fleet_cases (range 10) (ai_board a) rng Hw Hh)
    as [-> | (b' & ships & rng1 & -> & H)].
  - split; [intros e; discriminate | intros a' rng' E; discriminate].
  - cbn [bind]. split; [intros e; discriminate|].
    intros a' rng' E. inversion E; subst. clear E.
    pose proof (fleet_added_fleet_ok _ _ _ _ H) as Hf.
    apply fleet_added_content in H. destruct H as (-> & Hm & Hv).
    exists ships. split; [reflexivity|]. split; [exact Hm|]. split; [exact Hv|].
    split; [|exact Hf].
    unfold afloat_cells. cbn [ai_board set_ai_board content set_content].
    rewrite list_sum_app_valid, (valid_cells_sum ships Hv), Hm. reflexivity.
Qed.

Lemma AI_generate_fleet_builds_fleet_witness :
  exists a',
    AI_generate_fleet new_engine
      fleet_draws = Ok (a', []) /\
    afloat_cells (ai_board a') = 20%nat.
Proof.
  assert (E : exists a',
             AI_generate_fleet new_engine
               fleet_draws = Ok (a', [])).
  { vm_compute. eexists. reflexivity. }
  destruct E as (a' & E). exists a'. split; [exact E|].
  destruct (proj2 (AI_generate_fleet_builds_fleet new_engine _
                     ltac:(reflexivity) ltac:(reflexivity)) a' [] E)
    as (ships & _ & _ & _ & C & _).
  exact C.
Defined.
(** ** Cells typed by the player *)

Lemma column_of_char (c : ascii) :
  (if isalpha (upper (String c EmptyString))
   then row_key_of_letter (upper (String c EmptyString)) row_keys_letters else None)
  = letter_column c.
Proof. destruct c as [[] [] [] [] [] [] [] []]; vm_compute; reflexivity. Qed.

Lemma row_of_char (c : ascii) :
  (if isnumeric (String c EmptyString)
   then Some (py_int (String c EmptyString)) else None)
  = match digit_row c with Some py => Some (Ok py) | None => None end.
Proof. destruct c as [[] [] [] [] [] [] [] []]; vm_compute; reflexivity. Qed.

Lemma letter_column_range (c : ascii) (px : Z) :
  letter_column c = Some px -> 0 <= px <= 9.
Proof.
  unfold letter_column.
  destruct (Z.leb_spec 65 (Z.of_nat (nat_of_ascii c))),
           (Z.leb_spec (Z.of_nat (nat_of_ascii c)) 74); cbn [andb];
    [intro E; injection E as <-; lia | | |];
    destruct (Z.leb_spec 97 (Z.of_nat (nat_of_ascii c))),
             (Z.leb_spec (Z.of_nat (nat_of_ascii c)) 106); cbn [andb];
    intro E; try discriminate; injection E as <-; lia.
Qed.

Lemma digit_row_range (c : ascii) (py : Z) :
  digit_row c = Some py -> 0 <= py <= 9.
Proof.
  unfold digit_row.
  destruct (Z.leb_spec 48 (Z.of_nat (nat_of_ascii c))),
           (Z.leb_spec (Z.of_nat (nat_of_ascii c)) 57); cbn [andb];
    intro E; try discriminate; injection E as <-; lia.
Qed.

Lemma cell_named_range (response : string) (px py : Z) :
  cell_named response = Some (px, py) -> 0 <= px <= 9 /\ 0 <= py <= 9.
Proof.
  destruct response as [|c0 [|c1 rest]]; cbn [cell_named]; try discriminate.
  destruct (letter_column c0) as [qx|] eqn:Ex; [|discriminate].
  destruct (digit_row c1) as [qy|] eqn:Ey; [|discriminate].
  intro E. injection E as <- <-.
  split; [eapply letter_column_range | eapply digit_row_range]; eassumption.
Qed.

(** One round of [input_point], by the cell the response names. *)
Lemma input_point_round (b : Board) (response : string) (inp : list string) (out : list said) :
  input_point b (response :: inp) out
  = match cell_named response with
    | Some (px, py) =>
        if in_bounds b px py then Ok (mkPoint px py (ident b), inp, out)
        else input_point b inp (out ++ [SOutOfBounds])
    | None => input_point b inp (out ++ [SInvalid])
    end.
Proof.
  cbn [input_point].
  destruct response as [|c0 [|c1 rest]]; try reflexivity.
  cbn [String.length Nat.ltb Nat.leb str_nth String.get bind cell_named].
  pose proof (column_of_char c0) as Hx. pose proof (row_of_char c1) as Hy.
  destruct (isalpha (upper (String c0 EmptyString))); cbn [andb].
  2:{ rewrite <- Hx. reflexivity. }
  rewrite <- Hx.
  destruct (isnumeric (String c1 EmptyString)).
  2:{ destruct (digit_row c1); [discriminate|].
      destruct (row_key_of_letter _ _); reflexivity. }
  destruct (row_key_of_letter (upper (String c0 EmptyString)) row_keys_letters) as [px|] eqn:Ex;
    [|reflexivity].
  destruct (digit_row c1) as [py|] eqn:Ey; [|discriminate].
  injection Hy as ->. cbn [bind].
  symmetry in Hx. apply letter_column_range in Hx. apply digit_row_range in Ey.
  rewrite Point_init_in_bounds. unfold in_bounds.
  rewrite !Z.geb_leb.
  destruct (Z.leb_spec (width b) px), (Z.leb_spec (height b) py),
           (Z.ltb_spec px 0), (Z.ltb_spec py 0),
           (Z.leb_spec 0 px), (Z.ltb_spec px (width b)),
           (Z.leb_spec 0 py), (Z.ltb_spec py (height b)); try lia; reflexivity.
Qed.

Lemma input_point_cases (b : Board) (inp : list string) (out : list said) :
  input_point b inp out = Starved \/
  exists skipped response inp' lines,
    inp = skipped ++ response :: inp' /\
    cell_named response <> None /\
    (forall r, In r skipped ->
       match cell_named r with
       | Some (px, py) => in_bounds b px py = false
       | None => True
       end) /\
    List.length lines = List.length skipped /\
    exists px py,
      cell_named response = Some (px, py) /\ in_bounds b px py = true /\
      input_point b inp out = Ok (mkPoint px py (ident b), inp', out ++ lines).
Proof.
  revert out. induction inp as [|response inp IH]; intro out; [left; reflexivity|].
  rewrite input_point_round.
  assert (Skip : forall line,
             match cell_named response with
             | Some (px, py) => in_bounds b px py = false
             | None => True
             end ->
             input_point b inp (out ++ [line]) = Starved \/
             exists skipped response0 inp' lines,
               response :: inp = skipped ++ response0 :: inp' /\
               cell_named response0 <> None /\
               (forall r, In r skipped ->
                  match cell_named r with
                  | Some (px, py) => in_bounds b px py = false
                  | None => True
                  end) /\
               List.length lines = List.length skipped /\
               exists px py,
                 cell_named response0 = Some (px, py) /\ in_bounds b px py = true /\
                 input_point b inp (out ++ [line])
                 = Ok (mkPoint px py (ident b), inp', out ++ lines)).
  { intros line Hbad.
    destruct (IH (out ++ [line]))
      as [S | (skipped & r0 & inp' & lines & -> & Hr0 & Hsk & Hl & px & py & Ec & Hin & E)];
      [left; exact S|].
    right. exists (response :: skipped), r0, inp', (line :: lines).
    split; [reflexivity|]. split; [exact Hr0|].
    split; [intros r [<- | Hr]; [exact Hbad | apply Hsk, Hr]|].
    split; [cbn; congruence|].
    exists px, py. rewrite E, <- app_assoc. auto. }
  destruct (cell_named response) as [[px py]|] eqn:Ec.
  - destruct (in_bounds b px py) eqn:Hin.
    + right. exists [], response, inp, []. rewrite app_nil_r.
      split; [reflexivity|]. split; [congruence|]. split; [intros r []|].
      split; [reflexivity|]. exists px, py. auto.
    + apply Skip. reflexivity.
  - apply Skip. exact I.
Qed.


(** ** The name of a Point *)

Lemma Point_repr_names_cell (px py : Z) (bid : nat) :
  0 <= px <= 9 -> 0 <= py <= 9 ->
  exists s, Point_repr (mkPoint px py bid) = Some s /\ ascii_text s /\
            String.length s = 2%nat /\ cell_named s = Some (px, py).
Proof.
  intros Hx Hy.
  assert (Cx : px = 0 \/ px = 1 \/ px = 2 \/ px = 3 \/ px = 4 \/
               px = 5 \/ px = 6 \/ px = 7 \/ px = 8 \/ px = 9) by lia.
  assert (Cy : py = 0 \/ py = 1 \/ py = 2 \/ py = 3 \/ py = 4 \/
               py = 5 \/ py = 6 \/ py = 7 \/ py = 8 \/ py = 9) by lia.
  destruct Cx as [-> | [-> | [-> | [-> | [-> | [-> | [-> | [-> | [-> | ->]]]]]]]]];
    destruct Cy as [-> | [-> | [-> | [-> | [-> | [-> | [-> | [-> | [-> | ->]]]]]]]]];
    (eexists; split; [vm_compute; reflexivity|];
     split; [repeat constructor; cbn; lia|]; split; reflexivity).
Qed.

Lemma row_key_of_index_None (k : Z) :
  row_key_of_index k row_keys_indices = None <-> k < 0 \/ 9 < k.
Proof.
  unfold row_keys_indices. cbn [row_key_of_index].
  repeat match goal with
         | |- context [k =? ?n] => destruct (Z.eqb_spec k n); [split; [discriminate | lia]|]
         end.
  split; [lia | reflexivity].
Qed.

(** X20.  The name of a Point, [Point.__repr__], is the letter of its column
    followed by its row in decimal, and raises KeyError exactly when the
    column is not one of the ten that have a letter.  On a Board of at
    most ten columns and ten rows the name of a Point of the Board is two
    ASCII characters, and typing it at [input_point] gives the Point back
    with nothing printed: the name determines the Point. *)
Theorem Point_repr_round_trip (b : Board) (p : Point) :
  (Point_repr p = None <-> x p < 0 \/ 9 < x p) /\
  (on_board b p -> width b <= 10 -> height b <= 10 ->
   exists s,
     Point_repr p = Some s /\ ascii_text s /\ String.length s = 2%nat /\
     forall inp out, input_point b (s :: inp) out = Ok (p, inp, out)).
Proof.
  split.
  - unfold Point_repr. rewrite <- row_key_of_index_None.
    destruct (row_key_of_index (x p) row_keys_indices); split; congruence.
  - intros Hp Hw Hh. pose proof (on_board_inv b p Hp) as (Hx & Hy & Hb).
    destruct p as [px py pb]. cbn [x y board] in *. subst pb.
    destruct (Point_repr_names_cell px py (ident b)) as (s & E & Ha & Hl & Hc); try lia.
    exists s. repeat split; try assumption.
    intros inp out. rewrite input_point_round, Hc.
    replace (in_bounds b px py) with true; [reflexivity|].
    symmetry. apply in_bounds_iff. lia.
Qed.

Lemma Point_repr_round_trip_witness :
  Point_repr (mkPoint 5 4 1) = Some "F4"%string /\
  input_point empty_board ["F4"%string] [] = Ok (mkPoint 5 4 1, [], []).
Proof.
  destruct (proj2 (Point_repr_round_trip empty_board (mkPoint 5 4 1)))
    as (s & E & _ & _ & R).
  - reflexivity.
  - cbn. lia.
  - cbn. lia.
  - split; [reflexivity|]. vm_compute in E. injection E as <-. apply R.
Defined.

(** ** Directions typed by the player *)

Lemma valid_directions_direct (r : string) :
  str_in r ["down"; "up"; "right"; "left"]%string = str_in r direct.
Proof.
  unfold direct, str_in. cbn [existsb].
  destruct (String.eqb r "down"), (String.eqb r "up"), (String.eqb r "right"),
           (String.eqb r "left"); reflexivity.
Qed.

Lemma input_direction_skips (bad : list string) (d : string) (inp : list string)
                            (out : list said) :
  (forall r, In r bad -> str_in r direct = false) -> str_in d direct = true ->
  input_direction (bad ++ d :: inp) out
  = Ok (d, inp, out ++ repeat SDirections (List.length bad)).
Proof.
  intros Hbad Hd. revert out. induction bad as [|r bad IH]; intro out.
  - cbn [app input_direction List.length repeat].
    rewrite valid_directions_direct, Hd, app_nil_r. reflexivity.
  - cbn [app input_direction List.length repeat].
    rewrite valid_directions_direct, (Hbad r (or_introl eq_refl)).
    cbn [negb]. rewrite IH by (intros r' Hr'; apply Hbad; right; exact Hr').
    rewrite <- app_assoc. reflexivity.
Qed.

Lemma input_direction_cases (inp : list string) (out : list said) :
  input_direction inp out = Starved \/
  exists d inp' out',
    input_direction inp out = Ok (d, inp', out') /\ str_in d direct = true /\
    (List.length inp' < List.length inp)%nat.
Proof.
  revert out. induction inp as [|r inp IH]; intro out; [left; reflexivity|].
  cbn [input_direction]. rewrite valid_directions_direct.
  destruct (str_in r direct) eqn:E; cbn [negb].
  - right. exists r, inp, out. split; [reflexivity|]. split; [exact E | cbn; lia].
  - destruct (IH (out ++ [SDirections])) as [S | (d & inp' & out' & E' & Hd & L)];
      [left; exact S|].
    right. exists d, inp', out'. split; [exact E'|]. split; [exact Hd | cbn; lia].
Qed.

Lemma input_direction_none (bad : list string) (out : list said) :
  (forall r, In r bad -> str_in r direct = false) -> input_direction bad out = Starved.
Proof.
  revert out. induction bad as [|r bad IH]; intros out Hbad; [reflexivity|].
  cbn [input_direction]. rewrite valid_directions_direct, (Hbad r (or_introl eq_refl)).
  cbn [negb]. apply IH. intros r' Hr'. apply Hbad. right. exact Hr'.
Qed.

(** X21.  [input_direction] returns the first response that is one of down,
    up, right and left, spelled exactly so, with one line of complaint for
    every response before it; it raises nothing, and it accepts the
    directions [Ship.__init__] accepts and no other. *)
Theorem input_direction_first_valid (bad : list string) (d : string) (inp : list string)
                                    (out : list said) :
  (forall r, In r bad -> str_in r direct = false) -> str_in d direct = true ->
  input_direction (bad ++ d :: inp) out
  = Ok (d, inp, out ++ repeat SDirections (List.length bad)) /\
  input_direction bad out = Starved.
Proof.
  intros Hbad Hd. split.
  - apply input_direction_skips; assumption.
  - apply input_direction_none. exact Hbad.
Qed.

Lemma input_direction_first_valid_witness :
  input_direction ["Down"; "north"; "left"; "up"]%string []
  = Ok ("left"%string, ["up"%string], [SDirections; SDirections]).
Proof.
  apply (proj1 (input_direction_first_valid ["Down"; "north"]%string "left"%string
                  ["up"%string] [] ltac:(intros r [<- | [<- | []]]; reflexivity) eq_refl)).
Defined.
(** ** Guesses typed by the player *)

Lemma distinct_snoc (l : list Point) (p : Point) :
  distinct l -> point_in p l = false -> distinct (l ++ [p]).
Proof.
  intros Hd Hp. unfold distinct in *. rewrite map_app. cbn [map].
  apply (Permutation_NoDup (l := coords p :: map coords l)).
  - apply Permutation_cons_append.
  - constructor; [|exact Hd]. rewrite <- point_in_coords. congruence.
Qed.

Lemma input_guess_loop_cases (fuel : nat) (self : Player) (ab : Board)
                             (inp : list string) (out : list said) :
  input_guess_loop fuel self ab inp out = Starved \/
  exists gs inp' out',
    input_guess_loop fuel self ab inp out
    = Ok (gs, set_p_guesses self (p_guesses self ++ [gs]), inp', out') /\
    on_board ab gs /\ point_in gs (p_guesses self) = false.
Proof.
  revert inp out. induction fuel as [|fuel IH]; intros inp out; cbn [input_guess_loop];
    destruct (input_point_cases ab inp out)
      as [-> | (sk & r & inp1 & lines & _ & _ & _ & _ & px & py & _ & Hin & ->)];
    cbn [bind]; auto.
  destruct (point_in (mkPoint px py (ident ab)) (p_guesses self)) eqn:E; [apply IH|].
  right. eexists _, _, _. split; [reflexivity|]. split; [|exact E].
  apply on_board_iff. split; [exact Hin | reflexivity].
Qed.

(** X22.  [Player.input_guess] never checks a guess twice: the Point it
    checks against the engine's Board is a Point of that Board that was not
    in the player's [guesses], it is appended to them, and guesses that were
    distinct stay distinct.  With ASCII responses and a well-formed grid
    the call raises nothing. *)
Theorem input_guess_never_repeats (self : Player) (ab : Board) (inp : list string)
                                  (out : list said) :
  Forall ascii_text inp -> grid_ok ab ->
  (forall e, input_guess self ab inp out <> Raise e) /\
  (forall self' ab' inp' out',
     input_guess self ab inp out = Ok (self', ab', inp', out') ->
     exists gs hit lines,
       on_board ab gs /\ point_in gs (p_guesses self) = false /\
       p_guesses self' = p_guesses self ++ [gs] /\ p_board self' = p_board self /\
       Player_check_guess ab gs = Ok (hit, lines, ab') /\
       (distinct (p_guesses self) -> distinct (p_guesses self'))).
Proof.
  intros _ Hg. unfold input_guess.
  destruct (input_guess_loop_cases (List.length inp) self ab inp out)
    as [-> | (gs & inp1 & out1 & -> & Hon & Hnew)].
  { split; [intros e; discriminate | intros ? ? ? ? E; discriminate]. }
  cbn [bind]. pose proof Hon as Hb. apply on_board_iff in Hb. destruct Hb as [Hb _].
  destruct (Player_check_guess_Ok ab gs Hg Hb) as (g & _ & E).
  assert (K : exists hit lines ab', Player_check_guess ab gs = Ok (hit, lines, ab')).
  { rewrite E. destruct (find_hit gs (content ab)) as [[[before ship] after]|]; [|eauto].
    destruct (remove_first gs (valid ship)); eauto. }
  destruct K as (hit & lines & ab1 & K). rewrite K. cbn [bind].
  split; [intros e; discriminate|].
  intros self' ab' inp' out' R. inversion R; subst.
  exists gs, hit, lines. cbn [p_guesses p_board set_p_guesses].
  repeat split; try assumption. intro Hd. apply distinct_snoc; assumption.
Qed.

Lemma input_guess_never_repeats_witness :
  exists self' ab' inp' out',
    input_guess {| p_board := empty_board; p_guesses := [mkPoint 2 3 2] |} board_c3
                ["C3"; "D3"; "A1"]%string []
    = Ok (self', ab', inp', out') /\
    p_guesses self' = [mkPoint 2 3 2; mkPoint 3 3 1].
Proof.
  assert (E : exists self' ab' inp' out',
             input_guess {| p_board := empty_board; p_guesses := [mkPoint 2 3 2] |} board_c3
                         ["C3"; "D3"; "A1"]%string []
             = Ok (self', ab', inp', out')).
  { vm_compute. eexists; eexists; eexists; eexists. reflexivity. }
  destruct E as (self' & ab' & inp' & out' & E). exists self', ab', inp', out'.
  split; [exact E|].
  assert (H : Forall ascii_text ["C3"; "D3"; "A1"]%string) by (repeat constructor; cbn; lia).
  destruct (proj2 (input_guess_never_repeats _ board_c3 _ [] H
                     (grid_ok_reachable _ (reach_place _ _ _ _ (reach_new 1 "Player"))))
              self' ab' inp' out' E) as (gs & hit & lines & _ & _ & G & _).
  vm_compute in E. injection E as <- _ _ _. reflexivity.
Defined.
(** ** The margin the player's placements keep *)

Lemma place_ship_as_Ship_init (b : Board) (point : Point) (d : string) (order : Z) :
  place_ship b point d order
  = Ship_init b point (if order >? 5 then "down"%string else d) (fst (class_of_order order)) /\
  lookup (fst (class_of_order order)) length_table = Some (snd (class_of_order order)).
Proof.
  unfold place_ship, class_of_order. rewrite !Z.gtb_ltb.
  destruct (Z.ltb_spec 5 order); [split; reflexivity|].
  destruct (Z.ltb_spec order 6); [|lia]. cbn [andb].
  destruct (Z.ltb_spec 2 order); [split; reflexivity|].
  destruct (Z.eqb_spec order 1); [|destruct (Z.eqb_spec order 2)]; cbn [orb];
    destruct (Z.ltb_spec 0 order); try lia; split; reflexivity.
Qed.

Lemma extension_out_margin (b : Board) (point : Point) (d : string) (len : Z) :
  on_board b point -> str_in d direct = true -> 1 <= len ->
  extension_out b point d (Some len)
  = Ok (negb (in_bounds b (x point + len * fst (step d)) (y point + len * snd (step d)))).
Proof.
  intros Hp Hd Hl. apply on_board_inv in Hp. destruct Hp as (Hx & Hy & _).
  unfold extension_out, in_bounds.
  destruct (direct_cases d Hd) as [-> | [-> | [-> | ->]]];
    cbn [String.eqb Ascii.eqb Bool.eqb read_local bind step fst snd];
    rewrite ?Z.geb_leb;
    repeat match goal with
           | |- context [?a <=? ?c] => destruct (Z.leb_spec a c); try lia
           | |- context [?a <? ?c] => destruct (Z.ltb_spec a c); try lia
           end; reflexivity.
Qed.

Lemma computed_within (b : Board) (point : Point) (d : string) (len : nat) (k : Z) :
  on_board b point -> str_in d direct = true -> Z.of_nat len - 1 <= k ->
  in_bounds b (x point + k * fst (step d)) (y point + k * snd (step d)) = true ->
  forall c, In c (computed point d len) -> in_bounds b (fst c) (snd c) = true.
Proof.
  intros Hp Hd Hk Hin c Hc. pose proof (on_board_inv b point Hp) as (Hx & Hy & _).
  apply computed_in in Hc. destruct Hc as (n & Hn & ->). cbn [fst snd].
  apply in_bounds_iff in Hin. apply in_bounds_iff.
  destruct (direct_cases d Hd) as [-> | [-> | [-> | ->]]];
    cbn [step String.eqb Ascii.eqb Bool.eqb fst snd] in *; lia.
Qed.

(** X23.  The test of [Player.generate_fleet] that answers Extension Out of
    Bounds asks for one cell more than the Ship needs: for a Point of the
    Board, a direction and a Ship of [len] cells, it refuses exactly when
    the cell after the Ship's last cell is off the Board.  A placement it
    lets through has all its cells on the Board, so that [place_ship] cannot
    raise OOBError behind it; a Ship whose last cell would lie on the edge
    of the Board is refused although all its cells are on the Board. *)
Theorem extension_check_keeps_margin (b : Board) (point : Point) (d : string) (len : nat) :
  on_board b point -> str_in d direct = true -> (1 <= len)%nat ->
  exists refused,
    extension_out b point d (Some (Z.of_nat len)) = Ok refused /\
    (refused = false <->
     in_bounds b (x point + Z.of_nat len * fst (step d))
                 (y point + Z.of_nat len * snd (step d)) = true) /\
    (refused = false ->
     forall c, In c (computed point d len) -> in_bounds b (fst c) (snd c) = true) /\
    (in_bounds b (x point + (Z.of_nat len - 1) * fst (step d))
                 (y point + (Z.of_nat len - 1) * snd (step d)) = true ->
     forall c, In c (computed point d len) -> in_bounds b (fst c) (snd c) = true).
Proof.
  intros Hp Hd Hl. eexists. split; [apply extension_out_margin; [assumption .. | lia]|].
  split; [|split].
  - rewrite negb_false_iff. reflexivity.
  - rewrite negb_false_iff. apply computed_within; [assumption .. | lia].
  - apply computed_within; [assumption .. | lia].
Qed.

Lemma extension_check_keeps_margin_witness :
  extension_out empty_board (mkPoint 0 6 1) "down" (Some 4) = Ok true /\
  exists b' s, Ship_init empty_board (mkPoint 0 6 1) "down" "battleship" = (b', Ok s).
Proof.
  destruct (extension_check_keeps_margin empty_board (mkPoint 0 6 1) "down" 4)
    as (refused & E & R & _).
  - reflexivity.
  - reflexivity.
  - lia.
  - split; [|eexists; eexists; vm_compute; reflexivity].
    change (Z.of_nat 4) with 4 in E. rewrite E. f_equal.
    destruct refused; [reflexivity|].
    pose proof (proj1 R eq_refl) as H. vm_compute in H. discriminate H.
Defined.
(** ** The fleet of the player *)

Lemma place_ship_safe (b : Board) (point : Point) (d : string) (order : Z) :
  str_in (if order >? 5 then "down"%string else d) direct = true ->
  (forall c, In c (computed point (if order >? 5 then "down"%string else d)
                            (snd (class_of_order order))) ->
             in_bounds b (fst c) (snd c) = true) ->
  place_ship b point d order = (b, Raise OverlapError) \/
  exists b' s, place_ship b point d order = (b', Ok s) /\ one_more b b' order s /\
               (board_set_up b -> board_set_up b').
Proof.
  intros Hd Hin. destruct (place_ship_as_Ship_init b point d order) as [E Hk].
  destruct (Ship_init_three_ways b point _ _ _ Hk Hd)
    as [((c & Hc & Ho) & _) | [(_ & _ & E') | (_ & Hno & E')]].
  - rewrite (Hin c Hc) in Ho. discriminate.
  - left. congruence.
  - right. eexists. eexists. split; [rewrite E; exact E'|]. split.
    + split; [reflexivity|]. split; [apply built_ship_ok; assumption|].
      split; [reflexivity|]. split.
      * eapply place_ship_class. rewrite E. exact E'.
      * split; [reflexivity|]. intros old Ho Hok. apply placement_apart; try assumption.
        intros c Hc. split; [apply Hin | apply Hno]; assumption.
    + intro Hs.
      pose proof (set_up_place b point (if order >? 5 then "down"%string else d)
                    (fst (class_of_order order)) Hs) as H.
      rewrite E' in H. exact H.
Qed.

Lemma display_all_set_up (pts : list Point) (sym : string) (b b' : Board) :
  board_set_up b -> display_all b pts sym = Ok b' -> board_set_up b'.
Proof.
  revert b. induction pts as [|p pts IH]; intros b Hs E; cbn [display_all] in E.
  - inversion E; subst. exact Hs.
  - destruct (display b p sym) as [b1| |] eqn:D; cbn [bind] in E; try discriminate.
    eapply IH; [|exact E]. eapply set_up_display; eassumption.
Qed.

Lemma fleet_ok_same (b b' : Board) :
  same_frame b b' -> content b' = content b -> fleet_ok b -> fleet_ok b'.
Proof.
  intros F C [Hf Ho]. split; rewrite C; [|exact Ho].
  eapply Forall_impl; [|exact Hf]. intros s. apply ship_ok_frame, F.
Qed.

(** What showing a Ship that was just placed leaves. *)
Lemma show_placed_cells (b : Board) (s : Ship) :
  grid_ok b -> ship_ok b s ->
  exists b',
    show_placed b s = Ok b' /\ grid_ok b' /\ same_frame b b' /\ content b' = content b /\
    (board_set_up b -> board_set_up b') /\
    forall qx qy, in_bounds b qx qy = true ->
      cell b' qx qy = if point_in (mkPoint qx qy (ident b)) (ext s) then Ok (symbol s)
                      else if point_in (mkPoint qx qy (ident b)) (buffer s) then Ok "#"%string
                      else cell b qx qy.
Proof.
  intros Hg Hs. unfold show_placed, Ship_display, display_buffer.
  destruct (display_all_cells (ext s) (symbol s) b Hg) as (b1 & E1 & G1 & F1 & K1 & C1).
  { intros p Hp. eapply ship_ext_in_bounds; eassumption. }
  destruct (display_all_cells (buffer s) "#" b1 G1) as (b2 & E2 & G2 & F2 & K2 & C2).
  { intros p Hp. rewrite (in_bounds_frame b b1 _ _ F1).
    eapply ship_buffer_in_bounds; eassumption. }
  exists b2. rewrite E1. cbn [bind]. split; [exact E2|]. split; [exact G2|].
  split; [eapply same_frame_trans; eassumption|]. split; [congruence|]. split.
  - intro Hu. eapply display_all_set_up; [|exact E2]. eapply display_all_set_up; eassumption.
  - intros qx qy Hq. rewrite C2 by (rewrite (in_bounds_frame b b1 _ _ F1); exact Hq).
    rewrite C1 by exact Hq. destruct F1 as (Ei & _). rewrite Ei.
    destruct (point_in (mkPoint qx qy (ident b)) (ext s)) eqn:He; [|reflexivity].
    rewrite (ship_ext_not_buffer b s _ Hs He). reflexivity.
Qed.

Lemma announce_length (i : Z) (length : option Z) :
  i < 6 -> fst (announce i length) = Some (Z.of_nat (snd (class_of_order i))).
Proof.
  intro Hi. unfold announce, class_of_order. rewrite !Z.gtb_ltb.
  destruct (Z.ltb_spec 5 i); [lia|].
  destruct (Z.ltb_spec i 6); [|lia]. cbn [andb].
  destruct (Z.ltb_spec 2 i); [reflexivity|].
  destruct (Z.eqb_spec i 1); [|destruct (Z.eqb_spec i 2)]; cbn [orb];
    destruct (Z.ltb_spec 0 i); try lia; reflexivity.
Qed.

Lemma class_of_order_length (i : Z) : (1 <= snd (class_of_order i) <= 4)%nat.
Proof.
  unfold class_of_order.
  destruct (i >? 5); [cbn; lia|]. destruct (i >? 2); [cbn; lia|].
  destruct (i >? 0); cbn; lia.
Qed.

Lemma place_loop_cases (fuel : nat) (b : Board) (i : Z) (length : option Z)
                       (inp : list string) (out : list said) :
  grid_ok b ->
  (i < 6 -> length = Some (Z.of_nat (snd (class_of_order i)))) ->
  place_loop fuel b i length inp out = Starved \/
  exists b' s inp' out',
    place_loop fuel b i length inp out = Ok (b', inp', out') /\
    placed_and_shown b b' i s /\ (board_set_up b -> board_set_up b').
Proof.
  intros Hg Hlen. revert inp out. induction fuel as [|fuel IH]; intros inp out;
    cbn [place_loop];
    destruct (input_point_cases b inp out)
      as [-> | (sk & r & inp1 & lines & _ & _ & _ & _ & px & py & _ & Hin & ->)];
    cbn [bind]; auto.
  set (point := mkPoint px py (ident b)).
  assert (Hon : on_board b point) by (apply on_board_iff; split; [exact Hin | reflexivity]).
  destruct (isoverlap b point); [apply IH|].
  assert (Done : forall d inp2 out2,
             str_in (if i >? 5 then "down"%string else d) direct = true ->
             (forall c, In c (computed point (if i >? 5 then "down"%string else d)
                                       (snd (class_of_order i))) ->
                        in_bounds b (fst c) (snd c) = true) ->
             match place_ship b point d i with
             | (b0, Ok s) => b1 <- show_placed b0 s ;; Ok (b1, inp2, out2)
             | (b0, Raise OverlapError) => place_loop fuel b0 i length inp2 (out2 ++ [SOverlap])
             | (_, Raise e) => Raise e
             | (_, Starved) => Starved
             end = Starved \/
             exists b' s inp' out',
               match place_ship b point d i with
               | (b0, Ok s) => b1 <- show_placed b0 s ;; Ok (b1, inp2, out2)
               | (b0, Raise OverlapError) =>
                   place_loop fuel b0 i length inp2 (out2 ++ [SOverlap])
               | (_, Raise e) => Raise e
               | (_, Starved) => Starved
               end = Ok (b', inp', out') /\
               placed_and_shown b b' i s /\ (board_set_up b -> board_set_up b')).
  { intros d inp2 out2 Hd Hc.
    destruct (place_ship_safe b point d i Hd Hc) as [-> | (b1 & s & -> & H1 & Hu1)];
      [apply IH|].
    pose proof H1 as (Eb1 & Hs & _).
    assert (F1 : same_frame b b1) by (rewrite Eb1; repeat split).
    assert (G1 : grid_ok b1) by (rewrite Eb1; exact Hg).
    destruct (show_placed_cells b1 s G1 (ship_ok_frame _ _ _ F1 Hs))
      as (b2 & E2 & _ & _ & _ & Hu2 & _).
    rewrite E2. cbn [bind]. right. exists b2, s, inp2, out2.
    split; [reflexivity|]. split; [exists b1; split; assumption | auto]. }
  destruct (Z.ltb_spec i 6) as [Hi | Hi].
  - destruct (input_direction_cases inp1 (out ++ lines))
      as [-> | (d & inp2 & out2 & -> & Hd & _)]; cbn [bind]; auto.
    pose proof (Hlen Hi) as El. subst length.
    pose proof (class_of_order_length i) as Hl.
    rewrite (extension_out_margin b point d _ Hon Hd) by lia.
    cbn [bind].
    destruct (in_bounds b (x point + Z.of_nat (snd (class_of_order i)) * fst (step d))
                          (y point + Z.of_nat (snd (class_of_order i)) * snd (step d)))
      eqn:Hm; cbn [negb]; [|apply IH].
    assert (Hi5 : (i >? 5) = false) by (rewrite Z.gtb_ltb; apply Z.ltb_ge; lia).
    apply Done; rewrite Hi5; [exact Hd|].
    eapply computed_within; [exact Hon | exact Hd | | exact Hm]. lia.
  - assert (Hi5 : (i >? 5) = true) by (rewrite Z.gtb_ltb; apply Z.ltb_lt; lia).
    apply (Done "down"%string); rewrite Hi5; [reflexivity|].
    unfold class_of_order. rewrite Hi5. cbn [snd].
    intros c [<- | []]. cbn [fst snd]. rewrite !Z.mul_0_l, !Z.add_0_r. exact Hin.
Qed.

Lemma cell_set_content (b : Board) (c : list Ship) (qx qy : Z) :
  cell (set_content b c) qx qy = cell b qx qy.
Proof. reflexivity. Qed.

Lemma placed_and_shown_facts (b b' : Board) (i : Z) (s : Ship) :
  grid_ok b -> placed_and_shown b b' i s ->
  grid_ok b' /\ same_frame b b' /\ content b' = content b ++ [s] /\
  ship_ok b s /\ valid s = ext s /\
  (kind s, List.length (ext s)) = class_of_order i /\
  symbol s = symbol_of_kind (kind s) /\
  (forall old, In old (content b) -> ship_ok b old -> apart old s) /\
  forall qx qy, in_bounds b qx qy = true ->
    cell b' qx qy = if point_in (mkPoint qx qy (ident b)) (ext s) then Ok (symbol s)
                    else if point_in (mkPoint qx qy (ident b)) (buffer s) then Ok "#"%string
                    else cell b qx qy.
Proof.
  intros Hg (b1 & (-> & Hs & Hv & Hc & Hy & Ha) & E).
  destruct (show_placed_cells (set_content b (content b ++ [s])) s Hg Hs)
    as (b2 & E2 & G2 & F2 & K2 & _ & C2).
  rewrite E in E2. injection E2 as <-.
  split; [exact G2|]. split; [exact F2|]. split; [exact K2|].
  repeat (split; [assumption|]). exact C2.
Qed.

Lemma ordered_in {A : Type} (R : A -> A -> Prop) (l : list A) (a c : A) :
  (forall u v, R u v -> R v u) -> ForallOrdPairs R l ->
  In a l -> In c l -> a = c \/ R a c.
Proof.
  intros Hsym Ho Ha Hc.
  destruct (In_nth_error _ _ Ha) as (n & Hn). destruct (In_nth_error _ _ Hc) as (m & Hm).
  destruct (Nat.eq_dec n m) as [-> | N]; [left; congruence|].
  right. eapply ordered_nth; eassumption.
Qed.

Lemma fleet_ext_not_buffer (b : Board) (s s' : Ship) (q : Point) :
  fleet_ok b -> In s (content b) -> In s' (content b) ->
  point_in q (ext s) = true -> point_in q (buffer s') = false.
Proof.
  intros Hf Hs Hs' Hq. pose proof (fleet_ok_ship b s Hf Hs) as Hok.
  destruct Hf as [_ Ho].
  destruct (ordered_in apart (content b) s s' apart_sym Ho Hs Hs') as [<- | [[_ H] _]].
  - eapply ship_ext_not_buffer; eassumption.
  - eapply disjoint_by_coordinates; eassumption.
Qed.

Lemma shows_fleet_round (b b' : Board) (i : Z) (s : Ship) :
  grid_ok b -> fleet_ok b -> shows_fleet true b -> placed_and_shown b b' i s ->
  grid_ok b' /\ fleet_ok b' /\ shows_fleet true b'.
Proof.
  intros Hg Hf Hsh Hp. pose proof Hp as (b1 & H1 & _).
  pose proof (one_more_fleet_ok _ _ _ _ H1 Hf) as Hf1.
  destruct H1 as (Eb1 & _).
  destruct (placed_and_shown_facts b b' i s Hg Hp)
    as (Hg' & F & K & Hs & _ & _ & _ & Ha & C).
  assert (Hf' : fleet_ok b').
  { apply (fleet_ok_same b1 b'); [|rewrite K, Eb1; reflexivity | exact Hf1].
    rewrite Eb1. exact F. }
  split; [exact Hg'|]. split; [exact Hf'|].
  intros qx qy Hq. rewrite (in_bounds_frame b b' _ _ F) in Hq.
  pose proof F as (Ei & _). rewrite Ei, K, (C qx qy Hq).
  destruct (Hsh qx qy Hq) as [S1 S2]. split.
  - intros s0 Hs0 Hq0. apply in_app_or in Hs0. destruct Hs0 as [Hs0 | [<- | []]].
    + destruct (Ha s0 Hs0 (fleet_ok_ship b s0 Hf Hs0)) as [[D1 D2] _].
      rewrite (disjoint_by_coordinates _ _ _ D1 Hq0), (disjoint_by_coordinates _ _ _ D2 Hq0).
      apply S1; assumption.
    + rewrite Hq0. reflexivity.
  - intros Hno.
    assert (Hls : In s (content b ++ [s])) by (apply in_or_app; right; left; reflexivity).
    rewrite (Hno s Hls).
    destruct (point_in (mkPoint qx qy (ident b)) (buffer s)) eqn:Hb.
    + right. split; [reflexivity|]. split; [reflexivity|].
      exists s. split; [apply in_or_app; right; left; reflexivity | exact Hb].
    + destruct S2 as [W | (_ & M & s0 & Hs0 & Hb0)].
      * intros s0 Hs0. apply Hno. apply in_or_app. left. exact Hs0.
      * left. exact W.
      * right. split; [reflexivity|]. split; [exact M|].
        exists s0. split; [apply in_or_app; left; exact Hs0 | exact Hb0].
Qed.

Lemma fleet_shown_facts (orders : list Z) (b b' : Board) (ships : list Ship) :
  grid_ok b -> fleet_ok b -> shows_fleet true b -> fleet_shown orders b b' ships ->
  grid_ok b' /\ fleet_ok b' /\ shows_fleet true b' /\ same_frame b b' /\
  content b' = content b ++ ships /\
  map (fun s => (kind s, List.length (ext s))) ships = map class_of_order orders /\
  Forall (fun s => valid s = ext s /\ symbol s = symbol_of_kind (kind s)) ships.
Proof.
  revert b ships. induction orders as [|i orders IH]; intros b [|s ships] Hg Hf Hsh H;
    cbn [fleet_shown] in H; try contradiction.
  - subst b'. rewrite app_nil_r.
    split; [exact Hg|]. split; [exact Hf|]. split; [exact Hsh|].
    split; [apply same_frame_refl|]. split; [reflexivity|]. split; [reflexivity|].
    constructor.
  - destruct H as (b1 & H1 & H).
    destruct (shows_fleet_round b b1 i s Hg Hf Hsh H1) as (Hg1 & Hf1 & Hsh1).
    destruct (placed_and_shown_facts b b1 i s Hg H1)
      as (_ & F1 & K1 & _ & Hv & Hc & Hy & _).
    destruct (IH b1 ships Hg1 Hf1 Hsh1 H) as (Hg' & Hf' & Hsh' & F' & K' & Hm & Ha).
    split; [exact Hg'|]. split; [exact Hf'|]. split; [exact Hsh'|].
    split; [eapply same_frame_trans; eassumption|].
    split; [rewrite K', K1, <- app_assoc; reflexivity|].
    split; [cbn [map]; congruence|]. constructor; [split; assumption | exact Ha].
Qed.

Lemma place_fleet_cases (orders : list Z) (b : Board) (length : option Z)
                        (inp : list string) (out : list said) :
  grid_ok b -> fleet_ok b -> shows_fleet true b ->
  place_fleet orders b length inp out = Starved \/
  exists b' ships inp' out',
    place_fleet orders b length inp out = Ok (b', inp', out') /\
    fleet_shown orders b b' ships /\ (board_set_up b -> board_set_up b').
Proof.
  revert b length inp out. induction orders as [|i orders IH];
    intros b length inp out Hg Hf Hsh.
  - right. exists b, [], inp, out.
    split; [reflexivity|]. split; [reflexivity | auto].
  - cbn [place_fleet]. pose proof (announce_length i length) as Hl.
    destruct (announce i length) as [length1 line]. cbn [fst] in Hl.
    destruct (place_loop_cases (List.length inp) b i length1 inp
                ((out ++ [SBoard b]) ++ [line]) Hg Hl)
      as [-> | (b1 & s & inp1 & out1 & -> & H1 & Hu1)]; [left; reflexivity|].
    cbn [bind].
    destruct (shows_fleet_round b b1 i s Hg Hf Hsh H1) as (Hg1 & Hf1 & Hsh1).
    destruct (IH b1 length1 inp1 out1 Hg1 Hf1 Hsh1)
      as [-> | (b' & ships & inp' & out' & -> & H & Hu)]; [left; reflexivity|].
    right. exists b', (s :: ships), inp', out'. split; [reflexivity|].
    split; [exists b1; split; assumption | auto].
Qed.

(** Hiding the marks. *)
Lemma hide_buffers_cells (ships : list Ship) (b : Board) :
  grid_ok b -> Forall (ship_ok b) ships ->
  exists b',
    hide_buffers b ships = Ok b' /\ grid_ok b' /\ same_frame b b' /\
    content b' = content b /\ (board_set_up b -> board_set_up b') /\
    forall qx qy, in_bounds b qx qy = true ->
      cell b' qx qy
      = if existsb (fun s => point_in (mkPoint qx qy (ident b)) (buffer s)) ships
        then Ok "~"%string else cell b qx qy.
Proof.
  revert b. induction ships as [|s ships IH]; intros b Hg Hs.
  - exists b. cbn [hide_buffers existsb].
    split; [reflexivity|]. split; [exact Hg|]. split; [apply same_frame_refl|].
    split; [reflexivity|]. split; [auto|]. reflexivity.
  - inversion Hs as [|s0 l0 Hs1 Hs2]; subst.
    destruct (display_all_cells (buffer s) "~" b Hg) as (b1 & E1 & G1 & F1 & K1 & C1).
    { intros p Hp. eapply ship_buffer_in_bounds; eassumption. }
    destruct (IH b1 G1) as (b2 & E2 & G2 & F2 & K2 & U2 & C2).
    { eapply Forall_impl; [|exact Hs2]. intros s0. apply ship_ok_frame, F1. }
    exists b2. cbn [hide_buffers]. unfold display_buffer. rewrite E1. cbn [bind].
    split; [exact E2|]. split; [exact G2|].
    split; [eapply same_frame_trans; eassumption|]. split; [congruence|]. split.
    + intro Hu. apply U2. eapply display_all_set_up; eassumption.
    + intros qx qy Hq. rewrite C2 by (rewrite (in_bounds_frame b b1 _ _ F1); exact Hq).
      rewrite C1 by exact Hq. destruct F1 as (Ei & _). rewrite Ei. cbn [existsb].
      destruct (existsb _ ships); [rewrite orb_true_r; reflexivity|].
      rewrite orb_false_r. reflexivity.
Qed.

Lemma shows_fleet_hidden (b : Board) :
  grid_ok b -> fleet_ok b -> shows_fleet true b ->
  exists b',
    hide_buffers b (content b) = Ok b' /\ grid_ok b' /\ same_frame b b' /\
    content b' = content b /\ (board_set_up b -> board_set_up b') /\
    shows_fleet false b'.
Proof.
  intros Hg Hf Hsh. pose proof Hf as [Hok _].
  destruct (hide_buffers_cells (content b) b Hg Hok) as (b' & E & G & F & K & U & C).
  exists b'. repeat (split; [assumption|]).
  intros qx qy Hq. rewrite (in_bounds_frame b b' _ _ F) in Hq.
  pose proof F as (Ei & _). rewrite Ei, K, (C qx qy Hq).
  destruct (Hsh qx qy Hq) as [S1 S2]. split.
  - intros s Hs Hqs.
    replace (existsb _ (content b)) with false; [apply S1; assumption|].
    symmetry. apply existsb_false_iff. intros s' Hs'.
    apply (fleet_ext_not_buffer b s s' _ Hf Hs Hs' Hqs).
  - intro Hno. left.
    destruct (existsb (fun s => point_in (mkPoint qx qy (ident b)) (buffer s)) (content b))
      eqn:Hb; [reflexivity|].
    destruct (S2 Hno) as [W | (_ & _ & s0 & Hs0 & Hb0)]; [exact W|].
    rewrite existsb_false_iff in Hb. rewrite (Hb s0 Hs0) in Hb0. discriminate.
Qed.

Lemma cell_new (id : nat) (nm : string) (qx qy : Z) :
  in_bounds (Board_init id nm) qx qy = true -> cell (Board_init id nm) qx qy = Ok "~"%string.
Proof.
  intro H. apply in_bounds_iff in H. cbn [width height Board_init] in H.
  assert (Cx : qx = 0 \/ qx = 1 \/ qx = 2 \/ qx = 3 \/ qx = 4 \/
               qx = 5 \/ qx = 6 \/ qx = 7 \/ qx = 8 \/ qx = 9) by lia.
  assert (Cy : qy = 0 \/ qy = 1 \/ qy = 2 \/ qy = 3 \/ qy = 4 \/
               qy = 5 \/ qy = 6 \/ qy = 7 \/ qy = 8 \/ qy = 9) by lia.
  destruct Cx as [-> | [-> | [-> | [-> | [-> | [-> | [-> | [-> | [-> | ->]]]]]]]]];
    destruct Cy as [-> | [-> | [-> | [-> | [-> | [-> | [-> | [-> | [-> | ->]]]]]]]]];
    reflexivity.
Qed.

Lemma shows_fleet_new (id : nat) (nm : string) : shows_fleet true (Board_init id nm).
Proof.
  intros qx qy Hq. split; [intros s []|]. intros _. left. apply cell_new, Hq.
Qed.

(** What [Player.generate_fleet] does on a new Board. *)
Lemma Player_generate_fleet_cases (self : Player) (id : nat) (nm : string)
                                  (inp : list string) (out : list said) :
  p_board self = Board_init id nm ->
  Player_generate_fleet self inp out = Starved \/
  exists b' ships inp' out',
    Player_generate_fleet self inp out = Ok (set_p_board self b', inp', out') /\
    content b' = ships /\
    map (fun s => (kind s, List.length (ext s))) ships = map class_of_order (range 10) /\
    Forall (fun s => valid s = ext s /\ symbol s = symbol_of_kind (kind s)) ships /\
    grid_ok b' /\ fleet_ok b' /\ board_set_up b' /\ same_frame (Board_init id nm) b' /\
    shows_fleet false b'.
Proof.
  intro Eb. unfold Player_generate_fleet. rewrite Eb.
  destruct (place_fleet_cases (range 10) (Board_init id nm) None inp out
              (grid_ok_new id nm) (fleet_ok_new id nm) (shows_fleet_new id nm))
    as [-> | (b1 & ships & inp1 & out1 & -> & H & U)]; [left; reflexivity|].
  cbn [bind].
  destruct (fleet_shown_facts _ _ _ _ (grid_ok_new id nm) (fleet_ok_new id nm)
              (shows_fleet_new id nm) H) as (G1 & F1 & S1 & Fr1 & K1 & Hm & Hv).
  destruct (shows_fleet_hidden b1 G1 F1 S1) as (b2 & -> & G2 & Fr2 & K2 & U2 & S2).
  cbn [bind]. right. exists b2, ships, inp1, out1.
  split; [reflexivity|]. split; [rewrite K2, K1; reflexivity|].
  split; [exact Hm|]. split; [exact Hv|]. split; [exact G2|].
  split; [eapply fleet_ok_same; eassumption|].
  split; [apply U2, U, set_up_new|].
  split; [eapply same_frame_trans; eassumption | exact S2].
Qed.

(** X24.  [Player.generate_fleet] on a new Board, with ASCII responses,
    raises nothing: the tests before [place_ship] leave it OverlapError as
    the only exception it can raise, and that one is caught.  When it
    returns, the Board holds ten Ships in the order Battleship, two
    Cruisers, three Destroyers, four Submarines, none of them hit, twenty
    cells in all, no two of them touching; the player's guesses are as they
    were; and the Board is one a game of the engine can start on. *)
Theorem Player_generate_fleet_places_fleet (self : Player) (id : nat) (nm : string)
                                           (inp : list string) (out : list said) :
  p_board self = Board_init id nm -> Forall ascii_text inp ->
  (forall e, Player_generate_fleet self inp out <> Raise e) /\
  (forall self' inp' out',
     Player_generate_fleet self inp out = Ok (self', inp', out') ->
     p_guesses self' = p_guesses self /\
     map (fun s => (kind s, List.length (ext s))) (content (p_board self'))
     = [("battleship", 4); ("cruiser", 3); ("cruiser", 3);
        ("destroyer", 2); ("destroyer", 2); ("destroyer", 2);
        ("submarine", 1); ("submarine", 1); ("submarine", 1); ("submarine", 1)]%string%nat /\
     Forall (fun s => valid s = ext s) (content (p_board self')) /\
     afloat_cells (p_board self') = 20%nat /\
     fleet_ok (p_board self') /\
     forall aid anm, game_reachable (AI_init aid anm) (p_board self')).
Proof.
  intros Eb _.
  destruct (Player_generate_fleet_cases self id nm inp out Eb)
    as [-> | (b' & ships & inp1 & out1 & -> & K & Hm & Hv & _ & Hf & Hu & _ & _)].
  { split; [intros e; discriminate | intros ? ? ? E; discriminate]. }
  split; [intros e; discriminate|].
  intros self' inp' out' E. inversion E; subst. clear E.
  cbn [p_guesses p_board set_p_board].
  assert (Hv' : Forall (fun s => valid s = ext s) (content b')).
  { eapply Forall_impl; [|exact Hv]. intros s [H _]. exact H. }
  split; [reflexivity|]. split; [exact Hm|]. split; [exact Hv'|].
  split; [|split; [exact Hf | intros aid anm; apply game_start, Hu]].
  unfold afloat_cells. rewrite (valid_cells_sum _ Hv'), Hm. reflexivity.
Qed.

Lemma Player_generate_fleet_places_fleet_witness :
  exists self' out',
    Player_generate_fleet new_player
      fleet_responses []
    = Ok (self', [], out') /\
    afloat_cells (p_board self') = 20%nat.
Proof.
  assert (E : exists self' out',
             Player_generate_fleet new_player
               fleet_responses []
             = Ok (self', [], out')).
  { vm_compute. eexists. eexists. reflexivity. }
  destruct E as (self' & out' & E). exists self', out'. split; [exact E|].
  assert (H : Forall ascii_text fleet_responses) by (repeat constructor; cbn; lia).
  destruct (proj2 (Player_generate_fleet_places_fleet new_player 1 "Player" _ [] eq_refl H)
              self' [] out' E) as (_ & _ & _ & C & _).
  exact C.
Defined.

(** X25.  When [Player.generate_fleet] returns, the grid shows the fleet and
    nothing else: every cell a Ship occupies reads as the symbol of the
    Ship's kind, B, C, D or S, and every other cell of the Board reads as
    water; no mark of a buffer is left. *)
Theorem Player_generate_fleet_shows_fleet (self self' : Player) (id : nat) (nm : string)
                                          (inp inp' : list string) (out out' : list said) :
  p_board self = Board_init id nm -> Forall ascii_text inp ->
  Player_generate_fleet self inp out = Ok (self', inp', out') ->
  forall qx qy, 0 <= qx < 10 -> 0 <= qy < 10 ->
    (forall s, In s (content (p_board self')) ->
               point_in (mkPoint qx qy id) (ext s) = true ->
               cell (p_board self') qx qy = Ok (symbol_of_kind (kind s))) /\
    ((forall s, In s (content (p_board self')) ->
                point_in (mkPoint qx qy id) (ext s) = false) ->
     cell (p_board self') qx qy = Ok "~"%string).
Proof.
  intros Eb _ E qx qy Hx Hy.
  destruct (Player_generate_fleet_cases self id nm inp out Eb)
    as [S | (b' & ships & inp1 & out1 & E' & K & _ & Hv & _ & _ & _ & F & Hs)];
    [congruence|].
  rewrite E in E'. inversion E'; subst. clear E'. cbn [p_board set_p_board].
  destruct F as (Ei & Ew & Eh). cbn [ident width height Board_init] in Ei, Ew, Eh.
  assert (Hq : in_bounds b' qx qy = true) by (apply in_bounds_iff; lia).
  destruct (Hs qx qy Hq) as [S1 S2]. rewrite Ei in S1, S2. split.
  - intros s Hin Hqs. rewrite (S1 s Hin Hqs).
    rewrite Forall_forall in Hv. destruct (Hv s Hin) as [_ ->]. reflexivity.
  - intro Hno. destruct (S2 Hno) as [W | (A & _)]; [exact W | discriminate A].
Qed.

Lemma Player_generate_fleet_shows_fleet_witness :
  exists self' out',
    Player_generate_fleet new_player
      fleet_responses []
    = Ok (self', [], out') /\
    cell (p_board self') 4 0 = Ok "~"%string.
Proof.
  assert (E : exists self' out',
             Player_generate_fleet new_player
               fleet_responses []
             = Ok (self', [], out') /\
             forall s, In s (content (p_board self')) ->
                       point_in (mkPoint 4 0 1) (ext s) = false).
  { vm_compute. eexists. eexists. split; [reflexivity|].
    intros s H. repeat (destruct H as [<- | H]; [reflexivity|]). destruct H. }
  destruct E as (self' & out' & E & Hno). exists self', out'. split; [exact E|].
  assert (H : Forall ascii_text fleet_responses) by (repeat constructor; cbn; lia).
  apply (proj2 (Player_generate_fleet_shows_fleet new_player self' 1 "Player" _ [] [] out'
                  eq_refl H E 4 0 ltac:(lia) ltac:(lia))).
  exact Hno.
Defined.
(** ** A whole game *)

Lemma game_ok_ai_board (a : AI) (pb b : Board) :
  game_ok a pb -> game_ok (set_ai_board a b) pb.
Proof. intro H. exact H. Qed.

Lemma make_guess_ai_board (a a' : AI) (pb : Board) (rng rng' : list Z) (gs : Point) :
  make_guess a pb rng = Ok (gs, a', rng') -> ai_board a' = ai_board a.
Proof.
  unfold make_guess. intro E.
  destruct (guide a) as [|g0 grest].
  - destruct (combo a) as [|c0 crest] eqn:C.
    + destruct (random_guess a pb rng) as [[gs1 rng1]| |]; cbn [bind] in E; try discriminate.
      inversion E; subst. reflexivity.
    + apply bind_Ok_inv in E. destruct E as ([a1 rng1] & E1 & E).
      apply bind_Ok_inv in E. destruct E as ([gs2 a2] & E2 & E).
      inversion E; subst. clear E. cbn [ai_board set_guesses].
      assert (H1 : ai_board a1 = ai_board a).
      { destruct ((List.length (c0 :: crest) =? 1)%nat &&
                  match adj_guide a with [] => true | _ :: _ => false end).
        - apply bind_Ok_inv in E1. destruct E1 as (lh & _ & E1).
          apply bind_Ok_inv in E1. destruct E1 as (adj & _ & E1).
          apply bind_Ok_inv in E1. destruct E1 as (adj' & _ & E1).
          apply bind_Ok_inv in E1. destruct E1 as ([n rng2] & _ & E1).
          inversion E1; subst. reflexivity.
        - inversion E1; subst. reflexivity. }
      rewrite <- H1.
      destruct (List.length (combo a1) =? 1)%nat.
      * apply bind_Ok_inv in E2. destruct E2 as ([gs3 d] & _ & E2).
        inversion E2; subst. reflexivity.
      * destruct (List.length (combo a1) =? 2)%nat; [|discriminate].
        apply bind_Ok_inv in E2. destruct E2 as (h1 & _ & E2).
        apply bind_Ok_inv in E2. destruct E2 as (h2 & _ & E2).
        apply bind_Ok_inv in E2. destruct E2 as (line & _ & E2).
        apply bind_Ok_inv in E2. destruct E2 as (line' & _ & E2).
        apply bind_Ok_inv in E2. destruct E2 as ([gs3 d] & _ & E2).
        inversion E2; subst. reflexivity.
  - cbn [popleft bind] in E. inversion E; subst. reflexivity.
Qed.

Lemma AI_check_guess_ai_board (a a' : AI) (pb pb' : Board) (c : Point) (hit : bool)
                              (out : list printed) :
  AI_check_guess a pb c = Ok (hit, out, a', pb') -> ai_board a' = ai_board a.
Proof.
  unfold AI_check_guess. intro E.
  destruct (find_hit c (content pb)) as [[[before ship] after]|].
  - destruct (display pb c "X"); cbn [bind] in E; try discriminate.
    destruct (list_remove c (valid ship)) as [v| |]; cbn [bind] in E; try discriminate.
    cbn [valid set_valid] in E. destruct v; inversion E; subst; reflexivity.
  - destruct (display pb c " "); cbn [bind] in E; try discriminate.
    inversion E; subst. destruct (guide a); reflexivity.
Qed.

Lemma AI_guess_said_cases (a : AI) (pb : Board) (rng : list Z) (out : list said) :
  game_ok a pb ->
  AI_guess_said a pb rng out = Starved \/
  exists a' pb' rng' out',
    AI_guess_said a pb rng out = Ok (a', pb', rng', out') /\
    guess a pb rng = Ok (a', pb', rng') /\
    game_ok a' pb' /\ ai_board a' = ai_board a.
Proof.
  intro Hok. unfold AI_guess_said, guess.
  destruct (make_guess_progress a pb rng Hok) as [-> | (gs & a1 & rng1 & M & Hsel)];
    [left; reflexivity|].
  rewrite M. cbn [bind].
  pose proof Hok as (_ & Hg & _). pose proof Hsel as (_ & _ & Hon & _).
  apply on_board_iff in Hon. destruct Hon as [Hin _].
  destruct (AI_check_guess_Ok a1 pb gs Hg Hin) as (hit & lines & a2 & pb2 & K).
  rewrite K. cbn [bind]. right. exists a2, pb2, rng1, ((out ++ [SGuess (ai_name a1) gs]) ++ map SCheck lines).
  split; [reflexivity|]. split; [reflexivity|]. split.
  - eapply step_game_ok; eassumption.
  - rewrite (AI_check_guess_ai_board _ _ _ _ _ _ _ K). eapply make_guess_ai_board, M.
Qed.

Lemma input_guess_cases (self : Player) (ab : Board) (inp : list string) (out : list said) :
  grid_ok ab ->
  input_guess self ab inp out = Starved \/
  exists self' ab' inp' out' gs hit lines,
    input_guess self ab inp out = Ok (self', ab', inp', out') /\
    on_board ab gs /\ point_in gs (p_guesses self) = false /\
    self' = set_p_guesses self (p_guesses self ++ [gs]) /\
    Player_check_guess ab gs = Ok (hit, lines, ab') /\ grid_ok ab'.
Proof.
  intros Hg. unfold input_guess.
  destruct (input_guess_loop_cases (List.length inp) self ab inp out)
    as [-> | (gs & inp1 & out1 & -> & Hon & Hnew)]; [left; reflexivity|].
  cbn [bind]. pose proof Hon as Hb. apply on_board_iff in Hb. destruct Hb as [Hb _].
  destruct (Player_check_guess_Ok ab gs Hg Hb) as (g & _ & E).
  assert (K : exists hit lines ab', Player_check_guess ab gs = Ok (hit, lines, ab')).
  { rewrite E. destruct (find_hit gs (content ab)) as [[[before ship] after]|]; [|eauto].
    destruct (remove_first gs (valid ship)); eauto. }
  destruct K as (hit & lines & ab1 & K). rewrite K. cbn [bind].
  right. exists (set_p_guesses self (p_guesses self ++ [gs])), ab1, inp1,
           (out1 ++ map SCheck lines), gs, hit, lines.
  split; [reflexivity|]. split; [exact Hon|]. split; [exact Hnew|].
  split; [reflexivity|]. split; [exact K|].
  eapply Player_check_guess_grid; eassumption.
Qed.

Lemma input_line_cases (inp : list string) :
  input_line inp = Starved \/ exists r inp', input_line inp = Ok (r, inp').
Proof. destruct inp as [|r inp]; [left | right; exists r, inp]; reflexivity. Qed.

Lemma rounds_cases (fuel : nat) (iteration : Z) (ai : AI) (player : Player)
                   (inp : list string) (rng : list Z) (out : list said) :
  grid_ok (ai_board ai) -> game_ok ai (p_board player) ->
  rounds fuel iteration ai player inp rng out = Starved \/
  exists e ai' player' inp' rng' out',
    rounds fuel iteration ai player inp rng out = Ok (e, ai', player', inp', rng', out') /\
    match e with
    | Won => content (ai_board ai') = []
    | Lost => content (p_board player') = [] /\ content (ai_board ai') <> []
    end.
Proof.
  revert iteration ai player inp rng out.
  induction fuel as [|fuel IH]; intros iteration ai player inp rng out Hg Hok;
    cbn [rounds].
  { destruct (input_line_cases inp) as [-> | (r & inp' & ->)]; left; reflexivity. }
  destruct (input_guess_cases player (ai_board ai) inp
              (out ++ [SRound (iteration + 1); SBoard (ai_board ai)]) Hg)
    as [-> | (player1 & ab1 & inp1 & out1 & gs & hit & lines & -> & _ & _ & Ep & _ & Hg1)];
    [left; reflexivity|].
  cbn [bind].
  destruct (input_line_cases inp1) as [-> | (r1 & inp2 & ->)]; [left; reflexivity|].
  cbn [bind ai_board set_ai_board].
  destruct (content ab1) as [|s0 rest] eqn:Ec; cbn [List.length Nat.eqb].
  { right. eexists _, _, _, _, _, _. split; [reflexivity|]. exact Ec. }
  assert (Hok1 : game_ok (set_ai_board ai ab1) (p_board player1)).
  { rewrite Ep. exact Hok. }
  destruct (AI_guess_said_cases (set_ai_board ai ab1) (p_board player1) rng out1 Hok1)
    as [-> | (ai2 & pb2 & rng2 & out2 & -> & _ & Hok2 & Eb2)]; [left; reflexivity|].
  cbn [bind].
  destruct (input_line_cases inp2) as [-> | (r2 & inp3 & ->)]; [left; reflexivity|].
  cbn [bind p_board set_p_board].
  cbn [ai_board set_ai_board] in Eb2.
  destruct (content pb2) as [|p0 prest] eqn:Ec2; cbn [List.length Nat.eqb].
  { right. eexists _, _, _, _, _, _. split; [reflexivity|].
    cbn [p_board set_p_board]. split; [exact Ec2|]. rewrite Eb2, Ec. discriminate. }
  apply IH.
  - rewrite Eb2. exact Hg1.
  - exact Hok2.
Qed.

Lemma AI_generate_fleet_cases (aid : nat) (nm : string) (rng : list Z) :
  AI_generate_fleet (AI_init aid nm) rng = Starved \/
  exists ships rng',
    AI_generate_fleet (AI_init aid nm) rng
    = Ok (set_ai_board (AI_init aid nm) (set_content (Board_init aid nm) ships), rng').
Proof.
  unfold AI_generate_fleet. cbn [ai_board AI_init].
  destruct (rand_fleet_cases (range 10) (Board_init aid nm) rng eq_refl eq_refl)
    as [-> | (b' & ships & rng1 & -> & H)]; [left; reflexivity|].
  cbn [bind]. apply fleet_added_content in H. destruct H as (-> & _).
  right. exists ships, rng1. reflexivity.
Qed.

Lemma play_loop_cases (aid pid : nat) (inp : list string) (rng : list Z) (out : list said) :
  play_loop aid pid inp rng out = Starved \/
  exists e ai' player' inp' rng' out',
    play_loop aid pid inp rng out = Ok (e, ai', player', inp', rng', out') /\
    match e with
    | Won => content (ai_board ai') = []
    | Lost => content (p_board player') = [] /\ content (ai_board ai') <> []
    end.
Proof.
  unfold play_loop.
  destruct (AI_generate_fleet_cases aid "Opponent" rng) as [-> | (ships & rng1 & ->)];
    [left; reflexivity|].
  cbn [bind]. unfold Player_init.
  destruct (input_line_cases inp) as [-> | (nm & inp1 & ->)]; [left; reflexivity|].
  cbn [bind].
  destruct (Player_generate_fleet_cases
              {| p_board := Board_init pid nm; p_guesses := [] |} pid nm inp1 out eq_refl)
    as [-> | (b' & pships & inp2 & out2 & -> & _ & _ & _ & _ & _ & Hu & _ & _)];
    [left; reflexivity|].
  cbn [bind]. apply rounds_cases.
  - cbn [ai_board set_ai_board]. apply grid_ok_new.
  - cbn [p_board set_p_board].
    apply (game_ok_start aid "Opponent" b' Hu).
Qed.

(** X26.  A game, [play_loop], raises nothing, whatever the player types in
    ASCII and whatever the random numbers are: neither placing the two
    fleets nor any guess of either side nor checking it.  When it ends with
    Winner! the engine's Board has no Ship left; when it ends with You Lose
    the player's Board has no Ship left and the engine's Board still has
    one. *)
Theorem play_loop_never_raises (aid pid : nat) (inp : list string) (rng : list Z)
                               (out : list said) :
  Forall ascii_text inp ->
  (forall e, play_loop aid pid inp rng out <> Raise e) /\
  (forall e ai' player' inp' rng' out',
     play_loop aid pid inp rng out = Ok (e, ai', player', inp', rng', out') ->
     match e with
     | Won => content (ai_board ai') = []
     | Lost => content (p_board player') = [] /\ content (ai_board ai') <> []
     end).
Proof.
  intros _.
  destruct (play_loop_cases aid pid inp rng out)
    as [-> | (e & ai' & player' & inp' & rng' & out' & -> & H)].
  - split; [intros e; discriminate | intros ? ? ? ? ? ? E; discriminate].
  - split; [intros e0; discriminate|].
    intros e0 ai0 player0 inp0 rng0 out0 E. inversion E; subst. exact H.
Qed.

Lemma game_responses_ascii : Forall ascii_text game_responses.
Proof.
  unfold game_responses, fleet_responses, enter. cbn [app].
  repeat (constructor; [repeat constructor; cbn; lia|]). constructor.
Qed.

Lemma play_loop_never_raises_witness :
  exists ai' player' out',
    play_loop 2 1 game_responses game_draws [] = Ok (Won, ai', player', [], [], out') /\
    content (ai_board ai') = [].
Proof.
  assert (E : exists ai' player' out',
             play_loop 2 1 game_responses game_draws [] = Ok (Won, ai', player', [], [], out')).
  { vm_compute. eexists. eexists. eexists. reflexivity. }
  destruct E as (ai' & player' & out' & E). exists ai', player', out'. split; [exact E|].
  exact (proj2 (play_loop_never_raises 2 1 game_responses game_draws []
                  game_responses_ascii) Won ai' player' [] [] out' E).
Defined.
(** ** The menu *)

Lemma lower_p (c : ascii) :
  Ascii.eqb "p" (if is_upper c then ascii_of_nat (nat_of_ascii c + 32) else c)
  = Ascii.eqb "p" c || Ascii.eqb "P" c.
Proof. destruct c as [[] [] [] [] [] [] [] []]; reflexivity. Qed.

Lemma lower_q (c : ascii) :
  Ascii.eqb "q" (if is_upper c then ascii_of_nat (nat_of_ascii c + 32) else c)
  = Ascii.eqb "q" c || Ascii.eqb "Q" c.
Proof. destruct c as [[] [] [] [] [] [] [] []]; reflexivity. Qed.

Lemma char_in_lower (t T : ascii) (opt : string) :
  (forall c, Ascii.eqb t (if is_upper c then ascii_of_nat (nat_of_ascii c + 32) else c)
             = Ascii.eqb t c || Ascii.eqb T c) ->
  char_in t (lower opt) = true <-> holds t opt \/ holds T opt.
Proof.
  intro H. unfold holds. induction opt as [|c opt IH]; cbn [lower char_in list_ascii_of_string In].
  - split; [discriminate | intros [[] | []]].
  - rewrite orb_true_iff, IH, H, orb_true_iff, !Ascii.eqb_eq.
    split; [intros [[-> | ->] | [K | K]] | intros [[-> | K] | [-> | K]]]; auto.
Qed.

Lemma menu_game (opt : string) :
  String.eqb opt "1" || char_in "p" (lower opt) = true <-> wants_game opt.
Proof.
  unfold wants_game. rewrite orb_true_iff, String.eqb_eq, (char_in_lower "p" "P" opt lower_p).
  reflexivity.
Qed.

Lemma menu_end (opt : string) :
  String.eqb opt "2" || char_in "q" (lower opt) = true <-> wants_end opt.
Proof.
  unfold wants_end. rewrite orb_true_iff, String.eqb_eq, (char_in_lower "q" "Q" opt lower_q).
  reflexivity.
Qed.

Lemma main_loop_cases (fuel fresh : nat) (inp : list string) (rng : list Z)
                      (out : list said) :
  main_loop fuel fresh inp rng out = Starved \/
  exists inp' rng' out', main_loop fuel fresh inp rng out = Ok (inp', rng', out').
Proof.
  revert fresh inp rng out. induction fuel as [|fuel IH]; intros fresh inp rng out;
    cbn [main_loop];
    destruct (input_line_cases inp) as [-> | (opt & inp1 & ->)]; cbn [bind]; auto.
  destruct (String.eqb opt "1" || char_in "p" (lower opt)).
  - destruct (play_loop_cases fresh (S fresh) inp1 rng (out ++ [SBanner; SMenu]))
      as [-> | (e & ai' & player' & inp2 & rng2 & out2 & -> & _)]; cbn [bind]; auto.
  - destruct (String.eqb opt "2" || char_in "q" (lower opt)); [|apply IH].
    right. eauto.
Qed.

(** X27.  The program, [main], raises nothing, whatever is typed in ASCII
    and whatever the random numbers are.  At the menu a response starts a
    game when it is 1 or has the letter p in it, in either case, whatever
    else it has; otherwise it ends the program when it is 2 or has the
    letter q in it; any other response shows the menu again. *)
Theorem main_never_raises (inp : list string) (rng : list Z) :
  Forall ascii_text inp ->
  (forall e, main inp rng <> Raise e) /\
  (forall fuel fresh opt rest out,
     (wants_game opt ->
      main_loop (S fuel) fresh (opt :: rest) rng out
      = '(_, _, _, inp', rng', out') <-
          play_loop fresh (S fresh) rest rng (out ++ [SBanner; SMenu]) ;;
        main_loop fuel (S (S fresh)) inp' rng' out') /\
     (~ wants_game opt -> wants_end opt ->
      main_loop (S fuel) fresh (opt :: rest) rng out
      = Ok (rest, rng, out ++ [SBanner; SMenu])) /\
     (~ wants_game opt -> ~ wants_end opt ->
      main_loop (S fuel) fresh (opt :: rest) rng out
      = main_loop fuel fresh rest rng (out ++ [SBanner; SMenu]))).
Proof.
  intros _. split.
  - intro e. unfold main.
    destruct (main_loop_cases (List.length inp) 0 inp rng [])
      as [-> | (inp' & rng' & out' & ->)]; discriminate.
  - intros fuel fresh opt rest out. cbn [main_loop input_line bind].
    pose proof (menu_game opt) as G. pose proof (menu_end opt) as E.
    destruct (String.eqb opt "1" || char_in "p" (lower opt)).
    + split; [reflexivity|]. split; intro N; exfalso; apply N, G; reflexivity.
    + split; [intro W; apply G in W; discriminate W|].
      destruct (String.eqb opt "2" || char_in "q" (lower opt)).
      * split; [reflexivity|]. intros _ N. exfalso. apply N, E. reflexivity.
      * split; [intros _ W; apply E in W; discriminate W | reflexivity].
Qed.

Lemma main_never_raises_witness :
  main ["maybe"; "quit"; "1"]%string []
  = Ok (["1"%string], [], [SBanner; SMenu; SBanner; SMenu]).
Proof.
  assert (H : Forall ascii_text ["maybe"; "quit"; "1"]%string)
    by (repeat constructor; cbn; lia).
  destruct (main_never_raises ["maybe"; "quit"; "1"]%string [] H) as (_ & M).
  unfold main. cbn [List.length].
  destruct (M 2%nat 0%nat "maybe"%string ["quit"; "1"]%string []) as (_ & _ & ->).
  - destruct (M 1%nat 0%nat "quit"%string ["1"%string] [SBanner; SMenu]) as (_ & -> & _).
    + reflexivity.
    + intros [E | [E | E]]; [discriminate E | |]; cbn in E;
        repeat (destruct E as [E | E]; [discriminate E|]); exact E.
    + right. left. cbn. left. reflexivity.
  - intros [E | [E | E]]; [discriminate E | |]; cbn in E;
      repeat (destruct E as [E | E]; [discriminate E|]); exact E.
  - intros [E | [E | E]]; [discriminate E | |]; cbn in E;
      repeat (destruct E as [E | E]; [discriminate E|]); exact E.
Defined.
(** ** Enough rounds *)

(** The loops of the console and of the engine's fleet are given as many
    rounds as their source of responses or of numbers is long.  Every
    round reads from the source, so more rounds change nothing. *)

Lemma input_point_shorter (b : Board) (inp inp' : list string) (out out' : list said)
                          (p : Point) :
  input_point b inp out = Ok (p, inp', out') -> (List.length inp' < List.length inp)%nat.
Proof.
  intro E.
  destruct (input_point_cases b inp out)
    as [S | (sk & r & inp1 & lines & -> & _ & _ & _ & px & py & _ & _ & E')]; [congruence|].
  rewrite E in E'. inversion E'; subst. rewrite length_app. cbn. lia.
Qed.

Lemma input_direction_shorter (inp inp' : list string) (out out' : list said) (d : string) :
  input_direction inp out = Ok (d, inp', out') -> (List.length inp' < List.length inp)%nat.
Proof.
  intro E. destruct (input_direction_cases inp out) as [S | (d1 & inp1 & out1 & E' & _ & L)];
    [congruence|].
  rewrite E in E'. inversion E'; subst. exact L.
Qed.

Lemma input_guess_loop_fuel (self : Player) (ab : Board) (fuel : nat)
                            (inp : list string) (out : list said) :
  (List.length inp <= fuel)%nat ->
  input_guess_loop (S fuel) self ab inp out = input_guess_loop fuel self ab inp out.
Proof.
  revert inp out. induction fuel as [|fuel IH]; intros inp out Hlen.
  - cbn [input_guess_loop].
    destruct (input_point ab inp out) as [[[p rest] o] | e |] eqn:E; try reflexivity.
    apply input_point_shorter in E. lia.
  - cbn [input_guess_loop].
    destruct (input_point ab inp out) as [[[p rest] o] | e |] eqn:E; try reflexivity.
    cbn [bind]. destruct (point_in p (p_guesses self)); [|reflexivity].
    apply input_point_shorter in E. apply IH. lia.
Qed.

Lemma rand_ship_draws_consumes (b : Board) (rng rng' : list Z) (p : Point) (d : string) :
  rand_ship_draws b rng = Ok (p, d, rng') -> List.length rng = (3 + List.length rng')%nat.
Proof.
  unfold rand_ship_draws. intro E.
  destruct (rand_point b rng) as [[p1 rng1]| |] eqn:E1; cbn [bind] in E; try discriminate.
  apply rand_point_consumes in E1.
  unfold rand_direction, randrange in E. cbn [Z.leb Z.compare] in E.
  destruct rng1 as [|r rng2]; cbn [bind] in E; try discriminate.
  destruct (py_nth _ (r mod 4)); cbn [bind] in E; try discriminate.
  inversion E; subst. cbn [List.length] in E1. lia.
Qed.

Lemma rand_ship_loop_fuel (order : Z) (fuel : nat) (b : Board) (rng : list Z) :
  (List.length rng <= 3 * fuel + 2)%nat ->
  rand_ship_loop (S fuel) b order rng = rand_ship_loop fuel b order rng.
Proof.
  revert b rng. induction fuel as [|fuel IH]; intros b rng Hlen.
  - cbn [rand_ship_loop].
    destruct (rand_ship_draws b rng) as [[[p d] rest] | e |] eqn:E; try reflexivity.
    apply rand_ship_draws_consumes in E. simpl in Hlen. lia.
  - cbn [rand_ship_loop].
    destruct (rand_ship_draws b rng) as [[[p d] rest] | e |] eqn:E; try reflexivity.
    cbn [bind]. apply rand_ship_draws_consumes in E.
    destruct (place_ship b p d order) as [b1 [s | e |]]; try reflexivity.
    destruct e; try reflexivity; apply IH; lia.
Qed.

Lemma place_loop_S (fuel : nat) (b : Board) (i : Z) (length : option Z)
                    (inp : list string) (out : list said) :
  place_loop (S fuel) b i length inp out
  = '(point, inp, out) <- input_point b inp out ;;
    if isoverlap b point
    then place_loop fuel b i length inp (out ++ [SOverlap])
    else if i <? 6 then
      '(direction, inp, out) <- input_direction inp out ;;
      refused <- extension_out b point direction length ;;
      if refused
      then place_loop fuel b i length inp (out ++ [SExtension])
      else
        match place_ship b point direction i with
        | (b, Ok s) => b <- show_placed b s ;; Ok (b, inp, out)
        | (b, Raise OverlapError) => place_loop fuel b i length inp (out ++ [SOverlap])
        | (_, Raise e) => Raise e
        | (_, Starved) => Starved
        end
    else
      match place_ship b point "down" i with
      | (b, Ok s) => b <- show_placed b s ;; Ok (b, inp, out)
      | (b, Raise OverlapError) => place_loop fuel b i length inp (out ++ [SOverlap])
      | (_, Raise e) => Raise e
      | (_, Starved) => Starved
      end.
Proof. reflexivity. Qed.

Lemma place_loop_fuel (i : Z) (length : option Z) (fuel : nat) (b : Board)
                      (inp : list string) (out : list said) :
  (List.length inp <= fuel)%nat ->
  place_loop (S fuel) b i length inp out = place_loop fuel b i length inp out.
Proof.
  revert b inp out. induction fuel as [|fuel IH]; intros b inp out Hlen.
  - cbn [place_loop].
    destruct (input_point b inp out) as [[[p rest] o] | e |] eqn:E; try reflexivity.
    apply input_point_shorter in E. lia.
  - rewrite (place_loop_S (S fuel)), (place_loop_S fuel).
    destruct (input_point b inp out) as [[[p rest] o] | e |] eqn:E; try reflexivity.
    cbn [bind]. apply input_point_shorter in E.
    destruct (isoverlap b p); [apply IH; lia|].
    destruct (i <? 6).
    + destruct (input_direction rest o) as [[[d rest1] o1] | e |] eqn:D; try reflexivity.
      cbn [bind]. apply input_direction_shorter in D.
      destruct (extension_out b p d length) as [[] | e |]; cbn [bind]; try reflexivity.
      * apply IH. lia.
      * destruct (place_ship b p d i) as [b1 [s | e |]]; try reflexivity.
        destruct e; try reflexivity. apply IH. lia.
    + destruct (place_ship b p "down" i) as [b1 [s | e |]]; try reflexivity.
      destruct e; try reflexivity. apply IH. lia.
Qed.

Lemma input_guess_loop_shorter (fuel : nat) (self self' : Player) (ab : Board)
                               (inp inp' : list string) (out out' : list said) (gs : Point) :
  input_guess_loop fuel self ab inp out = Ok (gs, self', inp', out') ->
  (List.length inp' < List.length inp)%nat.
Proof.
  revert inp out. induction fuel as [|fuel IH]; intros inp out E; cbn [input_guess_loop] in E;
    destruct (input_point ab inp out) as [[[p rest] o] | e |] eqn:P; cbn [bind] in E;
    try discriminate.
  apply input_point_shorter in P.
  destruct (point_in p (p_guesses self)).
  - apply IH in E. lia.
  - inversion E; subst. exact P.
Qed.

Lemma input_guess_shorter (self self' : Player) (ab ab' : Board)
                          (inp inp' : list string) (out out' : list said) :
  input_guess self ab inp out = Ok (self', ab', inp', out') ->
  (List.length inp' < List.length inp)%nat.
Proof.
  unfold input_guess. intro E.
  destruct (input_guess_loop (List.length inp) self ab inp out)
    as [[[[gs s1] inp1] out1] | e |] eqn:L; cbn [bind] in E; try discriminate.
  apply input_guess_loop_shorter in L.
  destruct (Player_check_guess ab gs) as [[[hit lines] ab1] | e |]; cbn [bind] in E;
    try discriminate.
  inversion E; subst. exact L.
Qed.

Lemma place_loop_shorter (i : Z) (length : option Z) (fuel : nat) (b b' : Board)
                         (inp inp' : list string) (out out' : list said) :
  place_loop fuel b i length inp out = Ok (b', inp', out') ->
  (List.length inp' < List.length inp)%nat.
Proof.
  revert b inp out. induction fuel as [|fuel IH]; intros b inp out E.
  - cbn [place_loop] in E.
    destruct (input_point b inp out) as [[[p rest] o] | e |]; cbn [bind] in E; discriminate.
  - rewrite place_loop_S in E.
    destruct (input_point b inp out) as [[[p rest] o] | e |] eqn:P; cbn [bind] in E;
      try discriminate.
    apply input_point_shorter in P.
    destruct (isoverlap b p); [apply IH in E; lia|].
    destruct (i <? 6).
    + destruct (input_direction rest o) as [[[d rest1] o1] | e |] eqn:D; cbn [bind] in E;
        try discriminate.
      apply input_direction_shorter in D.
      destruct (extension_out b p d length) as [[] | e |]; cbn [bind] in E; try discriminate.
      * apply IH in E. lia.
      * destruct (place_ship b p d i) as [b1 [s | e |]]; try discriminate.
        -- destruct (show_placed b1 s); cbn [bind] in E; try discriminate.
           inversion E; subst. lia.
        -- destruct e; try discriminate. apply IH in E. lia.
    + destruct (place_ship b p "down" i) as [b1 [s | e |]]; try discriminate.
      * destruct (show_placed b1 s); cbn [bind] in E; try discriminate.
        inversion E; subst. lia.
      * destruct e; try discriminate. apply IH in E. lia.
Qed.

Lemma place_fleet_shorter (orders : list Z) (b b' : Board) (length : option Z)
                          (inp inp' : list string) (out out' : list said) :
  place_fleet orders b length inp out = Ok (b', inp', out') ->
  (List.length inp' <= List.length inp)%nat.
Proof.
  revert b length inp out. induction orders as [|i orders IH]; intros b length inp out E;
    cbn [place_fleet] in E.
  - inversion E; subst. lia.
  - destruct (announce i length) as [length1 line].
    destruct (place_loop (List.length inp) b i length1 inp ((out ++ [SBoard b]) ++ [line]))
      as [[[b1 inp1] out1] | e |] eqn:L; cbn [bind] in E; try discriminate.
    apply place_loop_shorter in L. apply IH in E. lia.
Qed.

Lemma rounds_S (fuel : nat) (iteration : Z) (ai : AI) (player : Player)
               (inp : list string) (rng : list Z) (out : list said) :
  rounds (S fuel) iteration ai player inp rng out
  = '(player, ab, inp, out) <-
      input_guess player (ai_board ai) inp
        (out ++ [SRound (iteration + 1); SBoard (ai_board ai)]) ;;
    let ai := set_ai_board ai ab in
    '(_, inp) <- input_line inp ;;
    if (List.length (content (ai_board ai)) =? 0)%nat
    then Ok (Won, ai, player, inp, rng, out ++ [SWinner])
    else
      '(ai, pb, rng, out) <- AI_guess_said ai (p_board player) rng out ;;
      let player := set_p_board player pb in
      '(_, inp) <- input_line inp ;;
      if (List.length (content (p_board player)) =? 0)%nat
      then Ok (Lost, ai, player, inp, rng, out ++ [SBoard (p_board player); SLose])
      else rounds fuel (iteration + 1) ai player inp rng out.
Proof. reflexivity. Qed.

Lemma input_line_shorter (inp inp' : list string) (r : string) :
  input_line inp = Ok (r, inp') -> List.length inp = S (List.length inp').
Proof. destruct inp; intro E; inversion E; subst. reflexivity. Qed.

Lemma rounds_fuel (fuel : nat) (iteration : Z) (ai : AI) (player : Player)
                  (inp : list string) (rng : list Z) (out : list said) :
  (List.length inp <= fuel)%nat ->
  rounds (S fuel) iteration ai player inp rng out
  = rounds fuel iteration ai player inp rng out.
Proof.
  revert iteration ai player inp rng out.
  induction fuel as [|fuel IH]; intros iteration ai player inp rng out Hlen.
  - destruct inp; [reflexivity | cbn in Hlen; lia].
  - rewrite (rounds_S (S fuel)), (rounds_S fuel).
    destruct (input_guess player (ai_board ai) inp _)
      as [[[[p1 ab1] inp1] out1] | e |] eqn:G; try reflexivity.
    cbn [bind]. apply input_guess_shorter in G.
    destruct (input_line inp1) as [[r1 inp2] | e |] eqn:L1; try reflexivity.
    cbn [bind]. apply input_line_shorter in L1.
    destruct (List.length (content (ai_board (set_ai_board ai ab1))) =? 0)%nat;
      [reflexivity|].
    destruct (AI_guess_said _ _ _ _) as [[[[a2 pb2] rng2] out2] | e |]; try reflexivity.
    cbn [bind].
    destruct (input_line inp2) as [[r2 inp3] | e |] eqn:L2; try reflexivity.
    cbn [bind]. apply input_line_shorter in L2.
    destruct (List.length (content (p_board (set_p_board p1 pb2))) =? 0)%nat;
      [reflexivity|].
    apply IH. lia.
Qed.

Lemma rounds_shorter (fuel : nat) (iteration : Z) (ai ai' : AI) (player player' : Player)
                     (inp inp' : list string) (rng rng' : list Z) (out out' : list said)
                     (e : ending) :
  rounds fuel iteration ai player inp rng out = Ok (e, ai', player', inp', rng', out') ->
  (List.length inp' < List.length inp)%nat.
Proof.
  revert iteration ai player inp rng out.
  induction fuel as [|fuel IH]; intros iteration ai player inp rng out E.
  - cbn [rounds] in E. destruct (input_line inp) as [[r i1]| |]; discriminate.
  - rewrite rounds_S in E.
    destruct (input_guess player (ai_board ai) inp _)
      as [[[[p1 ab1] inp1] out1] | e0 |] eqn:G; cbn [bind] in E; try discriminate.
    apply input_guess_shorter in G.
    destruct (input_line inp1) as [[r1 inp2] | e0 |] eqn:L1; cbn [bind] in E;
      try discriminate.
    apply input_line_shorter in L1.
    destruct (List.length (content (ai_board (set_ai_board ai ab1))) =? 0)%nat.
    { inversion E; subst. lia. }
    destruct (AI_guess_said _ _ _ _) as [[[[a2 pb2] rng2] out2] | e0 |]; cbn [bind] in E;
      try discriminate.
    destruct (input_line inp2) as [[r2 inp3] | e0 |] eqn:L2; cbn [bind] in E;
      try discriminate.
    apply input_line_shorter in L2.
    destruct (List.length (content (p_board (set_p_board p1 pb2))) =? 0)%nat.
    { inversion E; subst. lia. }
    apply IH in E. lia.
Qed.

Lemma play_loop_shorter (aid pid : nat) (ai' : AI) (player' : Player)
                        (inp inp' : list string) (rng rng' : list Z) (out out' : list said)
                        (e : ending) :
  play_loop aid pid inp rng out = Ok (e, ai', player', inp', rng', out') ->
  (List.length inp' < List.length inp)%nat.
Proof.
  unfold play_loop. intro E.
  destruct (AI_generate_fleet _ rng) as [[a1 rng1] | e0 |]; cbn [bind] in E; try discriminate.
  unfold Player_init in E.
  destruct (input_line inp) as [[nm inp1] | e0 |] eqn:L; cbn [bind] in E; try discriminate.
  apply input_line_shorter in L.
  unfold Player_generate_fleet in E.
  destruct (place_fleet _ _ _ inp1 out) as [[[b1 inp2] out2] | e0 |] eqn:F; cbn [bind] in E;
    try discriminate.
  apply place_fleet_shorter in F.
  destruct (hide_buffers b1 (content b1)); cbn [bind] in E; try discriminate.
  apply rounds_shorter in E. lia.
Qed.

Lemma main_loop_S (fuel fresh : nat) (inp : list string) (rng : list Z) (out : list said) :
  main_loop (S fuel) fresh inp rng out
  = '(opt, inp) <- input_line inp ;;
    if String.eqb opt "1" || char_in "p" (lower opt)
    then '(_, _, _, inp, rng, out) <-
           play_loop fresh (S fresh) inp rng (out ++ [SBanner; SMenu]) ;;
         main_loop fuel (S (S fresh)) inp rng out
    else if String.eqb opt "2" || char_in "q" (lower opt)
    then Ok (inp, rng, out ++ [SBanner; SMenu])
    else main_loop fuel fresh inp rng (out ++ [SBanner; SMenu]).
Proof. reflexivity. Qed.

Lemma main_loop_fuel (fuel fresh : nat) (inp : list string) (rng : list Z)
                     (out : list said) :
  (List.length inp <= fuel)%nat ->
  main_loop (S fuel) fresh inp rng out = main_loop fuel fresh inp rng out.
Proof.
  revert fresh inp rng out. induction fuel as [|fuel IH]; intros fresh inp rng out Hlen.
  - destruct inp; [reflexivity | cbn in Hlen; lia].
  - rewrite (main_loop_S (S fuel)), (main_loop_S fuel).
    destruct (input_line inp) as [[opt inp1] | e |] eqn:L; try reflexivity.
    cbn [bind]. apply input_line_shorter in L.
    destruct (String.eqb opt "1" || char_in "p" (lower opt)).
    + destruct (play_loop fresh (S fresh) inp1 rng _)
        as [[[[[[e1 a1] p1] inp2] rng2] out2] | e |] eqn:P; try reflexivity.
      cbn [bind]. apply play_loop_shorter in P. apply IH. lia.
    + destruct (String.eqb opt "2" || char_in "q" (lower opt)); [reflexivity|].
      apply IH. lia.
Qed.
